(* ===== verification/_CoqProject ===== *)
-Q . S2P
Prelude.v
Steps.v
Queue.v
Sched.v
Pte.v
MemPhy.v
Race.v
Kernel.v
PageTable.v
Mm64.v
MmVm.v
Syscall.v
LibMem.v
VMem.v
UserMem.v
Bounds.v
Alloc.v
Kmem.v
KmemVm.v
Faults.v
Parallel.v
Kept.v
Cpu.v
Program.v
Loader.v
Boot.v
Timer.v
Locks.v
Os.v
Launch.v
Safe.v
Timed.v
TimedLive.v
OnTime.v
Lockstep.v
Config.v
Mem.v
Dump.v
Mm32.v
Demo.v
DemoBounds.v
DemoParallel.v
DemoOs.v
DemoTimed.v
