(* ===== verification/Prelude.v ===== *)
(** * ossim_caitoa: a verified model of the OS simulator

    The program simulates an operating system: a loader thread reads process
    descriptions, CPU threads run them in time slots under a multi-level-queue
    scheduler, and the instructions of a process allocate, read and write
    memory that is paged over a RAM and a swap device.  This library models
    the MM64, MLQ_SCHED, MM_PAGING build, which is the one [include/os-cfg.h]
    selects.

    ** The parts and the files

    Data and control flow from the bottom up; each file requires those above.
    - [Prelude]: machine integers, the outcome and state monad with its rules
      ([wp]), C arrays, the class [HostMem] of states that can allocate from
      the host, relations that computations preserve, and list lemmas.
    - [Steps]: programs cut into steps, pools of threads, and rely-guarantee
      reasoning about them.
    - [Queue] (src/queue.c): the array of 50 slots, with an abstract queue.
    - [Sched] (src/sched.c): the 140 levels with their slots, with the
      abstract policy [aspec].
    - [Pte] (include/bitops.h, mm.h, mm64.h, init_pte of mm64.c): entries.
    - [MemPhy] (src/mm-memphy.c): devices and their frame lists; [Race]:
      [MEMPHY_get_freefp] step by step, for several threads.
    - [Kernel] (include/common.h, os-mm.h): processes, descriptors, the kernel
      object; [sys] is the store they all share, by address.
    - [PageTable], [Mm64] (src/mm64.c): the five-level tree; mapping of pages,
      frame ranges, page copies, [init_mm].
    - [MmVm] (src/mm-vm.c), [Syscall] (src/syscall.c, sys_mem.c,
      sys_listsyscall.c, libstd.c): areas; system calls 0 and 17.
    - [LibMem] (src/libmem.c, user part): regions, faults, byte accesses.
      [VMem], [UserMem] and [Alloc] prove them: the paging invariant, the
      accesses, and the region allocator; [Bounds]: where the widths of
      integers end what they can address.
    - [Kmem] (src/libmem.c, kernel part): kernel allocations, cache pools and
      the copies between kernel and user memory; [KmemVm]: paging survives a
      kernel allocation.
    - [Faults] (src/libmem.c, sys_mem.c, mm64.c): [__read], [__write], the
      kernel's two accesses to user memory, and page faults, in steps;
      [Parallel]: programs of these, of several processes at a time.
    - [Kept]: what no operation of the memory subsystem changes.
    - [Cpu] (src/cpu.c): [run]; [Program]: schedules of user programs.
    - [Loader] (src/loader.c): [load] on the characters of a file.
    - [Boot]: [init_mm] extends the invariants to a new address space.
    - [Timer] (src/timer.c): the slot barrier.
    - [Locks]: the mutexes of the program, as every function takes them.
    - [Os] (src/os.c): [cpu_routine] and [ld_routine] as threads; [Launch] and
      [Safe]: from the loader to the whole machine.
    - [Timed]: the threads of [Os], each on its device of [Timer]; [TimedLive],
      [OnTime] and [Lockstep]: its slots end, processes are loaded when they
      are due, and the CPUs keep step with the clock.
    - [Config] (src/os.c): [read_config] and [main] up to the threads.
    - [Mem] (src/mem.c, and its callers in cpu.c): the obsolete memory.
    - [Dump] (src/mm64.c, mm-memphy.c, mem.c): what is printed.
    - [Mm32] (include/mm.h, src/mm.c): the 22-bit address layout and the
      32-bit paging, which the MM64 build leaves out.
    - [Demo], [DemoBounds], [DemoParallel], [DemoOs], [DemoTimed]: concrete
      machines on which the theorems are applied.

    ** How state and operations correspond

    An operation of the code is a function of the same name in the monad
    [M S A := S -> outcome (A * S)].  [Ok] is a normal return, whatever the
    return code; [Undef] is undefined behaviour of C (a NULL or freed object,
    an access outside an array or a storage, an [int] that overflows, an
    indeterminate value that decides control flow); [Exit] leaves the program.
    Statics are fields of the state ([sched], [timer_st], [os_st]); an object
    of [malloc] is an entry of a map from addresses ([sys]); a list that the
    code reaches through one owner is a list.  A value is a [Z] kept within
    its C type by [u32], [u64], [i32] or [i8] where it is stored or passed.
    [malloc] and [calloc] fail when the host says so ([s_host]).

    Concurrency is by steps.  A scheduler operation runs under [queue_lock]
    and is one step, and so is a section of [timer.c] under one lock.  In [Os]
    a call of [run], [load], [init_mm] or of the scheduler is one step, and
    the CPUs' and the loader's steps interleave freely; in [Timed] they also
    block in the timer between two slots.  [__alloc], [__free] and [__write]
    hold [mmvm_lock] for their whole body; [__read] and the kernel operations
    do not, and for them the atomicity of [run] is an assumption of the model,
    which the theorems of [Safe], [Program], [TimedLive], [OnTime] and [Lockstep]
    make.  [Parallel] drops it for the accesses to user memory: every access to a
    device is a step there, and the test of [MEMPHY_get_freefp] another.
    [Race] cuts [MEMPHY_get_freefp] itself at its accesses, where the
    assumption fails: two threads can dereference a NULL list head.  [Locks] keeps of every function only the
    mutexes, in the order of the text, and lets all threads interleave at
    every statement.

    [liballoc], [libfree], [libread] and [libwrite] print the page table;
    [print_pgtbl] is the numbers it prints, and the tables it dereferences to
    get them.

    ** The theorems

    - The machine: no step from [main] is undefined, a step being a whole call
      of [run], [load], [init_mm] or the scheduler, for user programs on
      devices in 4096-byte frames ([Safe]); a process is in one
      place at a time ([Os]); every schedule of user programs runs ([Program]);
      what is printed is loaded and configured as it was ([Loader], [Config]).
      User programs are those with [CALC], [ALLOC], [FREE], [READ], [WRITE],
      [KMALLOC] and [KMEM_CACHE_CREATE] of a size an [int] holds, and
      [SYSCALL] of a number other than 17.  [SYSCALL] 17 lets a program change
      any byte of RAM and [KMEM_CACHE_ALLOC] dereferences NULL before the
      first pool, so no such theorem holds of them; [Kmem] treats the kernel
      operations one by one.  [load] overflows its buffer on the names of
      [KMEM_CACHE_CREATE], [KMEM_CACHE_ALLOC] and the copies, so [Safe] is
      about programs without them.
    - Paging: a fault brings in a page and changes no byte of any process;
      a write changes one byte and is read back; victims leave in FIFO order
      ([VMem], [UserMem]); an entry update touches one entry ([Mm64]); with
      any number of processes at a time each has the results and the bytes of
      a private array ([Parallel]).
    - Bounds: user memory ends at 2 GiB, where the address of [pg_setval]
      becomes negative, and RAM at the 8192 frames of an entry ([Bounds]).
    - Allocation: regions are disjoint, inside the area, and recycled; growing
      keeps all memory ([Alloc]); kernel memory and copies ([Kmem]); devices
      ([MemPhy]); frame ranges are all or nothing ([Mm64]); a new space is
      well formed ([Boot]).
    - Scheduling: a history of calls behaves as the abstract policy, loses and
      duplicates no process but those a full level drops, and serves the head
      of a level within a bound ([Sched]); queues refine lists ([Queue]).
    - Time: slots are a barrier and the timer waits only for working threads
      ([Timer]); the machine on its timer behaves as the machine without
      ([Timed]), every slot ends ([TimedLive]), the loader takes each process
      in its slot ([OnTime]), and a CPU runs at most one instruction per slot
      and keeps up with the clock ([Lockstep]).
    - Mutexes: the threads never deadlock ([Locks]); [MEMPHY_get_freefp] gives
      no frame twice, and fails when the frames run out between its test and
      its lock ([Race]).
    - Printing: the printed lists can be read back ([Dump]).
    - What the code does and does not mean to do, each as a theorem: a CPU
      that never stops or stops too early ([Os]), the clock that a lost thread
      stops ([Timer]), the loader's short buffer ([Loader]), [READ] that
      delivers nothing ([UserMem]), a limit that moves without memory
      ([MmVm]), devices formatted with the wrong frame size ([MemPhy]), a full
      level that drops a process ([Sched]), [free_pcb_memph] out of bounds
      ([LibMem]), a swapped page marked present in the 32-bit build ([Mm32]).

    ** Bounds and fuel

    Loops over an array or a list are structural on their range.  The scans of
    the scheduler run over the 140 levels; the cursor walk of a sequential
    device over [maxsz] steps, which its C condition bounds; a number is
    printed with 20 digits, enough below 2^64.  Nothing else has fuel.
    Devices are parameters of [Os] and [Timed].  The theorems about paging
    ask that the frames which are taken lie inside the device, those of
    [Safe], [Program] and [TimedLive] that all do.  [MEMPHY_format] with
    4096-byte frames gives this; main's [init_memphy] formats with 256-byte
    frames, of whose numbers only the first [maxsz / 4096] do
    ([VMem.init_memphy_next_fits], [MemPhy.init_memphy_overcommits]), so on
    the devices of [main] the theorems hold of a run until it has taken those.
    Addresses of user memory are below 2^31, since [pg_getval] and
    [pg_setval] take an [int]; frames are below 2^13, the width of the field
    of an entry, so RAM is at most 32 MiB.

    ** What is not modelled

    The messages that report progress and errors change no state.  The branch
    of sched.c without MLQ_SCHED calls an undeclared function, [emty], and
    does not build; of the branches without MM_PAGING only those of cpu.c are
    modelled, with [Mem].  src/paging.c is a driver for an interface that is
    gone.  Of os.c the arrays krnl_pgd .. krnl_pt, which nothing reads, and
    pthread_create and pthread_join are left out; of [load] the field [path],
    which nothing reads.  The text of the files comes from the file system,
    an argument.

    The kernel operations, [__alloc] and [__free] are not cut into steps as
    the accesses are: they are one step of the threads of [Os], and only their
    mutexes are cut, in [Locks].  [__kmalloc] maps its pages in the tables of
    the kernel, which all processes share and no lock guards: there the
    argument of [Parallel], that every thread owns its pages, does not apply. *)

From Stdlib Require Export ZArith Lia.
From stdpp Require Export base list gmap strings option.
From stdpp Require Export sorting.
#[global] Open Scope Z_scope.
#[global] Set Default Goal Selector "!".

Ltac Zify.zify_post_hook ::= Z.div_mod_to_equations.

(** ** Machine integers of the C code

    An integer of the program is a [Z] together with the conversion that the
    C type of the variable applies when a value is stored in it. *)

Definition wrapU (w x : Z) : Z := x mod 2 ^ w.
Definition wrapS (w x : Z) : Z := (x + 2 ^ (w - 1)) mod 2 ^ w - 2 ^ (w - 1).

(** Conversions to [uint32_t], [uint64_t] (also [addr_t] and [arg_t] under
    MM64), [int] and [char] (which is signed on the platform of the Makefile). *)
Definition u32 (x : Z) : Z := wrapU 32 x.
Definition u64 (x : Z) : Z := wrapU 64 x.
Definition i32 (x : Z) : Z := wrapS 32 x.
Definition i8 (x : Z) : Z := wrapS 8 x.

Lemma u32_small x : 0 <= x < 2 ^ 32 -> u32 x = x.
Proof. intros H. apply Z.mod_small; lia. Qed.
Lemma u64_small x : 0 <= x < 2 ^ 64 -> u64 x = x.
Proof. intros H. apply Z.mod_small; lia. Qed.
Lemma i32_small x : - 2 ^ 31 <= x < 2 ^ 31 -> i32 x = x.
Proof. intros H. unfold i32, wrapS. rewrite Z.mod_small; lia. Qed.
Lemma i8_small x : - 2 ^ 7 <= x < 2 ^ 7 -> i8 x = x.
Proof. intros H. unfold i8, wrapS. rewrite Z.mod_small; lia. Qed.
Lemma u32_range x : 0 <= u32 x < 2 ^ 32.
Proof. apply Z.mod_pos_bound; lia. Qed.
Lemma u64_range x : 0 <= u64 x < 2 ^ 64.
Proof. apply Z.mod_pos_bound; lia. Qed.
Lemma i32_range x : - 2 ^ 31 <= i32 x < 2 ^ 31.
Proof. unfold i32, wrapS. pose proof (Z.mod_pos_bound (x + 2 ^ (32 - 1)) (2 ^ 32)). lia. Qed.
Lemma i8_range x : - 2 ^ 7 <= i8 x < 2 ^ 7.
Proof. unfold i8, wrapS. pose proof (Z.mod_pos_bound (x + 2 ^ (8 - 1)) (2 ^ 8)). lia. Qed.

(** Pointers are addresses; the objects they reach are in the state. *)
Definition NULL : Z := 0.

(** ** Outcomes and the state monad

    Code either finishes ([Ok]), reaches undefined behaviour ([Undef]: a NULL
    or dangling dereference, an access outside an array) or leaves the
    program ([Exit]). *)

Inductive outcome (A : Type) : Type :=
| Ok (a : A)
| Undef
| Exit (code : Z).
Arguments Ok {A} a.
Arguments Undef {A}.
Arguments Exit {A} code.

Definition M (S A : Type) : Type := S -> outcome (A * S).

Definition ret {S A} (a : A) : M S A := fun s => Ok (a, s).
Definition bind {S A B} (m : M S A) (k : A -> M S B) : M S B :=
  fun s => match m s with
           | Ok (a, s') => k a s'
           | Undef => Undef
           | Exit c => Exit c
           end.
Definition undef {S A} : M S A := fun _ => Undef.
Definition exit {S A} (c : Z) : M S A := fun _ => Exit c.
Definition gets {S A} (f : S -> A) : M S A := fun s => Ok (f s, s).
Definition modify {S} (f : S -> S) : M S unit := fun s => Ok (tt, f s).
(** Reading through a pointer or an index that may be invalid. *)
Definition from_opt {S A} (o : option A) : M S A :=
  match o with Some a => ret a | None => undef end.

(** The result of [int] arithmetic: overflow is undefined. *)
Definition int_arith {S} (x : Z) : M S Z :=
  if (- 2 ^ 31 <=? x) && (x <? 2 ^ 31) then ret x else undef.

Declare Scope cmonad_scope.
Delimit Scope cmonad_scope with cm.
Notation "'let*' x ':=' m 'in' k" := (bind m (fun x => k))
  (at level 100, x pattern, m at next level, right associativity,
   format "'let*'  x  ':='  m  'in' '//' k") : cmonad_scope.
Notation "m ';;;' k" := (bind m (fun _ => k))
  (at level 100, right associativity, format "m  ';;;' '//' k") : cmonad_scope.
#[global] Open Scope cmonad_scope.

(** ** Total-correctness weakest preconditions

    [wp m Q s]: started in [s], [m] finishes without undefined behaviour and
    its result and final state satisfy [Q]. *)
Definition wp {S A} (m : M S A) (Q : A -> S -> Prop) (s : S) : Prop :=
  match m s with Ok (a, s') => Q a s' | _ => False end.

Section WP.
Context {S A B : Type}.
Implicit Types (m : M S A) (s : S).

Lemma wp_ret (a : A) (Q : A -> S -> Prop) s : Q a s -> wp (ret a) Q s.
Proof. done. Qed.

Lemma wp_bind m (k : A -> M S B) (Q : B -> S -> Prop) s :
  wp m (fun a s' => wp (k a) Q s') s -> wp (bind m k) Q s.
Proof. unfold wp, bind. destruct (m s) as [[a s']| |]; done. Qed.

Lemma wp_assoc {C} m (k : A -> M S B) (l : B -> M S C) (Q : C -> S -> Prop) s :
  wp (bind (bind m k) l) Q s -> wp (bind m (fun a => bind (k a) l)) Q s.
Proof. unfold wp, bind. by destruct (m s) as [[a s']| |]. Qed.

Lemma wp_mono m (P Q : A -> S -> Prop) s :
  wp m P s -> (forall a s', P a s' -> Q a s') -> wp m Q s.
Proof. unfold wp. destruct (m s) as [[a s']| |]; naive_solver. Qed.

Lemma wp_gets (f : S -> A) (Q : A -> S -> Prop) s : Q (f s) s -> wp (gets f) Q s.
Proof. done. Qed.

Lemma wp_from_opt (o : option A) a (Q : A -> S -> Prop) s :
  o = Some a -> Q a s -> wp (from_opt o) Q s.
Proof. by intros ->. Qed.

Lemma wp_elim m Q s : wp m Q s -> exists a s', m s = Ok (a, s') /\ Q a s'.
Proof. unfold wp. destruct (m s) as [[a s']| |]; naive_solver. Qed.

Lemma wp_intro m (Q : A -> S -> Prop) s a s' : m s = Ok (a, s') -> Q a s' -> wp m Q s.
Proof. unfold wp. by intros ->. Qed.
End WP.

Lemma wp_modify {S} (f : S -> S) (Q : unit -> S -> Prop) s : Q tt (f s) -> wp (modify f) Q s.
Proof. done. Qed.

Lemma wp_int_arith {S} x (Q : Z -> S -> Prop) s :
  - 2 ^ 31 <= x < 2 ^ 31 -> Q x s -> wp (int_arith x) Q s.
Proof.
  intros Hx HQ. unfold int_arith.
  destruct (Z.leb_spec (- 2 ^ 31) x), (Z.ltb_spec x (2 ^ 31)); try lia. done.
Qed.

(** Stepping through a monadic program: [wp_step] peels one operation,
    [wp_steps] as many as it can; calls of the development's own operations
    are handled with [wp_call lemma]. *)
Ltac wp_step :=
  lazymatch goal with
  | |- wp (bind _ _) _ _ => apply wp_bind
  | |- wp (ret _) _ _ => apply wp_ret
  | |- wp (gets _) _ _ => apply wp_gets
  | |- wp (modify _) _ _ => apply wp_modify
  | |- wp (from_opt (Some _)) _ _ => eapply wp_from_opt; [reflexivity|]
  | |- wp (from_opt _) _ _ => eapply wp_from_opt; [eassumption|]
  end.
Ltac bool_consts :=
  repeat match goal with
  | |- context [true || ?b] => change (true || b) with true
  | |- context [false || ?b] => change (false || b) with b
  | |- context [true && ?b] => change (true && b) with b
  | |- context [false && ?b] => change (false && b) with false
  | |- context [negb true] => change (negb true) with false
  | |- context [negb false] => change (negb false) with true
  end.
Ltac wp_simpl := cbn beta iota; bool_consts; cbn beta iota.
Ltac wp_steps := wp_simpl; repeat (wp_step; wp_simpl).
Tactic Notation "wp_call" uconstr(H) := wp_steps; eapply wp_mono; [eapply H|].

(** ** Reachability in a step relation *)
Inductive star {A} (R : A -> A -> Prop) : A -> A -> Prop :=
| star_refl a : star R a a
| star_step a b c : R a b -> star R b c -> star R a c.

Lemma star_trans {A} (R : A -> A -> Prop) a b c : star R a b -> star R b c -> star R a c.
Proof. induction 1; eauto using star. Qed.

(** Rule induction for invariants: what holds at the start and is kept by
    every step holds in every reachable state. *)
Lemma star_invariant {A} (R : A -> A -> Prop) (P : A -> Prop) a b :
  (forall x y, P x -> R x y -> P y) -> P a -> star R a b -> P b.
Proof. intros Hstep Ha Hs. induction Hs; eauto. Qed.

(** ** C arrays

    [arr_get]/[arr_set] fail outside the bounds of the array, where the C
    access is undefined. *)
Definition arr_get {A} (l : list A) (i : Z) : option A :=
  if 0 <=? i then l !! Z.to_nat i else None.
Definition arr_set {A} (l : list A) (i : Z) (v : A) : option (list A) :=
  if (0 <=? i) && (i <? Z.of_nat (length l)) then Some (<[Z.to_nat i := v]> l) else None.

Lemma arr_get_Some {A} (l : list A) i x :
  arr_get l i = Some x <-> 0 <= i /\ l !! Z.to_nat i = Some x.
Proof.
  unfold arr_get. destruct (Z.leb_spec 0 i) as [Hi|Hi]; split.
  - intros H; split; [lia|done].
  - by intros [_ H].
  - done.
  - intros [Hi' _]; lia.
Qed.

Lemma arr_get_is_Some {A} (l : list A) i :
  0 <= i < Z.of_nat (length l) -> exists x, arr_get l i = Some x.
Proof.
  intros H. destruct (lookup_lt_is_Some_2 l (Z.to_nat i)) as [x Hx]; [lia|].
  exists x. apply arr_get_Some. split; [lia|done].
Qed.

Lemma arr_set_Some {A} (l : list A) i v :
  0 <= i < Z.of_nat (length l) -> arr_set l i v = Some (<[Z.to_nat i := v]> l).
Proof.
  intros H. unfold arr_set.
  destruct (Z.leb_spec 0 i), (Z.ltb_spec i (Z.of_nat (length l))); simpl; done || lia.
Qed.

Lemma arr_get_insert {A} (l : list A) i v :
  0 <= i < Z.of_nat (length l) -> arr_get (<[Z.to_nat i := v]> l) i = Some v.
Proof. intros H. apply arr_get_Some. split; [lia|]. apply list_lookup_insert_eq; lia. Qed.

Lemma arr_get_insert_ne {A} (l : list A) i j v :
  0 <= i -> i <> j -> arr_get (<[Z.to_nat i := v]> l) j = arr_get l j.
Proof.
  intros Hi Hij. unfold arr_get. destruct (Z.leb_spec 0 j); [|done].
  apply list_lookup_insert_ne. lia.
Qed.

(** Running an operation on a component of a larger state. *)
Definition zoom {S T A} (get : S -> option T) (put : T -> S -> S) (m : M T A) : M S A :=
  fun s => match get s with
           | None => Undef
           | Some t => match m t with
                       | Ok (a, t') => Ok (a, put t' s)
                       | Undef => Undef
                       | Exit c => Exit c
                       end
           end.

Lemma wp_zoom {S T A} (get : S -> option T) put (m : M T A) (Q : A -> S -> Prop) s t :
  get s = Some t -> wp m (fun a t' => Q a (put t' s)) t -> wp (zoom get put m) Q s.
Proof. unfold wp, zoom. intros ->. destruct (m t) as [[a t']| |]; done. Qed.

Lemma bind_Ok {S A B} (m : M S A) (k : A -> M S B) s a s' :
  m s = Ok (a, s') -> bind m k s = k a s'.
Proof. unfold bind. by intros ->. Qed.

Lemma zoom_Ok {S T A} (get : S -> option T) put (m : M T A) s t a t' :
  get s = Some t -> m t = Ok (a, t') -> zoom get put m s = Ok (a, put t' s).
Proof. unfold zoom. by intros -> ->. Qed.

(** ** Lists *)

Lemma list_alter_insert {A} (f : A -> A) (l : list A) (i : nat) x :
  l !! i = Some x -> alter f i l = <[i := f x]> l.
Proof.
  intros Hx. apply list_eq. intros j. rewrite list_lookup_insert.
  case_decide as Hc.
  - destruct Hc as [-> _]. by rewrite list_lookup_alter_eq, Hx.
  - destruct (decide (i = j)) as [->|Hne]; [|by apply list_lookup_alter_ne].
    destruct Hc. split; [done|]. by eapply lookup_lt_Some.
Qed.

(** ** The host allocator

    [malloc] and [calloc] of the host can fail.  A state that allocates
    carries the outcomes of its next allocations, [true] for a failure; once
    the list is used up every allocation succeeds, so the empty list is a
    host with enough memory and any finite pattern of failures is a value. *)
Class HostMem (S : Type) := {
  host : S -> list bool;
  set_host : list bool -> S -> S;
  host_set_host l s : host (set_host l s) = l;
  set_host_same s : set_host (host s) s = s;
}.

(** Does the next allocation succeed? *)
Definition malloc {S} `{HostMem S} : M S bool :=
  fun s => match host s with
           | [] => Ok (true, s)
           | b :: l => Ok (negb b, set_host l s)
           end.

Lemma wp_malloc_ok {S} `{HostMem S} (Q : bool -> S -> Prop) s :
  host s = [] -> Q true s -> wp malloc Q s.
Proof. unfold wp, malloc. by intros ->. Qed.

(** Whatever the host answers: [true] at the head is a failure. *)
Lemma wp_malloc_any {S} `{HostMem S} (Q : bool -> S -> Prop) s :
  Q (negb (default false (head (host s)))) (set_host (tail (host s)) s) -> wp malloc Q s.
Proof.
  unfold wp, malloc. destruct (host s) as [|b l] eqn:Hh; [|done].
  simpl. rewrite <- Hh at 1. by rewrite set_host_same.
Qed.

(** An allocation whose result is dereferenced without a NULL check. *)
Definition malloc_unchecked {S} `{HostMem S} : M S unit :=
  let* ok := malloc in if ok then ret tt else undef.

Lemma wp_malloc_unchecked {S} `{HostMem S} (Q : unit -> S -> Prop) s :
  host s = [] -> Q tt s -> wp malloc_unchecked Q s.
Proof. intros Hh HQ. unfold malloc_unchecked. apply wp_bind. apply wp_malloc_ok; [done|]. done. Qed.

(** Consecutive integers [i, i + 1, ..., i + n - 1]. *)
Fixpoint zseq (i : Z) (n : nat) : list Z :=
  match n with O => [] | S n => i :: zseq (i + 1) n end.

Lemma zseq_length i n : length (zseq i n) = n.
Proof. revert i. induction n; intros; simpl; auto. Qed.

Lemma elem_of_zseq i n x : x ∈ zseq i n <-> i <= x < i + Z.of_nat n.
Proof.
  revert i. induction n as [|n IH]; intros i; simpl; [rewrite elem_of_nil; lia|].
  rewrite elem_of_cons, IH. lia.
Qed.

Lemma zseq_NoDup i n : NoDup (zseq i n).
Proof.
  revert i. induction n as [|n IH]; intros i; simpl; constructor; [|done].
  rewrite elem_of_zseq. lia.
Qed.

Lemma zseq_S_r i n : zseq i (S n) = zseq i n ++ [i + Z.of_nat n].
Proof.
  revert i. induction n as [|n IH]; intros i; [simpl; do 2 f_equal; lia|].
  change (zseq i (S (S n))) with (i :: zseq (i + 1) (S n)). rewrite IH.
  change (zseq i (S n)) with (i :: zseq (i + 1) n). rewrite <- app_comm_cons.
  do 3 f_equal. lia.
Qed.

Lemma zseq_lookup i n (k : nat) : (k < n)%nat -> zseq i n !! k = Some (i + Z.of_nat k).
Proof.
  revert i k. induction n as [|n IH]; intros i k Hk; [lia|].
  destruct k as [|k]; simpl; [f_equal; lia|]. rewrite IH by lia. f_equal. lia.
Qed.

(** Unlinking the first node of a list that carries [x]. *)
Fixpoint unlink (x : Z) (l : list Z) : option (list Z) :=
  match l with
  | [] => None
  | y :: l => if y =? x then Some l else (y ::.) <$> unlink x l
  end.

Lemma unlink_Some x l l' : unlink x l = Some l' -> l ≡ₚ x :: l'.
Proof.
  revert l'. induction l as [|y l IH]; intros l' H; simpl in H; [done|].
  destruct (Z.eqb_spec y x) as [->|Hne]; [by simplify_eq|].
  apply fmap_Some in H as (l1 & Hl1 & ->). rewrite (IH _ Hl1). constructor.
Qed.

Lemma unlink_None x l : unlink x l = None <-> x ∉ l.
Proof.
  induction l as [|y l IH]; simpl; [split; [intros _; apply not_elem_of_nil|done]|].
  rewrite not_elem_of_cons. destruct (Z.eqb_spec y x) as [->|Hne].
  - split; [done|]. by intros [? _].
  - rewrite fmap_None, IH. split; [intros ?; split; [congruence|done]|by intros [_ ?]].
Qed.

(** ** What an operation keeps on every run

    [preserves R m]: whenever [m] returns, the states before and after are
    related by [R].  No precondition is needed: a run that ends in undefined
    behaviour or leaves the program says nothing.  For a preorder [R] the
    rules below and the hints of [preserves] let [solve_preserves] follow the
    structure of an operation. *)
Definition preserves {S A} (R : S -> S -> Prop) (m : M S A) : Prop :=
  forall s a s', m s = Ok (a, s') -> R s s'.

Section Preserves.
Context {S : Type} (R : S -> S -> Prop) `{!PreOrder R}.

Lemma preserves_ret {A} (a : A) : preserves R (ret a).
Proof. intros s b s' [= <- <-]. reflexivity. Qed.

Lemma preserves_undef {A} : preserves R (@undef S A).
Proof. by intros s b s' H. Qed.

Lemma preserves_gets {A} (f : S -> A) : preserves R (gets f).
Proof. intros s b s' [= <- <-]. reflexivity. Qed.

Lemma preserves_from_opt {A} (o : option A) : preserves R (from_opt o).
Proof. destruct o; [apply preserves_ret|apply preserves_undef]. Qed.

Lemma preserves_int_arith x : preserves R (int_arith x).
Proof. unfold int_arith. destruct (_ && _); [apply preserves_ret|apply preserves_undef]. Qed.

Lemma preserves_modify (f : S -> S) : (forall s, R s (f s)) -> preserves R (modify f).
Proof. intros Hf s b s' [= <- <-]. apply Hf. Qed.

Lemma preserves_bind {A B} (m : M S A) (k : A -> M S B) :
  preserves R m -> (forall a, preserves R (k a)) -> preserves R (bind m k).
Proof.
  intros Hm Hk s b s' H. unfold bind in H. destruct (m s) as [[a s1]| |] eqn:H1; [|done|done].
  transitivity s1; [by eapply Hm|by eapply Hk].
Qed.

(** The state read in the first step may be used by the rest. *)
Lemma preserves_read {A B} (f : S -> A) (k : A -> M S B) :
  (forall s b s', k (f s) s = Ok (b, s') -> R s s') -> preserves R (bind (gets f) k).
Proof. intros Hk s b s' H. by eapply Hk. Qed.
End Preserves.

Create HintDb preserves.
#[export] Hint Resolve preserves_ret preserves_undef preserves_gets preserves_from_opt
  preserves_int_arith : preserves.
#[export] Hint Extern 0 (PreOrder _) => typeclasses eauto : preserves.

(** Case analysis on everything the operation branches on. *)
Ltac solve_preserves :=
  repeat first
    [ progress intros
    | solve [eauto with preserves]
    | lazymatch goal with
      | |- preserves _ (bind _ _) => apply preserves_bind; [typeclasses eauto| |]
      | |- preserves _ (match ?x with _ => _ end) => destruct x
      | |- preserves _ (let _ := _ in _) => cbv zeta
      end ].
