(* ===== verification/Steps.v ===== *)
(** * Programs in steps, and rely-guarantee reasoning

    An operation cut into steps, each a computation on the shared state that
    is not interrupted: between two of them other threads make theirs.  A
    thread is proved against what the others may do ([rely]) and for what it
    does itself ([guarantee]); [exec_sound] puts the threads together. *)

From S2P Require Import Prelude.

(** ** Programs *)

Inductive prog (S A : Type) : Type :=
| Done (a : A)
| Step {B : Type} (m : M S B) (k : B -> prog S A).
Arguments Done {S A} a.
Arguments Step {S A B} m k.

Fixpoint pbind {S A B} (p : prog S A) (f : A -> prog S B) : prog S B :=
  match p with Done a => f a | Step m k => Step m (fun b => pbind (k b) f) end.
Definition op {S A} (m : M S A) : prog S A := Step m Done.

Declare Scope prog_scope.
Delimit Scope prog_scope with prog.
Notation "'step*' x ':=' p 'in' k" := (pbind p (fun x => k))
  (at level 100, x pattern, p at next level, right associativity,
   format "'step*'  x  ':='  p  'in' '//' k") : prog_scope.
#[global] Open Scope prog_scope.

(** The program run without interruption. *)
Fixpoint whole {S A} (p : prog S A) : M S A :=
  match p with Done a => ret a | Step m k => bind m (fun b => whole (k b)) end.

Lemma bind_ext {S A B} (m m' : M S A) (k k' : A -> M S B) s :
  (forall s, m s = m' s) -> (forall a s, k a s = k' a s) -> bind m k s = bind m' k' s.
Proof. intros Hm Hk. unfold bind. rewrite Hm. by destruct (m' s) as [[a s']| |]. Qed.

Lemma bind_ret {S A} (m : M S A) s : bind m ret s = m s.
Proof. unfold bind. by destruct (m s) as [[a s']| |]. Qed.

Lemma bind_bind {S A B C} (m : M S A) (k : A -> M S B) (l : B -> M S C) s :
  bind (bind m k) l s = bind m (fun a => bind (k a) l) s.
Proof. unfold bind. by destruct (m s) as [[a s']| |]. Qed.

Lemma whole_bind {S A B} (p : prog S A) (f : A -> prog S B) s :
  whole (pbind p f) s = bind (whole p) (fun a => whole (f a)) s.
Proof.
  revert s. induction p as [a|C m k IH]; intros s; simpl; [done|]. rewrite bind_bind.
  apply bind_ext; [done|]. intros b s'. apply IH.
Qed.

Lemma whole_op {S A} (m : M S A) s : whole (op m) s = m s.
Proof. apply bind_ret. Qed.

(** The same program, step by step: [solve_whole] compares the two texts. *)
Lemma whole_seq {S A B} (p : prog S A) (m : M S A) (f : A -> prog S B) (k : A -> M S B) s :
  (forall s, whole p s = m s) -> (forall a s, whole (f a) s = k a s) -> whole (pbind p f) s = bind m k s.
Proof. intros Hp Hf. rewrite whole_bind. by apply bind_ext. Qed.

Create HintDb whole.
#[export] Hint Resolve whole_op : whole.
Ltac solve_whole :=
  repeat first
    [ progress intros
    | reflexivity
    | solve [eauto with whole]
    | lazymatch goal with
      | |- whole (pbind _ _) _ = bind _ _ _ => apply whole_seq
      | |- whole (match ?x with _ => _ end) _ = _ => destruct x
      | |- whole (let _ := _ in _) _ = _ => cbv zeta
      end ].

(** At most [n] steps, whatever the answers. *)
Fixpoint within {S A} (n : nat) (p : prog S A) : Prop :=
  match p, n with
  | Done _, _ => True
  | Step _ _, O => False
  | Step m k, Datatypes.S n => forall b, within n (k b)
  end.

Lemma within_le {S A} (p : prog S A) : forall n n', within n p -> (n <= n')%nat -> within n' p.
Proof.
  induction p as [a|B m k IH]; intros [|n] [|n'] Hn Hle; simpl in *; try done; [lia|].
  intros b. eapply IH; [apply Hn|lia].
Qed.

Lemma within_bind {S A B} (p : prog S A) (f : A -> prog S B) : forall n1 n2,
  within n1 p -> (forall a, within n2 (f a)) -> within (n1 + n2) (pbind p f).
Proof.
  induction p as [a|C m k IH]; intros n1 n2 Hp Hf; simpl.
  - eapply within_le; [apply Hf|lia].
  - destruct n1 as [|n1]; [done|]. simpl. intros b. apply IH; [apply Hp|done].
Qed.

Lemma within_done {S A} n (a : A) : within n (@Done S A a).
Proof. by destruct n. Qed.

Lemma within_seq {S A B} (p : prog S A) (f : A -> prog S B) n1 n :
  within n1 p -> (n1 <= n)%nat -> (forall a, within (n - n1) (f a)) -> within n (pbind p f).
Proof. intros Hp Hn Hf. replace n with (n1 + (n - n1))%nat by lia. by apply within_bind. Qed.

Lemma within_assoc {S A B C} (p : prog S A) (f : A -> prog S B) (g : B -> prog S C) : forall n,
  within n (pbind p (fun a => pbind (f a) g)) -> within n (pbind (pbind p f) g).
Proof. induction p as [a|D m k IH]; intros [|n] Hn; simpl in *; try done. intros b. by apply IH. Qed.

Lemma within_op {S A} (m : M S A) : within 1 (op m).
Proof. by intros b. Qed.

Create HintDb within.
#[export] Hint Resolve within_op : within.
(** Counts the steps of a program from its text. *)
Ltac solve_within :=
  repeat (intros; cbv zeta;
    lazymatch goal with
    | |- within _ (Done _) => apply within_done
    | |- within _ (match ?x with _ => _ end) => destruct x
    | |- within _ (pbind (match ?x with _ => _ end) _) => destruct x
    | |- within _ (pbind (Done _) _) => cbn [pbind]
    | |- within _ (pbind (pbind _ _) _) => apply within_assoc
    | |- within _ (pbind _ _) => eapply within_seq; [solve [eauto with within]|lia|]
    | |- within _ _ => eapply within_le; [solve [eauto with within]|lia]
    end).

(** ** Threads *)

Definition pool (S A : Type) : Type := list (prog S A) * S.

(** Thread [i] makes a step; [None] when it has returned. *)
Definition pool_step {S A} (i : nat) (c : pool S A) : option (outcome (pool S A)) :=
  match c.1 !! i with
  | Some (Step m k) =>
      Some (match m c.2 with
            | Ok (b, s') => Ok (<[i := k b]> c.1, s')
            | Undef => Undef
            | Exit x => Exit x
            end)
  | _ => None
  end.

Fixpoint pool_exec {S A} (l : list nat) (c : pool S A) : option (outcome (pool S A)) :=
  match l with
  | [] => Some (Ok c)
  | i :: l => o ← pool_step i c; match o with Ok c' => pool_exec l c' | Undef => Some Undef | Exit x => Some (Exit x) end
  end.

Lemma pool_exec_app {S A} l1 l2 (c : pool S A) : pool_exec (l1 ++ l2) c =
  match pool_exec l1 c with Some (Ok c') => pool_exec l2 c' | r => r end.
Proof.
  revert c. induction l1 as [|i l1 IH]; intros c; simpl; [done|]. destruct (pool_step i c) as [[c'| |x]|]; simpl; [|done..]. apply IH.
Qed.

(** A thread that is not interrupted runs its program whole. *)
Lemma pool_exec_whole {S A} (p : prog S A) : forall i ps s a s',
  ps !! i = Some p -> whole p s = Ok (a, s') -> exists n, pool_exec (replicate n i) (ps, s) = Some (Ok (<[i := Done a]> ps, s')).
Proof.
  induction p as [a|B m k IH]; intros i ps s a' s' Hi Hw.
  - injection Hw as -> ->. exists 0%nat. by rewrite list_insert_id.
  - simpl in Hw. unfold bind in Hw. destruct (m s) as [[b s1]| |] eqn:Hm; try done.
    destruct (IH b i (<[i := k b]> ps) s1 a' s') as [n Hn]; [apply list_lookup_insert_eq; by eapply lookup_lt_Some|done|].
    exists (Datatypes.S n). rewrite list_insert_insert_eq in Hn. simpl. unfold pool_step. simpl. by rewrite Hi, Hm.
Qed.

Definition returned {S A} (p : prog S A) : Prop := exists a, p = Done a.

(** No thread makes more steps than its bound. *)
Lemma pool_exec_within {S A} l : forall (ps ps' : list (prog S A)) s s' i p n,
  pool_exec l (ps, s) = Some (Ok (ps', s')) -> ps !! i = Some p -> within n p ->
  exists p', ps' !! i = Some p' /\ (count_occ Nat.eq_dec l i <= n)%nat /\ within (n - count_occ Nat.eq_dec l i) p'.
Proof.
  induction l as [|j l IH]; intros ps ps' s s' i p n Hl Hp Hn; simpl in Hl.
  - injection Hl as -> ->. exists p. split; [done|]. simpl. split; [lia|]. by rewrite Nat.sub_0_r.
  - destruct (pool_step j (ps, s)) as [[[ps1 s1]| |x]|] eqn:Hj; [|done..]. simpl in Hl.
    unfold pool_step in Hj. simpl in Hj. destruct (ps !! j) as [[a|B m k]|] eqn:Hpj; [done| |done].
    destruct (m s) as [[b s2]| |] eqn:Hm; try done. injection Hj as <- <-. simpl.
    destruct (Nat.eq_dec j i) as [->|Hji].
    + rewrite Hp in Hpj. injection Hpj as ->. destruct n as [|n]; [done|].
      destruct (IH _ _ _ _ i (k b) n Hl) as (p' & Hp' & Hc & Hw).
      * apply list_lookup_insert_eq. by eapply lookup_lt_Some.
      * apply Hn.
      * exists p'. split; [done|]. split; [lia|]. exact Hw.
    + eapply IH; [exact Hl| |exact Hn]. by rewrite list_lookup_insert_ne.
Qed.

Lemma pool_exec_out {S A} l : forall (ps ps' : list (prog S A)) s s' i,
  pool_exec l (ps, s) = Some (Ok (ps', s')) -> ps !! i = None -> count_occ Nat.eq_dec l i = 0%nat.
Proof.
  induction l as [|j l IH]; intros ps ps' s s' i Hl Hi; simpl in Hl; [done|].
  destruct (pool_step j (ps, s)) as [[[ps1 s1]| |x]|] eqn:Hj; [|done..]. simpl in Hl.
  unfold pool_step in Hj. simpl in Hj. destruct (ps !! j) as [[a|B m k]|] eqn:Hpj; [done| |done].
  destruct (m s) as [[b s2]| |] eqn:Hm; try done. injection Hj as <- <-. simpl.
  destruct (Nat.eq_dec j i) as [->|Hji]; [by rewrite Hi in Hpj|]. eapply IH; [exact Hl|]. by rewrite list_lookup_insert_ne.
Qed.

Lemma pool_exec_steps {S A} l (ps ps' : list (prog S A)) s s' n i :
  pool_exec l (ps, s) = Some (Ok (ps', s')) -> Forall (within n) ps -> (count_occ Nat.eq_dec l i <= n)%nat.
Proof.
  intros Hl Hn. destruct (ps !! i) as [p|] eqn:Hi; [|by rewrite (pool_exec_out _ _ _ _ _ _ Hl Hi); lia].
  rewrite Forall_lookup in Hn. by destruct (pool_exec_within _ _ _ _ _ _ _ _ Hl Hi (Hn _ _ Hi)) as (_ & _ & ? & _).
Qed.

Lemma returned_all {S A} (ps : list (prog S A)) : Forall returned ps -> exists rs, ps = Done <$> rs.
Proof.
  induction 1 as [|p ps [a ->] _ [rs ->]]; [by exists []|]. by exists (a :: rs).
Qed.

(** ** Rely and guarantee

    [W] is the shared state [st w] with the ghost state of the proof; [Inv]
    holds between any two steps. *)

Section RelyGuarantee.
Context {S W A : Type} (st : W -> S) (Inv : W -> Prop).

(** From [w], and under steps of others within [R], every step of [p] is
    defined, stays within [G] and keeps [Inv], and [p] returns with [Q]. *)
Fixpoint rg {A} (R G : W -> W -> Prop) (p : prog S A) (Q : A -> W -> Prop) (w : W) : Prop :=
  match p with
  | Done a => forall w', R w w' -> Inv w' -> Q a w'
  | Step m k => forall w', R w w' -> Inv w' ->
      wp m (fun b s' => exists w2, st w2 = s' /\ G w' w2 /\ Inv w2 /\ rg R G (k b) Q w2) (st w')
  end.

Lemma rg_rely {B} R G `{!Transitive R} (p : prog S B) Q w w' : R w w' -> rg R G p Q w -> rg R G p Q w'.
Proof. destruct p; simpl; intros Hw H w2 Hw2; apply H; by etransitivity. Qed.

Lemma rg_mono {B} R G (p : prog S B) (Q Q' : B -> W -> Prop) w :
  rg R G p Q w -> (forall a w', Inv w' -> Q a w' -> Q' a w') -> rg R G p Q' w.
Proof.
  intros Hp HQ. revert w Hp. induction p as [a|C m k IH]; intros w Hp; simpl in *; intros w' HR Hi'; [auto|].
  eapply wp_mono; [by apply Hp|]. intros b s' (w2 & <- & HG & Hi2 & Hrg). exists w2. auto.
Qed.

(** A thread that is ready after any steps of the others is ready now. *)
Lemma rg_before {B} R G `{!Reflexive R} (p : prog S B) Q w :
  (forall w', R w w' -> Inv w' -> rg R G p Q w') -> rg R G p Q w.
Proof. destruct p; simpl; intros H w' Hw Hi; by apply (H w'). Qed.

Lemma rg_bind {B C} R G `{!Reflexive R} (p : prog S B) (f : B -> prog S C) P Q w :
  rg R G p P w -> (forall a w', Inv w' -> P a w' -> rg R G (f a) Q w') -> rg R G (pbind p f) Q w.
Proof.
  intros Hp Hf. revert w Hp. induction p as [a|D m k IH]; intros w Hp; simpl in *.
  - apply rg_before; [done|]. auto.
  - intros w' HR Hi'. eapply wp_mono; [by apply Hp|]. intros b s' (w2 & <- & HG & Hi2 & Hrg). exists w2. auto.
Qed.

Context (n : nat) (R G : nat -> W -> W -> Prop) (Q : nat -> A -> W -> Prop).
Hypothesis R_pre : forall i, PreOrder (R i).
Hypothesis G_R : forall i j w w', (i < n)%nat -> (j < n)%nat -> i <> j -> G i w w' -> R j w w'.

(** What holds of a pool between two steps. *)
Definition pool_ok (ps : list (prog S A)) (w : W) : Prop :=
  length ps = n /\ Inv w /\ forall i p, ps !! i = Some p -> rg (R i) (G i) p (Q i) w.

Lemma pool_step_ok i ps w o :
  pool_ok ps w -> pool_step i (ps, st w) = Some o -> exists ps' w', o = Ok (ps', st w') /\ pool_ok ps' w'.
Proof.
  intros (Hlen & Hinv & Hps) Hs. unfold pool_step in Hs. simpl in Hs.
  destruct (ps !! i) as [[a|B m k]|] eqn:Hi; try done. pose proof (Hps i _ Hi) as Hrg. simpl in Hrg.
  specialize (Hrg w (reflexivity w) Hinv). apply wp_elim in Hrg as (b & s' & Hm & w2 & <- & HG & Hinv2 & Hk).
  rewrite Hm in Hs. injection Hs as <-. exists (<[i := k b]> ps), w2. split; [done|].
  assert (Hin : (i < n)%nat) by (rewrite <- Hlen; by eapply lookup_lt_Some).
  split; [by rewrite length_insert|]. split; [done|]. intros j p Hj.
  apply list_lookup_insert_Some in Hj as [(<- & <- & _)|(Hne & Hj)]; [done|].
  apply (rg_rely (R j) (G j) p (Q j) w w2); [|by apply Hps].
  apply (G_R i j); [done| |done|done]. rewrite <- Hlen. by eapply lookup_lt_Some.
Qed.

Lemma exec_sound l : forall ps w o,
  pool_ok ps w -> pool_exec l (ps, st w) = Some o -> exists ps' w', o = Ok (ps', st w') /\ pool_ok ps' w'.
Proof.
  induction l as [|i l IH]; intros ps w o Hok Hl; simpl in Hl; [injection Hl as <-; by exists ps, w|].
  destruct (pool_step i (ps, st w)) as [o1|] eqn:H1; [|done].
  destruct (pool_step_ok _ _ _ _ Hok H1) as (ps1 & w1 & -> & Hok1). simpl in Hl. by apply (IH ps1 w1).
Qed.

(** A thread that has returned has its result. *)
Lemma pool_ok_done ps w i a : pool_ok ps w -> ps !! i = Some (Done a) -> Q i a w.
Proof. intros (_ & Hinv & Hps) Hi. apply (Hps i _ Hi w); [reflexivity|done]. Qed.

(** Every thread can go on, so all return: run one after the other. *)
Lemma run_thread i ps w p :
  pool_ok ps w -> ps !! i = Some p ->
  exists l a w', pool_exec l (ps, st w) = Some (Ok (<[i := Done a]> ps, st w')) /\ pool_ok (<[i := Done a]> ps) w'.
Proof.
  revert ps w. induction p as [a|B m k IH]; intros ps w Hok Hi.
  - exists [], a, w. rewrite list_insert_id by done. done.
  - destruct (pool_step i (ps, st w)) as [o|] eqn:Hs; [|by unfold pool_step in Hs; simpl in Hs; rewrite Hi in Hs].
    destruct (pool_step_ok _ _ _ _ Hok Hs) as (ps1 & w1 & -> & Hok1).
    assert (exists b, ps1 = <[i := k b]> ps) as [b ->].
    { unfold pool_step in Hs. simpl in Hs. rewrite Hi in Hs. destruct (m (st w)) as [[b s']| |]; try done. injection Hs as <- _. by exists b. }
    destruct (IH b _ _ Hok1) as (l & a & w2 & Hl & Hok2); [apply list_lookup_insert_eq; by eapply lookup_lt_Some|].
    rewrite list_insert_insert_eq in Hl, Hok2. exists (i :: l), a, w2. split; [|done]. simpl. by rewrite Hs.
Qed.

Lemma all_return ps w : pool_ok ps w ->
  exists l ps' w', pool_exec l (ps, st w) = Some (Ok (ps', st w')) /\ pool_ok ps' w' /\ Forall returned ps'.
Proof.
  intros Hok. assert (Hk : forall k, (k <= n)%nat -> exists l ps' w', pool_exec l (ps, st w) = Some (Ok (ps', st w')) /\
    pool_ok ps' w' /\ forall j p, (j < k)%nat -> ps' !! j = Some p -> returned p).
  { intros k. induction k as [|k IH]; intros Hkn.
    - exists [], ps, w. split; [done|]. split; [done|]. lia.
    - destruct IH as (l & ps1 & w1 & Hl & Hok1 & Hd); [lia|].
      destruct (lookup_lt_is_Some_2 ps1 k) as [p Hp]; [destruct Hok1 as [-> _]; lia|].
      destruct (run_thread k ps1 w1 p Hok1 Hp) as (l2 & a & w2 & Hl2 & Hok2).
      exists (l ++ l2), (<[k := Done a]> ps1), w2. split; [by rewrite pool_exec_app, Hl|]. split; [done|].
      intros j q Hj Hq. apply list_lookup_insert_Some in Hq as [(<- & <- & _)|(Hne & Hq)]; [by exists a|].
      apply (Hd j); [lia|done]. }
  destruct (Hk n) as (l & ps' & w' & Hl & Hok' & Hd); [done|]. exists l, ps', w'. split; [done|]. split; [done|].
  apply Forall_lookup. intros j p Hp. apply (Hd j); [|done]. destruct Hok' as [<- _]. by eapply lookup_lt_Some.
Qed.
End RelyGuarantee.

(** ** Reasoning with local states

    What a thread knows is a local state [L]; the steps of others do not
    change what it describes. *)

Section Local.
Context {S W L : Type} (st : W -> S) (Inv : W -> Prop) (R G : W -> W -> Prop) (knows : L -> W -> Prop).
Context `{!Reflexive R}.
Hypothesis knows_stable : forall l w w', knows l w -> R w w' -> Inv w' -> knows l w'.

(** One step, from local state [l]. *)
Definition does {A} (m : M S A) (l : L) (Q : A -> L -> Prop) : Prop :=
  forall w, Inv w -> knows l w ->
    wp m (fun a s' => exists w' l', st w' = s' /\ G w w' /\ Inv w' /\ knows l' w' /\ Q a l') (st w).

Definition runs {A} (p : prog S A) (l : L) (Q : A -> L -> Prop) : Prop :=
  forall w, Inv w -> knows l w -> rg st Inv R G p (fun a w' => exists l', knows l' w' /\ Q a l') w.

Lemma runs_done {A} (a : A) l (Q : A -> L -> Prop) : Q a l -> runs (Done a) l Q.
Proof. intros HQ w Hi Hk w' HR Hi'. exists l. split; [by eapply knows_stable|done]. Qed.

Lemma runs_bind {A B} (p : prog S A) (f : A -> prog S B) l (P : A -> L -> Prop) (Q : B -> L -> Prop) :
  runs p l P -> (forall a l', P a l' -> runs (f a) l' Q) -> runs (pbind p f) l Q.
Proof.
  intros Hp Hf w Hi Hk. eapply rg_bind; [done|by apply Hp|]. intros a w' Hi' (l' & Hk' & HP). by apply (Hf a l').
Qed.

Lemma runs_step {A B} (m : M S A) (f : A -> prog S B) l (P : A -> L -> Prop) (Q : B -> L -> Prop) :
  does m l P -> (forall a l', P a l' -> runs (f a) l' Q) -> runs (pbind (op m) f) l Q.
Proof.
  intros Hm Hf w Hi Hk w' HR Hi'. eapply wp_mono; [apply Hm; [done|by eapply knows_stable]|].
  intros a s' (w2 & l' & Hst & HG & Hi2 & Hk2 & HP). exists w2. split_and!; [done..|]. by apply (Hf a l').
Qed.

Lemma runs_mono {A} (p : prog S A) l (Q Q' : A -> L -> Prop) :
  runs p l Q -> (forall a l', Q a l' -> Q' a l') -> runs p l Q'.
Proof. intros Hp HQ w Hi Hk. eapply rg_mono; [by apply Hp|]. intros a w' _ (l' & ? & ?). eauto. Qed.
End Local.
