(* ===== verification/Queue.v ===== *)
(** * The process queues of [src/queue.c] and [include/queue.h]

    [queue_t] is the array of [MAX_QUEUE_SIZE] process pointers with its
    [size]; the operations shift the array as the C loops do.  [Module spec]
    is the abstract queue (a list of pointers), [contents] the abstraction
    function, and the [*_refines] lemmas the simulation the scheduler uses.
    Process pointers are addresses ([Z]) with [NULL = 0]. *)

From S2P Require Import Prelude.

Definition MAX_QUEUE_SIZE : Z := 50.

Record queue_t := mk_queue { proc : list Z; size : Z }.

Definition set_proc (a : list Z) (q : queue_t) : queue_t := mk_queue a (size q).
Definition set_size (n : Z) (q : queue_t) : queue_t := mk_queue (proc q) n.

(** [empty]: a NULL queue counts as empty. *)
Definition empty (q : option queue_t) : bool :=
  match q with
  | None => true
  | Some q => size q =? 0
  end.

(** [enqueue]: a full queue drops the process silently. *)
Definition enqueue (p : Z) : M queue_t unit :=
  let* sz := gets size in
  if sz <? MAX_QUEUE_SIZE then
    let* a := gets proc in
    let* a' := from_opt (arr_set a sz p) in
    modify (set_proc a') ;;;
    modify (set_size (sz + 1))
  else ret tt.

(** The loop [for (j = i; j < size - 1; j++) proc[j] = proc[j + 1]], where
    [n] is the number of iterations left. *)
Fixpoint shift_down (n : nat) (j : Z) (a : list Z) : option (list Z) :=
  match n with
  | O => Some a
  | S n =>
      match arr_get a (j + 1) with
      | Some v =>
          match arr_set a j v with
          | Some a' => shift_down n (j + 1) a'
          | None => None
          end
      | None => None
      end
  end.

(** [dequeue] under MLQ_SCHED. *)
Definition dequeue : M queue_t Z :=
  let* q := gets (fun q => q) in
  if empty (Some q) then ret NULL
  else
    let* p := from_opt (arr_get (proc q) 0) in
    let* a := from_opt (shift_down (Z.to_nat (size q - 1)) 0 (proc q)) in
    modify (set_proc a) ;;;
    modify (set_size (size q - 1)) ;;;
    ret p.

(** The search loop of [purgequeue]: the first index from [i] holding [p];
    [n] is the number of cells left to look at. *)
Fixpoint find_proc (n : nat) (i : Z) (p : Z) (a : list Z) : option (option Z) :=
  match n with
  | O => Some None
  | S n =>
      match arr_get a i with
      | Some v => if v =? p then Some (Some i) else find_proc n (i + 1) p a
      | None => None
      end
  end.

Definition purgequeue (p : Z) : M queue_t Z :=
  let* q := gets (fun q => q) in
  if empty (Some q) || (p =? NULL) then ret NULL
  else
    let* found := from_opt (find_proc (Z.to_nat (size q)) 0 p (proc q)) in
    match found with
    | Some i =>
        let* removed := from_opt (arr_get (proc q) i) in
        let* a := from_opt (shift_down (Z.to_nat (size q - 1 - i)) i (proc q)) in
        modify (set_proc a) ;;;
        modify (set_size (size q - 1)) ;;;
        ret removed
    | None => ret NULL
    end.

(** ** The abstract queue *)
Module spec.
Definition enqueue (p : Z) (l : list Z) : list Z :=
  if Z.of_nat (length l) <? MAX_QUEUE_SIZE then l ++ [p] else l.
Definition dequeue (l : list Z) : Z * list Z :=
  match l with [] => (NULL, []) | p :: l' => (p, l') end.
(** Remove the first occurrence of [p]. *)
Fixpoint remove (p : Z) (l : list Z) : list Z :=
  match l with
  | [] => []
  | x :: l' => if x =? p then l' else x :: remove p l'
  end.
Definition purge (p : Z) (l : list Z) : Z * list Z :=
  if (p =? NULL) || negb (bool_decide (p ∈ l)) then (NULL, l) else (p, remove p l).
End spec.

Definition contents (q : queue_t) : list Z := take (Z.to_nat (size q)) (proc q).

Definition queue_wf (q : queue_t) : Prop :=
  Z.of_nat (length (proc q)) = MAX_QUEUE_SIZE /\ 0 <= size q <= MAX_QUEUE_SIZE.

#[export] Instance queue_wf_dec q : Decision (queue_wf q).
Proof. unfold queue_wf. apply _. Defined.

(** A queue just after static initialisation or [size = 0]. *)
Definition queue0 : queue_t := mk_queue (replicate 50 NULL) 0.

Lemma queue0_wf : queue_wf queue0.
Proof. split; vm_compute; done. Qed.

(** ** The array loops *)

Lemma shift_down_spec n a (i : nat) :
  (i + n < length a)%nat ->
  shift_down n (Z.of_nat i) a
    = Some (take i a ++ take n (drop (S i) a) ++ drop (i + n) a).
Proof.
  revert a i. induction n as [|n IH]; intros a i Hlen; simpl.
  - by rewrite Nat.add_0_r, take_drop.
  - destruct (lookup_lt_is_Some_2 a (S i)) as [v Hv]; [lia|].
    replace (Z.of_nat i + 1) with (Z.of_nat (S i)) by lia.
    replace (arr_get a (Z.of_nat (S i))) with (Some v)
      by (symmetry; apply arr_get_Some; rewrite Nat2Z.id; split; [lia|done]).
    rewrite arr_set_Some by lia. rewrite Nat2Z.id.
    rewrite IH by (rewrite length_insert; lia).
    f_equal.
    rewrite (drop_insert_lt a (S (S i)) i) by lia.
    rewrite (drop_insert_lt a (S i + n) i) by lia.
    rewrite (drop_S a v (S i)) by done.
    replace (i + S n)%nat with (S i + n)%nat by lia.
    rewrite (take_S_r (<[i:=v]> a) i v) by (apply list_lookup_insert_eq; lia).
    rewrite take_insert_ge by lia. simpl. by rewrite <- !app_assoc.
Qed.

(** Dropping cell [i] of the first [size] cells. *)
Lemma shift_down_contents q (i : nat) a :
  queue_wf q -> (i < Z.to_nat (size q))%nat ->
  shift_down (Z.to_nat (size q - 1 - Z.of_nat i)) (Z.of_nat i) (proc q) = Some a ->
  queue_wf (mk_queue a (size q - 1)) /\
  contents (mk_queue a (size q - 1)) = delete i (contents q).
Proof.
  intros [Hl Hs] Hi. unfold MAX_QUEUE_SIZE in *.
  set (n := Z.to_nat (size q - 1 - Z.of_nat i)).
  rewrite shift_down_spec by lia. intros [= <-].
  assert (Hn : (i + n = Z.to_nat (size q - 1))%nat) by lia.
  split.
  - split; unfold MAX_QUEUE_SIZE; simpl; [|lia].
    rewrite !length_app, !length_take, !length_drop. lia.
  - unfold contents; simpl. rewrite <- Hn, delete_take_drop, app_assoc.
    rewrite take_app_le by (rewrite length_app, !length_take, length_drop; lia).
    rewrite take_ge by (rewrite length_app, !length_take, length_drop; lia).
    f_equal.
    + rewrite take_take. f_equal. lia.
    + rewrite skipn_firstn_comm. f_equal. lia.
Qed.

Lemma shift_down_total q (i : nat) :
  queue_wf q -> (i < Z.to_nat (size q))%nat ->
  exists a, shift_down (Z.to_nat (size q - 1 - Z.of_nat i)) (Z.of_nat i) (proc q) = Some a.
Proof.
  intros [Hl Hs] Hi. unfold MAX_QUEUE_SIZE in *. rewrite shift_down_spec by lia. eauto.
Qed.

(** ** Refinement of the abstract queue *)

Lemma contents_length q : queue_wf q -> length (contents q) = Z.to_nat (size q).
Proof. intros [Hl Hs]. unfold contents. rewrite length_take. lia. Qed.

Lemma contents_lookup q (i : nat) :
  (i < Z.to_nat (size q))%nat -> contents q !! i = proc q !! i.
Proof. intros Hi. unfold contents. by apply lookup_take_lt. Qed.

Lemma empty_contents q : queue_wf q -> empty (Some q) = true <-> contents q = [].
Proof.
  intros Hwf. pose proof (contents_length q Hwf) as Hlen. simpl.
  rewrite Z.eqb_eq. destruct Hwf as [_ Hs]. split.
  - intros H0. apply nil_length_inv. rewrite Hlen. lia.
  - intros H0. rewrite H0 in Hlen. simpl in Hlen. lia.
Qed.

Lemma enqueue_refines p q :
  queue_wf q ->
  wp (enqueue p) (fun _ q' => queue_wf q' /\ contents q' = spec.enqueue p (contents q)) q.
Proof.
  intros Hwf. unfold enqueue, spec.enqueue.
  rewrite contents_length by done. destruct Hwf as [Hl Hs].
  wp_steps. replace (Z.of_nat (Z.to_nat (size q))) with (size q) by lia.
  destruct (Z.ltb_spec (size q) MAX_QUEUE_SIZE) as [Hlt|Hge].
  - wp_steps. rewrite arr_set_Some by lia. wp_steps.
    split; [split; simpl; [rewrite length_insert|]; lia|].
    unfold contents; simpl.
    replace (Z.to_nat (size q + 1)) with (S (Z.to_nat (size q))) by lia.
    rewrite (take_S_r _ _ p) by (apply list_lookup_insert_eq; lia).
    by rewrite take_insert_ge by lia.
  - wp_steps. done.
Qed.

Lemma dequeue_refines q :
  queue_wf q ->
  wp dequeue (fun p q' => queue_wf q' /\ (p, contents q') = spec.dequeue (contents q)) q.
Proof.
  intros Hwf. unfold dequeue. wp_steps.
  destruct (empty (Some q)) eqn:He.
  - wp_steps. apply empty_contents in He; [|done]. by rewrite He.
  - assert (Hs : (0 < Z.to_nat (size q))%nat).
    { simpl in He. apply Z.eqb_neq in He. destruct Hwf as [_ ?]. lia. }
    destruct (lookup_lt_is_Some_2 (contents q) 0) as [p Hp];
      [by rewrite contents_length|].
    assert (Hp' : arr_get (proc q) 0 = Some p).
    { apply arr_get_Some. split; [lia|]. by rewrite <- contents_lookup. }
    destruct (shift_down_total q 0) as [a Ha]; [done|lia|].
    destruct (shift_down_contents q 0 a) as [Hwf' Hc]; [done|lia|done|].
    replace (size q - 1 - Z.of_nat 0) with (size q - 1) in Ha by lia.
    change (Z.of_nat 0) with 0 in Ha. wp_steps.
    split; [done|]. unfold set_size, set_proc; simpl. rewrite Hc.
    destruct (contents q) as [|x l]; simplify_eq/=. done.
Qed.

Lemma find_proc_spec n (i : nat) p a :
  (i + n <= length a)%nat ->
  match find_proc n (Z.of_nat i) p a with
  | Some (Some j) => exists k : nat, j = Z.of_nat k /\ (i <= k < i + n)%nat /\
                       a !! k = Some p /\ spec.remove p (take n (drop i a)) = delete (k - i)%nat (take n (drop i a))
  | Some None => p ∉ take n (drop i a)
  | None => False
  end.
Proof.
  revert i. induction n as [|n IH]; intros i Hlen; simpl; [apply not_elem_of_nil|].
  destruct (lookup_lt_is_Some_2 a i) as [v Hv]; [lia|].
  replace (arr_get a (Z.of_nat i)) with (Some v)
    by (symmetry; apply arr_get_Some; rewrite Nat2Z.id; split; [lia|done]).
  rewrite (drop_S a v i) by done.
  destruct (Z.eqb_spec v p) as [->|Hne].
  - exists i. rewrite Nat.sub_diag. simpl. rewrite Z.eqb_refl.
    split_and!; done || lia.
  - specialize (IH (S i) ltac:(lia)).
    replace (Z.of_nat i + 1) with (Z.of_nat (S i)) by lia.
    destruct (find_proc n (Z.of_nat (S i)) p a) as [[j|]|]; simpl.
    + destruct IH as (k & -> & Hk & Ha & Hr). exists k.
      apply Z.eqb_neq in Hne. rewrite Hne, Hr.
      split_and!; [done|lia|lia|done|].
      by replace (k - i)%nat with (S (k - S i)) by lia.
    + apply not_elem_of_cons. done.
    + done.
Qed.

Lemma purgequeue_refines p q :
  queue_wf q ->
  wp (purgequeue p) (fun r q' => queue_wf q' /\ (r, contents q') = spec.purge p (contents q)) q.
Proof.
  intros Hwf. unfold purgequeue, spec.purge. wp_steps.
  destruct (empty (Some q)) eqn:He.
  { wp_steps. apply empty_contents in He; [|done]. rewrite He.
    destruct (Z.eqb_spec p NULL); split; done. }
  destruct (Z.eqb_spec p NULL) as [->|Hp]; simpl; [wp_steps; done|].
  pose proof (find_proc_spec (Z.to_nat (size q)) 0 p (proc q)) as Hf.
  specialize (Hf ltac:(destruct Hwf; unfold MAX_QUEUE_SIZE in *; lia)).
  change (Z.of_nat 0) with 0 in Hf. rewrite drop_0 in Hf. fold (contents q) in Hf.
  destruct (find_proc _ _ _ _) as [[j|]|]; [| |done].
  - simpl in Hf. destruct Hf as (k & -> & Hk & Hget & Hrem). rewrite Nat.sub_0_r in Hrem.
    destruct (shift_down_total q k) as [a Ha]; [done|lia|].
    destruct (shift_down_contents q k a) as [Hwf' Hc]; [done|lia|done|].
    assert (Hg : arr_get (proc q) (Z.of_nat k) = Some p)
      by (apply arr_get_Some; rewrite Nat2Z.id; split; [lia|done]).
    wp_steps. split; [done|]. unfold set_size, set_proc; simpl. rewrite Hc.
    rewrite bool_decide_eq_true_2; [simpl; by rewrite Hrem|].
    apply list_elem_of_lookup. exists k. by rewrite contents_lookup by lia.
  - wp_steps. split; [done|]. by rewrite bool_decide_eq_false_2.
Qed.

(** ** Histories of queue operations *)

Inductive qop := Enq (p : Z) | Deq | Purge (p : Z).

(** Run a history on the array queue; enqueues answer [NULL]. *)
Fixpoint run_qops (ops : list qop) : M queue_t (list Z) :=
  match ops with
  | [] => ret []
  | op :: ops =>
      let* r := match op with
                | Enq p => enqueue p ;;; ret NULL
                | Deq => dequeue
                | Purge p => purgequeue p
                end in
      let* rs := run_qops ops in ret (r :: rs)
  end.

Fixpoint spec_qops (ops : list qop) (l : list Z) : list Z * list Z :=
  match ops with
  | [] => ([], l)
  | op :: ops =>
      let '(r, l1) := match op with
                      | Enq p => (NULL, spec.enqueue p l)
                      | Deq => spec.dequeue l
                      | Purge p => spec.purge p l
                      end in
      let '(rs, l2) := spec_qops ops l1 in (r :: rs, l2)
  end.

Lemma run_qops_from ops q :
  queue_wf q ->
  wp (run_qops ops) (fun rs q' => queue_wf q' /\ (rs, contents q') = spec_qops ops (contents q)) q.
Proof.
  revert q. induction ops as [|op ops IH]; intros q Hwf; simpl; [wp_steps; done|].
  set (r1 := match op with Enq p => _ | Deq => _ | Purge p => _ end).
  assert (Hop : wp r1 (fun r q1 => queue_wf q1 /\ (r, contents q1) =
            match op with
            | Enq p => (NULL, spec.enqueue p (contents q))
            | Deq => spec.dequeue (contents q)
            | Purge p => spec.purge p (contents q)
            end) q).
  { destruct op as [p| |p]; subst r1.
    - wp_call enqueue_refines; [done|]. intros _ q1 [Hwf1 Hc1]. wp_steps. by rewrite Hc1.
    - by apply dequeue_refines.
    - by apply purgequeue_refines. }
  wp_call Hop. intros r q1 [Hwf1 <-].
  wp_call IH; [done|]. intros rs q2 [Hwf2 <-]. wp_steps. done.
Qed.

(** C35 (refinement): from an empty queue, every history of [enqueue],
    [dequeue] and [purgequeue] runs on the 50-cell array without undefined
    behaviour, keeps [0 <= size <= MAX_QUEUE_SIZE], and returns and leaves
    what the same history does on the abstract FIFO list of capacity 50
    (enqueue at the back when there is room, dequeue at the front, purge of
    the first occurrence). *)
Theorem queue_history_refines ops :
  wp (run_qops ops)
     (fun rs q' => queue_wf q' /\ (rs, contents q') = spec_qops ops []) queue0.
Proof. apply (run_qops_from ops queue0 queue0_wf). Qed.
