(* ===== verification/Sched.v ===== *)
(** * The multi-level-queue scheduler of [src/sched.c] (MLQ_SCHED)

    [sched] holds the static variables of the file.  Every operation runs
    under [queue_lock] for its whole body, so an operation is one step and a
    history of operations ([run_sops]) is an interleaving of the CPUs' and
    the loader's calls.  [Module aspec] is the abstract policy: per-level
    FIFO lists with a slot budget. *)

From S2P Require Import Prelude Queue.

Definition MAX_PRIO : Z := 140.

Record sched := mk_sched {
  ready_queue : queue_t;
  run_queue : queue_t;
  running_list : queue_t;
  mlq_ready_queue : list queue_t;
  slot : list Z;
  (** [krnl->ready_queue], [krnl->mlq_ready_queue] and [krnl->running_list]
      point to the queues above. *)
  krnl_queues_set : bool;
}.

Definition set_running (q : queue_t) (s : sched) : sched :=
  mk_sched (ready_queue s) (run_queue s) q (mlq_ready_queue s) (slot s) (krnl_queues_set s).
Definition set_mlq (qs : list queue_t) (s : sched) : sched :=
  mk_sched (ready_queue s) (run_queue s) (running_list s) qs (slot s) (krnl_queues_set s).
Definition set_slot (sl : list Z) (s : sched) : sched :=
  mk_sched (ready_queue s) (run_queue s) (running_list s) (mlq_ready_queue s) sl (krnl_queues_set s).
Definition set_krnl_queues (s : sched) : sched :=
  mk_sched (ready_queue s) (run_queue s) (running_list s) (mlq_ready_queue s) (slot s) true.

(** The loop of [queue_empty] over the levels from [prio]; [n] levels left. *)
Fixpoint some_ready (n : nat) (prio : Z) (qs : list queue_t) : option bool :=
  match n with
  | O => Some false
  | S n =>
      match arr_get qs prio with
      | Some q => if negb (empty (Some q)) then Some true else some_ready n (prio + 1) qs
      | None => None
      end
  end.

(** [queue_empty]: -1 when a level holds a process. *)
Definition queue_empty : M sched Z :=
  let* s := gets (fun s => s) in
  let* r := from_opt (some_ready (Z.to_nat MAX_PRIO) 0 (mlq_ready_queue s)) in
  if r then ret (-1)
  else ret (Z.b2z (empty (Some (ready_queue s)) && empty (Some (run_queue s)))).

(** The slot table [slot[prio] = MAX_PRIO - prio] written by
    [init_scheduler] and by the refill loop of [get_mlq_proc]. *)
Definition full_slots : list Z := map (fun i => MAX_PRIO - Z.of_nat i) (seq 0 (Z.to_nat MAX_PRIO)).

Definition init_scheduler : M sched unit :=
  modify (fun s => mk_sched (set_size 0 (ready_queue s)) (set_size 0 (run_queue s))
                            (set_size 0 (running_list s))
                            (map (set_size 0) (mlq_ready_queue s)) full_slots
                            (krnl_queues_set s)).

(** An operation on the ready queue of level [prio]. *)
Definition on_level {A} (prio : Z) (m : M queue_t A) : M sched A :=
  zoom (fun s => arr_get (mlq_ready_queue s) prio)
       (fun q s => set_mlq (<[Z.to_nat prio := q]> (mlq_ready_queue s)) s) m.
Definition on_running {A} (m : M queue_t A) : M sched A :=
  zoom (fun s => Some (running_list s)) set_running m.

(** First loop of [get_mlq_proc], from level [prio] with [n] levels left. *)
Fixpoint pick_proc (n : nat) (prio : Z) : M sched Z :=
  match n with
  | O => ret NULL
  | S n =>
      let* s := gets (fun s => s) in
      let* q := from_opt (arr_get (mlq_ready_queue s) prio) in
      let* sl := from_opt (arr_get (slot s) prio) in
      if negb (empty (Some q)) && (0 <? sl) then
        let* p := on_level prio dequeue in
        let* slots := from_opt (arr_set (slot s) prio (sl - 1)) in
        modify (set_slot slots) ;;;
        ret p
      else pick_proc n (prio + 1)
  end.

Definition get_mlq_proc : M sched Z :=
  let* p := pick_proc (Z.to_nat MAX_PRIO) 0 in
  (if negb (p =? NULL) then on_running (enqueue p) else ret tt) ;;;
  (if p =? NULL then
     let* e := queue_empty in
     if e =? -1 then modify (set_slot full_slots) else ret tt
   else ret tt) ;;;
  ret p.

(** [p] is the process, [prio] its [proc->prio]. *)
Definition put_mlq_proc (p prio : Z) : M sched unit :=
  modify set_krnl_queues ;;;
  on_running (purgequeue p) ;;;
  on_level prio (enqueue p).

Definition add_mlq_proc (p prio : Z) : M sched unit :=
  modify set_krnl_queues ;;;
  on_level prio (enqueue p).

Definition get_proc : M sched Z := get_mlq_proc.
Definition put_proc (p prio : Z) : M sched unit := put_mlq_proc p prio.
Definition add_proc (p prio : Z) : M sched unit := add_mlq_proc p prio.

(** ** Abstract policy *)
Module aspec.
Record st := mk { ready : list (list Z); running : list Z; slots : list Z }.

Inductive event :=
| Dispatched (lvl : nat) (p : Z)  (** the head of level [lvl] is dispatched *)
| Refilled                         (** no level had budget: budgets are refilled *)
| Idle                             (** nothing to run *)
| Queued.                          (** a process is put on a level *)

Definition eligible (r : list Z) (k : Z) : bool :=
  match r with [] => false | _ => 0 <? k end.

(** The first level with a waiting process and budget left. *)
Fixpoint pick (rs : list (list Z)) (sl : list Z) : option nat :=
  match rs, sl with
  | r :: rs, k :: sl => if eligible r k then Some O else S <$> pick rs sl
  | _, _ => None
  end.

Definition waiting (r : list Z) : bool := match r with [] => false | _ => true end.

Definition get (s : st) : event * st :=
  match pick (ready s) (slots s) with
  | Some i =>
      match ready s !! i with
      | Some (p :: l) =>
          (Dispatched i p, mk (<[i := l]> (ready s)) (Queue.spec.enqueue p (running s))
                              (alter (fun k => k - 1) i (slots s)))
      | _ => (Idle, s)
      end
  | None => if existsb waiting (ready s)
            then (Refilled, mk (ready s) (running s) full_slots) else (Idle, s)
  end.

Definition add (p : Z) (i : nat) (s : st) : st :=
  mk (alter (Queue.spec.enqueue p) i (ready s)) (running s) (slots s).
Definition put (p : Z) (i : nat) (s : st) : st :=
  add p i (mk (ready s) (Queue.spec.purge p (running s)).2 (slots s)).

Definition result (e : event) : Z := match e with Dispatched _ p => p | _ => NULL end.
End aspec.

Definition sched_abs (s : sched) : aspec.st :=
  aspec.mk (contents <$> mlq_ready_queue s) (contents (running_list s)) (slot s).

(** Well-formed scheduler state: all queues well formed, [MAX_PRIO] levels,
    every slot between 0 and its budget, no NULL process waiting. *)
Record sched_wf (s : sched) : Prop := {
  wf_running : queue_wf (running_list s);
  wf_ready : queue_wf (ready_queue s);
  wf_run : queue_wf (run_queue s);
  wf_levels : Forall queue_wf (mlq_ready_queue s);
  wf_nlevels : length (mlq_ready_queue s) = Z.to_nat MAX_PRIO;
  wf_nslots : length (slot s) = Z.to_nat MAX_PRIO;
  wf_slots : forall (i : nat) k, slot s !! i = Some k -> 0 <= k <= MAX_PRIO - Z.of_nat i;
  wf_procs : Forall (fun q => NULL ∉ contents q) (mlq_ready_queue s);
}.

Lemma full_slots_lookup (i : nat) :
  (i < Z.to_nat MAX_PRIO)%nat -> full_slots !! i = Some (MAX_PRIO - Z.of_nat i).
Proof.
  intros Hi. unfold full_slots. rewrite list_lookup_fmap, lookup_seq_lt by done. done.
Qed.

Lemma full_slots_length : length full_slots = Z.to_nat MAX_PRIO.
Proof. unfold full_slots. by rewrite length_map, length_seq. Qed.

Lemma full_slots_bounds (i : nat) k :
  full_slots !! i = Some k -> 0 <= k <= MAX_PRIO - Z.of_nat i.
Proof.
  intros H. assert (Hi : (i < Z.to_nat MAX_PRIO)%nat)
    by (rewrite <- full_slots_length; by eapply lookup_lt_Some).
  rewrite full_slots_lookup in H by done. unfold MAX_PRIO in *. simplify_eq. lia.
Qed.

Lemma pick_Some rs sl i :
  aspec.pick rs sl = Some i ->
  exists p l k, rs !! i = Some (p :: l) /\ sl !! i = Some k /\ 0 < k /\
    forall (j : nat) r k', (j < i)%nat -> rs !! j = Some r -> sl !! j = Some k' ->
                           aspec.eligible r k' = false.
Proof.
  revert sl i. induction rs as [|r rs IH]; intros [|k sl] i; simpl; try done.
  destruct (aspec.eligible r k) eqn:He.
  - intros [= <-]. destruct r as [|p l]; [done|]. simpl in He.
    exists p, l, k. split_and!; [done|done|lia|]. lia.
  - rewrite fmap_Some. intros (i' & Hi & ->). destruct (IH _ _ Hi) as (p & l & k1 & ? & ? & ? & Hlt).
    exists p, l, k1. split_and!; try done. intros [|j] r' k' Hj; simpl; [naive_solver|].
    apply Hlt. lia.
Qed.

Lemma pick_None rs sl (i : nat) r k :
  aspec.pick rs sl = None -> rs !! i = Some r -> sl !! i = Some k -> aspec.eligible r k = false.
Proof.
  revert sl i. induction rs as [|r' rs IH]; intros [|k' sl] [|i]; simpl; try done.
  - destruct (aspec.eligible r' k') eqn:He; naive_solver.
  - destruct (aspec.eligible r' k') eqn:He; [done|].
    rewrite fmap_None. eauto.
Qed.

(** ** Well-formedness is kept by replacing one part *)

Lemma sched_wf_level s (i : nat) q :
  sched_wf s -> queue_wf q -> NULL ∉ contents q ->
  sched_wf (set_mlq (<[i := q]> (mlq_ready_queue s)) s).
Proof.
  intros [] Hq Hn. split; simpl; try done.
  - by apply Forall_insert.
  - by rewrite length_insert.
  - by apply Forall_insert.
Qed.

Lemma sched_wf_running s q : sched_wf s -> queue_wf q -> sched_wf (set_running q s).
Proof. intros [] Hq. by split. Qed.

Lemma sched_wf_slots s sl :
  sched_wf s -> length sl = Z.to_nat MAX_PRIO ->
  (forall (i : nat) k, sl !! i = Some k -> 0 <= k <= MAX_PRIO - Z.of_nat i) ->
  sched_wf (set_slot sl s).
Proof. intros [] Hl Hb. by split. Qed.

Lemma sched_wf_krnl s : sched_wf s -> sched_wf (set_krnl_queues s).
Proof. intros []. by split. Qed.

Create HintDb sched.
#[export] Hint Resolve sched_wf_level sched_wf_running sched_wf_slots sched_wf_krnl
  full_slots_length full_slots_bounds : sched.

Lemma level_lookup s (i : nat) :
  sched_wf s -> (i < Z.to_nat MAX_PRIO)%nat ->
  exists q, mlq_ready_queue s !! i = Some q /\ queue_wf q /\ NULL ∉ contents q.
Proof.
  intros Hwf Hi. destruct (lookup_lt_is_Some_2 (mlq_ready_queue s) i) as [q Hq];
    [by rewrite wf_nlevels|].
  exists q. split; [done|]. split.
  - eapply (Forall_lookup_1 queue_wf); [apply wf_levels|]; done.
  - eapply (Forall_lookup_1 (fun q => NULL ∉ contents q)); [apply wf_procs|]; done.
Qed.

Lemma slot_lookup s (i : nat) :
  sched_wf s -> (i < Z.to_nat MAX_PRIO)%nat -> exists k, slot s !! i = Some k.
Proof. intros Hwf Hi. apply lookup_lt_is_Some_2. by rewrite wf_nslots. Qed.

Lemma arr_get_nat {A} (l : list A) (i : nat) : arr_get l (Z.of_nat i) = l !! i.
Proof. unfold arr_get. rewrite Nat2Z.id. destruct (Z.leb_spec 0 (Z.of_nat i)); [done|lia]. Qed.

Lemma wp_on_level {A} (i : nat) (m : M queue_t A) (Q : A -> sched -> Prop) s q :
  mlq_ready_queue s !! i = Some q ->
  wp m (fun a q' => Q a (set_mlq (<[i := q']> (mlq_ready_queue s)) s)) q ->
  wp (on_level (Z.of_nat i) m) Q s.
Proof.
  intros Hq Hm. unfold on_level. eapply wp_zoom; [rewrite arr_get_nat; done|].
  eapply wp_mono; [exact Hm|]. intros a q'. by rewrite Nat2Z.id.
Qed.

Lemma wp_on_running {A} (m : M queue_t A) (Q : A -> sched -> Prop) s :
  wp m (fun a q' => Q a (set_running q' s)) (running_list s) -> wp (on_running m) Q s.
Proof. intros Hm. unfold on_running. by eapply wp_zoom. Qed.

(** ** Refinement of the policy *)

Lemma eligible_queue q k :
  queue_wf q -> negb (empty (Some q)) && (0 <? k) = aspec.eligible (contents q) k.
Proof.
  intros Hwf. pose proof (empty_contents q Hwf) as He. unfold aspec.eligible.
  destruct (empty (Some q)), (contents q); simpl; try done.
  - destruct He as [He _]. by specialize (He eq_refl).
  - destruct He as [_ He]. by specialize (He eq_refl).
Qed.

Lemma pick_proc_refines n (i : nat) s :
  sched_wf s -> (i + n = Z.to_nat MAX_PRIO)%nat ->
  wp (pick_proc n (Z.of_nat i)) (fun p s' =>
    match aspec.pick (drop i (contents <$> mlq_ready_queue s)) (drop i (slot s)) with
    | Some j => exists l, (contents <$> mlq_ready_queue s) !! (i + j)%nat = Some (p :: l) /\
        p <> NULL /\ sched_wf s' /\
        sched_abs s' = aspec.mk (<[(i + j)%nat := l]> (contents <$> mlq_ready_queue s))
                         (contents (running_list s)) (alter (fun k => k - 1) (i + j)%nat (slot s))
    | None => p = NULL /\ s' = s
    end) s.
Proof.
  revert i. induction n as [|n IH]; intros i Hwf Hi.
  - rewrite !drop_ge by (rewrite ?length_fmap, ?wf_nlevels, ?wf_nslots by done; lia).
    simpl. wp_steps. done.
  - destruct (level_lookup s i Hwf) as (q & Hq & Hqwf & Hnn); [lia|].
    destruct (slot_lookup s i Hwf) as [k Hk]; [lia|].
    rewrite (drop_S _ (contents q) i) by (by rewrite list_lookup_fmap, Hq).
    rewrite (drop_S (slot s) k i) by done.
    cbn [pick_proc]. wp_steps. rewrite arr_get_nat, Hq. wp_steps.
    rewrite arr_get_nat, Hk. wp_steps. rewrite eligible_queue by done. simpl.
    destruct (aspec.eligible (contents q) k) eqn:He.
    + wp_steps. eapply wp_on_level; [done|]. wp_call dequeue_refines; [done|].
      intros p q' [Hwf' Hd].
      assert (Hki : (i < length (slot s))%nat) by (rewrite wf_nslots by done; lia).
      rewrite arr_set_Some by lia. wp_steps. rewrite Nat2Z.id, Nat.add_0_r.
      destruct (contents q) as [|x l] eqn:Hcq; [done|]. simpl in Hd.
      injection Hd as -> Hl. simpl in He.
      apply not_elem_of_cons in Hnn as [Hx Hnl].
      exists l. split_and!; [by rewrite list_lookup_fmap, Hq; simpl; rewrite Hcq|done| |].
      * pose proof (wf_slots _ Hwf i k Hk) as Hb.
        apply (sched_wf_slots (set_mlq _ s)); [apply sched_wf_level; [done|done|by rewrite Hl]| |].
        -- rewrite length_insert. by apply wf_nslots.
        -- intros j k'. rewrite list_lookup_insert. case_decide as Hc.
           ++ intros [= <-]. destruct Hc as [-> _]. lia.
           ++ by apply wf_slots.
      * unfold sched_abs; simpl. f_equal.
        -- by rewrite list_fmap_insert, Hl.
        -- by rewrite (list_alter_insert _ _ _ k).
    + replace (Z.of_nat i + 1) with (Z.of_nat (S i)) by lia.
      wp_call IH; [done|lia|]. intros p s'.
      destruct (aspec.pick _ _) as [j|]; simpl; [|done].
      by rewrite Nat.add_succ_r.
Qed.

Lemma some_ready_spec n (i : nat) qs :
  (i + n = length qs)%nat -> Forall queue_wf qs ->
  some_ready n (Z.of_nat i) qs = Some (existsb aspec.waiting (drop i (contents <$> qs))).
Proof.
  revert i. induction n as [|n IH]; intros i Hi Hwf; simpl.
  - by rewrite drop_ge by (rewrite length_fmap; lia).
  - destruct (lookup_lt_is_Some_2 qs i) as [q Hq]; [lia|].
    rewrite arr_get_nat, Hq, (drop_S _ (contents q) i) by (by rewrite list_lookup_fmap, Hq).
    pose proof (Forall_lookup_1 _ _ _ _ Hwf Hq) as Hqwf.
    pose proof (empty_contents q Hqwf) as He. simpl in He.
    replace (Z.of_nat i + 1) with (Z.of_nat (S i)) by lia.
    destruct (size q =? 0) eqn:Hs; simpl.
    + destruct He as [He _]. rewrite (He eq_refl). simpl. apply IH; [lia|done].
    + destruct (contents q); [|done]. destruct He as [_ He]. by specialize (He eq_refl).
Qed.

Lemma queue_empty_spec s :
  sched_wf s ->
  wp queue_empty (fun r s' => s' = s /\
     ((r =? -1) = existsb aspec.waiting (contents <$> mlq_ready_queue s))) s.
Proof.
  intros Hwf. unfold queue_empty. wp_steps.
  rewrite (some_ready_spec _ 0) by (rewrite ?wf_nlevels by done; try apply wf_levels; done).
  rewrite drop_0. wp_steps. destruct (existsb _ _); wp_steps; [done|].
  split; [done|]. destruct (_ && _); done.
Qed.

Lemma wp_enqueue_running p (Q : unit -> sched -> Prop) s :
  sched_wf s ->
  (forall s', sched_wf s' ->
     sched_abs s' = aspec.mk (contents <$> mlq_ready_queue s)
                      (spec.enqueue p (contents (running_list s))) (slot s) -> Q tt s') ->
  wp (on_running (enqueue p)) Q s.
Proof.
  intros Hwf HQ. apply wp_on_running. wp_call enqueue_refines; [by apply wf_running|].
  intros [] q' [Hwf' Hc]. apply HQ; [by apply sched_wf_running|].
  unfold sched_abs; simpl. by rewrite Hc.
Qed.

(** One call of [get_proc] implements one step of the policy. *)
Lemma get_proc_refines s :
  sched_wf s ->
  wp get_proc (fun p s' => sched_wf s' /\
     p = aspec.result (aspec.get (sched_abs s)).1 /\
     sched_abs s' = (aspec.get (sched_abs s)).2) s.
Proof.
  intros Hwf. unfold get_proc, get_mlq_proc, aspec.get, sched_abs at 1 2 3 4 5 6.
  cbn [aspec.ready aspec.slots aspec.running].
  wp_call (pick_proc_refines _ 0); [done|lia|]. intros p s1.
  rewrite !drop_0. destruct (aspec.pick _ _) as [i|].
  - intros (l & Hl & Hp & Hwf1 & Habs1). simpl in *. rewrite Hl.
    apply Z.eqb_neq in Hp. wp_steps. rewrite Hp. wp_steps.
    apply wp_enqueue_running; [done|]. intros s2 Hwf2 Habs2. rewrite ?Hp. wp_steps.
    split_and!; [done|done|]. rewrite Habs2. unfold sched_abs in Habs1.
    injection Habs1 as -> -> ->. done.
  - intros [-> ->]. wp_steps. rewrite Z.eqb_refl. wp_steps.
    wp_call queue_empty_spec; [done|]. intros r s2 [-> ->].
    destruct (existsb _ _); wp_steps; [|done].
    split_and!; [|done|done]. apply sched_wf_slots; auto with sched.
Qed.

Lemma add_level_refines p (i : nat) s :
  sched_wf s -> (i < Z.to_nat MAX_PRIO)%nat -> p <> NULL ->
  wp (on_level (Z.of_nat i) (enqueue p)) (fun _ s' => sched_wf s' /\
     sched_abs s' = aspec.add p i (sched_abs s)) s.
Proof.
  intros Hwf Hi Hp. destruct (level_lookup s i Hwf Hi) as (q & Hq & Hqwf & Hn).
  eapply wp_on_level; [done|]. wp_call enqueue_refines; [done|].
  intros _ q' [Hwf' Hc]. split.
  - apply sched_wf_level; [done|done|]. rewrite Hc. unfold spec.enqueue.
    destruct (_ <? _); [|done]. rewrite elem_of_app, list_elem_of_singleton.
    intros [?|?]; [done|by apply Hp].
  - unfold sched_abs, aspec.add; simpl. f_equal. rewrite list_fmap_insert, Hc.
    symmetry. apply list_alter_insert. by rewrite list_lookup_fmap, Hq.
Qed.

Lemma add_proc_refines p (i : nat) s :
  sched_wf s -> (i < Z.to_nat MAX_PRIO)%nat -> p <> NULL ->
  wp (add_proc p (Z.of_nat i)) (fun _ s' => sched_wf s' /\
     sched_abs s' = aspec.add p i (sched_abs s)) s.
Proof.
  intros Hwf Hi Hp. unfold add_proc, add_mlq_proc. wp_steps.
  wp_call (add_level_refines p i (set_krnl_queues s)); auto with sched.
Qed.

Lemma put_proc_refines p (i : nat) s :
  sched_wf s -> (i < Z.to_nat MAX_PRIO)%nat -> p <> NULL ->
  wp (put_proc p (Z.of_nat i)) (fun _ s' => sched_wf s' /\
     sched_abs s' = aspec.put p i (sched_abs s)) s.
Proof.
  intros Hwf Hi Hp. unfold put_proc, put_mlq_proc. wp_steps.
  apply wp_on_running. wp_call purgequeue_refines; [apply wf_running; auto with sched|].
  intros r q [Hq Hc].
  wp_call (add_level_refines p i); [by auto with sched|done|done|].
  intros _ s' [Hwf' Habs]. split; [done|]. rewrite Habs.
  unfold aspec.put, sched_abs; simpl in *. by rewrite <- Hc.
Qed.

(** ** Histories of scheduler calls *)

(** A call; levels are the values of [proc->prio]. *)
Inductive sop := Get | Put (p : Z) (lvl : nat) | Add (p : Z) (lvl : nat).

Definition valid_sop (op : sop) : Prop :=
  match op with
  | Get => True
  | Put p i | Add p i => p <> NULL /\ (i < Z.to_nat MAX_PRIO)%nat
  end.

Definition run_sop (op : sop) : M sched Z :=
  match op with
  | Get => get_proc
  | Put p i => put_proc p (Z.of_nat i) ;;; ret NULL
  | Add p i => add_proc p (Z.of_nat i) ;;; ret NULL
  end.

Fixpoint run_sops (ops : list sop) : M sched (list Z) :=
  match ops with
  | [] => ret []
  | op :: ops => let* r := run_sop op in let* rs := run_sops ops in ret (r :: rs)
  end.

Definition astep (op : sop) (s : aspec.st) : aspec.event * aspec.st :=
  match op with
  | Get => aspec.get s
  | Put p i => (aspec.Queued, aspec.put p i s)
  | Add p i => (aspec.Queued, aspec.add p i s)
  end.

Fixpoint arun (ops : list sop) (s : aspec.st) : list aspec.event * aspec.st :=
  match ops with
  | [] => ([], s)
  | op :: ops => let '(e, s1) := astep op s in
                 let '(es, s2) := arun ops s1 in (e :: es, s2)
  end.

Lemma run_sop_refines op s :
  sched_wf s -> valid_sop op ->
  wp (run_sop op) (fun r s' => sched_wf s' /\
     r = aspec.result (astep op (sched_abs s)).1 /\
     sched_abs s' = (astep op (sched_abs s)).2) s.
Proof.
  intros Hwf Hv. destruct op as [|p i|p i]; simpl run_sop; simpl astep.
  - by apply get_proc_refines.
  - destruct Hv as [Hp Hi]. wp_call (put_proc_refines p i); [done..|].
    intros _ s' [Hwf' Ha]. wp_steps. done.
  - destruct Hv as [Hp Hi]. wp_call (add_proc_refines p i); [done..|].
    intros _ s' [Hwf' Ha]. wp_steps. done.
Qed.

Lemma run_sops_refines ops s :
  sched_wf s -> Forall valid_sop ops ->
  wp (run_sops ops) (fun rs s' => sched_wf s' /\
     rs = aspec.result <$> (arun ops (sched_abs s)).1 /\
     sched_abs s' = (arun ops (sched_abs s)).2) s.
Proof.
  intros Hwf Hops. revert s Hwf. induction Hops as [|op ops Hop Hops IH]; intros s Hwf; simpl.
  - wp_steps. done.
  - wp_call run_sop_refines; [done|done|]. intros r s1 (Hwf1 & -> & Habs1).
    wp_call IH; [done|]. intros rs s2 (Hwf2 & -> & Habs2). wp_steps.
    destruct (astep op (sched_abs s)) as [e a1]; simpl in *. subst a1.
    destruct (arun ops (sched_abs s1)) as [es a2]; simpl in *. done.
Qed.

(** The state after [init_scheduler] on the zero-initialised statics. *)
Definition sched_static : sched :=
  mk_sched queue0 queue0 queue0 (replicate (Z.to_nat MAX_PRIO) queue0)
           (replicate (Z.to_nat MAX_PRIO) 0) false.
Definition sched_init : sched :=
  mk_sched queue0 queue0 queue0 (replicate (Z.to_nat MAX_PRIO) queue0) full_slots false.

Lemma init_scheduler_ok : init_scheduler sched_static = Ok (tt, sched_init).
Proof. reflexivity. Qed.

Lemma sched_init_wf : sched_wf sched_init.
Proof.
  split; cbn [mlq_ready_queue slot running_list ready_queue run_queue];
    try apply queue0_wf; auto with sched.
  - apply Forall_replicate, queue0_wf.
  - apply Forall_replicate. apply not_elem_of_nil.
Qed.

(** ** Budgets *)

(** Dispatches of level [i] since the last refill, given [n] before. *)
Fixpoint used_from (n : Z) (i : nat) (es : list aspec.event) : Z :=
  match es with
  | [] => n
  | aspec.Refilled :: es => used_from 0 i es
  | aspec.Dispatched j _ :: es => used_from (if decide (i = j) then n + 1 else n) i es
  | _ :: es => used_from n i es
  end.

Definition aspec_lens (s : aspec.st) : Prop :=
  length (aspec.ready s) = Z.to_nat MAX_PRIO /\ length (aspec.slots s) = Z.to_nat MAX_PRIO.

Lemma sched_abs_lens s : sched_wf s -> aspec_lens (sched_abs s).
Proof.
  intros Hwf. split; simpl; [rewrite length_fmap; by apply wf_nlevels|by apply wf_nslots].
Qed.

Lemma astep_lens op s : aspec_lens s -> aspec_lens (astep op s).2.
Proof.
  intros [Hr Hs]. destruct op; simpl.
  - unfold aspec.get. destruct (aspec.pick _ _) as [j|].
    + destruct (aspec.ready s !! j) as [[|p l]|]; simpl; try done.
      split; simpl; [by rewrite length_insert|by rewrite length_alter].
    + destruct (existsb _ _); simpl; [|done]. split; simpl; [done|apply full_slots_length].
  - split; simpl; by rewrite ?length_alter.
  - split; simpl; by rewrite ?length_alter.
Qed.

Lemma astep_budget op s (i : nat) n k :
  aspec_lens s -> (i < Z.to_nat MAX_PRIO)%nat ->
  aspec.slots s !! i = Some k -> k + n = MAX_PRIO - Z.of_nat i ->
  exists k', aspec.slots (astep op s).2 !! i = Some k' /\
    k' + used_from n i [(astep op s).1] = MAX_PRIO - Z.of_nat i.
Proof.
  intros [Hr Hs] Hi Hk Hn. destruct op; simpl; [|by exists k..].
  unfold aspec.get. destruct (aspec.pick _ _) as [j|] eqn:Hp.
  - destruct (pick_Some _ _ _ Hp) as (p & l & k1 & -> & Hk1 & _ & _). simpl.
    destruct (decide (i = j)) as [->|Hne].
    + exists (k - 1). rewrite list_lookup_alter_eq, Hk. simpl. split; [done|lia].
    + exists k. rewrite list_lookup_alter_ne by done. split; [done|lia].
  - destruct (existsb _ _); simpl; [|by exists k].
    exists (MAX_PRIO - Z.of_nat i). rewrite full_slots_lookup by done. split; [done|lia].
Qed.

Lemma used_from_cons n i e es : used_from n i (e :: es) = used_from (used_from n i [e]) i es.
Proof. by destruct e. Qed.

Lemma arun_budget ops s (i : nat) n k :
  aspec_lens s -> (i < Z.to_nat MAX_PRIO)%nat ->
  aspec.slots s !! i = Some k -> k + n = MAX_PRIO - Z.of_nat i ->
  exists k', aspec.slots (arun ops s).2 !! i = Some k' /\
    k' + used_from n i (arun ops s).1 = MAX_PRIO - Z.of_nat i.
Proof.
  revert s n k. induction ops as [|op ops IH]; intros s n k Hl Hi Hk Hn; simpl; [by exists k|].
  pose proof (astep_lens op s Hl) as Hl1.
  destruct (astep_budget op s i n k) as (k1 & Hk1 & Hn1); [done..|].
  destruct (astep op s) as [e s1]; simpl in *.
  destruct (IH s1 (used_from n i [e]) k1) as (k2 & Hk2 & Hn2); [done..|].
  destruct (arun ops s1) as [es s2]; simpl fst in *; simpl snd in *. exists k2.
  rewrite used_from_cons. done.
Qed.

(** C15 (refinement): the MLQ policy.  From [init_scheduler], any history of
    [get_proc]/[put_proc]/[add_proc] calls runs without undefined behaviour;
    its results are those of the abstract policy, in which a call of
    [get_proc] dispatches the head of the lowest-numbered non-empty level
    with budget, refills every budget when only exhausted levels wait, and
    otherwise returns NULL; and level [i] has been dispatched exactly
    [MAX_PRIO - i - slot[i]] times, hence at most [MAX_PRIO - i] times, since
    the last refill (the README's [slots = MAX_PRIO - priority]). *)
Theorem sched_history_policy ops :
  Forall valid_sop ops ->
  wp (init_scheduler ;;; run_sops ops)
     (fun rs s' => sched_wf s' /\
        let es := (arun ops (sched_abs sched_init)).1 in
        rs = aspec.result <$> es /\
        sched_abs s' = (arun ops (sched_abs sched_init)).2 /\
        forall i : nat, (i < Z.to_nat MAX_PRIO)%nat ->
          slot s' !! i = Some (MAX_PRIO - Z.of_nat i - used_from 0 i es) /\
          0 <= used_from 0 i es <= MAX_PRIO - Z.of_nat i) sched_static.
Proof.
  intros Hops. apply wp_bind. eapply wp_intro; [apply init_scheduler_ok|].
  wp_call run_sops_refines; [apply sched_init_wf|done|].
  intros rs s' (Hwf & Hrs & Habs). cbv zeta. split; [done|].
  split; [done|]. split; [done|]. intros i Hi.
  destruct (arun_budget ops (sched_abs sched_init) i 0 (MAX_PRIO - Z.of_nat i))
    as (k & Hk & Hn); [apply sched_abs_lens, sched_init_wf|done|by apply full_slots_lookup|lia|].
  rewrite <- Habs in Hk. simpl in Hk. pose proof (wf_slots _ Hwf i k Hk) as Hb.
  rewrite Hk. split; [f_equal; lia|]. lia.
Qed.

(** ** No starvation *)

Fixpoint sum (l : list Z) : Z := match l with [] => 0 | k :: l => k + sum l end.

Definition nonneg (l : list Z) : Prop := Forall (fun k => 0 <= k) l.

Lemma sum_nonneg l : nonneg l -> 0 <= sum l.
Proof. induction 1; simpl; lia. Qed.

Lemma sum_app l1 l2 : sum (l1 ++ l2) = sum l1 + sum l2.
Proof. induction l1; simpl; lia. Qed.

Lemma sum_take_le i l : nonneg l -> sum (take i l) <= sum l.
Proof.
  intros Hn. rewrite <- (take_drop i l) at 2. rewrite sum_app.
  pose proof (sum_nonneg (drop i l)) as H. unfold nonneg in *.
  specialize (H ltac:(by apply Forall_drop)). lia.
Qed.

Lemma sum_alter_pred l (j : nat) k :
  l !! j = Some k -> sum (alter (fun k => k - 1) j l) = sum l - 1.
Proof.
  revert j. induction l as [|x l IH]; intros [|j] Hj; simpl in *; try done.
  - injection Hj as ->. lia.
  - change (x + sum (alter (fun k => k - 1) j l) = x + sum l - 1). rewrite (IH j Hj). lia.
Qed.

(** Calls that can still be spent before level [i] is served. *)
Definition patience (i : nat) (sl : list Z) : Z :=
  if default 0 (sl !! i) =? 0 then sum sl + 1 + sum (take i full_slots) else sum (take i sl).

Lemma full_slots_nonneg : nonneg full_slots.
Proof.
  apply Forall_lookup_2. intros i k Hk. pose proof (full_slots_bounds i k Hk). lia.
Qed.

Lemma patience_bounds i sl :
  nonneg sl -> sum sl <= sum full_slots -> 0 <= patience i sl <= 2 * sum full_slots + 1.
Proof.
  intros Hn Hle. unfold patience.
  pose proof (sum_nonneg _ Hn). pose proof (sum_take_le i sl Hn).
  pose proof (sum_take_le i full_slots full_slots_nonneg).
  assert (0 <= sum (take i full_slots))
    by (apply sum_nonneg, Forall_take, full_slots_nonneg).
  assert (0 <= sum (take i sl)) by (apply sum_nonneg; by apply Forall_take).
  destruct (_ =? _); lia.
Qed.

Lemma waiting_existsb rs (i : nat) p l :
  rs !! i = Some (p :: l) -> existsb aspec.waiting rs = true.
Proof.
  intros Hi. apply existsb_exists. exists (p :: l). split; [|done].
  apply list_elem_of_In. by eapply list_elem_of_lookup_2.
Qed.

(** A [get_proc] either serves the head of level [i] or uses up patience. *)
Lemma get_patience s (i : nat) p l :
  aspec_lens s -> (i < Z.to_nat MAX_PRIO)%nat -> nonneg (aspec.slots s) ->
  aspec.ready s !! i = Some (p :: l) ->
  (aspec.get s).1 = aspec.Dispatched i p \/
  (aspec.ready (aspec.get s).2 !! i = Some (p :: l) /\
   patience i (aspec.slots (aspec.get s).2) < patience i (aspec.slots s)).
Proof.
  intros [Hr Hs] Hi Hn Hp. unfold aspec.get.
  destruct (lookup_lt_is_Some_2 (aspec.slots s) i) as [k Hk]; [by rewrite Hs|].
  assert (Hk0 : 0 <= k) by (eapply (Forall_lookup_1 _ _ _ _ Hn); done).
  destruct (aspec.pick _ _) as [j|] eqn:Hpick.
  - destruct (pick_Some _ _ _ Hpick) as (p1 & l1 & k1 & Hj & Hkj & Hpos & Hleast).
    rewrite Hj. destruct (decide (j = i)) as [->|Hne]; [left; simplify_eq; done|right].
    simpl. rewrite list_lookup_insert_ne by done. split; [done|].
    unfold patience. rewrite list_lookup_alter_ne, Hk by done. simpl.
    destruct (Z.eqb_spec k 0) as [->|Hk'].
    + rewrite (sum_alter_pred _ _ _ Hkj). lia.
    + assert (Hji : (j < i)%nat).
      { destruct (decide (i < j)%nat) as [Hlt|]; [|lia].
        pose proof (Hleast i _ _ Hlt Hp Hk) as He. simpl in He. lia. }
      rewrite take_alter_lt by done.
      rewrite (sum_alter_pred _ _ k1); [lia|]. by rewrite lookup_take_lt.
  - rewrite (waiting_existsb _ _ _ _ Hp). right. simpl. split; [done|].
    pose proof (pick_None _ _ _ _ _ Hpick Hp Hk) as He. simpl in He.
    unfold patience. rewrite Hk, full_slots_lookup by done. simpl.
    replace (k =? 0) with true by lia.
    replace (MAX_PRIO - Z.of_nat i =? 0) with false by (unfold MAX_PRIO in *; lia).
    pose proof (sum_nonneg _ Hn). lia.
Qed.

Fixpoint count_gets (ops : list sop) : Z :=
  match ops with
  | [] => 0
  | Get :: ops => 1 + count_gets ops
  | _ :: ops => count_gets ops
  end.

Lemma enqueue_head p x l : exists l', spec.enqueue p (x :: l) = x :: l'.
Proof. unfold spec.enqueue. destruct (_ <? _); simpl; eauto. Qed.

Lemma alter_enqueue_head (rs : list (list Z)) (i j : nat) x l p :
  rs !! i = Some (x :: l) ->
  exists l', alter (spec.enqueue p) j rs !! i = Some (x :: l').
Proof.
  intros Hi. destruct (decide (i = j)) as [->|Hne].
  - rewrite list_lookup_alter_eq, Hi. simpl. destruct (enqueue_head p x l) as [l' ->]. eauto.
  - rewrite list_lookup_alter_ne by done. eauto.
Qed.

Lemma sched_wf_nonneg s : sched_wf s -> nonneg (slot s).
Proof.
  intros Hwf. apply Forall_lookup_2. intros i k Hk.
  pose proof (wf_slots _ Hwf i k Hk). lia.
Qed.

Lemma sum_le l1 l2 :
  length l1 = length l2 ->
  (forall (i : nat) k1 k2, l1 !! i = Some k1 -> l2 !! i = Some k2 -> k1 <= k2) ->
  sum l1 <= sum l2.
Proof.
  revert l2. induction l1 as [|x l1 IH]; intros [|y l2] Hlen Hle; simpl in *; try done.
  pose proof (Hle O x y eq_refl eq_refl).
  specialize (IH l2 ltac:(lia) ltac:(intros i; apply (Hle (S i)))). lia.
Qed.

Lemma sched_wf_sum s : sched_wf s -> sum (slot s) <= sum full_slots.
Proof.
  intros Hwf. apply sum_le; [by rewrite wf_nslots, full_slots_length|].
  intros i k1 k2 Hk1 Hk2. pose proof (wf_slots _ Hwf i k1 Hk1).
  rewrite full_slots_lookup in Hk2; [by simplify_eq; lia|].
  rewrite <- full_slots_length. by eapply lookup_lt_Some.
Qed.

Lemma served_from ops s (i : nat) p l :
  sched_wf s -> Forall valid_sop ops -> (i < Z.to_nat MAX_PRIO)%nat ->
  aspec.ready (sched_abs s) !! i = Some (p :: l) ->
  patience i (slot s) < count_gets ops ->
  wp (run_sops ops) (fun rs _ => p ∈ rs) s.
Proof.
  intros Hwf Hops Hi. revert s l Hwf.
  induction Hops as [|op ops Hop Hops IH]; intros s l Hwf Hp Hcnt.
  { pose proof (patience_bounds i _ (sched_wf_nonneg s Hwf) (sched_wf_sum s Hwf)).
    simpl in Hcnt. lia. }
  cbn [run_sops]. wp_call run_sop_refines; [done|done|]. intros r s1 (Hwf1 & -> & Habs1).
  assert (Hkeep : forall l1, aspec.ready (sched_abs s1) !! i = Some (p :: l1) ->
            patience i (slot s1) < count_gets ops ->
            wp (let* rs := run_sops ops in
                ret (aspec.result (astep op (sched_abs s)).1 :: rs)) (fun rs _ => p ∈ rs) s1).
  { intros l1 Hp1 Hc1. wp_call (IH s1 l1 Hwf1 Hp1 Hc1). intros rs s2 Hin.
    wp_steps. by apply elem_of_cons; right. }
  destruct op as [|p1 j|p1 j]; simpl in Habs1.
  - destruct (get_patience (sched_abs s) i p l) as [Hd|[Hp1 Hlt]];
      [by apply sched_abs_lens|done|by apply sched_wf_nonneg|done| |].
    + simpl. rewrite Hd. wp_call run_sops_refines; [done|done|].
      intros rs s2 _. wp_steps. by apply elem_of_cons; left.
    + rewrite <- Habs1 in Hp1, Hlt. eapply Hkeep; [done|]. simpl in *. lia.
  - destruct (alter_enqueue_head (aspec.ready (sched_abs s)) i j p l p1 Hp) as [l1 Hl1].
    apply (Hkeep l1); [by rewrite Habs1|].
    change (slot s1) with (aspec.slots (sched_abs s1)). by rewrite Habs1.
  - destruct (alter_enqueue_head (aspec.ready (sched_abs s)) i j p l p1 Hp) as [l1 Hl1].
    apply (Hkeep l1); [by rewrite Habs1|].
    change (slot s1) with (aspec.slots (sched_abs s1)). by rewrite Habs1.
Qed.

(** C16 (liveness): no starvation.  In any well-formed scheduler state, a
    process at the head of any priority level is returned by one of the next
    19742 calls of [get_proc], whatever processes are put or added on any
    level in between. *)
Theorem head_of_level_is_served ops s q (i : nat) p l :
  sched_wf s -> Forall valid_sop ops ->
  mlq_ready_queue s !! i = Some q -> contents q = p :: l ->
  19742 <= count_gets ops ->
  wp (run_sops ops) (fun rs _ => p ∈ rs) s.
Proof.
  intros Hwf Hops Hq Hc Hcnt.
  assert (Hi : (i < Z.to_nat MAX_PRIO)%nat)
    by (rewrite <- (wf_nlevels _ Hwf); by eapply lookup_lt_Some).
  apply (served_from ops s i p l); [done..| |].
  - simpl. by rewrite list_lookup_fmap, Hq; simpl; rewrite Hc.
  - pose proof (patience_bounds i _ (sched_wf_nonneg s Hwf) (sched_wf_sum s Hwf)) as Hb.
    assert (Hsum : sum full_slots = 9870) by (vm_compute; reflexivity).
    lia.
Qed.

(** ** No process is lost or duplicated *)

(** Every process the scheduler holds. *)
Definition procs_of (s : aspec.st) : list Z := mjoin (aspec.ready s) ++ aspec.running s.

(** The call keeps the scheduler within the capacity of one queue, and puts
    back only a process that is running. *)
Definition op_fits (op : sop) (s : aspec.st) : Prop :=
  match op with
  | Get => True
  | Put p _ => p ∈ aspec.running s
  | Add _ _ => Z.of_nat (length (procs_of s)) < MAX_QUEUE_SIZE
  end.

Fixpoint history_fits (ops : list sop) (s : aspec.st) : Prop :=
  match ops with
  | [] => True
  | op :: ops => op_fits op s /\ history_fits ops (astep op s).2
  end.

Definition added (op : sop) : list Z := match op with Add p _ => [p] | _ => [] end.

Lemma mjoin_insert_perm (ls : list (list Z)) (i : nat) l l' :
  ls !! i = Some l -> mjoin (<[i := l']> ls) ++ l ≡ₚ l' ++ mjoin ls.
Proof.
  revert i. induction ls as [|l1 ls IH]; intros [|i] Hi; simpl in *; simplify_eq.
  - solve_Permutation.
  - change (mjoin ((l1 :: <[i := l']> ls))) with (l1 ++ mjoin (<[i := l']> ls)).
    rewrite <- app_assoc, (IH i Hi). solve_Permutation.
Qed.

Lemma mjoin_lookup_length (ls : list (list Z)) (i : nat) l :
  ls !! i = Some l -> (length l <= length (mjoin ls))%nat.
Proof.
  intros Hi. pose proof (Permutation_length (mjoin_insert_perm ls i l [] Hi)) as Hl.
  rewrite !length_app in Hl. simpl in Hl. lia.
Qed.

Lemma enqueue_room p l :
  Z.of_nat (length l) < MAX_QUEUE_SIZE -> spec.enqueue p l = l ++ [p].
Proof. intros Hl. unfold spec.enqueue. by destruct (Z.ltb_spec (Z.of_nat (length l)) MAX_QUEUE_SIZE); [|lia]. Qed.

Lemma add_level_perm (ls : list (list Z)) (i : nat) l p :
  ls !! i = Some l -> Z.of_nat (length l) < MAX_QUEUE_SIZE ->
  mjoin (alter (spec.enqueue p) i ls) ≡ₚ p :: mjoin ls.
Proof.
  intros Hi Hlen. rewrite (list_alter_insert _ _ _ l Hi), enqueue_room by done.
  pose proof (mjoin_insert_perm ls i l (l ++ [p]) Hi) as Hp.
  apply (Permutation_app_inv_r l). rewrite Hp. solve_Permutation.
Qed.

Lemma remove_perm p l : p ∈ l -> l ≡ₚ p :: spec.remove p l.
Proof.
  induction l as [|x l IH]; [by intros ?%elem_of_nil|].
  simpl. destruct (Z.eqb_spec x p) as [->|Hne]; [done|].
  intros [->|Hin]%elem_of_cons; [done|]. rewrite (IH Hin) at 1. solve_Permutation.
Qed.

Lemma purge_running p l : p <> NULL -> p ∈ l -> (spec.purge p l).2 = spec.remove p l.
Proof.
  intros Hp Hin. unfold spec.purge. apply Z.eqb_neq in Hp. rewrite Hp.
  by rewrite bool_decide_eq_true_2.
Qed.

Lemma get_procs s :
  Z.of_nat (length (procs_of s)) <= MAX_QUEUE_SIZE ->
  procs_of (aspec.get s).2 ≡ₚ procs_of s.
Proof.
  unfold procs_of. rewrite length_app. intros Hlen.
  unfold aspec.get. destruct (aspec.pick _ _) as [j|]; [|by destruct (existsb _ _)].
  destruct (aspec.ready s !! j) as [[|p l]|] eqn:Hj; [done| |done]. simpl.
  pose proof (mjoin_insert_perm _ _ _ l Hj) as Hperm.
  pose proof (mjoin_lookup_length _ _ _ Hj) as Hl. simpl in Hl.
  rewrite enqueue_room by lia.
  apply (Permutation_app_inv_l l). rewrite (app_assoc l (mjoin (aspec.ready s))), <- Hperm.
  solve_Permutation.
Qed.

Lemma step_procs op s :
  aspec_lens s -> valid_sop op -> op_fits op s ->
  Z.of_nat (length (procs_of s)) <= MAX_QUEUE_SIZE ->
  procs_of (astep op s).2 ≡ₚ added op ++ procs_of s.
Proof.
  intros [Hr Hs] Hv Hfit Hlen. destruct op as [|p i|p i]; simpl in *; [by apply get_procs| |].
  - destruct Hv as [Hp Hi]. unfold procs_of in *; simpl. rewrite purge_running by done.
    destruct (lookup_lt_is_Some_2 (aspec.ready s) i) as [l Hl]; [by rewrite Hr|].
    pose proof (mjoin_lookup_length _ _ _ Hl) as Hll.
    pose proof (remove_perm p _ Hfit) as Hrm.
    pose proof (Permutation_length Hrm) as Hrl. simpl in Hrl.
    rewrite length_app in Hlen.
    rewrite (add_level_perm _ _ _ p Hl) by lia. rewrite Hrm at 2. solve_Permutation.
  - destruct Hv as [Hp Hi]. unfold procs_of in *; simpl. rewrite length_app in Hfit.
    destruct (lookup_lt_is_Some_2 (aspec.ready s) i) as [l Hl]; [by rewrite Hr|].
    pose proof (mjoin_lookup_length _ _ _ Hl) as Hll.
    by rewrite (add_level_perm _ _ _ p Hl) by lia.
Qed.

Lemma arun_procs ops s :
  aspec_lens s -> Forall valid_sop ops -> history_fits ops s ->
  Z.of_nat (length (procs_of s)) <= MAX_QUEUE_SIZE ->
  procs_of (arun ops s).2 ≡ₚ mjoin (added <$> ops) ++ procs_of s.
Proof.
  intros Hl Hops. revert s Hl. induction Hops as [|op ops Hop Hops IH]; intros s Hl Hfit Hlen; [done|].
  destruct Hfit as [Hf Hfit]. pose proof (step_procs op s Hl Hop Hf Hlen) as Hp.
  pose proof (astep_lens op s Hl) as Hl1. simpl.
  destruct (astep op s) as [e s1] eqn:He; simpl in *.
  specialize (IH s1 Hl1 Hfit). destruct (arun ops s1) as [es s2]; simpl in *.
  rewrite IH.
  - rewrite Hp. solve_Permutation.
  - rewrite Hp, length_app. destruct op; simpl in *; lia.
Qed.

(** C17 (invariant): no process is lost or duplicated.  As long as the
    scheduler holds at most [MAX_QUEUE_SIZE] processes and only running
    processes are put back, every history of calls leaves in the ready
    levels and the running list exactly the processes that were there plus
    the ones added. *)
Theorem sched_conserves_processes ops s :
  sched_wf s -> Forall valid_sop ops -> history_fits ops (sched_abs s) ->
  Z.of_nat (length (procs_of (sched_abs s))) <= MAX_QUEUE_SIZE ->
  wp (run_sops ops) (fun _ s' =>
        procs_of (sched_abs s') ≡ₚ mjoin (added <$> ops) ++ procs_of (sched_abs s)) s.
Proof.
  intros Hwf Hops Hfit Hlen. wp_call run_sops_refines; [done|done|].
  intros rs s' (_ & _ & ->). apply arun_procs; [by apply sched_abs_lens|done..].
Qed.

(** A level that is full loses the process.  When level [i]
    already holds [MAX_QUEUE_SIZE] processes, [add_proc] returns normally and
    leaves every level and the running list as they were. *)
Theorem add_proc_full_level_drops s q (i : nat) p :
  sched_wf s -> p <> NULL ->
  mlq_ready_queue s !! i = Some q -> size q = MAX_QUEUE_SIZE ->
  wp (add_proc p (Z.of_nat i)) (fun _ s' => sched_abs s' = sched_abs s) s.
Proof.
  intros Hwf Hp Hq Hsz.
  assert (Hi : (i < Z.to_nat MAX_PRIO)%nat)
    by (rewrite <- (wf_nlevels _ Hwf); by eapply lookup_lt_Some).
  wp_call add_proc_refines; [done..|]. intros _ s' [_ ->].
  unfold aspec.add, sched_abs; simpl. f_equal.
  assert (Hl : (contents <$> mlq_ready_queue s) !! i = Some (contents q))
    by (by rewrite list_lookup_fmap, Hq).
  rewrite (list_alter_insert _ _ _ _ Hl). unfold spec.enqueue.
  pose proof (Forall_lookup_1 _ _ _ _ (wf_levels _ Hwf) Hq) as Hqwf.
  rewrite contents_length, Hsz by done. simpl. by apply list_insert_id.
Qed.

(** ** Witnesses *)

(** A scheduler whose highest level is [q]. *)
Definition sched_one (q : queue_t) : sched :=
  set_mlq (q :: replicate 139 queue0) sched_init.

Lemma sched_one_wf q : queue_wf q -> NULL ∉ contents q -> sched_wf (sched_one q).
Proof.
  intros Hq Hn. destruct sched_init_wf. split; try done; cbn [mlq_ready_queue sched_one set_mlq].
  - constructor; [done|]. apply Forall_replicate, queue0_wf.
  - constructor; [done|]. apply Forall_replicate. apply not_elem_of_nil.
Qed.

Definition queue1 : queue_t := mk_queue (7 :: replicate 49 NULL) 1.
Definition queue_full : queue_t := mk_queue (replicate 50 7) 50.

Lemma queue1_wf : sched_wf (sched_one queue1).
Proof.
  apply sched_one_wf; [by apply (bool_decide_unpack _)|].
  change (contents queue1) with [7]. intros [?|?%elem_of_nil]%elem_of_cons; done.
Qed.

Lemma queue_full_wf : sched_wf (sched_one queue_full).
Proof.
  apply sched_one_wf; [by apply (bool_decide_unpack _)|].
  change (contents queue_full) with (replicate 50 7). rewrite elem_of_replicate. by intros [? _].
Qed.

Lemma sched_history_policy_witness :
  wp (init_scheduler ;;; run_sops [Add 7 3; Add 8 0; Get; Get; Get])
     (fun rs _ => rs = [NULL; NULL; 8; 7; NULL]) sched_static.
Proof.
  eapply wp_mono; [apply (sched_history_policy [Add 7 3; Add 8 0; Get; Get; Get])|].
  - repeat constructor; unfold NULL, MAX_PRIO; lia.
  - intros rs s' (_ & -> & _). vm_compute. reflexivity.
Defined.

Lemma head_of_level_is_served_witness :
  wp (run_sops (replicate (Z.to_nat 19742) Get)) (fun rs _ => 7 ∈ rs) (sched_one queue1).
Proof.
  apply (head_of_level_is_served (replicate (Z.to_nat 19742) Get) (sched_one queue1) queue1 0 7 []).
  - apply queue1_wf.
  - apply Forall_replicate. exact I.
  - reflexivity.
  - reflexivity.
  - vm_compute. discriminate.
Defined.

Lemma sched_conserves_processes_witness :
  wp (run_sops [Add 8 2; Get; Put 7 0]) (fun _ s' => procs_of (sched_abs s') ≡ₚ [8; 7]) (sched_one queue1).
Proof.
  eapply wp_mono; [apply (sched_conserves_processes [Add 8 2; Get; Put 7 0] (sched_one queue1))|].
  - apply queue1_wf.
  - repeat constructor; unfold NULL, MAX_PRIO; lia.
  - vm_compute. repeat split; try discriminate. constructor.
  - vm_compute. discriminate.
  - intros rs s' H. exact H.
Defined.

Lemma add_proc_full_level_drops_witness :
  wp (add_proc 9 0) (fun _ s' => sched_abs s' = sched_abs (sched_one queue_full)) (sched_one queue_full).
Proof.
  apply (add_proc_full_level_drops (sched_one queue_full) queue_full 0 9).
  - apply queue_full_wf.
  - discriminate.
  - reflexivity.
  - reflexivity.
Defined.
