(* ===== verification/Pte.v ===== *)
(** * Bit layouts: [include/bitops.h], [include/mm.h], [include/mm64.h]

    Page-table entries and the split of a 57-bit virtual address, with the
    masks built as the macros build them ([BITS_PER_LONG] is 32: CONFIG64 is
    not defined).  A page-table entry is a 64-bit cell; its layout uses the
    low 32 bits.  [view] is the abstract reading of an entry. *)

From S2P Require Import Prelude.

Definition BITS_PER_LONG : Z := 32.
Definition MM64_BITS_PER_LONG : Z := 64.

(** [1U << nr] *)
Definition BIT (nr : Z) : Z := u32 (Z.shiftl 1 nr).
Definition GENMASK (h l : Z) : Z :=
  Z.land (u32 (Z.shiftl (2 ^ 32 - 1) l)) (Z.shiftr (2 ^ 32 - 1) (BITS_PER_LONG - h - 1)).
Definition GENMASK64 (h l : Z) : Z :=
  Z.land (u64 (Z.shiftl (2 ^ 64 - 1) l)) (Z.shiftr (2 ^ 64 - 1) (MM64_BITS_PER_LONG - h - 1)).
Definition DIV_ROUND_UP (n d : Z) : Z := (n + d - 1) / d.

(** ** Masks of a page-table entry *)
Definition PAGING_PAGESZ : Z := 256.
Definition PAGING64_PAGESZ : Z := 4096.
Definition PAGING64_ADDR_PT_SHIFT : Z := 12.
Definition PAGING_PTE_PRESENT_MASK : Z := BIT 31.
Definition PAGING_PTE_SWAPPED_MASK : Z := BIT 30.
Definition PAGING_PTE_DIRTY_MASK : Z := BIT 28.
Definition PAGING_PTE_FPN_LOBIT : Z := 0.
Definition PAGING_PTE_FPN_HIBIT : Z := 12.
Definition PAGING_PTE_SWPTYP_LOBIT : Z := 0.
Definition PAGING_PTE_SWPTYP_HIBIT : Z := 4.
Definition PAGING_PTE_SWPOFF_LOBIT : Z := 5.
Definition PAGING_PTE_SWPOFF_HIBIT : Z := 25.
Definition PAGING_SWPFPN_OFFSET : Z := 5.
Definition PAGING_PTE_FPN_MASK : Z := GENMASK PAGING_PTE_FPN_HIBIT PAGING_PTE_FPN_LOBIT.
Definition PAGING_PTE_SWPTYP_MASK : Z := GENMASK PAGING_PTE_SWPTYP_HIBIT PAGING_PTE_SWPTYP_LOBIT.
Definition PAGING_PTE_SWPOFF_MASK : Z := GENMASK PAGING_PTE_SWPOFF_HIBIT PAGING_PTE_SWPOFF_LOBIT.

(** The value operators on a 64-bit cell [v]; the masks are [unsigned int],
    so [~mask] is a 32-bit value extended with zeros. *)
Definition SETBIT (v mask : Z) : Z := Z.lor v mask.
Definition CLRBIT (v mask : Z) : Z := Z.land v (u32 (Z.lnot mask)).
Definition SETVAL (v value mask offst : Z) : Z :=
  Z.lor (Z.land v (u32 (Z.lnot mask))) (Z.land (u64 (Z.shiftl value offst)) mask).
Definition GETVAL (v mask offst : Z) : Z := Z.shiftr (Z.land v mask) offst.

Definition PAGING_PAGE_PRESENT (pte : Z) : bool := negb (Z.land pte PAGING_PTE_PRESENT_MASK =? 0).
Definition PAGING_PAGE_SWAPPED (pte : Z) : bool := negb (Z.land pte PAGING_PTE_SWAPPED_MASK =? 0).
Definition PAGING_FPN (pte : Z) : Z := GETVAL pte PAGING_PTE_FPN_MASK PAGING_PTE_FPN_LOBIT.
Definition PAGING_SWP (pte : Z) : Z :=
  Z.shiftr (Z.land pte PAGING_PTE_SWPOFF_MASK) PAGING_SWPFPN_OFFSET.

(** [init_pte]: the new value of the entry [pte]; the function returns 0. *)
Definition init_pte (pte pre fpn drt swp swptyp swpoff : Z) : Z :=
  if negb (pre =? 0) then
    if swp =? 0 then
      let pte := SETBIT pte PAGING_PTE_PRESENT_MASK in
      let pte := CLRBIT pte PAGING_PTE_SWAPPED_MASK in
      let pte := CLRBIT pte PAGING_PTE_DIRTY_MASK in
      let pte := SETVAL pte fpn PAGING_PTE_FPN_MASK PAGING_PTE_FPN_LOBIT in
      if negb (drt =? 0) then SETBIT pte PAGING_PTE_DIRTY_MASK
      else CLRBIT pte PAGING_PTE_DIRTY_MASK
    else
      let pte := CLRBIT pte PAGING_PTE_PRESENT_MASK in
      let pte := SETBIT pte PAGING_PTE_SWAPPED_MASK in
      let pte := CLRBIT pte PAGING_PTE_DIRTY_MASK in
      let pte := SETVAL pte swptyp PAGING_PTE_SWPTYP_MASK PAGING_PTE_SWPTYP_LOBIT in
      let pte := SETVAL pte swpoff PAGING_PTE_SWPOFF_MASK PAGING_PTE_SWPOFF_LOBIT in
      if negb (drt =? 0) then SETBIT pte PAGING_PTE_DIRTY_MASK
      else CLRBIT pte PAGING_PTE_DIRTY_MASK
  else pte.

(** The update [pte_set_fpn] makes to an entry. *)
Definition pte_fpn_val (pte fpn : Z) : Z :=
  let pte := SETBIT pte PAGING_PTE_PRESENT_MASK in
  let pte := CLRBIT pte PAGING_PTE_SWAPPED_MASK in
  SETVAL pte fpn PAGING_PTE_FPN_MASK PAGING_PTE_FPN_LOBIT.

(** The update [pte_set_swap] makes to an entry. *)
Definition pte_swap_val (pte swptyp swpoff : Z) : Z :=
  let pte := CLRBIT pte PAGING_PTE_PRESENT_MASK in
  let pte := SETBIT pte PAGING_PTE_SWAPPED_MASK in
  let pte := SETVAL pte swptyp PAGING_PTE_SWPTYP_MASK PAGING_PTE_SWPTYP_LOBIT in
  SETVAL pte swpoff PAGING_PTE_SWPOFF_MASK PAGING_PTE_SWPOFF_LOBIT.

(** ** Abstract reading of an entry *)
Inductive pte_view := Absent | Resident (fpn : Z) | Swapped (swpoff : Z).

Definition view (pte : Z) : pte_view :=
  if PAGING_PAGE_PRESENT pte then Resident (PAGING_FPN pte)
  else if PAGING_PAGE_SWAPPED pte then Swapped (PAGING_SWP pte)
  else Absent.

#[export] Instance pte_view_eq_dec : EqDecision pte_view.
Proof. solve_decision. Defined.

(** ** Bits of the masks *)

Lemma wrapU_testbit w x i :
  0 <= w -> 0 <= i -> Z.testbit (wrapU w x) i = (i <? w) && Z.testbit x i.
Proof.
  intros Hw Hi. unfold wrapU. destruct (Z.ltb_spec i w).
  - rewrite Z.mod_pow2_bits_low by lia. done.
  - rewrite Z.mod_pow2_bits_high by lia. done.
Qed.

Lemma ones_testbit n i : 0 <= n -> 0 <= i -> Z.testbit (2 ^ n - 1) i = (i <? n).
Proof.
  intros Hn Hi. replace (2 ^ n - 1) with (Z.ones n) by (rewrite Z.ones_equiv; lia).
  destruct (Z.ltb_spec i n); [apply Z.ones_spec_low|apply Z.ones_spec_high]; lia.
Qed.

Lemma BIT_testbit n i : 0 <= n < 32 -> 0 <= i -> Z.testbit (BIT n) i = (i =? n).
Proof.
  intros Hn Hi. unfold BIT, u32. rewrite wrapU_testbit by lia.
  rewrite Z.shiftl_spec by lia.
  destruct (Z.eqb_spec i n) as [->|Hne].
  - rewrite Z.sub_diag. destruct (Z.ltb_spec n 32); [done|lia].
  - replace (Z.testbit 1 (i - n)) with false; [by rewrite andb_false_r|].
    symmetry. destruct (Z.ltb_spec i n); [apply Z.testbit_neg_r; lia|].
    change 1 with (2 ^ 0). rewrite Z.pow2_bits_eqb by lia. lia.
Qed.

Lemma GENMASK_testbit h l i :
  0 <= l <= h -> h < 32 -> 0 <= i -> Z.testbit (GENMASK h l) i = (l <=? i) && (i <=? h).
Proof.
  intros Hl Hh Hi. unfold GENMASK, BITS_PER_LONG, u32.
  rewrite Z.land_spec, wrapU_testbit, Z.shiftl_spec, Z.shiftr_spec by lia.
  rewrite (ones_testbit 32 (i + _)) by lia.
  destruct (Z.leb_spec l i).
  - rewrite ones_testbit by lia. lia.
  - rewrite Z.testbit_neg_r by lia. lia.
Qed.

Lemma GENMASK64_testbit h l i :
  0 <= l <= h -> h < 64 -> 0 <= i -> Z.testbit (GENMASK64 h l) i = (l <=? i) && (i <=? h).
Proof.
  intros Hl Hh Hi. unfold GENMASK64, MM64_BITS_PER_LONG, u64.
  rewrite Z.land_spec, wrapU_testbit, Z.shiftl_spec, Z.shiftr_spec by lia.
  rewrite (ones_testbit 64 (i + _)) by lia.
  destruct (Z.leb_spec l i).
  - rewrite ones_testbit by lia. lia.
  - rewrite Z.testbit_neg_r by lia. lia.
Qed.

Create Rewrite HintDb bits.
#[export] Hint Rewrite Z.lor_spec Z.land_spec Z.lnot_spec Z.shiftr_spec Z.shiftl_spec
  wrapU_testbit BIT_testbit GENMASK_testbit GENMASK64_testbit using lia : bits.

Ltac unfold_pte :=
  unfold init_pte, pte_fpn_val, pte_swap_val, SETBIT, CLRBIT, SETVAL, GETVAL, u32, u64,
    PAGING_PTE_PRESENT_MASK, PAGING_PTE_SWAPPED_MASK, PAGING_PTE_DIRTY_MASK,
    PAGING_PTE_FPN_MASK, PAGING_PTE_SWPTYP_MASK, PAGING_PTE_SWPOFF_MASK,
    PAGING_PTE_FPN_LOBIT, PAGING_PTE_FPN_HIBIT, PAGING_PTE_SWPTYP_LOBIT,
    PAGING_PTE_SWPTYP_HIBIT, PAGING_PTE_SWPOFF_LOBIT, PAGING_PTE_SWPOFF_HIBIT,
    PAGING_SWPFPN_OFFSET in *.

(** Normalise the testbits of a goal and decide the comparisons left. *)
Ltac bits_cases :=
  repeat match goal with
  | |- context [?a <? ?b] => destruct (Z.ltb_spec a b); try lia
  | |- context [?a <=? ?b] => destruct (Z.leb_spec a b); try lia
  | |- context [?a =? ?b] => destruct (Z.eqb_spec a b); try lia
  end; rewrite ?andb_true_r, ?andb_false_r, ?orb_false_r, ?orb_true_r; try done.

Lemma land_BIT v n : 0 <= n < 32 -> negb (Z.land v (BIT n) =? 0) = Z.testbit v n.
Proof.
  intros Hn. destruct (Z.testbit v n) eqn:Hb.
  - apply negb_true_iff, Z.eqb_neq. intros H0.
    assert (Z.testbit (Z.land v (BIT n)) n = false) as Hc by (by rewrite H0, Z.bits_0).
    rewrite Z.land_spec, BIT_testbit, Hb, Z.eqb_refl in Hc by lia. done.
  - apply negb_false_iff, Z.eqb_eq. apply Z.bits_inj'. intros i Hi.
    rewrite Z.land_spec, BIT_testbit, Z.bits_0 by lia.
    destruct (Z.eqb_spec i n) as [->|]; [by rewrite Hb|apply andb_false_r].
Qed.

Lemma present_testbit pte : PAGING_PAGE_PRESENT pte = Z.testbit pte 31.
Proof. by apply land_BIT. Qed.
Lemma swapped_testbit pte : PAGING_PAGE_SWAPPED pte = Z.testbit pte 30.
Proof. by apply land_BIT. Qed.

Lemma FPN_testbit pte i : 0 <= i -> Z.testbit (PAGING_FPN pte) i = (i <? 13) && Z.testbit pte i.
Proof.
  intros Hi. unfold PAGING_FPN. unfold_pte. autorewrite with bits.
  rewrite Z.add_0_r. bits_cases.
Qed.

Lemma SWP_testbit pte i :
  0 <= i -> Z.testbit (PAGING_SWP pte) i = (i <? 21) && Z.testbit pte (i + 5).
Proof. intros Hi. unfold PAGING_SWP. unfold_pte. autorewrite with bits. bits_cases. Qed.

Lemma FPN_range pte : 0 <= PAGING_FPN pte < 2 ^ 13.
Proof.
  assert (H : PAGING_FPN pte = wrapU 13 pte).
  { apply Z.bits_inj'. intros i Hi. rewrite FPN_testbit, wrapU_testbit by lia. done. }
  rewrite H. apply Z.mod_pos_bound. lia.
Qed.

Lemma SWP_range pte : 0 <= PAGING_SWP pte < 2 ^ 21.
Proof.
  assert (H : PAGING_SWP pte = wrapU 21 (Z.shiftr pte 5)).
  { apply Z.bits_inj'. intros i Hi. rewrite SWP_testbit, wrapU_testbit, Z.shiftr_spec by lia. done. }
  rewrite H. apply Z.mod_pos_bound. lia.
Qed.

(** Entries are read back as [uint32_t]. *)
Lemma view_u32 pte : view (u32 pte) = view pte.
Proof.
  assert (Hb : forall i, 0 <= i < 32 -> Z.testbit (u32 pte) i = Z.testbit pte i).
  { intros i Hi. unfold u32. rewrite wrapU_testbit by lia. by replace (i <? 32) with true by lia. }
  unfold view. rewrite !present_testbit, !swapped_testbit, !Hb by lia.
  replace (PAGING_FPN (u32 pte)) with (PAGING_FPN pte).
  2:{ apply Z.bits_inj'. intros i Hi. rewrite !FPN_testbit by lia.
      destruct (Z.ltb_spec i 13); [by rewrite Hb by lia|done]. }
  replace (PAGING_SWP (u32 pte)) with (PAGING_SWP pte); [done|].
  apply Z.bits_inj'. intros i Hi. rewrite !SWP_testbit by lia.
  destruct (Z.ltb_spec i 21); [by rewrite Hb by lia|done].
Qed.

(** ** What the two updates store *)

Lemma view_fpn_val pte fpn : 0 <= fpn -> view (pte_fpn_val pte fpn) = Resident (fpn mod 2 ^ 13).
Proof.
  intros Hf. unfold view.
  replace (PAGING_PAGE_PRESENT (pte_fpn_val pte fpn)) with true.
  2:{ symmetry. rewrite present_testbit. unfold_pte. autorewrite with bits. bits_cases. }
  f_equal. apply Z.bits_inj'. intros i Hi. rewrite FPN_testbit by lia.
  fold (wrapU 13 fpn). rewrite wrapU_testbit by lia.
  unfold_pte. rewrite Z.shiftl_0_r. autorewrite with bits. bits_cases.
Qed.

Lemma view_swap_val pte t off :
  0 <= off -> view (pte_swap_val pte t off) = Swapped (off mod 2 ^ 21).
Proof.
  intros Ho. unfold view.
  replace (PAGING_PAGE_PRESENT (pte_swap_val pte t off)) with false.
  2:{ symmetry. rewrite present_testbit. unfold_pte. autorewrite with bits. bits_cases. }
  replace (PAGING_PAGE_SWAPPED (pte_swap_val pte t off)) with true.
  2:{ symmetry. rewrite swapped_testbit. unfold_pte. autorewrite with bits. bits_cases. }
  f_equal. apply Z.bits_inj'. intros i Hi. rewrite SWP_testbit by lia.
  fold (wrapU 21 off). rewrite wrapU_testbit by lia.
  unfold_pte. autorewrite with bits.
  replace (i + 5 - 5) with i by lia. bits_cases.
Qed.
