(* ===== verification/MemPhy.v ===== *)
(** * Physical memory devices: [src/mm-memphy.c]

    A [memphy_struct] is a byte storage with its free and used frame lists.
    Bytes of the storage are [char] values; a cell never written holds the 0
    that [init_memphy] stores.  Accessing [storage[addr]] beyond the allocated
    bytes is undefined behaviour.  The functions here act on the device
    itself; the NULL checks of the callers' pointer are in [Kernel.v]. *)

From S2P Require Import Prelude Pte.

Record memphy_struct := mk_memphy {
  storage : gmap Z Z;       (** written bytes *)
  storage_len : Z;          (** bytes of the [malloc]ed block *)
  maxsz : Z;                (** [int maxsz] *)
  rdmflg : Z;
  cursor : Z;
  free_fp_list : list Z;    (** frame numbers, head first *)
  used_fp_list : list Z;
}.

Definition set_storage (m : gmap Z Z) (mp : memphy_struct) : memphy_struct :=
  mk_memphy m (storage_len mp) (maxsz mp) (rdmflg mp) (cursor mp) (free_fp_list mp) (used_fp_list mp).
Definition set_cursor (c : Z) (mp : memphy_struct) : memphy_struct :=
  mk_memphy (storage mp) (storage_len mp) (maxsz mp) (rdmflg mp) c (free_fp_list mp) (used_fp_list mp).
Definition set_fps (free used : list Z) (mp : memphy_struct) : memphy_struct :=
  mk_memphy (storage mp) (storage_len mp) (maxsz mp) (rdmflg mp) (cursor mp) free used.

Definition in_storage (mp : memphy_struct) (addr : Z) : bool :=
  (0 <=? addr) && (addr <? storage_len mp).

(** The byte at [addr]. *)
Definition byte_at (mp : memphy_struct) (addr : Z) : Z := default 0 (storage mp !! addr).

Definition storage_get (addr : Z) : M memphy_struct Z :=
  let* mp := gets (fun mp => mp) in
  if in_storage mp addr then ret (byte_at mp addr) else undef.
Definition storage_put (addr v : Z) : M memphy_struct unit :=
  let* mp := gets (fun mp => mp) in
  if in_storage mp addr then modify (set_storage (<[addr := v]> (storage mp))) else undef.

(** The cursor walk of [MEMPHY_mv_csr]; [fuel] bounds the iterations. *)
Fixpoint mv_csr_loop (fuel : nat) (numstep offset : Z) : M memphy_struct unit :=
  match fuel with
  | O => ret tt
  | S fuel =>
      let* mp := gets (fun mp => mp) in
      if (numstep <? offset) && (numstep <? maxsz mp) then
        modify (set_cursor (Z.rem (cursor mp + 1) (maxsz mp))) ;;;
        mv_csr_loop fuel (numstep + 1) offset
      else ret tt
  end.

Definition MEMPHY_mv_csr (offset : Z) : M memphy_struct Z :=
  modify (set_cursor 0) ;;;
  let* mp := gets (fun mp => mp) in
  mv_csr_loop (Z.to_nat (maxsz mp)) 0 offset ;;;
  ret 0.

(** [MEMPHY_seq_read]: the return code and the byte stored in [*value]. *)
Definition MEMPHY_seq_read (addr : Z) : M memphy_struct (Z * option Z) :=
  let* mp := gets (fun mp => mp) in
  if rdmflg mp =? 0 then ret (-1, None)
  else
    MEMPHY_mv_csr addr ;;;
    let* v := storage_get addr in
    ret (0, Some v).

Definition MEMPHY_seq_write (addr value : Z) : M memphy_struct Z :=
  let* mp := gets (fun mp => mp) in
  if rdmflg mp =? 0 then ret (-1)
  else
    MEMPHY_mv_csr addr ;;;
    storage_put addr value ;;;
    ret 0.

Definition memphy_read (addr : Z) : M memphy_struct (Z * option Z) :=
  let* mp := gets (fun mp => mp) in
  if negb (rdmflg mp =? 0) then
    let* v := storage_get addr in
    ret (0, Some v)
  else MEMPHY_seq_read addr.

Definition memphy_write (addr data : Z) : M memphy_struct Z :=
  let* mp := gets (fun mp => mp) in
  if negb (rdmflg mp =? 0) then
    storage_put addr data ;;;
    ret 0
  else MEMPHY_seq_write addr data.

(** [MEMPHY_get_freefp]: pop the free list, push on the used list. *)
Definition memphy_get_freefp : M memphy_struct (option Z) :=
  let* mp := gets (fun mp => mp) in
  match free_fp_list mp with
  | [] => ret None
  | fpn :: free =>
      modify (set_fps free (fpn :: used_fp_list mp)) ;;;
      ret (Some fpn)
  end.

(** [MEMPHY_put_freefp]: the search compares with [(int)fpn]. *)
Definition memphy_put_freefp (fpn : Z) : M memphy_struct Z :=
  let* mp := gets (fun mp => mp) in
  match unlink (u64 (i32 fpn)) (used_fp_list mp) with
  | None => ret (-1)
  | Some used =>
      modify (set_fps (u64 (i32 fpn) :: free_fp_list mp) used) ;;;
      ret 0
  end.

(** ** Formatting and initialisation, which allocate on the host *)

Record boot := mk_boot { bdev : memphy_struct; bhost : list bool }.

#[export] Program Instance boot_host : HostMem boot := {
  host := bhost;
  set_host l b := mk_boot (bdev b) l;
}.
Next Obligation. done. Qed.
Next Obligation. by intros []. Qed.

Definition bset (f : memphy_struct -> memphy_struct) : M boot unit :=
  modify (fun b => mk_boot (f (bdev b)) (bhost b)).

(** The loop of [MEMPHY_format]: append frames [iter], [iter + 1], ... *)
Fixpoint format_loop (n : nat) (iter : Z) : M boot unit :=
  match n with
  | O => ret tt
  | S n =>
      malloc_unchecked ;;;
      bset (fun mp => set_fps (free_fp_list mp ++ [iter]) (used_fp_list mp) mp) ;;;
      format_loop n (iter + 1)
  end.

Definition MEMPHY_format (pagesz : Z) : M boot Z :=
  let* b := gets (fun b => b) in
  let numfp := Z.quot (maxsz (bdev b)) pagesz in
  if numfp <=? 0 then ret (-1)
  else
    malloc_unchecked ;;;
    bset (fun mp => set_fps [0] (used_fp_list mp) mp) ;;;
    format_loop (Z.to_nat (numfp - 1)) 1 ;;;
    bset (fun mp => set_fps (free_fp_list mp) [] mp) ;;;
    ret 0.

(** [init_memphy]: the storage is allocated and zeroed, [maxsz] is an [int]. *)
Definition init_memphy (max_size randomflg : Z) : M boot Z :=
  malloc_unchecked ;;;
  bset (fun mp => mk_memphy ∅ max_size (i32 max_size) (rdmflg mp) (cursor mp)
                            (free_fp_list mp) (used_fp_list mp)) ;;;
  let* _ := MEMPHY_format PAGING_PAGESZ in
  let flg := if negb (randomflg =? 0) then 1 else 0 in
  bset (fun mp => mk_memphy (storage mp) (storage_len mp) (maxsz mp) flg
                            (if flg =? 0 then 0 else cursor mp)
                            (free_fp_list mp) (used_fp_list mp)) ;;;
  ret 0.

(** ** Bytes *)

Lemma in_storage_true mp addr : 0 <= addr < storage_len mp -> in_storage mp addr = true.
Proof. intros H. unfold in_storage. lia. Qed.

Lemma byte_at_put mp a v : byte_at (set_storage (<[a := v]> (storage mp)) mp) a = v.
Proof. unfold byte_at; simpl. by rewrite lookup_insert_eq. Qed.

Lemma byte_at_put_ne mp a b v :
  a <> b -> byte_at (set_storage (<[a := v]> (storage mp)) mp) b = byte_at mp b.
Proof. intros Hne. unfold byte_at; simpl. by rewrite lookup_insert_ne. Qed.

Lemma memphy_read_ok addr mp :
  rdmflg mp <> 0 -> 0 <= addr < storage_len mp ->
  memphy_read addr mp = Ok ((0, Some (byte_at mp addr)), mp).
Proof.
  intros Hr Ha. unfold memphy_read, storage_get, bind, gets; simpl.
  apply Z.eqb_neq in Hr. rewrite Hr. simpl. by rewrite in_storage_true.
Qed.

Lemma memphy_write_ok addr v mp :
  rdmflg mp <> 0 -> 0 <= addr < storage_len mp ->
  memphy_write addr v mp = Ok (0, set_storage (<[addr := v]> (storage mp)) mp).
Proof.
  intros Hr Ha. unfold memphy_write, storage_put, bind, gets; simpl.
  apply Z.eqb_neq in Hr. rewrite Hr. simpl. by rewrite in_storage_true.
Qed.

Lemma memphy_read_oob addr mp :
  rdmflg mp <> 0 -> ~ 0 <= addr < storage_len mp -> memphy_read addr mp = Undef.
Proof.
  intros Hr Ha. unfold memphy_read, storage_get, bind, gets; simpl.
  apply Z.eqb_neq in Hr. rewrite Hr. simpl.
  replace (in_storage mp addr) with false; [done|]. unfold in_storage. lia.
Qed.

(** ** The sequential cursor *)

Lemma mv_csr_loop_spec fuel numstep offset mp :
  0 < maxsz mp -> 0 <= numstep <= maxsz mp -> Z.of_nat fuel = maxsz mp - numstep ->
  cursor mp = numstep mod maxsz mp ->
  mv_csr_loop fuel numstep offset mp
    = Ok (tt, set_cursor (Z.max numstep (Z.min offset (maxsz mp)) mod maxsz mp) mp).
Proof.
  revert numstep mp. induction fuel as [|fuel IH]; intros numstep mp Hm Hn Hf Hc.
  - simpl. unfold ret. do 2 f_equal. replace (Z.max numstep _) with numstep by lia.
    rewrite <- Hc. by destruct mp.
  - cbn [mv_csr_loop]. unfold bind at 1, gets.
    destruct (Z.ltb_spec numstep offset), (Z.ltb_spec numstep (maxsz mp)); simpl; try lia.
    + unfold bind, modify. rewrite IH; simpl; try lia.
      * by replace (Z.max (numstep + 1) (Z.min offset (maxsz mp)))
          with (Z.max numstep (Z.min offset (maxsz mp))) by lia.
      * rewrite Hc. rewrite Z.rem_mod_nonneg by (pose proof (Z.mod_pos_bound numstep (maxsz mp)); lia).
        by rewrite Zplus_mod_idemp_l.
    + unfold ret. do 2 f_equal. replace (Z.max numstep _) with numstep by lia.
      rewrite <- Hc. by destruct mp.
Qed.

(** The sequential walk.  On a device of positive size
    [MEMPHY_mv_csr] always ends, after at most [maxsz] steps, with the cursor
    at the offset, or back at 0 when the offset is at or past the end. *)
Theorem mv_csr_reaches_offset offset mp :
  0 < maxsz mp -> 0 <= offset ->
  MEMPHY_mv_csr offset mp
    = Ok (0, set_cursor (if offset <? maxsz mp then offset else 0) mp).
Proof.
  intros Hm Ho.
  assert (Hc : Z.max 0 (Z.min offset (maxsz mp)) mod maxsz mp
               = if offset <? maxsz mp then offset else 0).
  { destruct (Z.ltb_spec offset (maxsz mp)).
    - rewrite Z.mod_small; lia.
    - replace (Z.max 0 _) with (maxsz mp) by lia. apply Z_mod_same_full. }
  unfold MEMPHY_mv_csr, bind at 1, modify. unfold bind at 1, gets. unfold bind.
  rewrite mv_csr_loop_spec; simpl; [by rewrite Hc|done|lia|lia|by rewrite Z.mod_0_l by lia].
Qed.

(** A sequential device ([rdmflg = 0]) can be neither read nor
    written: [MEMPHY_read] and [MEMPHY_write] answer -1 on every address and
    leave the device and the output byte untouched, because [MEMPHY_seq_read]
    and [MEMPHY_seq_write] reject exactly the devices they are called for. *)
Theorem sequential_device_inaccessible mp addr v :
  rdmflg mp = 0 ->
  memphy_read addr mp = Ok ((-1, None), mp) /\ memphy_write addr v mp = Ok (-1, mp).
Proof.
  intros Hr. unfold memphy_read, memphy_write, MEMPHY_seq_read, MEMPHY_seq_write, bind, gets.
  cbn. rewrite Hr. cbn. rewrite Hr. by split.
Qed.

(** ** Frames *)

(** The frames of a device. *)
Definition frames_of (mp : memphy_struct) : list Z := free_fp_list mp ++ used_fp_list mp.

(** A device whose frame numbers are 32-bit non-negative and all different. *)
Definition frames_wf (mp : memphy_struct) : Prop :=
  NoDup (frames_of mp) /\ Forall (fun f => 0 <= f < 2 ^ 31) (frames_of mp).

Lemma frame_int f : 0 <= f < 2 ^ 31 -> u64 (i32 f) = f.
Proof. intros H. rewrite i32_small, u64_small; lia. Qed.

Lemma get_freefp_spec mp :
  memphy_get_freefp mp = match free_fp_list mp with
                         | [] => Ok (None, mp)
                         | f :: fs => Ok (Some f, set_fps fs (f :: used_fp_list mp) mp)
                         end.
Proof. unfold memphy_get_freefp, bind, gets, ret. by destruct (free_fp_list mp). Qed.

Lemma get_freefp_perm mp f mp' :
  memphy_get_freefp mp = Ok (Some f, mp') ->
  f ∈ free_fp_list mp /\ used_fp_list mp' = f :: used_fp_list mp /\
  frames_of mp' ≡ₚ frames_of mp.
Proof.
  rewrite get_freefp_spec. unfold frames_of. destruct (free_fp_list mp) as [|f' fs]; [done|].
  intros [= -> <-]. simpl. split; [apply list_elem_of_here|]. split; [done|].
  by rewrite <- Permutation_middle.
Qed.

Lemma put_freefp_spec f mp :
  0 <= f < 2 ^ 31 ->
  memphy_put_freefp f mp = match unlink f (used_fp_list mp) with
                           | None => Ok (-1, mp)
                           | Some used => Ok (0, set_fps (f :: free_fp_list mp) used mp)
                           end.
Proof.
  intros Hf. unfold memphy_put_freefp, bind, gets. rewrite (frame_int f Hf).
  by destruct (unlink f (used_fp_list mp)).
Qed.

Lemma put_freefp_used f mp :
  0 <= f < 2 ^ 31 -> f ∈ used_fp_list mp ->
  exists used, used_fp_list mp ≡ₚ f :: used /\
    memphy_put_freefp f mp = Ok (0, set_fps (f :: free_fp_list mp) used mp).
Proof.
  intros Hf Hin. rewrite put_freefp_spec by done.
  destruct (unlink f (used_fp_list mp)) as [used|] eqn:Hu.
  - exists used. split; [by apply unlink_Some|done].
  - by apply unlink_None in Hu.
Qed.

(** ** Formatting *)

Lemma format_loop_spec n iter b :
  bhost b = [] ->
  format_loop n iter b =
    Ok (tt, mk_boot (set_fps (free_fp_list (bdev b) ++ zseq iter n)
                             (used_fp_list (bdev b)) (bdev b)) []).
Proof.
  revert iter b. induction n as [|n IH]; intros iter [mp h] Hh; simpl in Hh; subst h.
  - simpl. rewrite app_nil_r. by destruct mp.
  - cbn [format_loop]. unfold bind at 1, malloc_unchecked, malloc, bind at 1; simpl.
    unfold bind at 1, bset, modify; simpl. rewrite IH by done. simpl.
    by rewrite <- app_assoc.
Qed.

Lemma MEMPHY_format_spec pagesz b :
  bhost b = [] -> 0 < Z.quot (maxsz (bdev b)) pagesz ->
  MEMPHY_format pagesz b =
    Ok (0, mk_boot (set_fps (zseq 0 (Z.to_nat (Z.quot (maxsz (bdev b)) pagesz))) [] (bdev b)) []).
Proof.
  destruct b as [mp h]; simpl. intros -> Hq. unfold MEMPHY_format.
  unfold bind at 1, gets; simpl. destruct (Z.leb_spec (Z.quot (maxsz mp) pagesz) 0); [lia|].
  unfold bind at 1, malloc_unchecked, malloc, bind at 1; simpl.
  unfold bind at 1, bset, modify; simpl. unfold bind at 1.
  rewrite format_loop_spec by done. simpl. unfold bind, ret; simpl. do 3 f_equal.
  unfold set_fps; simpl. f_equal.
  replace (Z.to_nat (Z.quot (maxsz mp) pagesz))
    with (S (Z.to_nat (Z.quot (maxsz mp) pagesz - 1))) by lia. done.
Qed.

(** The device [init_memphy] leaves, on a random-access device whose size
    fits an [int]. *)
Definition fresh_dev (max_size : Z) (mp : memphy_struct) : memphy_struct :=
  mk_memphy ∅ max_size max_size 1 (cursor mp)
            (zseq 0 (Z.to_nat (max_size / PAGING_PAGESZ))) [].

Lemma init_memphy_spec max_size mp :
  PAGING_PAGESZ <= max_size < 2 ^ 31 ->
  init_memphy max_size 1 (mk_boot mp []) = Ok (0, mk_boot (fresh_dev max_size mp) []).
Proof.
  intros Hsz. unfold init_memphy. unfold bind at 1, malloc_unchecked, malloc, bind at 1; simpl.
  unfold bind at 1, bset at 1, modify; simpl. unfold bind at 1.
  unfold PAGING_PAGESZ in *. rewrite i32_small by lia.
  assert (Hq : Z.quot max_size 256 = max_size / 256) by (apply Z.quot_div_nonneg; lia).
  rewrite MEMPHY_format_spec; simpl; rewrite ?Hq; [done|done|].
  apply Z.div_str_pos. lia.
Qed.

(** ** The frame allocator as an abstract allocator *)

Inductive fop := GetF | PutF (fpn : Z).

Definition run_fop (op : fop) : M memphy_struct (option Z) :=
  match op with
  | GetF => memphy_get_freefp
  | PutF f => let* r := memphy_put_freefp f in ret (Some r)
  end.

Fixpoint run_fops (ops : list fop) : M memphy_struct (list (option Z)) :=
  match ops with
  | [] => ret []
  | op :: ops => let* r := run_fop op in let* rs := run_fops ops in ret (r :: rs)
  end.

(** [alloc_trace all used ops rs used']: what an allocator of the frames
    [all], [used] of them taken, may answer to [ops]. *)
Inductive alloc_trace (all : gset Z) : gset Z -> list fop -> list (option Z) -> gset Z -> Prop :=
| at_nil used : alloc_trace all used [] [] used
| at_get used used' f ops rs :
    f ∈ all -> f ∉ used -> alloc_trace all ({[f]} ∪ used) ops rs used' ->
    alloc_trace all used (GetF :: ops) (Some f :: rs) used'
| at_full used used' ops rs :
    used = all -> alloc_trace all used ops rs used' ->
    alloc_trace all used (GetF :: ops) (None :: rs) used'
| at_put used used' f ops rs :
    f ∈ used -> alloc_trace all (used ∖ {[f]}) ops rs used' ->
    alloc_trace all used (PutF f :: ops) (Some 0 :: rs) used'
| at_bad_put used used' f ops rs :
    f ∉ used -> alloc_trace all used ops rs used' ->
    alloc_trace all used (PutF f :: ops) (Some (-1) :: rs) used'.

Definition valid_fop (op : fop) : Prop := match op with GetF => True | PutF f => 0 <= f < 2 ^ 31 end.

Definition all_set (mp : memphy_struct) : gset Z := list_to_set (frames_of mp).
Definition used_set (mp : memphy_struct) : gset Z := list_to_set (used_fp_list mp).

Lemma frames_wf_perm mp mp' : frames_of mp' ≡ₚ frames_of mp -> frames_wf mp -> frames_wf mp'.
Proof. intros Hp [Hn Hf]. unfold frames_wf. by rewrite Hp. Qed.

Lemma all_set_perm mp mp' : frames_of mp' ≡ₚ frames_of mp -> all_set mp' = all_set mp.
Proof. intros Hp. unfold all_set. apply set_eq. intros x. by rewrite !elem_of_list_to_set, Hp. Qed.

Lemma run_fop_trace op mp :
  frames_wf mp -> valid_fop op ->
  wp (run_fop op) (fun r mp' => frames_of mp' ≡ₚ frames_of mp /\
     forall ops rs used', alloc_trace (all_set mp) (used_set mp') ops rs used' ->
                          alloc_trace (all_set mp) (used_set mp) (op :: ops) (r :: rs) used') mp.
Proof.
  intros [Hnd Hf] Hv. destruct op as [|f]; simpl.
  - unfold wp. rewrite get_freefp_spec. unfold frames_of, all_set, used_set, frames_of in *.
    destruct (free_fp_list mp) as [|f fs] eqn:Hfree; simpl in *.
    + rewrite Hfree. split; [done|]. intros ops rs used' Htr. by apply at_full.
    + split; [by rewrite <- Permutation_middle|]. intros ops rs used' Htr.
      apply NoDup_cons in Hnd as [Hnf _]. rewrite not_elem_of_app in Hnf.
      apply at_get; [set_solver|set_solver|done].
  - apply wp_bind. unfold wp at 1. rewrite put_freefp_spec by done.
    destruct (unlink f (used_fp_list mp)) as [used|] eqn:Hu.
    + pose proof (unlink_Some _ _ _ Hu) as Hp. wp_steps. unfold frames_of in *; simpl.
      split; [rewrite Hp; solve_Permutation|].
      intros ops rs used' Htr. apply at_put; [unfold used_set; rewrite elem_of_list_to_set, Hp; set_solver|].
      replace (used_set mp ∖ {[f]}) with (used_set (set_fps (f :: free_fp_list mp) used mp)); [done|].
      apply set_eq. intros x. unfold used_set; simpl.
      rewrite elem_of_difference, !elem_of_list_to_set, Hp, elem_of_cons, elem_of_singleton.
      assert (f ∉ used) by (rewrite Hp in Hnd; apply NoDup_app in Hnd as (_ & _ & Hnd);
                            by apply NoDup_cons in Hnd as [? _]).
      split; [intros Hx; split; [by right|by intros ->]|by intros [[->|?] ?]].
    + wp_steps. split; [done|]. intros ops rs used' Htr. apply at_bad_put; [|done].
      unfold used_set. rewrite elem_of_list_to_set. by apply unlink_None.
Qed.

Lemma run_fops_trace ops mp :
  frames_wf mp -> Forall valid_fop ops ->
  wp (run_fops ops) (fun rs mp' => frames_of mp' ≡ₚ frames_of mp /\
       alloc_trace (all_set mp) (used_set mp) ops rs (used_set mp')) mp.
Proof.
  intros Hwf Hops. revert mp Hwf. induction Hops as [|op ops Hop Hops IH]; intros mp Hwf; simpl.
  - wp_steps. split; [done|constructor].
  - wp_call run_fop_trace; [done|done|]. intros r mp1 [Hp1 Htr].
    wp_call IH; [by eapply frames_wf_perm|]. intros rs mp2 [Hp2 Htr2]. wp_steps.
    rewrite (all_set_perm _ _ Hp1) in Htr2. split; [by rewrite Hp2|by apply Htr].
Qed.


(** RAM is formatted in 256-byte frames but used in 4096-byte
    pages.  After [init_memphy], for every size of at least one frame, the
    free list offers [max_size / 256] frames, and every frame from
    [max_size / 4096] on - there always is one - reaches past the storage:
    reading or writing its last byte at the address [fpn * 4096 + 4095] is
    out of bounds. *)
Theorem init_memphy_overcommits max_size mp :
  PAGING_PAGESZ <= max_size < 2 ^ 31 ->
  wp (init_memphy max_size 1) (fun r b =>
    let dev := bdev b in
    r = 0 /\ Z.of_nat (length (free_fp_list dev)) = max_size / PAGING_PAGESZ /\
    (exists f, f ∈ free_fp_list dev /\ max_size / PAGING64_PAGESZ <= f) /\
    forall f v, f ∈ free_fp_list dev -> max_size / PAGING64_PAGESZ <= f ->
      memphy_read (f * PAGING64_PAGESZ + 4095) dev = Undef /\
      memphy_write (f * PAGING64_PAGESZ + 4095) v dev = Undef) (mk_boot mp []).
Proof.
  intros Hsz. eapply wp_intro; [by apply init_memphy_spec|]. simpl.
  unfold PAGING_PAGESZ, PAGING64_PAGESZ in *.
  split; [done|]. split; [rewrite zseq_length; lia|]. split.
  - exists (max_size / 256 - 1). rewrite elem_of_zseq. lia.
  - intros f v Hin Hf. split; [apply memphy_read_oob; simpl; lia|].
    unfold memphy_write, storage_put, bind, gets, in_storage; simpl.
    replace (_ && _) with false; [done|]. lia.
Qed.

(** ** Witnesses *)

(** A device of 1024 bytes; [flg] selects random access. *)
Definition dev1024 (flg : Z) : memphy_struct := mk_memphy ∅ 1024 1024 flg 0 [] [].

Lemma mv_csr_reaches_offset_witness :
  MEMPHY_mv_csr 1000 (dev1024 0) = Ok (0, set_cursor 1000 (dev1024 0)).
Proof. apply (mv_csr_reaches_offset 1000 (dev1024 0)); simpl; lia. Defined.

Lemma sequential_device_inaccessible_witness :
  memphy_read 5 (dev1024 0) = Ok ((-1, None), dev1024 0) /\ memphy_write 5 9 (dev1024 0) = Ok (-1, dev1024 0).
Proof. apply (sequential_device_inaccessible (dev1024 0) 5 9). reflexivity. Defined.


(** A RAM of 1 MiB offers 4096 frames; 256 pages fit. *)
Lemma init_memphy_overcommits_witness :
  wp (init_memphy 1048576 1) (fun r b => exists f, f ∈ free_fp_list (bdev b) /\
    memphy_read (f * PAGING64_PAGESZ + 4095) (bdev b) = Undef) (mk_boot (dev1024 1) []).
Proof.
  eapply wp_mono; [apply (init_memphy_overcommits 1048576 (dev1024 1))|].
  - unfold PAGING_PAGESZ. lia.
  - intros r b (_ & _ & (f & Hin & Hf) & H). exists f. split; [exact Hin|]. apply (H f 0 Hin Hf).
Defined.
