(* ===== verification/Race.v ===== *)
(** * Two threads in [MEMPHY_get_freefp]

    [__read] and [__kmalloc] take frames without [mmvm_lock], so several CPUs
    can be in [MEMPHY_get_freefp] of [src/mm-memphy.c] at a time.  It tests
    for an empty list before it takes [memphy_lock]: here the function is cut
    into the test, the lock, the accesses under the lock and the unlock, and
    the threads interleave between these. *)

From S2P Require Import Prelude MemPhy.

(** Where a thread is in the function: before the test, before the lock,
    before [fp = mp->free_fp_list], before [mp->free_fp_list = fp->fp_next]
    with [fp] the head of [l], before the push of frame [fpn] on the used
    list, before the unlock, at the end. *)
Inductive getfp_at :=
| G_test | G_lock | G_read | G_pop (l : list Z) | G_push (fpn : Z) | G_unlock (fpn : Z) | G_done (r : option Z).

(** The device, the thread that holds [memphy_lock], and the threads. *)
Record race := mk_race { r_dev : memphy_struct; r_lock : option nat; r_threads : list getfp_at }.

Definition set_lock (x : option nat) (s : race) : race := mk_race (r_dev s) x (r_threads s).
Definition set_dev (d : memphy_struct) (s : race) : race := mk_race d (r_lock s) (r_threads s).

(** The next step of a thread, [me], at [t]: where it is afterwards, and the
    state; [None] when it waits or has returned.  [fp->fp_next] of an empty
    list dereferences NULL. *)
Definition getfp_step (me : nat) (t : getfp_at) (s : race) : option (outcome (getfp_at * race)) :=
  let mp := r_dev s in
  match t with
  | G_test => Some (Ok (match free_fp_list mp with [] => G_done None | _ => G_lock end, s))
  | G_lock => match r_lock s with None => Some (Ok (G_read, set_lock (Some me) s)) | Some _ => None end
  | G_read => Some (Ok (G_pop (free_fp_list mp), s))
  | G_pop [] => Some Undef
  | G_pop (fpn :: fp_next) => Some (Ok (G_push fpn, set_dev (set_fps fp_next (used_fp_list mp) mp) s))
  | G_push fpn => Some (Ok (G_unlock fpn, set_dev (set_fps (free_fp_list mp) (fpn :: used_fp_list mp) mp) s))
  | G_unlock fpn => Some (Ok (G_done (Some fpn), set_lock None s))
  | G_done _ => None
  end.

Definition race_step (i : nat) (s : race) : option (outcome race) :=
  t ← r_threads s !! i;
  o ← getfp_step i t s;
  Some (match o with
        | Ok (t', s') => Ok (mk_race (r_dev s') (r_lock s') (<[i := t']> (r_threads s')))
        | Undef => Undef
        | Exit c => Exit c
        end).

Fixpoint race_exec (l : list nat) (s : race) : option (outcome race) :=
  match l with
  | [] => Some (Ok s)
  | i :: l => o ← race_step i s; match o with Ok s' => race_exec l s' | Undef => Some Undef | Exit c => Some (Exit c) end
  end.

(** [n] threads enter the function. *)
Definition race_start (d : memphy_struct) (n : nat) : race := mk_race d None (replicate n G_test).

(** The frame a thread has taken, and whether it has put it on the used list;
    whether it may still take one; whether it holds the lock. *)
Definition frame_of (t : getfp_at) : option Z :=
  match t with G_push fpn | G_unlock fpn | G_done (Some fpn) => Some fpn | _ => None end.
Definition unlisted (t : getfp_at) : option Z := match t with G_push fpn => Some fpn | _ => None end.
Definition pending (t : getfp_at) : Prop := match t with G_test | G_lock | G_read | G_pop _ => True | _ => False end.
Definition inside (t : getfp_at) : Prop := match t with G_read | G_pop _ | G_push _ | G_unlock _ => True | _ => False end.
#[export] Instance pending_dec t : Decision (pending t).
Proof. destruct t; apply _. Defined.

Definition frames_taken (s : race) : list Z := omap frame_of (r_threads s).

(** ** With a frame for each thread *)

(** The device after [k] frames were taken from [d], the [i] last of them not
    listed as used yet. *)
Record took (d : memphy_struct) (taken pushing : list Z) (dev : memphy_struct) : Prop := {
  tk_dev : dev = set_fps (drop (length taken) (free_fp_list d)) (used_fp_list dev) d;
  tk_taken : taken ≡ₚ take (length taken) (free_fp_list d);
  tk_used : pushing ++ used_fp_list dev = rev (take (length taken) (free_fp_list d)) ++ used_fp_list d;
}.

Record race_ok (d : memphy_struct) (s : race) : Prop := {
  rc_took : took d (frames_taken s) (omap unlisted (r_threads s)) (r_dev s);
  rc_enough : (length (filter pending (r_threads s)) <= length (free_fp_list (r_dev s)))%nat;
  rc_none : G_done None ∉ r_threads s;
  rc_lock i t : r_threads s !! i = Some t -> inside t -> r_lock s = Some i;
  rc_head i l : r_threads s !! i = Some (G_pop l) -> l = free_fp_list (r_dev s);
}.

Lemma race_ok_start d n : (n <= length (free_fp_list d))%nat -> race_ok d (race_start d n).
Proof.
  intros Hn. assert (Ht : forall f, f G_test = None -> omap f (replicate n G_test) = ([] : list Z))
    by (intros f Hf; clear Hn; induction n as [|n IH]; [done|by cbn; rewrite Hf]).
  assert (Hin : forall i t, replicate n G_test !! i = Some t -> t = G_test) by (by intros i t [-> _]%lookup_replicate).
  split; unfold frames_taken; simpl; rewrite ?Ht; simpl; try done.
  - split; simpl; [by destruct d|done|done].
  - etransitivity; [|exact Hn]. rewrite length_filter. by rewrite length_replicate.
  - by intros [? _]%elem_of_replicate.
  - by intros i t ->%Hin.
  - by intros i l ?%Hin.
Qed.

(** The head of the free list is taken, and is then listed as used. *)
Lemma took_pop d a b dev fpn fs :
  took d (a ++ b) [] dev -> free_fp_list dev = fpn :: fs ->
  took d (a ++ fpn :: b) [fpn] (set_fps fs (used_fp_list dev) dev).
Proof.
  intros [H1 H2 H3] Hf. rewrite H1 in Hf. simpl in Hf.
  assert (Hk : length (a ++ fpn :: b) = S (length (a ++ b))) by (rewrite !length_app; simpl; lia).
  assert (Hl : free_fp_list d !! length (a ++ b) = Some fpn).
  { by rewrite <- (Nat.add_0_r (length (a ++ b))), <- lookup_drop, Hf. }
  pose proof (take_S_r _ _ _ Hl) as Ht. pose proof (drop_S _ _ _ Hl) as Hd. rewrite Hf in Hd. injection Hd as Hd.
  split; rewrite Hk.
  - rewrite H1. simpl. by rewrite <- Hd.
  - rewrite Ht, <- H2, <- Permutation_middle. apply Permutation_cons_append.
  - rewrite Ht, rev_app_distr. simpl. simpl in H3. by rewrite H3.
Qed.

Lemma took_push d taken dev fpn :
  took d taken [fpn] dev -> took d taken [] (set_fps (free_fp_list dev) (fpn :: used_fp_list dev) dev).
Proof. intros [H1 H2 H3]. split; [by rewrite H1|done|exact H3]. Qed.

(** What [k] calls one after the other do. *)
Lemma run_gets_spec d k :
  (k <= length (free_fp_list d))%nat ->
  run_fops (replicate k GetF) d =
  Ok (Some <$> take k (free_fp_list d), set_fps (drop k (free_fp_list d)) (rev (take k (free_fp_list d)) ++ used_fp_list d) d).
Proof.
  revert d. induction k as [|k IH]; intros d Hk; [by destruct d|]. cbn [replicate run_fops run_fop].
  unfold bind at 1. rewrite get_freefp_spec. destruct (free_fp_list d) as [|f fs] eqn:Hf; [simpl in Hk; lia|].
  unfold bind. rewrite IH by (simpl in *; lia). simpl. by rewrite <- app_assoc.
Qed.

Lemma insert_mid {A} (a : list A) x y b : <[length a := y]> (a ++ x :: b) = a ++ y :: b.
Proof. induction a as [|z a IH]; simpl; [done|]. by rewrite IH. Qed.

Lemma lookup_mid {A} (a b : list A) x y j u :
  (a ++ y :: b) !! j = Some u -> j = length a /\ u = y \/ j <> length a /\ (a ++ x :: b) !! j = Some u.
Proof.
  destruct (decide (j = length a)) as [->|Hj]; [rewrite list_lookup_middle by done; intros [= ->]; by left|].
  rewrite <- (insert_mid a x y b), list_lookup_insert_ne by done. by right.
Qed.

(** The thread after [a] goes from [t] to [t']. *)
Lemma race_ok_move d a b t t' dev dev' lk lk' :
  race_ok d (mk_race dev lk (a ++ t :: b)) ->
  took d (omap frame_of (a ++ t' :: b)) (omap unlisted (a ++ t' :: b)) dev' ->
  (length (filter pending (a ++ t' :: b)) + length (free_fp_list dev) <=
   length (filter pending (a ++ t :: b)) + length (free_fp_list dev'))%nat ->
  t' <> G_done None -> (inside t' -> lk' = Some (length a)) -> (lk' = lk \/ lk = None \/ inside t) ->
  (dev' = dev \/ inside t) -> (forall l, t' = G_pop l -> l = free_fp_list dev') ->
  race_ok d (mk_race dev' lk' (a ++ t' :: b)).
Proof.
  intros [_ He Hn Hlk Hh] Hf' He' Hn' Hin Hlock Hdev Hl. unfold frames_taken in *. simpl in *.
  assert (Hown : inside t -> lk = Some (length a)) by (apply Hlk; by rewrite list_lookup_middle).
  assert (Hout : inside t -> forall j u, j <> length a -> (a ++ t :: b) !! j = Some u -> ~ inside u).
  { intros Ht j u Hj Hu0 Hi. specialize (Hlk j u Hu0 Hi). rewrite (Hown Ht) in Hlk. congruence. }
  split; unfold frames_taken; simpl.
  - exact Hf'.
  - lia.
  - rewrite elem_of_app, elem_of_cons in *. naive_solver.
  - intros j u Hj Hi. apply (lookup_mid a b t) in Hj as [[-> ->]|[Hj Hu0]]; [by apply Hin|].
    destruct Hlock as [->|[->|Ht]]; [by eapply Hlk|by specialize (Hlk j u Hu0 Hi)|by destruct (Hout Ht j u Hj Hu0)].
  - intros j l Hj. apply (lookup_mid a b t) in Hj as [[-> <-]|[Hj Hu0]]; [by apply Hl|].
    destruct Hdev as [->|Ht]; [by eapply Hh|]. by destruct (Hout Ht j _ Hj Hu0).
Qed.

(** Only the thread with the lock can have a frame that is not listed. *)
Lemma others_listed d a b t dev lk :
  race_ok d (mk_race dev lk (a ++ t :: b)) -> inside t -> omap unlisted a = [] /\ omap unlisted b = [].
Proof.
  intros Hok Ht. pose proof (rc_lock _ _ Hok) as Hlk. simpl in Hlk.
  pose proof (Hlk (length a) t ltac:(by rewrite list_lookup_middle) Ht) as Hown.
  assert (Hno : forall l : list getfp_at, (forall u, u ∈ l -> unlisted u = None) -> omap unlisted l = []).
  { intros l Hl. induction l as [|u l IH]; [done|]. cbn. rewrite (Hl u) by (by left). apply IH. intros v Hv. apply Hl. by right. }
  assert (Hone : forall j u, j <> length a -> (a ++ t :: b) !! j = Some u -> unlisted u = None).
  { intros j u Hj Hu. destruct u; try done. specialize (Hlk j _ Hu I). congruence. }
  split; apply Hno; intros u [j Hj]%list_elem_of_lookup.
  - apply (Hone j); [apply lookup_lt_Some in Hj; lia|]. by apply lookup_app_l_Some.
  - apply (Hone (length a + S j)%nat); [lia|]. rewrite lookup_app_r by lia.
    by replace (length a + S j - length a)%nat with (S j) by lia.
Qed.

Lemma race_ok_step d i s o : race_ok d s -> race_step i s = Some o -> exists s', o = Ok s' /\ race_ok d s'.
Proof.
  intros Hok Hst. destruct s as [dev lk ts]. unfold race_step in Hst. simpl in Hst.
  destruct (ts !! i) as [t|] eqn:Ht; [|done]. simpl in Hst.
  pose proof (list_elem_of_split_length _ _ _ Ht) as (a & b & -> & ->).
  pose proof (rc_enough _ _ Hok) as He. pose proof (rc_head _ _ Hok (length a)) as Hh. simpl in He, Hh.
  pose proof (rc_took _ _ Hok) as Hk. pose proof (others_listed _ _ _ _ _ _ Hok) as Hoth.
  unfold frames_taken in Hk. cbn [r_threads r_dev] in Hk. rewrite !omap_app in Hk. cbn in Hk.
  destruct (getfp_step _ _ _) as [o'|] eqn:Hg; [|done]. simpl in Hst. injection Hst as <-.
  destruct t as [| | |l|f|f|r]; simpl in Hg; rewrite filter_app, length_app in He; cbn in Hk.
  - destruct (free_fp_list dev) as [|f fs] eqn:Hfr; [rewrite filter_cons_True in He by done; simpl in He; lia|].
    injection Hg as <-. eexists. split; [reflexivity|]. simpl. rewrite insert_mid.
    eapply race_ok_move; [exact Hok|..]; rewrite ?omap_app, ?filter_app, ?length_app; simpl; try done; auto.
  - destruct lk; [done|]. injection Hg as <-. eexists. split; [reflexivity|]. simpl. rewrite insert_mid.
    eapply race_ok_move; [exact Hok|..]; rewrite ?omap_app, ?filter_app, ?length_app; simpl; try done; auto.
  - injection Hg as <-. eexists. split; [reflexivity|]. simpl. rewrite insert_mid.
    eapply race_ok_move; [exact Hok|..]; rewrite ?omap_app, ?filter_app, ?length_app; simpl; try done; auto.
    + intros _. apply (rc_lock _ _ Hok _ _ Ht). done.
    + by intros l [= <-].
  - specialize (Hh l Ht). subst l. destruct (free_fp_list dev) as [|f fs] eqn:Hfr;
      [rewrite filter_cons_True in He by done; simpl in He; lia|].
    destruct (Hoth I) as [Ha Hb]. rewrite Ha, Hb in Hk.
    injection Hg as <-. eexists. split; [reflexivity|]. simpl. rewrite insert_mid.
    eapply race_ok_move; [exact Hok|..]; rewrite ?omap_app, ?filter_app, ?length_app; simpl; rewrite ?Hfr; try done; auto.
    + change (took d (omap frame_of a ++ f :: omap frame_of b) (omap unlisted a ++ f :: omap unlisted b)
                (set_fps fs (used_fp_list dev) dev)). rewrite Ha, Hb. by apply took_pop.
    + change (filter pending (G_push f :: b)) with (filter pending b). simpl. lia.
    + intros _. apply (rc_lock _ _ Hok _ _ Ht). done.
  - destruct (Hoth I) as [Ha Hb]. rewrite Ha, Hb in Hk.
    injection Hg as <-. eexists. split; [reflexivity|]. simpl. rewrite insert_mid.
    eapply race_ok_move; [exact Hok|..]; rewrite ?omap_app, ?filter_app, ?length_app; simpl; try done; auto.
    + change (took d (omap frame_of a ++ f :: omap frame_of b) (omap unlisted a ++ omap unlisted b)
                (set_fps (free_fp_list dev) (f :: used_fp_list dev) dev)). rewrite Ha, Hb. by apply took_push.
    + intros _. apply (rc_lock _ _ Hok _ _ Ht). done.
  - injection Hg as <-. eexists. split; [reflexivity|]. simpl. rewrite insert_mid.
    eapply race_ok_move; [exact Hok|..]; rewrite ?omap_app, ?filter_app, ?length_app; simpl; try done; auto.
  - done.
Qed.

Lemma race_ok_exec d l s o : race_ok d s -> race_exec l s = Some o -> exists s', o = Ok s' /\ race_ok d s'.
Proof.
  revert s. induction l as [|i l IH]; intros s Hok Hl; simpl in Hl; [injection Hl as <-; by exists s|].
  destruct (race_step i s) as [o1|] eqn:H1; [|done]. destruct (race_ok_step _ _ _ _ Hok H1) as (s1 & -> & Hok1).
  simpl in Hl. by eapply IH.
Qed.

(** C33 (safety): with a frame for each thread the lock is enough.  When [n]
    threads enter [MEMPHY_get_freefp] of a device with at least [n] free
    frames, no interleaving of their tests, locks and accesses reaches
    undefined behaviour.  In every state reached, if [k] threads have taken a
    frame, these are the first [k] of the free list, no two the same, and the
    rest of the list, in order, is left; a thread that has returned has one of
    them; and whenever no thread holds the lock the device is, in all its
    fields, what [k] calls one after the other make of it. *)
Theorem frames_given_once d n l o :
  frames_wf d -> (n <= length (free_fp_list d))%nat -> race_exec l (race_start d n) = Some o ->
  exists s, o = Ok s /\ let k := length (frames_taken s) in
    frames_taken s ≡ₚ take k (free_fp_list d) /\ NoDup (frames_taken s) /\
    free_fp_list (r_dev s) = drop k (free_fp_list d) /\
    (r_lock s = None -> run_fops (replicate k GetF) d = Ok (Some <$> take k (free_fp_list d), r_dev s)) /\
    forall i r, r_threads s !! i = Some (G_done r) -> exists fpn, r = Some fpn /\ fpn ∈ take k (free_fp_list d).
Proof.
  intros [Hnd _] Hn Hl. destruct (race_ok_exec _ _ _ _ (race_ok_start d n Hn) Hl) as (s & -> & [[H1 H2 H3] _ Hnone Hlk _]).
  exists s. split; [done|]. cbv zeta. unfold frames_of in Hnd. apply NoDup_app in Hnd as (Hnd & _ & _). split_and!.
  - done.
  - rewrite H2. rewrite <- (take_drop (length (frames_taken s)) (free_fp_list d)) in Hnd. by apply NoDup_app in Hnd as (? & _).
  - by rewrite H1.
  - intros Hfree. rewrite run_gets_spec.
    + do 2 f_equal. rewrite H1. f_equal. rewrite <- H3.
      assert (Hno : Forall (fun t => unlisted t = None) (r_threads s)).
      { apply Forall_lookup. intros i t Ht. destruct t; try done. specialize (Hlk i _ Ht I). by rewrite Hfree in Hlk. }
      replace (omap unlisted (r_threads s)) with (@nil Z); [done|].
      clear -Hno. induction Hno as [|t ts Ht _ IH]; [done|]. cbn. by rewrite Ht.
    + pose proof (Permutation_length H2) as Hlen. rewrite length_take in Hlen. lia.
  - intros i [fpn|] Hi; [|destruct Hnone; by eapply list_elem_of_lookup_2]. exists fpn. split; [done|].
    rewrite <- H2. unfold frames_taken. apply list_elem_of_omap. exists (G_done (Some fpn)).
    split; [by eapply list_elem_of_lookup_2|done].
Qed.

(** ** With more threads than frames *)

Lemma race_exec_app l1 l2 s : race_exec (l1 ++ l2) s =
  match race_exec l1 s with Some (Ok s') => race_exec l2 s' | r => r end.
Proof.
  revert s. induction l1 as [|i l1 IH]; intros s; simpl; [done|]. destruct (race_step i s) as [[s'| |c]|]; simpl; [|done..]. apply IH.
Qed.

(** The step of the thread after [a]. *)
Lemma race_step_at a b d lk t o :
  getfp_step (length a) t (mk_race d lk (a ++ t :: b)) = Some o ->
  race_step (length a) (mk_race d lk (a ++ t :: b)) =
  Some (match o with
        | Ok (t', s') => Ok (mk_race (r_dev s') (r_lock s') (<[length a := t']> (r_threads s')))
        | Undef => Undef
        | Exit c => Exit c
        end).
Proof. intros Hg. unfold race_step. cbn [r_threads]. rewrite list_lookup_middle by done. simpl. by rewrite Hg. Qed.

Lemma step_test a b d lk fpn fs : free_fp_list d = fpn :: fs ->
  race_step (length a) (mk_race d lk (a ++ G_test :: b)) = Some (Ok (mk_race d lk (a ++ G_lock :: b))).
Proof. intros Hd. erewrite race_step_at by reflexivity. simpl. by rewrite Hd, insert_mid. Qed.

(** A thread that has passed the test gets to [G_pop], and if there is a frame
    to its end. *)
Lemma run_to_pop a b d :
  race_exec [length a; length a] (mk_race d None (a ++ G_lock :: b)) =
  Some (Ok (mk_race d (Some (length a)) (a ++ G_pop (free_fp_list d) :: b))).
Proof.
  cbn [race_exec]. erewrite race_step_at by reflexivity. simpl. rewrite insert_mid.
  erewrite race_step_at by reflexivity. simpl. by rewrite insert_mid.
Qed.

Lemma run_from_pop a b d i fpn fs : free_fp_list d = fpn :: fs ->
  race_exec [length a; length a; length a] (mk_race d (Some i) (a ++ G_pop (fpn :: fs) :: b)) =
  Some (Ok (mk_race (set_fps fs (fpn :: used_fp_list d) d) None (a ++ G_done (Some fpn) :: b))).
Proof.
  intros Hd. cbn [race_exec]. erewrite race_step_at by reflexivity. simpl. rewrite insert_mid.
  erewrite race_step_at by reflexivity. simpl. rewrite insert_mid.
  erewrite race_step_at by reflexivity. simpl. by rewrite insert_mid.
Qed.

Lemma run_from_lock a b d fpn fs : free_fp_list d = fpn :: fs ->
  race_exec (replicate 5 (length a)) (mk_race d None (a ++ G_lock :: b)) =
  Some (Ok (mk_race (set_fps fs (fpn :: used_fp_list d) d) None (a ++ G_done (Some fpn) :: b))).
Proof.
  intros Hd. change (replicate 5 (length a)) with ([length a; length a] ++ [length a; length a; length a]).
  rewrite race_exec_app, run_to_pop, Hd. by apply run_from_pop.
Qed.

(** All the threads pass the test. *)
Lemma all_test d fpn fs m : free_fp_list d = fpn :: fs -> forall k,
  race_exec (List.seq k m) (mk_race d None (replicate k G_lock ++ replicate m G_test)) =
  Some (Ok (mk_race d None (replicate (k + m) G_lock))).
Proof.
  intros Hd. induction m as [|m IH]; intros k; cbn [List.seq race_exec replicate].
  { by rewrite app_nil_r, Nat.add_0_r. }
  rewrite <- (length_replicate k G_lock) at 1. rewrite (step_test _ _ _ _ _ _ Hd). simpl.
  specialize (IH (S k)). rewrite replicate_S_end, <- app_assoc in IH. simpl in IH. rewrite IH. by rewrite Nat.add_succ_r.
Qed.

(** The threads take the frames one by one; the next finds none. *)
Lemma one_too_many fs : forall d a b,
  free_fp_list d = fs -> (length fs < length b)%nat -> Forall (fun t => t = G_lock) b ->
  exists l, race_exec l (mk_race d None (a ++ b)) = Some Undef.
Proof.
  induction fs as [|fpn fs IH]; intros d a [|t b] Hd Hlen Hb; simpl in Hlen; try lia;
    apply Forall_cons in Hb as [-> Hb].
  - exists ([length a; length a] ++ [length a]). rewrite race_exec_app, run_to_pop, Hd. cbn [race_exec].
    by erewrite race_step_at by reflexivity.
  - destruct (IH (set_fps fs (fpn :: used_fp_list d) d) (a ++ [G_done (Some fpn)]) b) as [l Hl]; [done|lia|done|].
    exists (replicate 5 (length a) ++ l). rewrite race_exec_app, (run_from_lock _ _ _ _ _ Hd).
    by rewrite <- app_assoc in Hl.
Qed.

(** C34 (error): the test for an empty list races.  [MEMPHY_get_freefp] tests
    before it takes [memphy_lock] and not again under it: on every device with
    free frames, but fewer than the threads that enter, some interleaving
    lets all of them pass the test, the frames run out, and a thread
    dereferences the NULL head of the list.  The same threads one after the
    other never do: the first take the frames, the rest answer -1. *)
Theorem empty_test_races d n :
  (0 < length (free_fp_list d) < n)%nat ->
  (exists l, race_exec l (race_start d n) = Some Undef) /\
  forall s, r_lock s = None -> forall i, r_threads s !! i = Some G_test ->
    exists r s', race_exec (match r with Some _ => replicate 6 i | None => [i] end) s = Some (Ok s') /\
      r_threads s' = <[i := G_done r]> (r_threads s) /\ r_lock s' = None /\
      memphy_get_freefp (r_dev s) = Ok (r, r_dev s').
Proof.
  intros [Hpos Hlt]. split.
  - destruct (free_fp_list d) as [|fpn fs] eqn:Hd; [simpl in Hpos; lia|].
    destruct (one_too_many (fpn :: fs) d [] (replicate n G_lock) Hd) as [l Hl].
    + by rewrite length_replicate.
    + by apply Forall_replicate.
    + exists (List.seq 0 n ++ l). rewrite race_exec_app. change (race_start d n) with (mk_race d None (replicate 0 G_lock ++ replicate n G_test)).
      by rewrite (all_test d fpn fs).
  - intros [dv lk ts] Hk i Hi. simpl in *. subst lk. apply list_elem_of_split_length in Hi as (a & b & -> & ->).
    rewrite get_freefp_spec. destruct (free_fp_list dv) as [|fpn fs] eqn:Hd.
    + exists None, (mk_race dv None (a ++ G_done None :: b)). split; [|split; [simpl; by rewrite insert_mid|done]].
      cbn [race_exec]. erewrite race_step_at by reflexivity. simpl. by rewrite Hd, insert_mid.
    + exists (Some fpn), (mk_race (set_fps fs (fpn :: used_fp_list dv) dv) None (a ++ G_done (Some fpn) :: b)).
      split; [|split; [simpl; by rewrite insert_mid|done]].
      change (race_exec ([length a] ++ replicate 5 (length a)) (mk_race dv None (a ++ G_test :: b)) =
              Some (Ok (mk_race (set_fps fs (fpn :: used_fp_list dv) dv) None (a ++ G_done (Some fpn) :: b)))).
      rewrite race_exec_app. cbn [race_exec]. rewrite (step_test _ _ _ _ _ _ Hd). exact (run_from_lock a b dv fpn fs Hd).
Qed.

(** ** Two threads *)

Definition one_frame : memphy_struct := mk_memphy ∅ 8192 8192 1 0 [1] [0].
Definition two_frames : memphy_struct := mk_memphy ∅ 8192 8192 1 0 [0; 1] [].

Lemma frames_given_once_witness :
  exists s, race_exec [0; 1; 1; 1; 1; 1; 1; 0; 0; 0; 0; 0]%nat (race_start two_frames 2) = Some (Ok s) /\
    frames_taken s ≡ₚ [0; 1] /\ run_fops [GetF; GetF] two_frames = Ok ([Some 0; Some 1], r_dev s).
Proof.
  destruct (race_exec [0; 1; 1; 1; 1; 1; 1; 0; 0; 0; 0; 0]%nat (race_start two_frames 2)) as [o|] eqn:Hl; [|vm_compute in Hl; discriminate].
  assert (Hwf : frames_wf two_frames).
  { split; [repeat constructor; apply (bool_decide_unpack _); reflexivity|]. repeat constructor; lia. }
  destruct (frames_given_once two_frames 2 [0; 1; 1; 1; 1; 1; 1; 0; 0; 0; 0; 0]%nat o Hwf ltac:(simpl; lia) Hl) as (s & -> & Hp & _ & _ & Hd & _).
  exists s. split; [reflexivity|]. vm_compute in Hl. injection Hl as <-. split; [exact Hp|exact (Hd eq_refl)].
Defined.

Lemma empty_test_races_witness :
  race_exec [0; 1; 0; 0; 0; 0; 0; 1; 1; 1]%nat (race_start one_frame 2) = Some Undef /\
  exists l, race_exec l (race_start one_frame 2) = Some Undef.
Proof. split; [reflexivity|]. apply (empty_test_races one_frame 2). simpl. lia. Defined.
