(* ===== verification/Kernel.v ===== *)
(** * Kernel objects and the shared store: [include/os-mm.h], [include/common.h]

    The structs of the memory subsystem as records, and [sys], the store all
    processes share: memory descriptors, devices, processes and page tables,
    each reached through its address.  A linked list that the code only ever
    reaches through one owner (frame lists, free regions, the page FIFO, the
    vm areas) is a list with the head first. *)

From S2P Require Import Prelude Pte MemPhy.

Definition PID_MAX : Z := 255.
Definition PAGING_MAX_SYMTBL_SZ : Z := 30.
Definition PAGING_MAX_KCACHE_POOLS : Z := 100.
Definition PAGING64_DIR_ENTRIES : Z := 512.

(** [rg_vmaid] is [None] while the field has not been written. *)
Record vm_rg_struct := mk_rg { rg_vmaid : option Z; rg_start : Z; rg_end : Z }.

Record vm_area_struct := mk_vma {
  vm_id : Z; vm_start : Z; vm_end : Z; sbrk : Z; vm_freerg_list : list vm_rg_struct;
}.

Record kcache_pool_struct := mk_pool { kc_size : Z; kc_align : Z; kc_storage : Z }.

(** The [pgtbl_*] counters of [mm_struct]. *)
Record pgstats := mk_stats {
  walks : Z; level_reads : Z; level_writes : Z; tables_allocated : Z; storage_bytes : Z;
}.

(** [struct mm_struct] under MM64; its fields [p4d], [pud], [pmd] and [pt] are
    set to NULL by [init_mm] and never used.  [mmap] is the chain of areas
    ([NULL] is []), [kcpooltbl] is [None] while NULL. *)
Record mm_struct := mk_mm {
  pgd : Z;
  mmap : list vm_area_struct;
  symrgtbl : list vm_rg_struct;
  fifo_pgn : list Z;
  kcpooltbl : option (list kcache_pool_struct);
  stats : pgstats;
}.

Definition set_mmap (x : list vm_area_struct) (m : mm_struct) : mm_struct :=
  mk_mm (pgd m) x (symrgtbl m) (fifo_pgn m) (kcpooltbl m) (stats m).
Definition set_symrgtbl (x : list vm_rg_struct) (m : mm_struct) : mm_struct :=
  mk_mm (pgd m) (mmap m) x (fifo_pgn m) (kcpooltbl m) (stats m).
Definition set_fifo (x : list Z) (m : mm_struct) : mm_struct :=
  mk_mm (pgd m) (mmap m) (symrgtbl m) x (kcpooltbl m) (stats m).
Definition set_kcpooltbl (x : option (list kcache_pool_struct)) (m : mm_struct) : mm_struct :=
  mk_mm (pgd m) (mmap m) (symrgtbl m) (fifo_pgn m) x (stats m).
Definition set_stats (x : pgstats) (m : mm_struct) : mm_struct :=
  mk_mm (pgd m) (mmap m) (symrgtbl m) (fifo_pgn m) (kcpooltbl m) x.

(** Instructions, [include/common.h]. *)
Inductive ins_opcode_t :=
| CALC | ALLOC | FREE | READ | WRITE | KMALLOC | KMEM_CACHE_CREATE
| KMEM_CACHE_ALLOC | COPY_FROM_USER | COPY_TO_USER | SYSCALL.

Record inst_t := mk_inst { opcode : ins_opcode_t; arg_0 : Z; arg_1 : Z; arg_2 : Z; arg_3 : Z }.

Record code_seg_t := mk_code { text : list inst_t; code_size : Z }.

(** [struct pcb_t]; [p_krnl] and [p_mm] are pointers. *)
Record pcb_t := mk_pcb {
  pid : Z; priority : Z; code : code_seg_t; regs : list Z; pc : Z; prio : Z;
  p_krnl : Z; bp : Z; p_mm : Z;
}.

Definition set_mm (x : Z) (p : pcb_t) : pcb_t :=
  mk_pcb (pid p) (priority p) (code p) (regs p) (pc p) (prio p) (p_krnl p) (bp p) x.
Definition set_regs (x : list Z) (p : pcb_t) : pcb_t :=
  mk_pcb (pid p) (priority p) (code p) x (pc p) (prio p) (p_krnl p) (bp p) (p_mm p).
Definition set_pc (x : Z) (p : pcb_t) : pcb_t :=
  mk_pcb (pid p) (priority p) (code p) (regs p) x (prio p) (p_krnl p) (bp p) (p_mm p).

(** The memory part of [struct krnl_t]; there is one kernel object ([os] in
    [os.c]), so a non-NULL [krnl] pointer reaches it. *)
Record krnl_t := mk_krnl { proc_table : list Z; k_mm : Z; k_mram : Z; k_active_mswp : Z }.

(** Page tables: each [calloc]ed table of 512 entries under its address; an
    entry never written is 0.  [next_table] is the next address handed out. *)
Record pgheap := mk_heap { tables : gmap Z (gmap Z Z); next_table : Z }.

(** The shared store. *)
Record sys := mk_sys {
  mms : gmap Z mm_struct;
  devs : gmap Z memphy_struct;
  procs : gmap Z pcb_t;
  os : krnl_t;
  heap : pgheap;
  s_host : list bool;
}.

Definition set_mms (x : gmap Z mm_struct) (s : sys) : sys :=
  mk_sys x (devs s) (procs s) (os s) (heap s) (s_host s).
Definition set_devs (x : gmap Z memphy_struct) (s : sys) : sys :=
  mk_sys (mms s) x (procs s) (os s) (heap s) (s_host s).
Definition set_procs (x : gmap Z pcb_t) (s : sys) : sys :=
  mk_sys (mms s) (devs s) x (os s) (heap s) (s_host s).
Definition set_os (x : krnl_t) (s : sys) : sys :=
  mk_sys (mms s) (devs s) (procs s) x (heap s) (s_host s).
Definition set_heap (x : pgheap) (s : sys) : sys :=
  mk_sys (mms s) (devs s) (procs s) (os s) x (s_host s).

#[export] Program Instance sys_host : HostMem sys := {
  host := s_host;
  set_host l s := mk_sys (mms s) (devs s) (procs s) (os s) (heap s) l;
}.
Next Obligation. done. Qed.
Next Obligation. by intros []. Qed.

(** ** Access through pointers *)

Definition get_mm (p : Z) : M sys mm_struct :=
  let* s := gets (fun s => s) in from_opt (mms s !! p).
Definition upd_mm (p : Z) (f : mm_struct -> mm_struct) : M sys unit :=
  let* m := get_mm p in
  modify (fun s => set_mms (<[p := f m]> (mms s)) s).
Definition on_dev {A} (p : Z) (m : M memphy_struct A) : M sys A :=
  zoom (fun s => devs s !! p) (fun d s => set_devs (<[p := d]> (devs s)) s) m.

(** The entry points of [mm-memphy.c] on a device pointer. *)
Definition MEMPHY_read (mp addr : Z) : M sys (Z * option Z) :=
  if mp =? NULL then ret (-1, None) else on_dev mp (memphy_read addr).
Definition MEMPHY_write (mp addr data : Z) : M sys Z :=
  if mp =? NULL then ret (-1) else on_dev mp (memphy_write addr data).
(** [Some fpn] is the return code 0 with [*retfpn = fpn], [None] is -1. *)
Definition MEMPHY_get_freefp (mp : Z) : M sys (option Z) :=
  if mp =? NULL then ret None else on_dev mp memphy_get_freefp.
Definition MEMPHY_put_freefp (mp fpn : Z) : M sys Z :=
  if mp =? NULL then ret (-1) else on_dev mp (memphy_put_freefp fpn).

(** ** Rules for the accesses *)

Lemma wp_get_mm p (Q : mm_struct -> sys -> Prop) s m :
  mms s !! p = Some m -> Q m s -> wp (get_mm p) Q s.
Proof. intros Hm HQ. unfold get_mm. wp_steps. done. Qed.

Lemma wp_upd_mm p f (Q : unit -> sys -> Prop) s m :
  mms s !! p = Some m -> Q tt (set_mms (<[p := f m]> (mms s)) s) -> wp (upd_mm p f) Q s.
Proof. intros Hm HQ. unfold upd_mm. wp_step. eapply wp_get_mm; [done|]. wp_steps. done. Qed.

Lemma wp_on_dev {A} p (c : M memphy_struct A) (Q : A -> sys -> Prop) s d :
  devs s !! p = Some d ->
  wp c (fun a d' => Q a (set_devs (<[p := d']> (devs s)) s)) d ->
  wp (on_dev p c) Q s.
Proof. intros Hd Hc. unfold on_dev. by eapply wp_zoom. Qed.

Lemma wp_MEMPHY_read p addr (Q : Z * option Z -> sys -> Prop) s d :
  p <> NULL -> devs s !! p = Some d -> rdmflg d <> 0 -> 0 <= addr < storage_len d ->
  Q (0, Some (byte_at d addr)) s -> wp (MEMPHY_read p addr) Q s.
Proof.
  intros Hp Hd Hr Ha HQ. unfold MEMPHY_read. apply Z.eqb_neq in Hp. rewrite Hp.
  eapply wp_on_dev; [done|]. eapply wp_intro; [by apply memphy_read_ok|].
  rewrite insert_id by done. by destruct s.
Qed.

Lemma wp_MEMPHY_write p addr v (Q : Z -> sys -> Prop) s d :
  p <> NULL -> devs s !! p = Some d -> rdmflg d <> 0 -> 0 <= addr < storage_len d ->
  Q 0 (set_devs (<[p := set_storage (<[addr := v]> (storage d)) d]> (devs s)) s) ->
  wp (MEMPHY_write p addr v) Q s.
Proof.
  intros Hp Hd Hr Ha HQ. unfold MEMPHY_write. apply Z.eqb_neq in Hp. rewrite Hp.
  eapply wp_on_dev; [done|]. eapply wp_intro; [by apply memphy_write_ok|]. done.
Qed.
