(* ===== verification/PageTable.v ===== *)
(** * The five-level page table: [get_pd_from_*] and [get_pte_ptr] of [src/mm64.c]

    A page table is a tree of 512-entry tables in [heap], reached from
    [mm->pgd]; an entry of the four upper levels is the address of a table.
    [pte_of] is the abstract view: the entry of a page of an address space.
    The well-formedness [pt_wf] says that no table is shared, neither within
    one tree nor between two address spaces. *)

From S2P Require Import Prelude Pte MemPhy Kernel.

(** ** Splitting an address *)

Definition PAGING64_ADDR_PGD_MASK : Z := GENMASK64 56 48.
Definition PAGING64_ADDR_P4D_MASK : Z := GENMASK64 47 39.
Definition PAGING64_ADDR_PUD_MASK : Z := GENMASK64 38 30.
Definition PAGING64_ADDR_PMD_MASK : Z := GENMASK64 29 21.
Definition PAGING64_ADDR_PT_MASK : Z := GENMASK64 20 12.

Record pgdirs := mk_dirs { d_pgd : Z; d_p4d : Z; d_pud : Z; d_pmd : Z; d_pt : Z }.

(** [None] is the return code -1, which leaves the five outputs unwritten. *)
Definition get_pd_from_address (addr : Z) : option pgdirs :=
  let top_bits := Z.shiftr addr 57 in
  if negb (top_bits =? 0) && negb (top_bits =? 0x7f) then None
  else Some (mk_dirs (Z.shiftr (Z.land addr PAGING64_ADDR_PGD_MASK) 48)
                     (Z.shiftr (Z.land addr PAGING64_ADDR_P4D_MASK) 39)
                     (Z.shiftr (Z.land addr PAGING64_ADDR_PUD_MASK) 30)
                     (Z.shiftr (Z.land addr PAGING64_ADDR_PMD_MASK) 21)
                     (Z.shiftr (Z.land addr PAGING64_ADDR_PT_MASK) 12)).

Definition get_pd_from_pagenum (pgn : Z) : option pgdirs :=
  get_pd_from_address (u64 (Z.shiftl pgn PAGING64_ADDR_PT_SHIFT)).

(** ** Tables *)

Definition PGTBL_TABLE_BYTES : Z := PAGING64_DIR_ENTRIES * 8.

(** [calloc(PAGING64_DIR_ENTRIES, sizeof(uint64_t))]: NULL on failure. *)
Definition calloc_table : M sys Z :=
  let* ok := malloc in
  if ok then
    let* h := gets heap in
    modify (set_heap (mk_heap (<[next_table h := ∅]> (tables h))
                              (next_table h + PGTBL_TABLE_BYTES))) ;;;
    ret (next_table h)
  else ret NULL.

Definition tbl_index_ok (i : Z) : bool := (0 <=? i) && (i <? PAGING64_DIR_ENTRIES).

(** [tbl[i]] and [tbl[i] = v] *)
Definition tbl_get (a i : Z) : M sys Z :=
  let* s := gets (fun s => s) in
  let* t := from_opt (tables (heap s) !! a) in
  if tbl_index_ok i then ret (default 0 (t !! i)) else undef.
Definition tbl_put (a i v : Z) : M sys unit :=
  let* s := gets (fun s => s) in
  let* t := from_opt (tables (heap s) !! a) in
  if tbl_index_ok i then
    modify (set_heap (mk_heap (<[a := <[i := v]> t]> (tables (heap s))) (next_table (heap s))))
  else undef.

(** The counters of [mm_struct] are [uint64_t]. *)
Definition bump_walks (st : pgstats) : pgstats :=
  mk_stats (u64 (walks st + 1)) (level_reads st) (level_writes st) (tables_allocated st) (storage_bytes st).
Definition bump_reads (st : pgstats) : pgstats :=
  mk_stats (walks st) (u64 (level_reads st + 1)) (level_writes st) (tables_allocated st) (storage_bytes st).
Definition bump_writes (st : pgstats) : pgstats :=
  mk_stats (walks st) (level_reads st) (u64 (level_writes st + 1)) (tables_allocated st) (storage_bytes st).
Definition bump_tables (st : pgstats) : pgstats :=
  mk_stats (walks st) (level_reads st) (level_writes st) (u64 (tables_allocated st + 1))
           (u64 (storage_bytes st + PGTBL_TABLE_BYTES)).
Definition count (mm : Z) (f : pgstats -> pgstats) : M sys unit :=
  upd_mm mm (fun m => set_stats (f (stats m)) m).

Definition alloc_pgtbl_level (mm : Z) : M sys Z :=
  let* tbl := calloc_table in
  (if negb (tbl =? NULL) && negb (mm =? NULL) then count mm bump_tables else ret tt) ;;;
  ret tbl.

(** One of the four blocks of [get_pte_ptr]: step from table [tbl] through
    entry [idx] to the table below, creating it when [is_alloc]. *)
Definition pte_level (mm tbl idx is_alloc : Z) : M sys (option Z) :=
  count mm bump_reads ;;;
  let* e := tbl_get tbl idx in
  if e =? 0 then
    if is_alloc =? 0 then ret None
    else
      let* new := alloc_pgtbl_level mm in
      tbl_put tbl idx new ;;;
      count mm bump_writes ;;;
      let* e := tbl_get tbl idx in
      if e =? 0 then ret None else ret (Some e)
  else ret (Some e).

(** [get_pte_ptr]: the address of the entry, as table and index; [None] is
    NULL.  A page number that [get_pd_from_pagenum] rejects leaves the five
    indices uninitialised, and using them is undefined. *)
Definition get_pte_ptr (caller : option pcb_t) (pgn is_alloc : Z) : M sys (option (Z * Z)) :=
  match caller with
  | None => ret None
  | Some c =>
      let mm := p_mm c in
      if mm =? NULL then ret None
      else
        let* m := get_mm mm in
        if pgd m =? NULL then ret None
        else
          let* d := from_opt (get_pd_from_pagenum pgn) in
          count mm bump_walks ;;;
          let* p4d_tbl := pte_level mm (pgd m) (d_pgd d) is_alloc in
          match p4d_tbl with None => ret None | Some p4d_tbl =>
          let* pud_tbl := pte_level mm p4d_tbl (d_p4d d) is_alloc in
          match pud_tbl with None => ret None | Some pud_tbl =>
          let* pmd_tbl := pte_level mm pud_tbl (d_pud d) is_alloc in
          match pmd_tbl with None => ret None | Some pmd_tbl =>
          let* pt_tbl := pte_level mm pmd_tbl (d_pmd d) is_alloc in
          match pt_tbl with None => ret None | Some pt_tbl =>
          count mm bump_reads ;;;
          ret (Some (pt_tbl, d_pt d))
          end end end end
  end.

(** ** The indices of a page number *)

Lemma field_div a h l :
  0 <= l <= h -> h < 64 ->
  Z.shiftr (Z.land a (GENMASK64 h l)) l = (a / 2 ^ l) mod 2 ^ (h - l + 1).
Proof.
  intros Hl Hh. rewrite <- Z.shiftr_div_pow2 by lia.
  fold (wrapU (h - l + 1) (Z.shiftr a l)). apply Z.bits_inj'. intros i Hi.
  rewrite wrapU_testbit, !Z.shiftr_spec, Z.land_spec, GENMASK64_testbit by lia.
  destruct (Z.testbit a (i + l)); simpl; [|by rewrite andb_false_r]. rewrite andb_true_r. lia.
Qed.

(** The page numbers of the low canonical half: 45 bits. *)
Definition valid_pgn (pgn : Z) : Prop := 0 <= pgn < 2 ^ 45.

Definition dirs_of (pgn : Z) : list Z :=
  [pgn / 2 ^ 36; (pgn / 2 ^ 27) mod 512; (pgn / 2 ^ 18) mod 512; (pgn / 2 ^ 9) mod 512].
Definition pt_index (pgn : Z) : Z := pgn mod 512.


Lemma get_pd_from_pagenum_spec pgn :
  valid_pgn pgn ->
  get_pd_from_pagenum pgn =
    Some (mk_dirs (pgn / 2 ^ 36) ((pgn / 2 ^ 27) mod 512) ((pgn / 2 ^ 18) mod 512)
                  ((pgn / 2 ^ 9) mod 512) (pt_index pgn)).
Proof.
  intros Hp. unfold valid_pgn, get_pd_from_pagenum, get_pd_from_address, PAGING64_ADDR_PT_SHIFT in *.
  rewrite Z.shiftl_mul_pow2, u64_small, Z.shiftr_div_pow2 by lia.
  replace (pgn * 2 ^ 12 / 2 ^ 57) with 0 by lia. cbn [Z.eqb negb andb].
  unfold PAGING64_ADDR_PGD_MASK, PAGING64_ADDR_P4D_MASK, PAGING64_ADDR_PUD_MASK,
    PAGING64_ADDR_PMD_MASK, PAGING64_ADDR_PT_MASK, pt_index.
  rewrite !field_div by lia. do 2 f_equal.
  - replace (pgn * 2 ^ 12 / 2 ^ 48) with (pgn / 2 ^ 36) by lia. lia.
  - replace (pgn * 2 ^ 12 / 2 ^ 39) with (pgn / 2 ^ 27) by lia. done.
  - replace (pgn * 2 ^ 12 / 2 ^ 30) with (pgn / 2 ^ 18) by lia. done.
  - replace (pgn * 2 ^ 12 / 2 ^ 21) with (pgn / 2 ^ 9) by lia. done.
  - replace (pgn * 2 ^ 12 / 2 ^ 12) with pgn by lia. done.
Qed.

Lemma dirs_inj pgn1 pgn2 :
  dirs_of pgn1 = dirs_of pgn2 -> pt_index pgn1 = pt_index pgn2 -> pgn1 = pgn2.
Proof. unfold dirs_of, pt_index. intros [= H1 H2 H3 H4] H5. lia. Qed.

Lemma dirs_range pgn : valid_pgn pgn -> Forall (fun i => 0 <= i < 512) (dirs_of pgn).
Proof. unfold valid_pgn, dirs_of. intros H. repeat constructor; lia. Qed.

Lemma pt_index_range pgn : 0 <= pt_index pgn < 512.
Proof. unfold pt_index. lia. Qed.

(** The address split.  A page number of the low canonical
    half is accepted, its five indices are within the 512-entry tables and
    determine it; an address is rejected exactly when its bits 57..63 are
    neither all 0 nor 0x7f; and the high half is folded onto the low half, so
    the two canonical halves share one tree. *)
Theorem pagenum_split_roundtrip pgn addr :
  0 <= pgn < 2 ^ 45 -> 0 <= addr < 2 ^ 64 ->
  (exists d, get_pd_from_pagenum pgn = Some d /\
     Forall (fun i => 0 <= i < PAGING64_DIR_ENTRIES) [d_pgd d; d_p4d d; d_pud d; d_pmd d; d_pt d] /\
     pgn = d_pgd d * 2 ^ 36 + d_p4d d * 2 ^ 27 + d_pud d * 2 ^ 18 + d_pmd d * 2 ^ 9 + d_pt d) /\
  (get_pd_from_address addr = None <-> addr / 2 ^ 57 <> 0 /\ addr / 2 ^ 57 <> 127) /\
  get_pd_from_pagenum (2 ^ 52 - 2 ^ 45 + pgn) = get_pd_from_pagenum pgn.
Proof.
  intros Hp Ha. split_and!.
  - eexists. split; [by apply get_pd_from_pagenum_spec|]. simpl. unfold pt_index, PAGING64_DIR_ENTRIES.
    split; [repeat constructor; lia|lia].
  - unfold get_pd_from_address. rewrite Z.shiftr_div_pow2 by lia.
    destruct (Z.eqb_spec (addr / 2 ^ 57) 0), (Z.eqb_spec (addr / 2 ^ 57) 127); simpl;
      split; intros Hc; first [done|split; lia|exfalso; lia].
  - rewrite (get_pd_from_pagenum_spec pgn) by exact Hp. unfold get_pd_from_pagenum, get_pd_from_address.
    unfold PAGING64_ADDR_PT_SHIFT. rewrite Z.shiftl_mul_pow2, u64_small, Z.shiftr_div_pow2 by lia.
    replace ((2 ^ 52 - 2 ^ 45 + pgn) * 2 ^ 12 / 2 ^ 57) with 127 by lia. cbn [Z.eqb negb andb Pos.eqb].
    unfold PAGING64_ADDR_PGD_MASK, PAGING64_ADDR_P4D_MASK, PAGING64_ADDR_PUD_MASK,
      PAGING64_ADDR_PMD_MASK, PAGING64_ADDR_PT_MASK, pt_index.
    rewrite !field_div by lia. do 2 f_equal; lia.
Qed.

Lemma pagenum_split_roundtrip_witness :
  (exists d, get_pd_from_pagenum 0x123456789 = Some d /\
     Forall (fun i => 0 <= i < PAGING64_DIR_ENTRIES) [d_pgd d; d_p4d d; d_pud d; d_pmd d; d_pt d] /\
     0x123456789 = d_pgd d * 2 ^ 36 + d_p4d d * 2 ^ 27 + d_pud d * 2 ^ 18 + d_pmd d * 2 ^ 9 + d_pt d) /\
  (get_pd_from_address (2 ^ 60) = None <-> 2 ^ 60 / 2 ^ 57 <> 0 /\ 2 ^ 60 / 2 ^ 57 <> 127) /\
  get_pd_from_pagenum (2 ^ 52 - 2 ^ 45 + 0x123456789) = get_pd_from_pagenum 0x123456789.
Proof. apply pagenum_split_roundtrip; lia. Defined.

Lemma dirs_of_length pgn : length (dirs_of pgn) = 4%nat.
Proof. done. Qed.

Lemma dirs_of_eq pgn :
  dirs_of pgn = [pgn / 2 ^ 36; (pgn / 2 ^ 27) mod 512; (pgn / 2 ^ 18) mod 512; (pgn / 2 ^ 9) mod 512].
Proof. done. Qed.

Lemma pt_index_eq pgn : pt_index pgn = pgn mod 512.
Proof. done. Qed.

#[global] Opaque dirs_of pt_index.

(** ** The abstract page table *)

(** Follow a path of indices from table [a]. *)
Fixpoint walk (tb : gmap Z (gmap Z Z)) (a : Z) (path : list Z) : option Z :=
  match path with
  | [] => Some a
  | i :: path =>
      match tb !! a with
      | Some t => let e := default 0 (t !! i) in if e =? 0 then None else walk tb e path
      | None => None
      end
  end.

Lemma walk_app tb a p q : walk tb a (p ++ q) = b ← walk tb a p; walk tb b q.
Proof.
  revert a. induction p as [|i p IH]; intros a; simpl; [done|].
  destruct (tb !! a); [|done]. destruct (_ =? _); [done|]. apply IH.
Qed.

Definition pte_slot (s : sys) (p pgn : Z) : option (Z * Z) :=
  m ← mms s !! p;
  a ← walk (tables (heap s)) (pgd m) (dirs_of pgn);
  Some (a, pt_index pgn).

Definition cell (s : sys) (c : Z * Z) : Z := default 0 (t ← tables (heap s) !! c.1; t !! c.2).

(** The entry of page [pgn] of address space [p]; 0 when no table exists. *)
Definition pte_of (s : sys) (p pgn : Z) : Z := from_option (cell s) 0 (pte_slot s p pgn).

(** The page tables are trees, disjoint from each other: [ow] gives every
    table in use the one address space and path it is reached by. *)
Record pt_wf_by (ow : gmap Z (Z * list Z)) (s : sys) : Prop := {
  ow_dom a : is_Some (ow !! a) -> is_Some (tables (heap s) !! a);
  ow_addr a : is_Some (tables (heap s) !! a) -> 0 < a < next_table (heap s);
  ow_next : 0 < next_table (heap s);
  ow_root p m : mms s !! p = Some m -> ow !! pgd m = Some (p, []);
  ow_child a p path i e t :
    ow !! a = Some (p, path) -> (length path < 4)%nat -> tables (heap s) !! a = Some t ->
    t !! i = Some e -> e <> 0 -> ow !! e = Some (p, path ++ [i]);
}.

(** Close the fields of [pt_wf_by] that a change does not touch. *)
Ltac pt_wf_same H :=
  first [exact (ow_dom _ _ H) | exact (ow_addr _ _ H) | exact (ow_next _ _ H)
        | exact (ow_root _ _ H) | exact (ow_child _ _ H)].

Definition pt_wf (s : sys) : Prop := exists ow, pt_wf_by ow s.

Lemma walk_owned ow s a p pre path b :
  pt_wf_by ow s -> ow !! a = Some (p, pre) -> (length (pre ++ path) <= 4)%nat ->
  walk (tables (heap s)) a path = Some b -> ow !! b = Some (p, pre ++ path).
Proof.
  intros Hwf. revert a pre. induction path as [|i path IH]; intros a pre Ha Hlen Hw; simpl in Hw.
  - simplify_eq. by rewrite app_nil_r.
  - destruct (tables (heap s) !! a) as [t|] eqn:Ht; [|done].
    destruct (t !! i) as [e|] eqn:He; simpl in Hw; [|done].
    destruct (Z.eqb_spec e 0); [done|]. rewrite length_app in Hlen. simpl in Hlen.
    assert (He' : ow !! e = Some (p, pre ++ [i]))
      by (eapply ow_child; [done|done|lia|done|done|done]).
    replace (pre ++ i :: path) with ((pre ++ [i]) ++ path) by (by rewrite <- app_assoc).
    apply (IH e); [done| |done]. rewrite !length_app. simpl. lia.
Qed.

Lemma slot_owned ow s p pgn a i :
  pt_wf_by ow s -> pte_slot s p pgn = Some (a, i) ->
  ow !! a = Some (p, dirs_of pgn) /\ i = pt_index pgn.
Proof.
  intros Hwf. unfold pte_slot. destruct (mms s !! p) as [m|] eqn:Hm; simpl; [|done].
  destruct (walk (tables (heap s)) (pgd m) (dirs_of pgn)) as [b|] eqn:Hw; simpl; [|done].
  intros [= <- <-]. split; [|done].
  change (dirs_of pgn) with ([] ++ dirs_of pgn).
  eapply walk_owned; [done|by eapply ow_root|simpl; rewrite dirs_of_length; lia|done].
Qed.

(** Two pages share an entry only if they are the same page. *)
Lemma slot_inj s p1 p2 pgn1 pgn2 c :
  pt_wf s -> pte_slot s p1 pgn1 = Some c -> pte_slot s p2 pgn2 = Some c ->
  p1 = p2 /\ pgn1 = pgn2.
Proof.
  intros [ow Hwf] H1 H2. destruct c as [a i].
  destruct (slot_owned _ _ _ _ _ _ Hwf H1) as [Ho1 ->].
  destruct (slot_owned _ _ _ _ _ _ Hwf H2) as [Ho2 Hi].
  assert (Heq : (p1, dirs_of pgn1) = (p2, dirs_of pgn2)) by congruence.
  split; [by apply (f_equal fst) in Heq|]. apply dirs_inj; [|done].
  by apply (f_equal snd) in Heq.
Qed.

(** ** Steps that leave every entry as it is *)

Definition forget_stats (m : mm_struct) : mm_struct := set_stats (mk_stats 0 0 0 0 0) m.

(** [pt_step s s']: [s'] differs from [s] in counters, in host allocations and
    in page-table tables, but no page's entry has changed. *)
Record pt_step (s s' : sys) : Prop := {
  ps_devs : devs s' = devs s;
  ps_procs : procs s' = procs s;
  ps_os : os s' = os s;
  ps_host : s_host s = [] -> s_host s' = [];
  ps_mms p : forget_stats <$> (mms s' !! p) = forget_stats <$> (mms s !! p);
  ps_walk a path b : walk (tables (heap s)) a path = Some b -> walk (tables (heap s')) a path = Some b;
  ps_ptes p pgn : pte_of s' p pgn = pte_of s p pgn;
}.

#[export] Instance pt_step_refl : Reflexive pt_step.
Proof. intros s. by split. Qed.

#[export] Instance pt_step_trans : Transitive pt_step.
Proof.
  intros s1 s2 s3 [] []. split; try congruence; try (intros; congruence).
  - auto.
  - auto.
Qed.

Lemma ps_mms_Some s s' p m :
  pt_step s s' -> mms s !! p = Some m ->
  exists m', mms s' !! p = Some m' /\ forget_stats m' = forget_stats m.
Proof.
  intros Hst Hm. pose proof (ps_mms _ _ Hst p) as Hp. rewrite Hm in Hp.
  destruct (mms s' !! p) as [m'|]; [|done]. apply (inj Some) in Hp. eauto.
Qed.

Lemma forget_stats_pgd m m' : forget_stats m' = forget_stats m -> pgd m' = pgd m.
Proof. by intros [= ? ? ? ? ?]. Qed.

(** Only a counter changes. *)
Lemma count_step ow p f s m :
  pt_wf_by ow s -> mms s !! p = Some m ->
  let s' := set_mms (<[p := set_stats (f (stats m)) m]> (mms s)) s in
  pt_wf_by ow s' /\ pt_step s s'.
Proof.
  intros Hwf Hm s'. assert (Hpgd : forall q, pgd <$> (mms s' !! q) = pgd <$> (mms s !! q)).
  { intros q. unfold s'; simpl. rewrite lookup_insert. case_decide as Hq; [|done].
    subst. by rewrite Hm. }
  split; split; simpl; try pt_wf_same Hwf; try done.
  - intros q mq Hq. specialize (Hpgd q). unfold s' in Hpgd; simpl in Hpgd. rewrite Hq in Hpgd.
    destruct (mms s !! q) as [mq'|] eqn:Hq'; simplify_eq/=. rewrite Hpgd. by eapply ow_root.
  - intros q. rewrite lookup_insert. case_decide as Hq; [|done]. subst. by rewrite Hm.
  - intros q pgn. unfold pte_of, pte_slot. specialize (Hpgd q).
    destruct (mms s' !! q) as [m1|], (mms s !! q) as [m2|]; simplify_eq/=; [|done].
    by rewrite Hpgd.
Qed.

Lemma wp_count ow p f s m (Q : unit -> sys -> Prop) :
  pt_wf_by ow s -> mms s !! p = Some m ->
  (forall s', pt_wf_by ow s' -> pt_step s s' -> heap s' = heap s -> s_host s' = s_host s -> Q tt s') ->
  wp (count p f) Q s.
Proof.
  intros Hwf Hm HQ. unfold count. eapply wp_upd_mm; [done|].
  destruct (count_step ow p f s m) as [Hwf' Hst]; [done..|]. by apply HQ.
Qed.

(** ** The three changes of a table *)

Lemma owned_table ow s a x : pt_wf_by ow s -> ow !! a = Some x -> exists t, tables (heap s) !! a = Some t.
Proof. intros Hwf Ha. destruct (ow_dom _ _ Hwf a) as [t Ht]; [by rewrite Ha|eauto]. Qed.

Lemma owned_pos ow s a x : pt_wf_by ow s -> ow !! a = Some x -> 0 < a < next_table (heap s).
Proof. intros Hwf Ha. apply (ow_addr _ _ Hwf). destruct (owned_table _ _ _ _ Hwf Ha) as [t Ht]. by rewrite Ht. Qed.

Lemma next_fresh ow s : pt_wf_by ow s -> tables (heap s) !! next_table (heap s) = None.
Proof.
  intros Hwf. destruct (tables (heap s) !! next_table (heap s)) eqn:Ht; [|done].
  pose proof (ow_addr _ _ Hwf (next_table (heap s))) as Ha. rewrite Ht in Ha.
  specialize (Ha ltac:(eauto)). lia.
Qed.

(** Walking is unaffected by a change [tb'] that keeps the tables owned at
    depth below 4. *)
Lemma walk_same ow s tb' c p pre q :
  pt_wf_by ow s -> ow !! c = Some (p, pre) -> (length (pre ++ q) <= 4)%nat ->
  (forall a p' path, ow !! a = Some (p', path) -> (length path < 4)%nat ->
     tb' !! a = tables (heap s) !! a) ->
  walk tb' c q = walk (tables (heap s)) c q.
Proof.
  intros Hwf Hc Hlen Hsame. revert c pre Hc Hlen.
  induction q as [|i q IH]; intros c pre Hc Hlen; simpl; [done|].
  rewrite length_app in Hlen; simpl in Hlen.
  rewrite (Hsame c p pre) by (done || lia).
  destruct (tables (heap s) !! c) as [t|] eqn:Ht; [|done].
  destruct (t !! i) as [e|] eqn:He; simpl; [|done].
  destruct (Z.eqb_spec e 0) as [|Hne]; [done|].
  apply (IH e (pre ++ [i])).
  - eapply ow_child; [done|done|lia|done|done|done].
  - rewrite !length_app; simpl. lia.
Qed.

Lemma root_walk_same ow s tb' p m pgn :
  pt_wf_by ow s -> mms s !! p = Some m ->
  (forall a p' path, ow !! a = Some (p', path) -> (length path < 4)%nat ->
     tb' !! a = tables (heap s) !! a) ->
  walk tb' (pgd m) (dirs_of pgn) = walk (tables (heap s)) (pgd m) (dirs_of pgn).
Proof.
  intros Hwf Hm Hsame. eapply (walk_same _ _ _ _ p []); [done|by eapply ow_root| |done].
  simpl. by rewrite dirs_of_length.
Qed.

Definition with_tables (tb : gmap Z (gmap Z Z)) (s : sys) : sys :=
  set_heap (mk_heap tb (next_table (heap s))) s.

(** A fresh table, not linked yet. *)
Definition with_fresh (s : sys) : sys :=
  set_heap (mk_heap (<[next_table (heap s) := ∅]> (tables (heap s)))
                    (next_table (heap s) + PGTBL_TABLE_BYTES)) s.

Lemma walk_insert_fresh tb new t a q b :
  tb !! new = None -> walk tb a q = Some b -> walk (<[new := t]> tb) a q = Some b.
Proof.
  intros Hn. revert a. induction q as [|i q IH]; intros a Hw; simpl in *; [done|].
  destruct (decide (a = new)) as [->|Hne]; [by rewrite Hn in Hw|].
  rewrite lookup_insert_ne by done. destruct (tb !! a) as [t'|]; [|done].
  destruct (_ =? _); [done|]. by apply IH.
Qed.

Lemma fresh_step ow s : pt_wf_by ow s -> pt_wf_by ow (with_fresh s) /\ pt_step s (with_fresh s).
Proof.
  intros Hwf. pose proof (next_fresh _ _ Hwf) as Hnew. pose proof (ow_next _ _ Hwf) as Hpos.
  assert (Hkeep : forall a x, ow !! a = Some x ->
            tables (heap (with_fresh s)) !! a = tables (heap s) !! a).
  { intros a x Ha. simpl. apply lookup_insert_ne.
    pose proof (owned_pos _ _ _ _ Hwf Ha). lia. }
  unfold PGTBL_TABLE_BYTES, PAGING64_DIR_ENTRIES in *.
  split; split; try pt_wf_same Hwf; try done.
  - intros a [x Ha]. rewrite (Hkeep a x Ha). apply (ow_dom _ _ Hwf). by rewrite Ha.
  - intros a. simpl. rewrite lookup_insert. case_decide as Ha.
    + intros _. unfold PGTBL_TABLE_BYTES, PAGING64_DIR_ENTRIES. lia.
    + intros Ht. pose proof (ow_addr _ _ Hwf a Ht). unfold PGTBL_TABLE_BYTES, PAGING64_DIR_ENTRIES. lia.
  - simpl. unfold PGTBL_TABLE_BYTES, PAGING64_DIR_ENTRIES. lia.
  - intros a p path i e t Ha Hl. rewrite (Hkeep a _ Ha). by apply (ow_child _ _ Hwf).
  - intros a path b. simpl. by apply walk_insert_fresh.
  - intros p pgn. unfold pte_of, pte_slot. simpl mms. destruct (mms s !! p) as [m|] eqn:Hm; simpl; [|done].
    erewrite (root_walk_same ow s) by (try done; intros; by eapply Hkeep).
    destruct (walk (tables (heap s)) (pgd m) (dirs_of pgn)) as [b|] eqn:Hw; simpl; [|done].
    unfold cell; simpl. rewrite lookup_insert_ne; [done|].
    assert (Hb : ow !! b = Some (p, [] ++ dirs_of pgn)).
    { eapply walk_owned; [done|by eapply ow_root| |done]. simpl. by rewrite dirs_of_length. }
    pose proof (owned_pos _ _ _ _ Hwf Hb). lia.
Qed.

(** Linking the unowned empty table [new] at a free entry. *)
Section Link.
Context (ow : gmap Z (Z * list Z)) (s : sys) (a p i new : Z) (path : list Z) (t : gmap Z Z).
Hypothesis Hwf : pt_wf_by ow s.
Hypothesis Ha : ow !! a = Some (p, path).
Hypothesis Hlen : (length path < 4)%nat.
Hypothesis Ht : tables (heap s) !! a = Some t.
Hypothesis Hfree : default 0 (t !! i) = 0.

Lemma walk_link v x q b :
  walk (tables (heap s)) x q = Some b ->
  walk (<[a := <[i := v]> t]> (tables (heap s))) x q = Some b.
Proof.
  revert x. induction q as [|j q IH]; intros x Hw; simpl in *; [done|].
  destruct (decide (x = a)) as [->|Hne].
  - rewrite Ht in Hw. rewrite lookup_insert_eq. destruct (decide (j = i)) as [->|Hj].
    + by rewrite Hfree in Hw.
    + rewrite lookup_insert_ne by done. destruct (_ =? _); [done|]. by apply IH.
  - rewrite lookup_insert_ne by done. destruct (tables (heap s) !! x); [|done].
    destruct (_ =? _); [done|]. by apply IH.
Qed.

Hypothesis Hnew : tables (heap s) !! new = Some ∅.
Hypothesis Hun : ow !! new = None.
Hypothesis Hn0 : new <> 0.
Let tb' := <[a := <[i := new]> t]> (tables (heap s)).
Let ow' := <[new := (p, path ++ [i])]> ow.

Lemma link_new_ne : new <> a.
Proof. intros ->. congruence. Qed.

Lemma walk_link_inv x q b pre p' :
  ow !! x = Some (p', pre) -> (length (pre ++ q) <= 4)%nat ->
  walk tb' x q = Some b -> walk (tables (heap s)) x q = Some b \/ b = new.
Proof.
  pose proof link_new_ne. revert x pre. induction q as [|j q IH]; intros x pre Hx Hl Hw; simpl in *; [by left|].
  rewrite length_app in Hl; simpl in Hl. unfold tb' in Hw.
  destruct (decide (x = a)) as [->|Hne].
  - rewrite lookup_insert_eq in Hw. rewrite Ht. destruct (decide (j = i)) as [->|Hj].
    + rewrite lookup_insert_eq in Hw. simpl in Hw. destruct (Z.eqb_spec new 0); [done|].
      right. destruct q as [|k q]; simpl in Hw; [congruence|].
      rewrite lookup_insert_ne, Hnew in Hw by done. done.
    + rewrite lookup_insert_ne in Hw by done. destruct (t !! j) as [e|] eqn:He; simpl in *; [|done].
      destruct (Z.eqb_spec e 0); [done|]. apply (IH e (pre ++ [j])); [|rewrite !length_app; simpl; lia|done].
      eapply ow_child; [done|done|lia|done|done|done].
  - rewrite lookup_insert_ne in Hw by done. destruct (tables (heap s) !! x) as [t'|] eqn:Htx; [|done].
    destruct (t' !! j) as [e|] eqn:He; simpl in *; [|done].
    destruct (Z.eqb_spec e 0); [done|]. apply (IH e (pre ++ [j])); [|rewrite !length_app; simpl; lia|done].
    eapply ow_child; [done|done|lia|done|done|done].
Qed.

Lemma link_wf : pt_wf_by ow' (with_tables tb' s).
Proof.
  pose proof link_new_ne as Hna. split; simpl.
  - intros x Hx. unfold tb', ow' in *. rewrite lookup_insert. case_decide; [eauto|].
    destruct (decide (x = new)) as [->|Hx']; [rewrite Hnew; eauto|].
    rewrite lookup_insert_ne in Hx by done. by apply (ow_dom _ _ Hwf).
  - intros x Hx. apply (ow_addr _ _ Hwf). unfold tb' in Hx. rewrite lookup_insert in Hx.
    case_decide; [subst; rewrite Ht; eauto|done].
  - exact (ow_next _ _ Hwf).
  - intros q m Hm. pose proof (ow_root _ _ Hwf q m Hm) as Hr. unfold ow'.
    rewrite lookup_insert_ne; [done|]. intros ->. congruence.
  - intros x q pre j e tx Hx Hl Htx He Hne. unfold ow', tb' in *.
    destruct (decide (x = new)) as [->|Hxn].
    { rewrite lookup_insert_ne, Hnew in Htx by done. simplify_eq. }
    rewrite lookup_insert_ne in Hx by done.
    rewrite lookup_insert in Htx. case_decide as Hxa; simplify_eq.
    + rewrite lookup_insert in He. case_decide as Hij; simplify_eq.
      * by rewrite lookup_insert_eq.
      * rewrite lookup_insert_ne.
        -- eapply ow_child; [done|exact Ha|lia|exact Ht|done|done].
        -- intros ->. assert (ow !! e = Some (p, path ++ [j])); [|congruence].
           eapply ow_child; [done|exact Ha|lia|exact Ht|done|done].
    + assert (Hce : ow !! e = Some (q, pre ++ [j])) by (eapply ow_child; [done|done|lia|exact Htx|done|done]).
      rewrite lookup_insert_ne; [done|]. intros ->. congruence.
Qed.

Lemma link_step : pt_step s (with_tables tb' s).
Proof.
  pose proof link_new_ne as Hna. split; try done.
  - intros x q b Hw. by apply walk_link.
  - intros q pgn. unfold pte_of, pte_slot. simpl mms. destruct (mms s !! q) as [m|] eqn:Hm; [|done].
    change (tables (heap (with_tables tb' s))) with tb'. cbn [mbind option_bind].
    assert (Hroot := ow_root _ _ Hwf q m Hm).
    destruct (walk (tables (heap s)) (pgd m) (dirs_of pgn)) as [b|] eqn:Hw.
    + assert (Hw' : walk tb' (pgd m) (dirs_of pgn) = Some b) by (by apply walk_link).
      rewrite Hw'. simpl. unfold cell; simpl. unfold tb'. rewrite lookup_insert_ne; [done|].
      intros ->. apply (walk_owned ow s (pgd m) q [] (dirs_of pgn)) in Hw; [|done|done|by simpl; rewrite dirs_of_length].
      assert (He : path = dirs_of pgn) by (apply (f_equal (fmap snd)) in Hw; rewrite Ha in Hw; by apply (inj Some) in Hw).
      rewrite He, dirs_of_length in Hlen. lia.
    + destruct (walk tb' (pgd m) (dirs_of pgn)) as [b|] eqn:Hw'; [|done]. simpl.
      destruct (walk_link_inv (pgd m) (dirs_of pgn) b [] q) as [Hc| ->]; [done|by simpl; rewrite dirs_of_length|done|congruence|].
      unfold cell; simpl. unfold tb'. rewrite lookup_insert_ne, Hnew by done. done.
Qed.
End Link.

(** Writing 0 into an entry that is 0. *)
Lemma clear_step ow s a p i path t :
  pt_wf_by ow s -> ow !! a = Some (p, path) -> (length path < 4)%nat ->
  tables (heap s) !! a = Some t -> default 0 (t !! i) = 0 ->
  let s' := with_tables (<[a := <[i := 0]> t]> (tables (heap s))) s in
  pt_wf_by ow s' /\ pt_step s s'.
Proof.
  intros Hwf Ha Hl Ht Hz s'.
  assert (Hcell : forall x j, default 0 (tx ← tables (heap s') !! x; tx !! j) =
                              default 0 (tx ← tables (heap s) !! x; tx !! j)).
  { intros x j. simpl. rewrite lookup_insert. case_decide; [|done]. subst. rewrite Ht. simpl.
    rewrite lookup_insert. case_decide; [subst|done]. by rewrite Hz. }
  assert (Hdom : forall x, is_Some (tables (heap s') !! x) <-> is_Some (tables (heap s) !! x)).
  { intros x. simpl. rewrite lookup_insert. case_decide; [|done]. subst. rewrite Ht. split; eauto. }
  assert (Hwalk : forall x q, walk (tables (heap s')) x q = walk (tables (heap s)) x q).
  { clear - Hcell Hdom. generalize dependent (tables (heap s')). intros tb' Hcell Hdom x q.
    revert x. induction q as [|j q IH]; intros x; simpl walk; [done|].
    pose proof (Hcell x j) as Hc. pose proof (Hdom x) as Hd.
    destruct (tb' !! x) as [t1|], (tables (heap s) !! x) as [t2|]; cbn [mbind option_bind] in Hc.
    - rewrite Hc. destruct (_ =? _); [done|]. apply IH.
    - destruct Hd as [Hd _]. destruct Hd; [eauto|done].
    - destruct Hd as [_ Hd]. destruct Hd; [eauto|done].
    - done. }
  split; split; try pt_wf_same Hwf; try done.
  - intros x Hx. apply Hdom. by apply (ow_dom _ _ Hwf).
  - intros x Hx. apply Hdom in Hx. by apply (ow_addr _ _ Hwf).
  - intros x q pre j e tx Hx Hlx Htx He Hne. pose proof (Hcell x j) as Hc.
    rewrite Htx in Hc. simpl in Hc. rewrite He in Hc. simpl in Hc.
    destruct (tables (heap s) !! x) as [t2|] eqn:H2; simpl in Hc; [|done].
    destruct (t2 !! j) as [e'|] eqn:He'; simpl in Hc; [|done]. subst e'.
    eapply ow_child; [done|done|lia|exact H2|done|done].
  - intros x q b Hw. by rewrite Hwalk.
  - intros q pgn. unfold pte_of, pte_slot. simpl mms. destruct (mms s !! q); simpl; [|done].
    rewrite Hwalk.
    destruct (walk _ _ _); simpl; [|done]. apply Hcell.
Qed.

(** ** Walking and growing the tree *)

Lemma wp_tbl_get a i (Q : Z -> sys -> Prop) s t :
  tables (heap s) !! a = Some t -> 0 <= i < 512 -> Q (default 0 (t !! i)) s ->
  wp (tbl_get a i) Q s.
Proof.
  intros Ht Hi HQ. unfold tbl_get. wp_steps. unfold tbl_index_ok, PAGING64_DIR_ENTRIES.
  destruct (Z.leb_spec 0 i), (Z.ltb_spec i 512); try lia. done.
Qed.

Lemma wp_tbl_put a i v (Q : unit -> sys -> Prop) s t :
  tables (heap s) !! a = Some t -> 0 <= i < 512 ->
  Q tt (with_tables (<[a := <[i := v]> t]> (tables (heap s))) s) ->
  wp (tbl_put a i v) Q s.
Proof.
  intros Ht Hi HQ. unfold tbl_put. wp_steps. unfold tbl_index_ok, PAGING64_DIR_ENTRIES.
  destruct (Z.leb_spec 0 i), (Z.ltb_spec i 512); try lia. done.
Qed.

Lemma pt_wf_host ow s l : pt_wf_by ow s -> pt_wf_by ow (set_host l s).
Proof. intros H. split; simpl; pt_wf_same H. Qed.

Lemma pt_step_host s l : (s_host s = [] -> l = []) -> pt_step s (set_host l s).
Proof. intros H. by split. Qed.

(** [alloc_pgtbl_level] returns NULL, or a fresh table that no walk reaches. *)
Lemma alloc_pgtbl_level_spec ow mm m s (Q : Z -> sys -> Prop) :
  pt_wf_by ow s -> mms s !! mm = Some m -> mm <> NULL ->
  (forall s', pt_wf_by ow s' -> pt_step s s' -> s_host s <> [] ->
     tables (heap s') = tables (heap s) -> Q NULL s') ->
  (forall s' new, pt_wf_by ow s' -> pt_step s s' -> tables (heap s') !! new = Some ∅ ->
     ow !! new = None -> new <> 0 -> (forall a x, ow !! a = Some x -> tables (heap s') !! a = tables (heap s) !! a) ->
     Q new s') ->
  wp (alloc_pgtbl_level mm) Q s.
Proof.
  intros Hwf Hm Hmm Hfail Hok. unfold alloc_pgtbl_level, calloc_table. wp_steps.
  assert (Hsucc : forall l, (s_host s = [] -> l = []) ->
    wp (let* h := gets heap in
        modify (set_heap (mk_heap (<[next_table h := ∅]> (tables h)) (next_table h + PGTBL_TABLE_BYTES))) ;;;
        ret (next_table h)) (fun a s' => wp
          ((if negb (a =? NULL) && negb (mm =? NULL) then count mm bump_tables else ret tt) ;;; ret a) Q s')
       (set_host l s)).
  { intros l Hl. wp_steps. set (s1 := set_host l s).
    assert (Hwf1 : pt_wf_by ow s1) by (by apply pt_wf_host).
    assert (Hst1 : pt_step s s1) by (by apply pt_step_host).
    destruct (fresh_step ow s1 Hwf1) as [Hwf2 Hst2]. fold (with_fresh s1).
    pose proof (ow_next _ _ Hwf) as Hpos. pose proof (next_fresh _ _ Hwf) as Hnew.
    change (next_table (heap s1)) with (next_table (heap s)).
    rewrite (proj2 (Z.eqb_neq _ NULL)) by (unfold NULL; lia). rewrite (proj2 (Z.eqb_neq mm NULL)) by done.
    wp_steps. eapply (wp_count ow mm bump_tables _ m); [done|done|].
    intros s3 Hwf3 Hst3 Hheap _. wp_steps. apply Hok; [done| | | | |].
    - by do 2 (etransitivity; [eassumption|]).
    - rewrite Hheap. simpl. by rewrite lookup_insert_eq.
    - destruct (ow !! next_table (heap s)) eqn:Ho; [|done].
      pose proof (owned_pos _ _ _ _ Hwf Ho). lia.
    - lia.
    - intros a x Ha. rewrite Hheap. simpl. apply lookup_insert_ne.
      pose proof (owned_pos _ _ _ _ Hwf Ha). lia. }
  unfold wp at 1, malloc. simpl host. destruct (s_host s) as [|[] l] eqn:Hh.
  - specialize (Hsucc [] ltac:(done)). destruct s; simpl in *. subst. exact Hsucc.
  - simpl negb. cbn iota. wp_steps. apply Hfail; [by apply pt_wf_host| |done|done].
    apply pt_step_host. by rewrite Hh.
  - simpl negb. apply (Hsucc l). done.
Qed.

Lemma walk_one tb a i : walk tb a [i] =
  match tb !! a with
  | Some t => if default 0 (t !! i) =? 0 then None else Some (default 0 (t !! i))
  | None => None
  end.
Proof. done. Qed.

(** What one level, or the whole walk, from [a] along [path] to [r] gives. *)
Record grown (ow : gmap Z (Z * list Z)) (p : Z) (pre : list Z) (a : Z) (path : list Z)
    (is_alloc : Z) (s s' : sys) (r : option Z) : Prop := {
  gr_wf : pt_wf_by ow s';
  gr_step : pt_step s s';
  gr_some b : r = Some b -> ow !! b = Some (p, pre ++ path) /\ walk (tables (heap s')) a path = Some b;
  gr_alloc : is_alloc <> 0 -> s_host s = [] -> r <> None;
  gr_read : is_alloc = 0 -> heap s' = heap s /\ r = walk (tables (heap s)) a path;
}.

Lemma pte_level_spec ow p m pre a i is_alloc s :
  pt_wf_by ow s -> mms s !! p = Some m -> p <> NULL -> ow !! a = Some (p, pre) ->
  (length pre < 4)%nat -> 0 <= i < 512 ->
  wp (pte_level p a i is_alloc) (fun r s' => exists ow', grown ow' p pre a [i] is_alloc s s' r) s.
Proof.
  intros Hwf Hm Hp Ha Hl Hi. unfold pte_level. wp_steps.
  eapply wp_count; [done|done|]. intros s1 Hwf1 Hst1 Hh1 Hho1.
  destruct (owned_table _ _ _ _ Hwf1 Ha) as [t Ht].
  assert (Ht0 : tables (heap s) !! a = Some t) by (by rewrite <- Hh1).
  wp_steps. eapply wp_tbl_get; [done|done|]. destruct (Z.eqb_spec (default 0 (t !! i)) 0) as [Hz|Hz].
  2: { (* the entry is set *)
    wp_steps. exists ow. assert (Hw : walk (tables (heap s)) a [i] = Some (default 0 (t !! i))).
    { rewrite walk_one, Ht0. destruct (Z.eqb_spec (default 0 (t !! i)) 0); done. }
    split; [done|done| |done|by rewrite Hw].
    intros b [= <-]. split; [|by rewrite Hh1].
    destruct (t !! i) as [e|] eqn:He; simpl in *; [|done].
    eapply ow_child; [exact Hwf1|done|done|done|done|done]. }
  destruct (Z.eqb_spec is_alloc 0) as [Hal|Hal].
  { wp_steps. exists ow. split; try done. intros _. split; [done|].
    by rewrite walk_one, Ht0, Hz. }
  destruct (ps_mms_Some _ _ _ _ Hst1 Hm) as (m1 & Hm1 & _).
  wp_steps. eapply alloc_pgtbl_level_spec; [exact Hwf1|done|done| |].
  - intros s2 Hwf2 Hst2 Hho Htb. rewrite <- Htb in Ht. wp_steps.
    eapply wp_tbl_put; [done|done|].
    destruct (clear_step ow s2 a p i pre t) as [Hwf3 Hst3]; [done..|].
    set (s3 := with_tables _ s2) in *. unfold NULL. fold s3.
    destruct (ps_mms_Some _ _ _ _ (transitivity Hst2 Hst3) Hm1) as (m3 & Hm3 & _).
    wp_steps. eapply wp_count; [exact Hwf3|done|]. intros s4 Hwf4 Hst4 Hh4 _.
    wp_steps. eapply wp_tbl_get; [rewrite Hh4; simpl; by rewrite lookup_insert_eq|done|].
    rewrite lookup_insert_eq. cbn. wp_steps. exists ow. split; try done.
    + by do 3 (etransitivity; [eassumption|]).
    + intros _ Hs. by rewrite <- Hho1 in Hs.
  - intros s2 new Hwf2 Hst2 Hnew Hun Hn0 Hkeep. wp_steps.
    assert (Ht2 : tables (heap s2) !! a = Some t) by (by rewrite (Hkeep _ _ Ha)).
    eapply wp_tbl_put; [done|done|].
    assert (Hwf3 := link_wf ow s2 a p i new pre t Hwf2 Ha Hl Ht2 Hz Hnew Hun Hn0).
    assert (Hst3 := link_step ow s2 a p i new pre t Hwf2 Ha Hl Ht2 Hz Hnew Hun Hn0).
    set (s3 := with_tables _ s2) in *. set (ow3 := <[new := _]> ow) in *.
    destruct (ps_mms_Some _ _ _ _ (transitivity Hst2 Hst3) Hm1) as (m3 & Hm3 & _).
    wp_steps. eapply wp_count; [exact Hwf3|done|]. intros s4 Hwf4 Hst4 Hh4 _.
    wp_steps. eapply wp_tbl_get; [rewrite Hh4; simpl; by rewrite lookup_insert_eq|done|].
    rewrite lookup_insert_eq. simpl default. destruct (Z.eqb_spec new 0); [done|]. wp_steps.
    exists ow3. split; try done.
    + by do 3 (etransitivity; [eassumption|]).
    + intros b [= <-]. split; [unfold ow3; by rewrite lookup_insert_eq|].
      rewrite walk_one, Hh4. simpl. rewrite lookup_insert_eq, lookup_insert_eq. simpl.
      destruct (Z.eqb_spec new 0); done.
Qed.

(** Composing levels. *)
Lemma grown_snoc ow1 ow2 p a path i is_alloc s s1 s2 b r :
  grown ow1 p [] a path is_alloc s s1 (Some b) ->
  grown ow2 p path b [i] is_alloc s1 s2 r ->
  grown ow2 p [] a (path ++ [i]) is_alloc s s2 r.
Proof.
  intros [W1 S1 A1 L1 R1] [W2 S2 A2 L2 R2]. split; [done| | | |].
  - by transitivity s1.
  - intros c Hc. destruct (A2 c Hc) as [Ho Hw]. split; [done|].
    destruct (A1 b eq_refl) as [_ Hwb]. rewrite walk_app.
    by rewrite (ps_walk _ _ S2 _ _ _ Hwb).
  - intros Hal Hh. apply L2; [done|]. by apply (ps_host _ _ S1).
  - intros Hal. destruct (R1 Hal) as [Hh1 Hw1], (R2 Hal) as [Hh2 Hw2].
    split; [congruence|]. rewrite walk_app, <- Hw1. simpl. by rewrite <- Hh1.
Qed.

Lemma grown_stop ow p a path q is_alloc s s' :
  grown ow p [] a path is_alloc s s' None -> grown ow p [] a (path ++ q) is_alloc s s' None.
Proof.
  intros [W1 S1 A1 L1 R1]. split; try done. intros Hal. destruct (R1 Hal) as [Hh Hw].
  split; [done|]. by rewrite walk_app, <- Hw.
Qed.

(** What [get_pte_ptr] promises its callers: [r] is the slot of the page. *)
Record found (p pgn is_alloc : Z) (s s' : sys) (r : option (Z * Z)) : Prop := {
  fd_wf : pt_wf s';
  fd_step : pt_step s s';
  fd_slot c : r = Some c -> pte_slot s' p pgn = Some c;
  fd_alloc : is_alloc <> 0 -> s_host s = [] -> r <> None;
  fd_read : is_alloc = 0 -> heap s' = heap s /\ r = pte_slot s p pgn;
}.

(** A walk that ended found the slot, or stopped. *)
Lemma grown_found ow p m pgn is_alloc s s1 s' r :
  mms s !! p = Some m -> grown ow p [] (pgd m) (dirs_of pgn) is_alloc s1 s' r ->
  pt_step s s1 -> heap s1 = heap s -> s_host s1 = s_host s ->
  found p pgn is_alloc s s' ((fun b => (b, pt_index pgn)) <$> r).
Proof.
  intros Hm [W S A L R] S1 H1 H2. assert (Hpt : pt_step s s') by (by transitivity s1). split; [by exists ow|done| | |].
  - intros x Hx. destruct r as [b|]; [|done]. apply (inj Some) in Hx. subst x.
    destruct (A b eq_refl) as [_ Hw]. unfold pte_slot.
    destruct (ps_mms_Some _ _ _ _ Hpt Hm) as (m' & Hm' & Hf). rewrite Hm'. simpl.
    apply forget_stats_pgd in Hf. rewrite Hf. by rewrite Hw.
  - intros Hal Hh. rewrite <- H2 in Hh. specialize (L Hal Hh). by destruct r.
  - intros Hal. destruct (R Hal) as [Hh Hr]. split; [congruence|].
    unfold pte_slot. rewrite Hm. simpl. rewrite Hr, H1. by destruct (walk _ _ _).
Qed.

Lemma get_pte_ptr_spec c m pgn is_alloc s :
  pt_wf s -> p_mm c <> NULL -> mms s !! p_mm c = Some m -> valid_pgn pgn ->
  wp (get_pte_ptr (Some c) pgn is_alloc) (fun r s' => found (p_mm c) pgn is_alloc s s' r) s.
Proof.
  intros [ow Hwf] Hp Hm Hv. unfold get_pte_ptr. set (p := p_mm c) in *.
  pose proof (ow_root _ _ Hwf p m Hm) as Hroot. pose proof (owned_pos _ _ _ _ Hwf Hroot) as Hpos.
  rewrite (proj2 (Z.eqb_neq p NULL)) by done. wp_step. eapply wp_get_mm; [done|].
  rewrite (proj2 (Z.eqb_neq (pgd m) NULL)) by (unfold NULL; lia).
  wp_step. eapply wp_from_opt; [by apply get_pd_from_pagenum_spec|]. cbn [d_pgd d_p4d d_pud d_pmd d_pt].
  set (ix := dirs_of pgn). assert (His : ix = dirs_of pgn) by done. rewrite dirs_of_eq in His.
  assert (Hrange : Forall (fun i => 0 <= i < 512) ix) by (by apply dirs_range).
  rewrite His in Hrange. inversion_clear Hrange as [|? ? R1 Hr2]. inversion_clear Hr2 as [|? ? R2 Hr3].
  inversion_clear Hr3 as [|? ? R3 Hr4]. inversion_clear Hr4 as [|? ? R4 _].
  generalize dependent (pgn / 2 ^ 36). generalize dependent ((pgn / 2 ^ 27) mod 512).
  generalize dependent ((pgn / 2 ^ 18) mod 512). generalize dependent ((pgn / 2 ^ 9) mod 512).
  intros i4 R4 i3 R3 i2 R2 i1 His R1.
  assert (Hfin := fun ow' s1 s' r => grown_found ow' p m pgn is_alloc s s1 s' r Hm). fold ix in Hfin.
  clearbody ix. subst ix.
  wp_step. eapply wp_count; [exact Hwf|done|]. intros s1 Hwf1 Hst1 Hh1 Hho1.
  destruct (ps_mms_Some _ _ _ _ Hst1 Hm) as (m1 & Hm1 & _).
  wp_step. eapply wp_mono; [eapply (pte_level_spec ow p m1 []); [done|done|done|done|simpl; lia|done]|]. simpl app.
  intros [a1|] s2 [ow1 G1]; [|wp_steps; apply (Hfin ow1 s1 s2 None); [by apply (grown_stop _ _ _ [_] [_; _; _])|done..]].
  destruct (ps_mms_Some _ _ _ _ (gr_step _ _ _ _ _ _ _ _ _ G1) Hm1) as (m2 & Hm2 & _).
  wp_step. eapply wp_mono; [eapply (pte_level_spec ow1 p m2 [i1]); [apply G1|done|done|by apply G1|simpl; lia|done]|].
  intros r2 s3 [ow2 G2]. pose proof (grown_snoc _ _ _ _ _ _ _ _ _ _ _ _ G1 G2) as G12.
  destruct r2 as [a2|]; [|wp_steps; apply (Hfin ow2 s1 s3 None); [by apply (grown_stop _ _ _ [_;_] [_; _])|done..]].
  destruct (ps_mms_Some _ _ _ _ (gr_step _ _ _ _ _ _ _ _ _ G2) Hm2) as (m3 & Hm3 & _).
  wp_step. eapply wp_mono; [eapply (pte_level_spec ow2 p m3 [i1;i2]); [apply G2|done|done|by apply G2|simpl; lia|done]|].
  intros r3 s4 [ow3 G3]. pose proof (grown_snoc _ _ _ _ _ _ _ _ _ _ _ _ G12 G3) as G13.
  destruct r3 as [a3|]; [|wp_steps; apply (Hfin ow3 s1 s4 None); [by apply (grown_stop _ _ _ [_;_;_] [_])|done..]].
  destruct (ps_mms_Some _ _ _ _ (gr_step _ _ _ _ _ _ _ _ _ G3) Hm3) as (m4 & Hm4 & _).
  wp_step. eapply wp_mono; [eapply (pte_level_spec ow3 p m4 [i1;i2;i3]); [apply G3|done|done|by apply G3|simpl; lia|done]|].
  intros r4 s5 [ow4 G4]. pose proof (grown_snoc _ _ _ _ _ _ _ _ _ _ _ _ G13 G4) as G14.
  destruct r4 as [a4|]; [|wp_steps; by apply (Hfin ow4 s1 s5 None)].
  destruct (ps_mms_Some _ _ _ _ (gr_step _ _ _ _ _ _ _ _ _ G4) Hm4) as (m5 & Hm5 & _).
  wp_step. eapply wp_count; [apply G4|done|]. intros s6 Hwf6 Hst6 Hh6 Hho6. wp_steps.
  apply (Hfin ow4 s1 s6 (Some a4)); [|done..]. destruct G14 as [W S A L R]. split; [done| | |done|].
  - by transitivity s5.
  - intros b Hb. rewrite Hh6. by apply A.
  - rewrite Hh6. done.
Qed.

(** ** Reading and writing an entry *)

Definition pte_load (c : Z * Z) : M sys Z := tbl_get c.1 c.2.
Definition pte_store (c : Z * Z) (v : Z) : M sys unit := tbl_put c.1 c.2 v.

(** [s'] is [s] up to counters and host allocations, with the entry of
    [pgn] in [p], and no other, changed to [v]. *)
Record pte_upd (p pgn v : Z) (s s' : sys) : Prop := {
  pu_devs : devs s' = devs s;
  pu_procs : procs s' = procs s;
  pu_os : os s' = os s;
  pu_host : s_host s = [] -> s_host s' = [];
  pu_mms q : forget_stats <$> (mms s' !! q) = forget_stats <$> (mms s !! q);
  pu_same : pte_of s' p pgn = v;
  pu_other q g : (q, g) <> (p, pgn) -> pte_of s' q g = pte_of s q g;
  pu_slot q g c : pte_slot s q g = Some c -> pte_slot s' q g = Some c;
}.

(** A slot, once there, stays. *)
Lemma ps_slot s s' q g c : pt_step s s' -> pte_slot s q g = Some c -> pte_slot s' q g = Some c.
Proof.
  intros Hst. unfold pte_slot. destruct (mms s !! q) as [m|] eqn:Hm; [|done]. simpl.
  destruct (ps_mms_Some _ _ _ _ Hst Hm) as (m' & -> & Hf). simpl. rewrite (forget_stats_pgd _ _ Hf).
  destruct (walk (tables (heap s)) (pgd m) (dirs_of g)) as [b|] eqn:Hw; [|done].
  by rewrite (ps_walk _ _ Hst _ _ _ Hw).
Qed.

Lemma pte_upd_steps p pgn v s1 s2 s3 s4 :
  pt_step s1 s2 -> pte_upd p pgn v s2 s3 -> pt_step s3 s4 -> pte_upd p pgn v s1 s4.
Proof.
  intros H1 H2 H3. split.
  - by rewrite (ps_devs _ _ H3), (pu_devs _ _ _ _ _ H2), (ps_devs _ _ H1).
  - by rewrite (ps_procs _ _ H3), (pu_procs _ _ _ _ _ H2), (ps_procs _ _ H1).
  - by rewrite (ps_os _ _ H3), (pu_os _ _ _ _ _ H2), (ps_os _ _ H1).
  - intros Hh. apply (ps_host _ _ H3), (pu_host _ _ _ _ _ H2), (ps_host _ _ H1), Hh.
  - intros q. by rewrite (ps_mms _ _ H3), (pu_mms _ _ _ _ _ H2), (ps_mms _ _ H1).
  - rewrite (ps_ptes _ _ H3). apply H2.
  - intros q g Hq. by rewrite (ps_ptes _ _ H3), (pu_other _ _ _ _ _ H2), (ps_ptes _ _ H1).
  - intros q g c Hc. by eapply ps_slot, (pu_slot _ _ _ _ _ H2), ps_slot.
Qed.

Lemma pte_upd_mms_Some p pgn v s s' q m :
  pte_upd p pgn v s s' -> mms s !! q = Some m ->
  exists m', mms s' !! q = Some m' /\ forget_stats m' = forget_stats m.
Proof.
  intros Hst Hm. pose proof (pu_mms _ _ _ _ _ Hst q) as Hp. rewrite Hm in Hp.
  destruct (mms s' !! q) as [m'|]; [|done]. apply (inj Some) in Hp. eauto.
Qed.

Lemma slot_table s p pgn c :
  pt_wf s -> pte_slot s p pgn = Some c ->
  exists t, tables (heap s) !! c.1 = Some t /\ 0 <= c.2 < 512 /\ pte_of s p pgn = default 0 (t !! c.2).
Proof.
  intros [ow Hwf] Hc. destruct c as [a i]. destruct (slot_owned _ _ _ _ _ _ Hwf Hc) as [Ho ->].
  destruct (owned_table _ _ _ _ Hwf Ho) as [t Ht]. exists t. simpl.
  split_and!; [done|apply pt_index_range..|]. unfold pte_of. rewrite Hc. unfold cell. simpl. by rewrite Ht.
Qed.

Lemma wp_pte_load p pgn c (Q : Z -> sys -> Prop) s :
  pt_wf s -> pte_slot s p pgn = Some c -> Q (pte_of s p pgn) s -> wp (pte_load c) Q s.
Proof.
  intros Hwf Hc HQ. destruct (slot_table _ _ _ _ Hwf Hc) as (t & Ht & Hi & Hv).
  unfold pte_load. eapply wp_tbl_get; [done|done|]. by rewrite <- Hv.
Qed.

Lemma wp_pte_store p pgn c v (Q : unit -> sys -> Prop) s :
  pt_wf s -> pte_slot s p pgn = Some c ->
  (forall s', pt_wf s' -> pte_upd p pgn v s s' -> pte_slot s' p pgn = Some c -> Q tt s') ->
  wp (pte_store c v) Q s.
Proof.
  intros Hwfe Hc HQ. destruct (slot_table _ _ _ _ Hwfe Hc) as (t & Ht & Hi & _).
  unfold pte_store. eapply wp_tbl_put; [done|done|].
  destruct c as [a i]. simpl fst in *. simpl snd in *. pose proof Hwfe as [ow Hwf].
  destruct (slot_owned _ _ _ _ _ _ Hwf Hc) as [Ho Hidx].
  set (s' := with_tables _ s). assert (Hslot : forall q g, pte_slot s' q g = pte_slot s q g).
  { intros q g. unfold pte_slot. simpl mms. destruct (mms s !! q) as [m|] eqn:Hm; [|done].
    cbn [mbind option_bind]. simpl heap. simpl tables. erewrite root_walk_same; [done|done|done|].
    intros x q' path Hx Hl. apply lookup_insert_ne. intros ->. rewrite Ho in Hx.
    apply (f_equal (fmap snd)) in Hx. apply (inj Some) in Hx. simpl in Hx. subst path.
    rewrite dirs_of_length in Hl. lia. }
  apply HQ; [exists ow; split; try pt_wf_same Hwf| |by rewrite Hslot].
  - intros x Hx. simpl. rewrite lookup_insert. case_decide; [eauto|]. by apply (ow_dom _ _ Hwf).
  - intros x. simpl. rewrite lookup_insert. case_decide; [|apply (ow_addr _ _ Hwf)].
    intros _. apply (ow_addr _ _ Hwf). subst. eauto.
  - intros x q path j e tx Hx Hl Htx. simpl in Htx. rewrite lookup_insert_ne in Htx.
    + by apply (ow_child _ _ Hwf x q path j e tx).
    + intros ->. rewrite Ho in Hx. apply (f_equal (fmap snd)) in Hx. apply (inj Some) in Hx.
      simpl in Hx. subst path. rewrite dirs_of_length in Hl. lia.
  - split; try done.
    + unfold pte_of. rewrite Hslot, Hc. unfold cell. simpl. rewrite lookup_insert_eq. simpl. by rewrite lookup_insert_eq.
    + intros q g Hne. unfold pte_of. rewrite Hslot. destruct (pte_slot s q g) as [[b j]|] eqn:Hg; [|done].
      simpl. unfold cell. simpl. rewrite lookup_insert. case_decide as Hb; [|done]. subst b.
      rewrite Ht. simpl. rewrite lookup_insert_ne; [done|]. intros ->.
      destruct (slot_inj s q p g pgn (a, j)) as [-> ->]; done.
    + intros q g x. by rewrite Hslot.
Qed.
