(* ===== verification/Mm64.v ===== *)
(** * Mapping pages and frames: [src/mm64.c]

    Entry updates through the page tables, allocation of frame ranges, the
    mapping of an area to RAM, the copy of a page between devices and the
    initialisation of a memory descriptor.  [addr_t] is [uint64_t]: a function
    of that type that returns -1 returns [u64 (-1)]. *)

From S2P Require Import Prelude Pte MemPhy Kernel PageTable.

(** [caller->krnl->...] *)
Definition krnl_of (c : pcb_t) : M sys krnl_t :=
  if p_krnl c =? NULL then undef else gets os.

(** [caller == NULL || caller->krnl == NULL] *)
Definition no_krnl (caller : option pcb_t) : bool :=
  match caller with None => true | Some c => p_krnl c =? NULL end.

(** ** Entries *)

Definition pte_set_swap (caller : option pcb_t) (pgn swptyp swpoff : Z) : M sys Z :=
  match caller with
  | None => ret (-1)
  | Some c =>
      if p_krnl c =? NULL then ret (-1)
      else
        let* pte := get_pte_ptr caller pgn 1 in
        match pte with
        | None => ret (-1)
        | Some pte =>
            let* v := pte_load pte in
            pte_store pte (pte_swap_val v swptyp swpoff) ;;;
            count (p_mm c) bump_writes ;;;
            ret 0
        end
  end.

Definition pte_set_fpn (caller : option pcb_t) (pgn fpn : Z) : M sys Z :=
  match caller with
  | None => ret (-1)
  | Some c =>
      if p_krnl c =? NULL then ret (-1)
      else
        let* pte := get_pte_ptr caller pgn 1 in
        match pte with
        | None => ret (-1)
        | Some pte =>
            let* v := pte_load pte in
            pte_store pte (pte_fpn_val v fpn) ;;;
            count (p_mm c) bump_writes ;;;
            ret 0
        end
  end.

(** Returns a [uint32_t]; 0 for an entry that cannot be reached. *)
Definition pte_get_entry (caller : option pcb_t) (pgn : Z) : M sys Z :=
  if no_krnl caller then ret 0
  else
    let* pte_ptr := get_pte_ptr caller pgn 0 in
    match pte_ptr with
    | Some pte_ptr => let* v := pte_load pte_ptr in ret (u32 v)
    | None => ret 0
    end.

Definition pte_set_entry (caller : option pcb_t) (pgn pte_val : Z) : M sys Z :=
  match caller with
  | None => ret (-1)
  | Some c =>
      if p_krnl c =? NULL then ret (-1)
      else
        let* pte_ptr := get_pte_ptr caller pgn 1 in
        match pte_ptr with
        | Some pte_ptr =>
            pte_store pte_ptr pte_val ;;;
            count (p_mm c) bump_writes ;;;
            ret 0
        | None => ret (-1)
        end
  end.

(** The loop of [vmap_pgd_memset]: [n] pages from [addr]. *)
Fixpoint pgd_memset_loop (c : pcb_t) (addr : Z) (n : nat) : M sys Z :=
  match n with
  | O => ret 0
  | S n =>
      let pgn := Z.shiftr addr PAGING64_ADDR_PT_SHIFT in
      let* pte_ptr := get_pte_ptr (Some c) pgn 1 in
      match pte_ptr with
      | Some pte_ptr =>
          pte_store pte_ptr 0xdeadbeef ;;;
          count (p_mm c) bump_writes ;;;
          pgd_memset_loop c (u64 (addr + PAGING64_PAGESZ)) n
      | None => ret (-1)
      end
  end.

Definition vmap_pgd_memset (caller : option pcb_t) (addr pgnum : Z) : M sys Z :=
  match caller with
  | None => ret (-1)
  | Some c => if p_krnl c =? NULL then ret (-1) else pgd_memset_loop c addr (Z.to_nat pgnum)
  end.

(** ** Regions and page queues *)

(** [init_vm_rg]: NULL when the allocation fails; [vmaid] is not written. *)
Definition init_vm_rg (rg_start rg_end : Z) : M sys (option vm_rg_struct) :=
  let* ok := malloc in
  ret (if ok then Some (mk_rg None rg_start rg_end) else None).

Definition enlist_vm_rg_node (rglist : list vm_rg_struct) (rgnode : vm_rg_struct) : list vm_rg_struct :=
  rgnode :: rglist.

(** [enlist_pgn_node(&mm->fifo_pgn, pgn)]: the newest page is at the head. *)
Definition enlist_pgn_node (mm pgn : Z) : M sys unit :=
  malloc_unchecked ;;;
  upd_mm mm (fun m => set_fifo (pgn :: fifo_pgn m) m).

(** ** Mapping a range *)

(** The loop of [vmap_page_range] from page [pgit]; [frames] is what is left
    of the frame list.  The result is [map_err] and the final [pgit]. *)
Fixpoint map_pages (c : pcb_t) (addr pgit : Z) (n : nat) (frames : list Z) : M sys (Z * Z) :=
  match n with
  | O => ret (0, pgit)
  | S n =>
      let* off := int_arith (pgit * PAGING64_PAGESZ) in
      let pgn := Z.shiftr (u64 (addr + off)) PAGING64_ADDR_PT_SHIFT in
      match frames with
      | [] => ret (0, pgit)
      | fpn :: fp_next =>
          let* r := pte_set_fpn (Some c) pgn fpn in
          if negb (r =? 0) then ret (-1, pgit)
          else
            (if negb (p_mm c =? NULL) then enlist_pgn_node (p_mm c) pgn else ret tt) ;;;
            map_pages c addr (pgit + 1) n fp_next
      end
  end.

(** [ret_rg] is [None] for NULL; its new contents are returned. *)
Definition vmap_page_range (caller : option pcb_t) (addr pgnum : Z) (frames : list Z)
    (ret_rg : option vm_rg_struct) : M sys (Z * option vm_rg_struct) :=
  match caller with
  | None => ret (u64 (-1), ret_rg)
  | Some c =>
      if p_mm c =? NULL then ret (u64 (-1), ret_rg)
      else
        let* (map_err, pgit) := map_pages c addr 0 (Z.to_nat pgnum) frames in
        match ret_rg with
        | None => ret (u64 map_err, None)
        | Some rg =>
            let* off := int_arith (pgit * PAGING64_PAGESZ) in
            ret (u64 map_err, Some (mk_rg (rg_vmaid rg) addr (u64 (addr + off))))
        end
  end.

(** The loop of [alloc_pages_range]: the list of frames and whether all of
    them were obtained. *)
Fixpoint get_frames (mram : Z) (n : nat) (frm_lst : list Z) : M sys (list Z * bool) :=
  match n with
  | O => ret (frm_lst, true)
  | S n =>
      let* fpn := MEMPHY_get_freefp mram in
      match fpn with
      | Some fpn =>
          let* ok := malloc in
          if ok then get_frames mram n (frm_lst ++ [fpn])
          else MEMPHY_put_freefp mram fpn ;;; ret (frm_lst, false)
      | None => ret (frm_lst, false)
      end
  end.

Fixpoint put_frames (mram : Z) (frames : list Z) : M sys unit :=
  match frames with
  | [] => ret tt
  | fpn :: frames => MEMPHY_put_freefp mram fpn ;;; put_frames mram frames
  end.

Definition alloc_pages_range (caller : option pcb_t) (req_pgnum : Z) (frm_lst : list Z)
    : M sys (Z * list Z) :=
  match caller with
  | None => ret (u64 (-1), frm_lst)
  | Some c =>
      if p_krnl c =? NULL then ret (u64 (-1), frm_lst)
      else
        let* k := gets os in
        if k_mram k =? NULL then ret (u64 (-1), frm_lst)
        else
          let* (frm_lst, alloc_success) := get_frames (k_mram k) (Z.to_nat req_pgnum) frm_lst in
          if alloc_success then ret (u64 0, frm_lst)
          else put_frames (k_mram k) frm_lst ;;; ret (u64 (-3000), [])
  end.

(** The comparison [vmap_page_range(...) < 0] is one of [uint64_t] values. *)
Definition vm_map_ram (caller : option pcb_t) (astart aend mapstart incpgnum : Z)
    (ret_rg : option vm_rg_struct) : M sys (Z * option vm_rg_struct) :=
  match caller with
  | None => ret (u64 (-1), ret_rg)
  | Some c =>
      if p_krnl c =? NULL then ret (u64 (-1), ret_rg)
      else
        let* k := gets os in
        if k_mram k =? NULL then ret (u64 (-1), ret_rg)
        else
          let* (r, frm_lst) := alloc_pages_range caller incpgnum [] in
          let ret_alloc := i32 r in
          if (ret_alloc <? 0) && negb (ret_alloc =? -3000) then ret (u64 (-1), ret_rg)
          else if ret_alloc =? -3000 then ret (u64 (-1), ret_rg)
          else
            let* (r, ret_rg) := vmap_page_range caller mapstart incpgnum frm_lst ret_rg in
            let ret_alloc := if r <? 0 then -1 else ret_alloc in
            (if ret_alloc <? 0 then put_frames (k_mram k) frm_lst else ret tt) ;;;
            ret (if ret_alloc <? 0 then u64 (-1) else u64 0, ret_rg)
  end.

(** ** Copying a page between devices *)

(** The byte [data] is indeterminate when the read fails; the copy of an
    indeterminate byte counts as undefined. *)
Fixpoint cp_page_loop (mpsrc srcfpn mpdst dstfpn cellidx : Z) (n : nat) : M sys Z :=
  match n with
  | O => ret 0
  | S n =>
      let addrsrc := u64 (srcfpn * PAGING64_PAGESZ + cellidx) in
      let addrdst := u64 (dstfpn * PAGING64_PAGESZ + cellidx) in
      let* (_, data) := MEMPHY_read mpsrc addrsrc in
      let* data := from_opt data in
      let* _ := MEMPHY_write mpdst addrdst data in
      cp_page_loop mpsrc srcfpn mpdst dstfpn (cellidx + 1) n
  end.

Definition __swap_cp_page (mpsrc srcfpn mpdst dstfpn : Z) : M sys Z :=
  cp_page_loop mpsrc srcfpn mpdst dstfpn 0 (Z.to_nat PAGING64_PAGESZ).

(** ** Initialising a descriptor *)

(** [print_pgtbl]: the return code and the numbers its two [printf] calls
    print - the tables on the path of page 0, NULL from the first that is
    missing, and the counters.  It dereferences each table it finds. *)
Definition first_table (tbl : Z) : M sys Z := if tbl =? NULL then ret NULL else tbl_get tbl 0.
Definition print_pgtbl (caller : option pcb_t) : M sys (Z * list Z) :=
  match caller with
  | None => ret (-1, [])
  | Some c =>
      if p_mm c =? NULL then ret (-1, [])
      else
        let* m := get_mm (p_mm c) in
        let* p4d_tbl := first_table (pgd m) in
        let* pud_tbl := first_table p4d_tbl in
        let* pmd_tbl := first_table pud_tbl in
        let* pt_tbl := first_table pmd_tbl in
        let st := stats m in
        ret (0, [pgd m; p4d_tbl; pud_tbl; pmd_tbl; pt_tbl; walks st; level_reads st; level_writes st;
                 u64 (level_reads st + level_writes st); tables_allocated st; storage_bytes st])
  end.

(** The state of an [mm_struct] before [init_mm]: the object of [malloc] at
    address [mm] has no contents yet, so [init_mm] defines them all. *)
Definition init_mm (mm : Z) (caller : option pcb_t) : M sys Z :=
  if (mm =? NULL) || no_krnl caller then ret (-1)
  else
    let* ok := malloc in
    if negb ok then ret (-1)
    else
      let* root := calloc_table in
      if root =? NULL then ret (-1)
      else
        let* first_rg := init_vm_rg 0 0 in
        match first_rg with
        | None =>
            (* [free(mm->pgd)] *)
            modify (fun s => set_heap (mk_heap (delete root (tables (heap s))) (next_table (heap s))) s) ;;;
            ret (-1)
        | Some first_rg =>
            let vma0 := mk_vma 0 0 0 0 (enlist_vm_rg_node [] first_rg) in
            let m := mk_mm root [vma0] (replicate (Z.to_nat PAGING_MAX_SYMTBL_SZ) (mk_rg None 0 0))
                           [] None (mk_stats 0 0 0 1 PGTBL_TABLE_BYTES) in
            modify (fun s => set_mms (<[mm := m]> (mms s)) s) ;;;
            ret 0
        end.

(** ** Entry updates *)

(** A caller that can be served: it has a kernel and an initialised [mm]. *)
Record caller_ok (c : pcb_t) (s : sys) (m : mm_struct) : Prop := {
  co_krnl : p_krnl c <> NULL;
  co_mm : p_mm c <> NULL;
  co_desc : mms s !! p_mm c = Some m;
}.

Lemma krnl_of_ok c (Q : krnl_t -> sys -> Prop) s :
  p_krnl c <> NULL -> Q (os s) s -> wp (krnl_of c) Q s.
Proof. intros Hk HQ. unfold krnl_of. rewrite (proj2 (Z.eqb_neq _ _)) by done. by wp_steps. Qed.

(** Following the first entries, as far as there are tables. *)
Definition spine (s : sys) (a : Z) (n : nat) : Z := from_option id NULL (walk (tables (heap s)) a (replicate n 0)).

Lemma spine_S s a n : spine s a (S n) = from_option id NULL (b ← walk (tables (heap s)) a (replicate n 0); walk (tables (heap s)) b [0]).
Proof. unfold spine. by rewrite <- walk_app, replicate_S_end. Qed.

Lemma wp_first_table ow s p m n (Q : Z -> sys -> Prop) :
  pt_wf_by ow s -> mms s !! p = Some m -> (n < 4)%nat -> Q (spine s (pgd m) (S n)) s -> wp (first_table (spine s (pgd m) n)) Q s.
Proof.
  intros Hwf Hm Hn. rewrite spine_S. unfold spine.
  destruct (walk (tables (heap s)) (pgd m) (replicate n 0)) as [b|] eqn:Hw; simpl; [|intros HQ; unfold first_table; by wp_steps].
  pose proof (walk_owned ow s (pgd m) p [] (replicate n 0) b Hwf (ow_root _ _ Hwf _ _ Hm)) as Ho.
  simpl in Ho. rewrite length_replicate in Ho. specialize (Ho ltac:(lia) Hw).
  destruct (owned_table _ _ _ _ Hwf Ho) as [t Ht]. pose proof (owned_pos _ _ _ _ Hwf Ho). rewrite Ht.
  intros HQ. unfold first_table, tbl_get. rewrite (proj2 (Z.eqb_neq b NULL)) by (unfold NULL; lia). wp_steps.
  destruct (Z.eqb_spec (default 0 (t !! 0)) 0) as [He|He]; simpl in HQ; [by rewrite He|done].
Qed.

(** On a well-formed tree it prints the tables on the path of page 0. *)
Lemma print_pgtbl_spec c m s :
  pt_wf s -> caller_ok c s m ->
  wp (print_pgtbl (Some c)) (fun r s' => s' = s /\ exists l, r = (0, map (spine s (pgd m)) (seq 0 5) ++ l)) s.
Proof.
  intros [ow Hwf] Hc. unfold print_pgtbl. rewrite (proj2 (Z.eqb_neq _ _)) by apply Hc. wp_step.
  eapply wp_get_mm; [apply Hc|]. change (pgd m) with (spine s (pgd m) 0) at 1.
  do 4 (wp_step; eapply wp_first_table; [done|apply Hc|lia|]). wp_step. split; [done|]. by eexists.
Qed.

(** The shape shared by the functions that write one entry. *)
Lemma wp_entry_update c m pgn (f : Z -> Z) (k : M sys Z) (Q : Z -> sys -> Prop) s :
  pt_wf s -> caller_ok c s m -> valid_pgn pgn ->
  (forall s', pt_wf s' -> pte_upd (p_mm c) pgn (f (pte_of s (p_mm c) pgn)) s s' -> wp k Q s') ->
  (forall s', pt_wf s' -> pt_step s s' -> s_host s <> [] -> Q (-1) s') ->
  wp (let* pte := get_pte_ptr (Some c) pgn 1 in
      match pte with
      | None => ret (-1)
      | Some pte => let* v := pte_load pte in
                    pte_store pte (f v) ;;; count (p_mm c) bump_writes ;;; k
      end) Q s.
Proof.
  intros Hwf [Hk Hp Hm] Hv Hok Hfail. wp_call get_pte_ptr_spec; [done..|].
  intros [slot|] s1 [Hwf1 Hst1 Hslot1 Hal1 _]; wp_steps.
  2: { apply Hfail; [done..|]. intros Hh. by apply Hal1. }
  specialize (Hslot1 slot eq_refl). eapply wp_pte_load; [done|done|]. wp_steps.
  eapply wp_pte_store; [done|done|]. intros s2 Hwf2 Hu _. wp_steps.
  destruct (ps_mms_Some _ _ _ _ Hst1 Hm) as (m1 & Hm1 & _).
  destruct (pte_upd_mms_Some _ _ _ _ _ _ _ Hu Hm1) as (m2 & Hm2 & _).
  destruct Hwf2 as [ow Hwf2]. eapply wp_count; [done|done|]. intros s3 Hwf3 Hst3 _ _.
  apply Hok; [by exists ow|]. rewrite (ps_ptes _ _ Hst1) in Hu. by eapply pte_upd_steps.
Qed.

Lemma caller_ok_krnl c s m : caller_ok c s m -> (p_krnl c =? NULL) = false.
Proof. intros [Hk _ _]. by apply Z.eqb_neq. Qed.

(** The two outcomes of writing [v] into the entry of a page. *)
Definition entry_written (p pgn v : Z) (s : sys) (r : Z) (s' : sys) : Prop :=
  pt_wf s' /\ (r = 0 /\ pte_upd p pgn v s s' \/ r = -1 /\ pt_step s s' /\ s_host s <> []).

Section Entries.
Context (c : pcb_t) (m : mm_struct) (pgn : Z) (s : sys).
Hypothesis Hwf : pt_wf s.
Hypothesis Hc : caller_ok c s m.
Hypothesis Hv : valid_pgn pgn.

Lemma pte_set_fpn_spec fpn :
  wp (pte_set_fpn (Some c) pgn fpn)
     (entry_written (p_mm c) pgn (pte_fpn_val (pte_of s (p_mm c) pgn) fpn) s) s.
Proof.
  unfold pte_set_fpn. rewrite (caller_ok_krnl _ _ _ Hc).
  apply (wp_entry_update c m pgn (fun v => pte_fpn_val v fpn)); [done..| |].
  - intros s' Hwf' Hu. wp_steps. split; auto.
  - intros s' Hwf' Hst Hh. split; auto.
Qed.

Lemma pte_set_swap_spec swptyp swpoff :
  wp (pte_set_swap (Some c) pgn swptyp swpoff)
     (entry_written (p_mm c) pgn (pte_swap_val (pte_of s (p_mm c) pgn) swptyp swpoff) s) s.
Proof.
  unfold pte_set_swap. rewrite (caller_ok_krnl _ _ _ Hc).
  apply (wp_entry_update c m pgn (fun v => pte_swap_val v swptyp swpoff)); [done..| |].
  - intros s' Hwf' Hu. wp_steps. split; auto.
  - intros s' Hwf' Hst Hh. split; auto.
Qed.

(** Storing a value that does not depend on the entry needs no load. *)
Lemma wp_entry_store v (k : M sys Z) (Q : Z -> sys -> Prop) :
  (forall s', pt_wf s' -> pte_upd (p_mm c) pgn v s s' -> wp k Q s') ->
  (forall s', pt_wf s' -> pt_step s s' -> s_host s <> [] -> Q (-1) s') ->
  wp (let* pte := get_pte_ptr (Some c) pgn 1 in
      match pte with
      | Some pte => pte_store pte v ;;; count (p_mm c) bump_writes ;;; k
      | None => ret (-1)
      end) Q s.
Proof.
  intros Hok Hfail. pose proof Hc as [Hk Hp Hm]. wp_call get_pte_ptr_spec; [done..|].
  intros [slot|] s1 [Hwf1 Hst1 Hslot1 Hal1 _]; wp_steps.
  2: { apply Hfail; [done..|]. intros Hh. by apply Hal1. }
  specialize (Hslot1 slot eq_refl). eapply wp_pte_store; [done|done|]. intros s2 Hwf2 Hu _. wp_steps.
  destruct (ps_mms_Some _ _ _ _ Hst1 Hm) as (m1 & Hm1 & _).
  destruct (pte_upd_mms_Some _ _ _ _ _ _ _ Hu Hm1) as (m2 & Hm2 & _).
  destruct Hwf2 as [ow Hwf2]. eapply wp_count; [done|done|]. intros s3 Hwf3 Hst3 _ _.
  apply Hok; [by exists ow|]. by eapply pte_upd_steps.
Qed.

Lemma pte_set_entry_spec v :
  wp (pte_set_entry (Some c) pgn v) (entry_written (p_mm c) pgn v s) s.
Proof.
  unfold pte_set_entry. rewrite (caller_ok_krnl _ _ _ Hc). apply wp_entry_store.
  - intros s' Hwf' Hu. wp_steps. split; auto.
  - intros s' Hwf' Hst Hh. split; auto.
Qed.

Lemma pte_get_entry_spec :
  wp (pte_get_entry (Some c) pgn)
     (fun r s' => r = u32 (pte_of s (p_mm c) pgn) /\ pt_wf s' /\ pt_step s s' /\ heap s' = heap s) s.
Proof.
  unfold pte_get_entry. simpl no_krnl. rewrite (caller_ok_krnl _ _ _ Hc).
  pose proof Hc as [Hk Hp Hm]. wp_call get_pte_ptr_spec; [done..|].
  intros r s1 [Hwf1 Hst1 Hslot1 _ Hrd]. destruct (Hrd eq_refl) as [Hh Hr].
  destruct r as [slot|]; wp_steps.
  - eapply wp_pte_load; [done|by apply Hslot1|]. wp_steps. by rewrite (ps_ptes _ _ Hst1).
  - unfold pte_of. by rewrite <- Hr.
Qed.
End Entries.

(** ** Frame ranges *)

(** [s] with device [p] replaced by [d] and [h] left of the host failures. *)
Definition at_dev (p : Z) (d : memphy_struct) (s : sys) (h : list bool) : sys :=
  mk_sys (mms s) (<[p := d]> (devs s)) (procs s) (os s) (heap s) h.

Lemma at_dev_id p d s : devs s !! p = Some d -> at_dev p d s (s_host s) = s.
Proof. intros Hd. unfold at_dev. rewrite insert_id by done. by destruct s. Qed.

Lemma at_dev_twice p d1 d2 s h1 h2 : at_dev p d2 (at_dev p d1 s h1) h2 = at_dev p d2 s h2.
Proof. unfold at_dev; simpl. by rewrite insert_insert_eq. Qed.

Lemma set_devs_at_dev p d s : set_devs (<[p := d]> (devs s)) s = at_dev p d s (s_host s).
Proof. done. Qed.

Lemma wp_MEMPHY_get_freefp p (Q : option Z -> sys -> Prop) s d :
  p <> NULL -> devs s !! p = Some d ->
  match free_fp_list d with
  | [] => Q None s
  | f :: fs => Q (Some f) (at_dev p (set_fps fs (f :: used_fp_list d) d) s (s_host s))
  end -> wp (MEMPHY_get_freefp p) Q s.
Proof.
  intros Hp Hd HQ. unfold MEMPHY_get_freefp. rewrite (proj2 (Z.eqb_neq _ _)) by done.
  eapply wp_on_dev; [done|]. unfold wp. rewrite get_freefp_spec.
  destruct (free_fp_list d) as [|f fs]; [|done].
  by rewrite set_devs_at_dev, at_dev_id.
Qed.

Lemma wp_MEMPHY_put_freefp p f used (Q : Z -> sys -> Prop) s d :
  p <> NULL -> devs s !! p = Some d -> 0 <= f < 2 ^ 31 -> unlink f (used_fp_list d) = Some used ->
  Q 0 (at_dev p (set_fps (f :: free_fp_list d) used d) s (s_host s)) ->
  wp (MEMPHY_put_freefp p f) Q s.
Proof.
  intros Hp Hd Hf Hu HQ. unfold MEMPHY_put_freefp. rewrite (proj2 (Z.eqb_neq _ _)) by done.
  eapply wp_on_dev; [done|]. unfold wp. by rewrite put_freefp_spec, Hu by done.
Qed.

Lemma set_fps_self d : set_fps (free_fp_list d) (used_fp_list d) d = d.
Proof. by destruct d. Qed.

Section Ranges.
Context (ram : Z) (d : memphy_struct).
Hypothesis Hram : ram <> NULL.

Lemma put_frames_spec s l l2 acc h :
  Forall (fun f => 0 <= f < 2 ^ 31) l -> used_fp_list d ≡ₚ l ++ l2 ->
  wp (put_frames ram l)
     (fun _ s' => exists used, used ≡ₚ l2 /\
        s' = at_dev ram (set_fps (rev l ++ acc) used d) s h)
     (at_dev ram (set_fps acc (used_fp_list d) d) s h).
Proof.
  intros Hl. generalize (used_fp_list d) as u. intros u Hu. revert acc u Hu.
  induction Hl as [|f l Hf Hl IH]; intros acc u Hu; simpl.
  - wp_steps. eauto.
  - destruct (unlink f u) as [u'|] eqn:Hun.
    2: { apply unlink_None in Hun. rewrite Hu in Hun. set_solver. }
    pose proof (unlink_Some _ _ _ Hun) as Hp. rewrite Hu in Hp. simpl in Hp. apply Permutation_cons_inv in Hp.
    wp_steps. eapply (wp_MEMPHY_put_freefp ram f u'); [done|simpl; by rewrite lookup_insert_eq|done|done|].
    rewrite at_dev_twice. simpl.
    change (set_fps (f :: acc) u' (set_fps acc u d)) with (set_fps (f :: acc) u' d).
    eapply wp_mono; [by apply IH|]. intros _ s' (used & Hused & ->). exists used. split; [done|].
    by rewrite <- app_assoc.
Qed.

Hypothesis Hframes : Forall (fun f => 0 <= f < 2 ^ 31) (frames_of d).

(** After taking the frames [l], [l2] is left. *)
Definition taken (l l2 : list Z) : memphy_struct := set_fps l2 (rev l ++ used_fp_list d) d.

Lemma get_frames_loop s n acc l l2 h :
  free_fp_list d = l ++ l2 ->
  wp (get_frames ram n acc)
     (fun r s' => exists l' l2' h', r.1 = acc ++ l' /\ free_fp_list d = (l ++ l') ++ l2' /\
        s' = at_dev ram (taken (l ++ l') l2') s h' /\ (h = [] -> h' = []) /\
        (if r.2 then length l' = n else (length l' < n)%nat /\ (l2' = [] \/ h <> [])))
     (at_dev ram (taken l l2) s h).
Proof.
  revert acc l l2 h. induction n as [|n IH]; intros acc l l2 h Hl; simpl.
  - wp_steps. exists [], l2, h. by rewrite !app_nil_r.
  - wp_steps. eapply wp_MEMPHY_get_freefp; [done|simpl; by rewrite lookup_insert_eq|]. simpl.
    destruct l2 as [|f l2].
    { wp_steps. exists [], [], h. rewrite !app_nil_r. simpl. rewrite app_nil_r in Hl.
      split_and!; auto; lia. }
    rewrite at_dev_twice. wp_steps.
    assert (Hnext : at_dev ram (set_fps l2 (f :: rev l ++ used_fp_list d) (taken l (f :: l2))) s
                    = at_dev ram (taken (l ++ [f]) l2) s).
    { unfold taken. by rewrite rev_app_distr. }
    assert (Hl' : free_fp_list d = (l ++ [f]) ++ l2) by (by rewrite <- app_assoc).
    unfold wp at 1, malloc. simpl host.
    assert (Hgo : forall h1, (h = [] -> h1 = []) ->
      wp (get_frames ram n (acc ++ [f]))
       (fun r s' => exists l' l2' h', r.1 = acc ++ l' /\ free_fp_list d = (l ++ l') ++ l2' /\
        s' = at_dev ram (taken (l ++ l') l2') s h' /\ (h = [] -> h' = []) /\
        (if r.2 then length l' = S n else (length l' < S n)%nat /\ (l2' = [] \/ h <> [])))
       (at_dev ram (taken (l ++ [f]) l2) s h1)).
    { intros h1 Hh1. eapply wp_mono; [by apply IH|].
      intros r s' (l' & l2' & h' & Hr & Hfr & -> & Hh' & Hn). exists (f :: l'), l2', h'.
      assert (Hll : l ++ f :: l' = (l ++ [f]) ++ l') by (by rewrite <- app_assoc).
      rewrite Hll. rewrite <- app_assoc in Hr. split_and!; auto.
      destruct r.2; simpl; [lia|]. destruct Hn as [Hn Hn']. split; [lia|]. destruct Hn' as [|Hn']; [by left|].
      right. auto. }
    destruct h as [|[] h]; simpl negb; cbn iota.
    + rewrite Hnext. by apply Hgo.
    + (* the node cannot be allocated: the frame goes back *)
      wp_steps. simpl set_host.
      assert (Hf : 0 <= f < 2 ^ 31).
      { rewrite Forall_forall in Hframes. apply Hframes. unfold frames_of. rewrite Hl. set_solver. }
      eapply (wp_MEMPHY_put_freefp ram f (rev l ++ used_fp_list d));
        [done|simpl; by rewrite lookup_insert_eq|done|simpl; by rewrite Z.eqb_refl|].
      wp_steps. exists [], (f :: l2), h. rewrite !app_nil_r.
      split_and!; [done|done| |done|simpl; split; [lia|by right]].
      unfold at_dev; simpl. by rewrite !insert_insert_eq.
    + rewrite Hnext. apply (Hgo h). done.
Qed.
End Ranges.

Definition alloc_all (ram : Z) (d : memphy_struct) (n : nat) (s : sys) (l : list Z) (s' : sys) : Prop :=
  exists l2 h, length l = n /\ free_fp_list d = l ++ l2 /\ (s_host s = [] -> h = []) /\
    s' = at_dev ram (set_fps l2 (rev l ++ used_fp_list d) d) s h.

Definition alloc_none (ram : Z) (d : memphy_struct) (n : nat) (s s' : sys) : Prop :=
  exists free used h, free ≡ₚ free_fp_list d /\ used ≡ₚ used_fp_list d /\ (s_host s = [] -> h = []) /\
    s' = at_dev ram (set_fps free used d) s h /\
    ((length (free_fp_list d) < n)%nat \/ s_host s <> []).

Lemma alloc_pages_range_spec c n d s :
  p_krnl c <> NULL -> k_mram (os s) <> NULL -> devs s !! k_mram (os s) = Some d ->
  Forall (fun f => 0 <= f < 2 ^ 31) (frames_of d) ->
  wp (alloc_pages_range (Some c) n [])
     (fun r s' => r.1 = 0 /\ alloc_all (k_mram (os s)) d (Z.to_nat n) s r.2 s' \/
                  r = (u64 (-3000), []) /\ alloc_none (k_mram (os s)) d (Z.to_nat n) s s') s.
Proof.
  intros Hk Hram Hd Hfr. unfold alloc_pages_range. rewrite (proj2 (Z.eqb_neq _ _)) by done.
  wp_steps. rewrite (proj2 (Z.eqb_neq _ _)) by done. set (ram := k_mram (os s)) in *. wp_steps.
  pose proof (get_frames_loop ram d Hram Hfr s (Z.to_nat n) [] [] _ (s_host s) eq_refl) as Hg.
  change (taken d [] (free_fp_list d)) with (set_fps (free_fp_list d) (used_fp_list d) d) in Hg.
  rewrite set_fps_self, at_dev_id in Hg by done. eapply wp_mono; [exact Hg|]. clear Hg.
  intros [l ok] s1 (l' & l2 & h & Hl & Hf & -> & Hh & Hn). simpl in *. subst l. destruct ok; wp_steps.
  - left. split; [done|]. exists l2, h. done.
  - destruct Hn as [Hn Hn'].
    assert (Hl' : Forall (fun f => 0 <= f < 2 ^ 31) l').
    { unfold frames_of in Hfr. rewrite Hf, !Forall_app in Hfr. by destruct Hfr as [[? _] _]. }
    pose proof (put_frames_spec ram (taken d l' l2) Hram s l' (used_fp_list d) l2 h Hl') as Hput.
    simpl in Hput. eapply wp_mono; [apply Hput; by rewrite <- Permutation_rev|].
    intros _ s2 (used & Hu & ->). wp_steps. right. split; [done|].
    exists (rev l' ++ l2), used, h. split_and!; [rewrite Hf; by rewrite <- Permutation_rev|done|done|done|].
    destruct Hn' as [-> | Hn']; [|by right]. left. rewrite Hf, app_nil_r. done.
Qed.

(** ** Copying a page *)

(** A random-access device whose addresses fit an [int]. *)
Definition dev_ok (d : memphy_struct) : Prop := rdmflg d <> 0 /\ storage_len d < 2 ^ 31.

(** Frame [f] lies within the storage. *)
Definition fits (d : memphy_struct) (f : Z) : Prop := 0 <= f /\ (f + 1) * PAGING64_PAGESZ <= storage_len d.

(** Byte [o] of frame [f]. *)
Definition fbyte (d : memphy_struct) (f o : Z) : Z := byte_at d (f * PAGING64_PAGESZ + o).

Lemma cp_page_loop_spec src sf dst df ds dd i n s :
  src <> NULL -> dst <> NULL -> src <> dst ->
  devs s !! src = Some ds -> devs s !! dst = Some dd -> dev_ok ds -> dev_ok dd ->
  fits ds sf -> fits dd df -> 0 <= i -> i + Z.of_nat n = PAGING64_PAGESZ ->
  wp (cp_page_loop src sf dst df i n)
     (fun r s' => r = 0 /\ exists st, s' = at_dev dst (set_storage st dd) s (s_host s) /\
        forall a, default 0 (st !! a) =
          if (df * PAGING64_PAGESZ + i <=? a) && (a <? (df + 1) * PAGING64_PAGESZ)
          then fbyte ds sf (a - df * PAGING64_PAGESZ) else byte_at dd a) s.
Proof.
  intros Hs Hd Hne. revert i s dd. unfold PAGING64_PAGESZ, fits, dev_ok, fbyte in *.
  induction n as [|n IH]; intros i s dd Hds Hdd Hos Hod Hfs Hfd Hi Hn; simpl;
    unfold PAGING64_PAGESZ in *.
  - wp_steps. split; [done|]. exists (storage dd). split; [rewrite <- at_dev_id at 1 by done; by destruct dd|].
    intros a. replace (_ && _) with false by lia. done.
  - wp_steps. rewrite !u64_small by lia.
    eapply (wp_MEMPHY_read src); [done|done|tauto|lia|]. wp_steps.
    eapply (wp_MEMPHY_write dst); [done|done|tauto|lia|]. wp_steps.
    set (dd1 := set_storage _ dd). rewrite set_devs_at_dev.
    eapply wp_mono; [apply (IH (i + 1) _ dd1); simpl; try lia; try tauto|].
    + by rewrite lookup_insert_ne.
    + by rewrite lookup_insert_eq.
    + intros r s' (-> & st & -> & Hst). split; [done|]. exists st. rewrite at_dev_twice. split; [done|].
      intros a. rewrite Hst. destruct (decide (a = df * 4096 + i)) as [->|Hna].
      * replace ((df * 4096 + (i + 1) <=? _) && _) with false by lia.
        replace (_ && _) with true by lia. unfold dd1. rewrite byte_at_put. f_equal. lia.
      * unfold dd1. rewrite byte_at_put_ne by lia.
        destruct (Z.leb_spec (df * 4096 + (i + 1)) a), (Z.leb_spec (df * 4096 + i) a); try lia; done.
Qed.

(** What a copy of frame [sf] of [ds] to frame [df] leaves of device [dd]. *)
Record page_copied (ds : memphy_struct) (sf : Z) (dd : memphy_struct) (df : Z) (dd' : memphy_struct) : Prop := {
  pc_same : exists st, dd' = set_storage st dd;
  pc_frame o : 0 <= o < PAGING64_PAGESZ -> fbyte dd' df o = fbyte ds sf o;
  pc_other f o : f <> df -> 0 <= o < PAGING64_PAGESZ -> fbyte dd' f o = fbyte dd f o;
}.

Lemma swap_cp_page_spec src sf dst df ds dd s :
  src <> NULL -> dst <> NULL -> src <> dst ->
  devs s !! src = Some ds -> devs s !! dst = Some dd -> dev_ok ds -> dev_ok dd ->
  fits ds sf -> fits dd df ->
  wp (__swap_cp_page src sf dst df)
     (fun r s' => r = 0 /\ exists dd', page_copied ds sf dd df dd' /\
                  s' = at_dev dst dd' s (s_host s)) s.
Proof.
  intros. eapply wp_mono; [by eapply cp_page_loop_spec|].
  intros r s' (-> & st & -> & Hst). split; [done|]. eexists. split; [|done].
  assert (Hst' : forall f o, fbyte (set_storage st dd) f o = default 0 (st !! (f * PAGING64_PAGESZ + o))) by done.
  unfold PAGING64_PAGESZ in *. split; [by eexists| |].
  - intros o Ho. unfold PAGING64_PAGESZ in *. rewrite Hst', Hst. replace (_ && _) with true by lia. f_equal. lia.
  - intros f o Hf Ho. unfold PAGING64_PAGESZ in *. rewrite Hst', Hst. replace (_ && _) with false; [done|].
    destruct (Z.leb_spec (df * 4096 + 0) (f * 4096 + o)), (Z.ltb_spec (f * 4096 + o) ((df + 1) * 4096)); lia.
Qed.

(** ** Mapping a range of pages *)

(** [s'] is [s] up to counters and host allocations, with the descriptor of
    [p] transformed by [f] and the entries given by [pt]. *)
Record vm_upd (p : Z) (f : mm_struct -> mm_struct) (pt : Z -> Z -> Z) (s s' : sys) : Prop := {
  vu_devs : devs s' = devs s;
  vu_procs : procs s' = procs s;
  vu_os : os s' = os s;
  vu_host : s_host s = [] -> s_host s' = [];
  vu_mms q : forget_stats <$> (mms s' !! q) =
             forget_stats <$> (if decide (q = p) then f <$> (mms s !! q) else mms s !! q);
  vu_ptes q g : pte_of s' q g = pt q g;
}.

(** Changing a descriptor without touching its root table. *)
Lemma set_mm_desc p m m' s :
  pt_wf s -> mms s !! p = Some m -> pgd m' = pgd m ->
  let s' := set_mms (<[p := m']> (mms s)) s in
  pt_wf s' /\ forall q g, pte_of s' q g = pte_of s q g.
Proof.
  intros [ow Hwf] Hm Hpgd s'. split.
  - exists ow. split; simpl; try pt_wf_same Hwf. intros q mq Hq.
    rewrite lookup_insert in Hq. case_decide as Hqp; [|by apply (ow_root _ _ Hwf)].
    simplify_eq. rewrite Hpgd. by apply (ow_root _ _ Hwf).
  - intros q g. unfold pte_of, pte_slot. simpl. rewrite lookup_insert. case_decide as Hqp; [|done].
    subst. rewrite Hm. simpl. by rewrite Hpgd.
Qed.

Lemma forget_stats_fifo m m' : forget_stats m' = forget_stats m -> fifo_pgn m' = fifo_pgn m.
Proof. by intros [= ? ? ? ? ?]. Qed.

Lemma forget_stats_set_fifo l m m' :
  forget_stats m' = forget_stats m -> forget_stats (set_fifo l m') = forget_stats (set_fifo l m).
Proof. intros [= ? ? ? ? ?]. unfold forget_stats, set_fifo, set_stats; simpl. congruence. Qed.

Lemma enlist_pgn_node_spec p pgn s m (Q : unit -> sys -> Prop) :
  pt_wf s -> mms s !! p = Some m -> s_host s = [] ->
  (forall s', pt_wf s' -> vm_upd p (fun m => set_fifo (pgn :: fifo_pgn m) m) (pte_of s) s s' -> Q tt s') ->
  wp (enlist_pgn_node p pgn) Q s.
Proof.
  intros Hwf Hm Hh HQ. unfold enlist_pgn_node. wp_steps.
  apply wp_malloc_unchecked; [done|]. eapply wp_upd_mm; [done|].
  destruct (set_mm_desc p m (set_fifo (pgn :: fifo_pgn m) m) s) as [Hwf' Hpt]; [done..|].
  apply HQ; [done|]. split; try done. intros q. simpl. rewrite lookup_insert.
  destruct (decide (p = q)) as [<-|Hne].
  - rewrite decide_True by done. by rewrite Hm.
  - by rewrite decide_False by congruence.
Qed.

Lemma page_of_addr g : Z.shiftr (g * 4096) PAGING64_ADDR_PT_SHIFT = g.
Proof. unfold PAGING64_ADDR_PT_SHIFT. rewrite Z.shiftr_div_pow2 by done. by apply Z.div_mul. Qed.

(** The entries after mapping [frames] from page [g0] of [p]. *)
Definition mapped_ptes (p g0 : Z) (frames : list Z) (pt : Z -> Z -> Z) (q g : Z) : Z :=
  if decide (q = p) then
    match arr_get frames (g - g0) with
    | Some f => pte_fpn_val (pt q g) f
    | None => pt q g
    end
  else pt q g.

Definition queue_pages (g0 : Z) (n : nat) (m : mm_struct) : mm_struct :=
  set_fifo (rev (zseq g0 n) ++ fifo_pgn m) m.

Lemma vm_upd_mms_Some p f pt s s' m :
  vm_upd p f pt s s' -> mms s !! p = Some m ->
  exists m', mms s' !! p = Some m' /\ forget_stats m' = forget_stats (f m).
Proof.
  intros Hst Hm. pose proof (vu_mms _ _ _ _ _ Hst p) as Hp. rewrite Hm, decide_True in Hp by done.
  destruct (mms s' !! p) as [m'|]; [|done]. apply (inj Some) in Hp. eauto.
Qed.

Lemma mapped_ptes_cons p g0 f frames pt q g :
  mapped_ptes p g0 (f :: frames) pt q g =
  mapped_ptes p (g0 + 1) frames
    (fun q g => if decide ((q, g) = (p, g0)) then pte_fpn_val (pt p g0) f else pt q g) q g.
Proof.
  unfold mapped_ptes. destruct (decide (q = p)) as [->|Hq].
  - unfold arr_get. destruct (Z.leb_spec 0 (g - g0)), (Z.leb_spec 0 (g - (g0 + 1))); try lia.
    + replace (Z.to_nat (g - g0)) with (S (Z.to_nat (g - (g0 + 1)))) by lia. simpl.
      rewrite decide_False by (intros [=]; lia). done.
    + replace g with g0 by lia. rewrite Z.sub_diag. simpl. by rewrite decide_True.
    + rewrite decide_False by (intros [=]; lia). done.
  - rewrite decide_False by congruence. done.
Qed.

Lemma map_pages_spec c m n : forall g0 it frames s,
  pt_wf s -> caller_ok c s m -> s_host s = [] ->
  0 <= g0 -> 0 <= it -> g0 + it + Z.of_nat n <= 2 ^ 45 -> it + Z.of_nat n < 2 ^ 19 ->
  (n <= length frames)%nat ->
  wp (map_pages c (g0 * PAGING64_PAGESZ) it n frames)
     (fun r s' => r = (0, it + Z.of_nat n) /\ pt_wf s' /\
        vm_upd (p_mm c) (queue_pages (g0 + it) n)
               (mapped_ptes (p_mm c) (g0 + it) (take n frames) (pte_of s)) s s') s.
Proof.
  revert m. induction n as [|n IH]; intros m g0 it frames s Hwf Hc Hh Hg Hit Hv Hi Hlen; cbn [map_pages].
  - wp_steps. split; [f_equal; lia|]. split; [done|]. split; [done|done|done|done| |].
    + intros q. destruct (decide _); [|done]. destruct (mms s !! q) as [mq|]; [|done]. by destruct mq.
    + intros q g. unfold mapped_ptes. destruct (decide _); [|done].
      unfold arr_get. by destruct (0 <=? g - (g0 + it)).
  - destruct frames as [|f frames]; simpl in Hlen; [lia|]. unfold PAGING64_PAGESZ in *.
    wp_step. apply wp_int_arith; [lia|]. rewrite u64_small by lia.
    replace (g0 * 4096 + it * 4096) with ((g0 + it) * 4096) by lia. rewrite page_of_addr.
    assert (Hvg : valid_pgn (g0 + it)) by (unfold valid_pgn; lia).
    wp_steps. eapply wp_mono; [by apply (pte_set_fpn_spec c m)|].
    intros r s1 [Hwf1 [[-> Hu]|(_ & _ & Hne)]]; [|done]. simpl.
    pose proof Hc as [Hk Hp Hm]. rewrite (proj2 (Z.eqb_neq (p_mm c) _)) by done.
    destruct (pte_upd_mms_Some _ _ _ _ _ _ _ Hu Hm) as (m1 & Hm1 & Hf1).
    wp_steps. eapply enlist_pgn_node_spec; [done|done|by apply (pu_host _ _ _ _ _ Hu)|].
    intros s2 Hwf2 Hv2. destruct (vm_upd_mms_Some _ _ _ _ _ _ Hv2 Hm1) as (m2 & Hm2 & Hf2).
    assert (Hh2 : s_host s2 = []) by (apply (vu_host _ _ _ _ _ Hv2), (pu_host _ _ _ _ _ Hu), Hh).
    eapply wp_mono; [apply (IH m2); try done; try lia; by split|].
    replace (g0 + (it + 1)) with (g0 + it + 1) by lia.
    intros r s3 (-> & Hwf3 & Hv3). split; [f_equal; lia|]. split; [done|]. split.
    + by rewrite (vu_devs _ _ _ _ _ Hv3), (vu_devs _ _ _ _ _ Hv2), (pu_devs _ _ _ _ _ Hu).
    + by rewrite (vu_procs _ _ _ _ _ Hv3), (vu_procs _ _ _ _ _ Hv2), (pu_procs _ _ _ _ _ Hu).
    + by rewrite (vu_os _ _ _ _ _ Hv3), (vu_os _ _ _ _ _ Hv2), (pu_os _ _ _ _ _ Hu).
    + intros _. by apply (vu_host _ _ _ _ _ Hv3).
    + intros q. rewrite (vu_mms _ _ _ _ _ Hv3). destruct (decide (q = p_mm c)) as [->|Hq].
      * rewrite Hm, Hm2. simpl. f_equal. unfold queue_pages. rewrite (forget_stats_fifo _ _ Hf2).
        erewrite forget_stats_set_fifo; [|exact Hf2]. simpl. rewrite (forget_stats_fifo _ _ Hf1).
        rewrite <- app_assoc. simpl.
        etransitivity; [|by apply forget_stats_set_fifo, Hf1]. done.
      * pose proof (vu_mms _ _ _ _ _ Hv2 q) as H2. rewrite decide_False in H2 by done.
        by rewrite H2, (pu_mms _ _ _ _ _ Hu).
    + intros q g. rewrite (vu_ptes _ _ _ _ _ Hv3). simpl take. rewrite mapped_ptes_cons.
      unfold mapped_ptes. rewrite !(vu_ptes _ _ _ _ _ Hv2).
      assert (Hone : pte_of s1 q g = if decide ((q, g) = (p_mm c, g0 + it))
                 then pte_fpn_val (pte_of s (p_mm c) (g0 + it)) f else pte_of s q g).
      { destruct (decide _) as [[= -> ->]|Hne]; [apply Hu|by apply Hu]. }
      by rewrite Hone.
Qed.

Lemma pt_wf_at_dev p d s h : pt_wf s -> pt_wf (at_dev p d s h).
Proof. intros [ow H]. exists ow. split; simpl; pt_wf_same H. Qed.

Lemma vmap_page_range_spec c m n g0 frames rg s :
  pt_wf s -> caller_ok c s m -> s_host s = [] ->
  0 <= g0 -> 0 <= n < 2 ^ 19 -> g0 + n <= 2 ^ 45 -> Z.of_nat (length frames) = n ->
  wp (vmap_page_range (Some c) (g0 * PAGING64_PAGESZ) n frames (Some rg))
     (fun r s' => r = (0, Some (mk_rg (rg_vmaid rg) (g0 * PAGING64_PAGESZ) ((g0 + n) * PAGING64_PAGESZ))) /\
        pt_wf s' /\ vm_upd (p_mm c) (queue_pages g0 (Z.to_nat n))
                           (mapped_ptes (p_mm c) g0 frames (pte_of s)) s s') s.
Proof.
  intros Hwf Hc Hh Hg Hn Hv Hlen. unfold vmap_page_range. pose proof Hc as [Hk Hp Hm].
  rewrite (proj2 (Z.eqb_neq (p_mm c) _)) by done.
  wp_step. eapply wp_mono; [apply (map_pages_spec c m (Z.to_nat n) g0 0); try done; lia|].
  intros r s' (-> & Hwf' & Hu). rewrite Z.add_0_r in Hu. rewrite take_ge in Hu by lia.
  cbn iota beta. wp_step. rewrite Z2Nat.id, Z.add_0_l by lia. unfold PAGING64_PAGESZ in *.
  apply wp_int_arith; [lia|]. rewrite u64_small by lia. wp_steps. split; [|done].
  rewrite u64_small by lia. do 3 f_equal. lia.
Qed.

Lemma vm_map_ram_spec c m n g0 d aend rg s :
  pt_wf s -> caller_ok c s m -> s_host s = [] ->
  k_mram (os s) <> NULL -> devs s !! k_mram (os s) = Some d ->
  Forall (fun f => 0 <= f < 2 ^ 31) (frames_of d) ->
  0 <= g0 -> 0 <= n < 2 ^ 19 -> g0 + n <= 2 ^ 45 ->
  wp (vm_map_ram (Some c) (g0 * PAGING64_PAGESZ) aend (g0 * PAGING64_PAGESZ) n (Some rg))
     (fun r s' =>
       if decide (n <= Z.of_nat (length (free_fp_list d))) then
         r = (0, Some (mk_rg (rg_vmaid rg) (g0 * PAGING64_PAGESZ) ((g0 + n) * PAGING64_PAGESZ))) /\
         pt_wf s' /\ exists l s1, alloc_all (k_mram (os s)) d (Z.to_nat n) s l s1 /\
           vm_upd (p_mm c) (queue_pages g0 (Z.to_nat n)) (mapped_ptes (p_mm c) g0 l (pte_of s)) s1 s'
       else r = (u64 (-1), Some rg) /\ alloc_none (k_mram (os s)) d (Z.to_nat n) s s') s.
Proof.
  intros Hwf Hc Hh Hram Hd Hfr Hg Hn Hv. unfold vm_map_ram. rewrite (caller_ok_krnl _ _ _ Hc).
  wp_steps. rewrite (proj2 (Z.eqb_neq _ _)) by done.
  wp_step. eapply wp_mono; [apply (alloc_pages_range_spec c n d s); try done; apply Hc|].
  intros [r l] s1 [[Hr Hall]|[[= -> ->] Hnone]]; cbn iota beta.
  - simpl in Hr, Hall. subst r. rewrite i32_small by lia. cbn [Z.ltb Z.compare andb Z.eqb].
    pose proof Hall as (l2 & h & Hlen & Hl & Hh' & ->).
    assert (Hc1 : caller_ok c (at_dev (k_mram (os s)) (set_fps l2 (rev l ++ used_fp_list d) d) s h) m)
      by (destruct Hc; by split).
    wp_step. eapply wp_mono.
    { apply (vmap_page_range_spec c m n g0 l rg); auto; [by apply pt_wf_at_dev|lia]. }
    intros [r rg'] s2 ([= -> ->] & Hwf2 & Hu). wp_steps. cbn [Z.ltb Z.compare].
    wp_steps. rewrite decide_True by (rewrite Hl, length_app; lia).
    split; [by rewrite u64_small by lia|]. split; [done|]. exists l. eauto.
  - change (i32 (u64 (-3000))) with (-3000). cbn [Z.ltb Z.compare andb Z.eqb negb Pos.eqb].
    wp_steps. rewrite decide_False; [done|].
    destruct Hnone as (_ & _ & _ & _ & _ & _ & _ & [Hlt|Hne]); [lia|done].
Qed.

(** The results of [vm_map_ram] are never negative: the failure code is
    2^64 - 1. *)
Lemma vm_map_ram_result c astart aend mapstart n rg s r rg' s' :
  vm_map_ram c astart aend mapstart n rg s = Ok (r, rg', s') -> 0 <= r < 2 ^ 64.
Proof.
  assert (Hw : forall s, match vm_map_ram c astart aend mapstart n rg s with
                         | Ok ((r, _), _) => 0 <= r < 2 ^ 64 | _ => True end).
  { clear. intros s. unfold vm_map_ram, bind, gets, ret, modify.
    repeat match goal with
    | |- context [match ?x with _ => _ end] =>
        lazymatch x with context [match _ with _ => _ end] => fail | _ => destruct x end
    end; try exact I; apply u64_range. }
  intros H. specialize (Hw s). by rewrite H in Hw.
Qed.

(** ** Properties *)

(** C24 (functional): entry updates.  With enough host memory, on any caller
    and any of the 2^45 pages, [pte_set_fpn] and [pte_set_swap] succeed -
    growing the tree where needed -; the entry then reads back through
    [pte_get_entry] as resident in the frame, or swapped to the slot, given,
    reduced to the 13 (21) bits of the field; and no entry of any other page
    of any address space changes. *)
Theorem entry_update_isolated c m pgn x s :
  pt_wf s -> caller_ok c s m -> valid_pgn pgn -> s_host s = [] -> 0 <= x ->
  wp (let* r := pte_set_fpn (Some c) pgn x in let* v := pte_get_entry (Some c) pgn in ret (r, view v))
     (fun r s' => r = (0, Resident (x mod 2 ^ 13)) /\ pt_wf s' /\
        forall q g, (q, g) <> (p_mm c, pgn) -> pte_of s' q g = pte_of s q g) s /\
  wp (let* r := pte_set_swap (Some c) pgn 0 x in let* v := pte_get_entry (Some c) pgn in ret (r, view v))
     (fun r s' => r = (0, Swapped (x mod 2 ^ 21)) /\ pt_wf s' /\
        forall q g, (q, g) <> (p_mm c, pgn) -> pte_of s' q g = pte_of s q g) s.
Proof.
  intros Hwf Hc Hv Hh Hx.
  assert (Hread : forall w s1, pt_wf s1 -> pte_upd (p_mm c) pgn w s s1 ->
    wp (let* v := pte_get_entry (Some c) pgn in ret (0, view v))
       (fun r s' => r = (0, view w) /\ pt_wf s' /\
          forall q g, (q, g) <> (p_mm c, pgn) -> pte_of s' q g = pte_of s q g) s1).
  { intros w s1 Hwf1 Hu. destruct (pte_upd_mms_Some _ _ _ _ _ _ _ Hu (co_desc _ _ _ Hc)) as (m1 & Hm1 & _).
    wp_step. eapply wp_mono; [apply (pte_get_entry_spec c m1); [done|by destruct Hc|done]|].
    intros r s2 (-> & Hwf2 & Hst & _). wp_steps. split; [by rewrite view_u32, (pu_same _ _ _ _ _ Hu)|].
    split; [done|]. intros q g Hq. by rewrite (ps_ptes _ _ Hst), (pu_other _ _ _ _ _ Hu). }
  split; wp_step.
  - eapply wp_mono; [by apply (pte_set_fpn_spec c m)|].
    intros r s1 [Hwf1 [[-> Hu]|(_ & _ & Hne)]]; [|done]. rewrite <- (view_fpn_val (pte_of s (p_mm c) pgn)) by done.
    by apply Hread.
  - eapply wp_mono; [by apply (pte_set_swap_spec c m)|].
    intros r s1 [Hwf1 [[-> Hu]|(_ & _ & Hne)]]; [|done]. rewrite <- (view_swap_val (pte_of s (p_mm c) pgn) 0) by done.
    by apply Hread.
Qed.

(** C29 (error): [alloc_pages_range] is all or nothing.  For every pattern of
    host allocation failures it either returns 0 with the first [n] frames of
    the free list, in order, now in use, or it returns -3000 with an empty
    list and exactly the frames that were free and in use before; the failure
    happens only when fewer than [n] frames are free or the host fails.
    Nothing else of the state changes. *)
Theorem alloc_pages_all_or_nothing c n d s :
  p_krnl c <> NULL -> k_mram (os s) <> NULL -> devs s !! k_mram (os s) = Some d ->
  Forall (fun f => 0 <= f < 2 ^ 31) (frames_of d) ->
  wp (alloc_pages_range (Some c) n []) (fun r s' =>
    (r = (0, take (Z.to_nat n) (free_fp_list d)) /\ (Z.to_nat n <= length (free_fp_list d))%nat /\
       exists h, s' = at_dev (k_mram (os s))
                        (set_fps (drop (Z.to_nat n) (free_fp_list d))
                                 (rev (take (Z.to_nat n) (free_fp_list d)) ++ used_fp_list d) d) s h) \/
    (r = (u64 (-3000), []) /\ ((length (free_fp_list d) < Z.to_nat n)%nat \/ s_host s <> []) /\
       exists free used h, free ≡ₚ free_fp_list d /\ used ≡ₚ used_fp_list d /\
         s' = at_dev (k_mram (os s)) (set_fps free used d) s h)) s.
Proof.
  intros Hk Hram Hd Hfr. eapply wp_mono; [by apply (alloc_pages_range_spec c n d s)|].
  intros [r l] s' [[Hr (l2 & h & Hlen & Hfree & _ & ->)]|[[= -> ->] (free & used & h & Hf & Hu & _ & -> & Hw)]].
  - left. simpl in Hr, Hlen, Hfree. subst r. rewrite Hfree, <- Hlen, take_app_length, drop_app_length.
    split; [done|]. split; [rewrite length_app; lia|]. by exists h.
  - right. split; [done|]. split; [done|]. by exists free, used, h.
Qed.

(** [__swap_cp_page] copies a page.  Between two different
    random-access devices, and frames that lie within them, all 4096 bytes of
    the source frame are copied to the target frame; every other byte of
    every device is as before. *)
Theorem swap_copies_page src sf dst df ds dd s :
  src <> NULL -> dst <> NULL -> src <> dst ->
  devs s !! src = Some ds -> devs s !! dst = Some dd -> dev_ok ds -> dev_ok dd ->
  fits ds sf -> fits dd df ->
  wp (__swap_cp_page src sf dst df) (fun r s' => r = 0 /\ exists dd',
    s' = at_dev dst dd' s (s_host s) /\ free_fp_list dd' = free_fp_list dd /\
    used_fp_list dd' = used_fp_list dd /\
    (forall o, 0 <= o < PAGING64_PAGESZ -> fbyte dd' df o = fbyte ds sf o) /\
    (forall f o, f <> df -> 0 <= o < PAGING64_PAGESZ -> fbyte dd' f o = fbyte dd f o)) s.
Proof.
  intros. eapply wp_mono; [by eapply swap_cp_page_spec|]. intros r s' (-> & dd' & [[st ->] Hf Ho] & ->).
  split; [done|]. eexists. by split_and!.
Qed.
