(* ===== verification/MmVm.v ===== *)
(** * Virtual memory areas: [src/mm-vm.c]

    A [vm_area_struct *] into the chain [mm->mmap] is the position of the
    area in the list. *)

From S2P Require Import Prelude Pte MemPhy Kernel PageTable Mm64.

(** The walk of [get_vma_by_num]: ids are read as [int]. *)
Fixpoint find_vma (pvma : list vm_area_struct) (vmaid : Z) : option nat :=
  match pvma with
  | [] => None
  | v :: vm_next => if i32 (vm_id v) <? vmaid then S <$> find_vma vm_next vmaid else Some O
  end.

Definition get_vma_by_num (mm vmaid : Z) : M sys (option nat) :=
  if mm =? NULL then ret None
  else let* m := get_mm mm in ret (find_vma (mmap m) vmaid).

(** Access to an area found by [get_vma_by_num]. *)
Definition get_vma (mm : Z) (i : nat) : M sys vm_area_struct :=
  let* m := get_mm mm in from_opt (mmap m !! i).
Definition upd_vma (mm : Z) (i : nat) (f : vm_area_struct -> vm_area_struct) : M sys unit :=
  upd_mm mm (fun m => set_mmap (alter f i (mmap m)) m).

Definition set_limits (e b : Z) (v : vm_area_struct) : vm_area_struct :=
  mk_vma (vm_id v) (vm_start v) e b (vm_freerg_list v).

Definition __mm_swap_page (c : pcb_t) (vicfpn swpfpn : Z) : M sys Z :=
  let* k := krnl_of c in
  let* _ := __swap_cp_page (k_mram k) vicfpn (k_active_mswp k) swpfpn in
  ret 0.

Definition get_vm_area_node_at_brk (caller : option pcb_t) (vmaid size alignedsz : Z)
    : M sys (option vm_rg_struct) :=
  match caller with
  | None => ret None
  | Some c =>
      if (p_krnl c =? NULL) || (p_mm c =? NULL) then ret None
      else
        let* cur_vma := get_vma_by_num (p_mm c) vmaid in
        match cur_vma with
        | None => ret None
        | Some i =>
            let* ok := malloc in
            if negb ok then ret None
            else
              let* cur_vma := get_vma (p_mm c) i in
              ret (Some (mk_rg (Some vmaid) (sbrk cur_vma) (u64 (sbrk cur_vma + size))))
        end
  end.

(** The test of the loop of [validate_overlap_vm_area]; [vm_id != vmaid]
    compares as [unsigned long]. *)
Definition overlaps (vmaid vmastart vmaend : Z) (vma : vm_area_struct) : bool :=
  negb (vm_id vma =? u64 vmaid) && ((vmastart <? vm_end vma) && (vm_start vma <? vmaend)).

Fixpoint any_overlap (vmaid vmastart vmaend : Z) (vma : list vm_area_struct) : bool :=
  match vma with
  | [] => false
  | v :: vm_next => if overlaps vmaid vmastart vmaend v then true
                    else any_overlap vmaid vmastart vmaend vm_next
  end.

Definition validate_overlap_vm_area (caller : option pcb_t) (vmaid vmastart vmaend : Z) : M sys Z :=
  match caller with
  | None => ret (-1)
  | Some c =>
      if (p_krnl c =? NULL) || (p_mm c =? NULL) then ret (-1)
      else if vmaend <=? vmastart then ret (-1)
      else
        let* m := get_mm (p_mm c) in
        match mmap m with
        | [] => ret (-1)
        | vma => ret (if any_overlap vmaid vmastart vmaend vma then -1 else 0)
        end
  end.

(** [PAGING64_PAGE_ALIGNSZ] on an [addr_t]. *)
Definition PAGING64_PAGE_ALIGNSZ (sz : Z) : Z :=
  u64 (u64 (sz + PAGING64_PAGESZ - 1) / PAGING64_PAGESZ * PAGING64_PAGESZ).

Definition inc_vma_limit (caller : option pcb_t) (vmaid inc_sz : Z) : M sys Z :=
  match caller with
  | None => ret (-1)
  | Some c =>
      if (p_krnl c =? NULL) || (p_mm c =? NULL) then ret (-1)
      else if inc_sz =? 0 then ret 0
      else
        let* cur_vma := get_vma_by_num (p_mm c) vmaid in
        match cur_vma with
        | None => ret (-1)
        | Some i =>
            let inc_amt := PAGING64_PAGE_ALIGNSZ inc_sz in
            let incnumpage := i32 (inc_amt / PAGING64_PAGESZ) in
            let* v := get_vma (p_mm c) i in
            let old_end := vm_end v in
            let new_end := u64 (old_end + inc_amt) in
            let* ov := validate_overlap_vm_area caller vmaid old_end new_end in
            if ov <? 0 then ret (-1)
            else
              let* ok := malloc in
              if negb ok then ret (-1)
              else
                let newrg := mk_rg (Some vmaid) old_end new_end in
                upd_vma (p_mm c) i (fun v => set_limits new_end (u64 (sbrk v + inc_sz)) v) ;;;
                let* (r, _) := vm_map_ram caller old_end new_end old_end incnumpage (Some newrg) in
                if r <? 0 then
                  upd_vma (p_mm c) i (fun v => set_limits old_end (u64 (sbrk v - inc_sz)) v) ;;;
                  ret (-1)
                else ret 0
        end
  end.

(** ** Specifications *)

Lemma page_alignsz_spec sz :
  0 < sz <= 2 ^ 63 ->
  PAGING64_PAGE_ALIGNSZ sz = (sz + 4095) / 4096 * 4096 /\
  sz <= PAGING64_PAGE_ALIGNSZ sz < sz + 4096.
Proof.
  intros H. unfold PAGING64_PAGE_ALIGNSZ, PAGING64_PAGESZ. rewrite (u64_small (sz + 4096 - 1)) by lia.
  replace (sz + 4096 - 1) with (sz + 4095) by lia. rewrite u64_small by lia. lia.
Qed.

Lemma find_vma_lookup l vmaid i : find_vma l vmaid = Some i -> exists v, l !! i = Some v.
Proof.
  revert i. induction l as [|v l IH]; intros i H; simpl in H; [done|].
  destruct (i32 (vm_id v) <? vmaid); [|simplify_eq; by exists v].
  apply fmap_Some in H as (j & Hj & ->). destruct (IH _ Hj) as [w Hw]. by exists w.
Qed.

Lemma wp_get_vma_by_num c m vmaid (Q : option nat -> sys -> Prop) s :
  caller_ok c s m -> Q (find_vma (mmap m) vmaid) s -> wp (get_vma_by_num (p_mm c) vmaid) Q s.
Proof.
  intros [_ Hp Hm] HQ. unfold get_vma_by_num. rewrite (proj2 (Z.eqb_neq _ _)) by done.
  wp_step. eapply wp_get_mm; [done|]. by wp_steps.
Qed.

Lemma wp_get_vma p i m v (Q : vm_area_struct -> sys -> Prop) s :
  mms s !! p = Some m -> mmap m !! i = Some v -> Q v s -> wp (get_vma p i) Q s.
Proof. intros Hm Hv HQ. unfold get_vma. wp_step. eapply wp_get_mm; [done|]. by eapply wp_from_opt. Qed.

Lemma wp_upd_vma p i f m (Q : unit -> sys -> Prop) s :
  mms s !! p = Some m ->
  Q tt (set_mms (<[p := set_mmap (alter f i (mmap m)) m]> (mms s)) s) -> wp (upd_vma p i f) Q s.
Proof. intros Hm HQ. unfold upd_vma. by eapply wp_upd_mm. Qed.

Lemma any_overlap_spec vmaid a b l :
  any_overlap vmaid a b l = existsb (overlaps vmaid a b) l.
Proof. induction l as [|v l IH]; simpl; [done|]. by destruct (overlaps vmaid a b v). Qed.

(** The range [a, b) is clear of area [v]: no address in common; an area with
    no addresses does not start strictly inside the range. *)
Definition clear_of (a b : Z) (v : vm_area_struct) : Prop :=
  if vm_start v <? vm_end v then forall x, a <= x < b -> ~ vm_start v <= x < vm_end v
  else ~ a < vm_start v < b.

Lemma overlaps_false vmaid a b v :
  a < b -> vm_start v <= vm_end v ->
  overlaps vmaid a b v = false <-> vm_id v = u64 vmaid \/ clear_of a b v.
Proof.
  intros Hab Hv. unfold overlaps, clear_of. destruct (Z.eqb_spec (vm_id v) (u64 vmaid)) as [|Hne]; simpl.
  { split; [by left|done]. }
  rewrite andb_false_iff, Z.ltb_ge, Z.ltb_ge. destruct (Z.ltb_spec (vm_start v) (vm_end v)).
  - split; [intros Ho; right; intros x; lia|]. intros [?|Ho]; [done|].
    destruct (Z.le_gt_cases (vm_end v) a); [by left|]. destruct (Z.le_gt_cases b (vm_start v)); [by right|].
    exfalso. apply (Ho (Z.max a (vm_start v))); lia.
  - split; [intros Ho; right; lia|]. intros [?|Ho]; [done|]. lia.
Qed.

Lemma validate_overlap_ok c m vmaid a b (Q : Z -> sys -> Prop) s :
  caller_ok c s m -> a < b -> mmap m <> [] ->
  Q (if any_overlap vmaid a b (mmap m) then -1 else 0) s ->
  wp (validate_overlap_vm_area (Some c) vmaid a b) Q s.
Proof.
  intros [Hk Hp Hm] Hab Hne HQ. unfold validate_overlap_vm_area.
  rewrite (proj2 (Z.eqb_neq (p_krnl c) _)), (proj2 (Z.eqb_neq (p_mm c) _)) by done.
  replace (b <=? a) with false by lia. wp_simpl. wp_step. eapply wp_get_mm; [done|].
  destruct (mmap m); [done|]. by wp_steps.
Qed.

(** The descriptor with area [i] grown by [n] pages, break moved by [sz]. *)
Definition grow_area (i : nat) (e n sz : Z) (m : mm_struct) : mm_struct :=
  set_mmap (alter (fun v => set_limits ((e + n) * PAGING64_PAGESZ) (u64 (sbrk v + sz)) v) i (mmap m)) m.

Definition with_mm (p : Z) (m : mm_struct) (s : sys) : sys := set_mms (<[p := m]> (mms s)) s.

(** Growing an area by [sz] bytes, [n] pages from page [e]: the area always
    grows; its pages are mapped if RAM has [n] free frames, and otherwise
    none is. *)
Lemma inc_vma_limit_spec c m vmaid sz i v e n d s :
  pt_wf s -> caller_ok c s m -> s_host s = [] ->
  k_mram (os s) <> NULL -> devs s !! k_mram (os s) = Some d ->
  Forall (fun f => 0 <= f < 2 ^ 31) (frames_of d) ->
  find_vma (mmap m) vmaid = Some i -> mmap m !! i = Some v -> vm_end v = e * PAGING64_PAGESZ ->
  0 < sz -> n = (sz + 4095) / 4096 -> 0 <= e -> e + n < 2 ^ 19 ->
  any_overlap vmaid (vm_end v) (vm_end v + n * PAGING64_PAGESZ) (mmap m) = false ->
  let s1 := with_mm (p_mm c) (grow_area i e n sz m) s in
  wp (inc_vma_limit (Some c) vmaid sz)
     (fun r s' => r = 0 /\
        if decide (n <= Z.of_nat (length (free_fp_list d))) then
          pt_wf s' /\ exists l s2, alloc_all (k_mram (os s)) d (Z.to_nat n) s1 l s2 /\
            vm_upd (p_mm c) (queue_pages e (Z.to_nat n)) (mapped_ptes (p_mm c) e l (pte_of s)) s2 s'
        else alloc_none (k_mram (os s)) d (Z.to_nat n) s1 s') s.
Proof.
  intros Hwf Hc Hh Hram Hd Hfr Hfind Hv He Hsz Hn He0 Hlim Hov s1. pose proof Hc as [Hk Hp Hm].
  assert (Hszb : 0 < sz <= 2 ^ 63) by lia. destruct (page_alignsz_spec sz Hszb) as [Hal _].
  unfold inc_vma_limit. rewrite (proj2 (Z.eqb_neq (p_krnl c) _)), (proj2 (Z.eqb_neq (p_mm c) _)) by done.
  replace (sz =? 0) with false by lia. wp_simpl. wp_step. eapply wp_get_vma_by_num; [done|].
  rewrite Hfind. wp_step. eapply wp_get_vma; [done|done|]. rewrite Hal, <- Hn, He. unfold PAGING64_PAGESZ in *.
  rewrite Z.div_mul by lia. rewrite (i32_small n), (u64_small (e * 4096 + n * 4096)) by lia.
  wp_step. eapply validate_overlap_ok; [done|lia|by intros Hnil; rewrite Hnil in Hv|].
  rewrite <- He, Hov. cbn [Z.ltb Z.compare]. wp_step. apply wp_malloc_ok; [done|]. wp_simpl.
  wp_step. eapply wp_upd_vma; [done|].
  destruct (set_mm_desc (p_mm c) m (grow_area i e n sz m) s) as [Hwf1 Hpt1]; [done..|].
  fold (with_mm (p_mm c) (grow_area i e n sz m) s) in Hwf1, Hpt1. fold s1 in Hwf1, Hpt1.
  replace (set_mms _ s) with s1.
  2: { unfold s1, with_mm, grow_area, PAGING64_PAGESZ. rewrite He.
       replace ((e + n) * 4096) with (e * 4096 + n * 4096) by lia. done. }
  assert (Hc1 : caller_ok c s1 (grow_area i e n sz m)).
  { split; [done|done|]. unfold s1, with_mm. simpl. by rewrite lookup_insert_eq. }
  wp_step. rewrite He. change 4096 with PAGING64_PAGESZ. eapply wp_mono.
  { eapply (vm_map_ram_spec c _ n e d); try done; lia. }
  intros [r rg] s2 Hpost. change (os s1) with (os s) in Hpost. destruct (decide _) as [Hle|Hgt].
  - destruct Hpost as ([= -> ->] & Hwf2 & l & s3 & Hall & Hu). cbn [Z.ltb Z.compare]. wp_steps.
    split; [done|]. split; [done|]. exists l, s3. split; [done|].
    destruct Hu. split; try done. intros q g. rewrite vu_ptes. unfold mapped_ptes. by rewrite !Hpt1.
  - destruct Hpost as ([= -> ->] & Hnone). replace (u64 (-1) <? 0) with false by done. by wp_steps.
Qed.

(** ** Properties *)

(** C39 (equivalence): the overlap check.  [validate_overlap_vm_area] returns 0
    exactly when the process has an area, the range is not empty or reversed,
    and the range is clear of every area of another id: it has no address in
    common with an area that has addresses, and an area without addresses -
    as every process has after [init_mm] - does not start strictly inside it;
    otherwise it returns -1.  The state is not changed.  The areas may have no
    addresses but are not reversed. *)
Theorem overlap_check_exact c m vmaid a b s :
  caller_ok c s m -> Forall (fun v => vm_start v <= vm_end v) (mmap m) ->
  wp (validate_overlap_vm_area (Some c) vmaid a b) (fun r s' => s' = s /\ (r = 0 \/ r = -1) /\
    (r = 0 <-> mmap m <> [] /\ a < b /\ forall v, v ∈ mmap m -> vm_id v <> u64 vmaid -> clear_of a b v)) s.
Proof.
  intros Hc Hall. destruct (Z.ltb_spec a b) as [Hab|Hab].
  - destruct (decide (mmap m = [])) as [Hm|Hne].
    + destruct Hc as [Hk Hp Hmm]. unfold validate_overlap_vm_area.
      rewrite (proj2 (Z.eqb_neq (p_krnl c) _)), (proj2 (Z.eqb_neq (p_mm c) _)) by done.
      replace (b <=? a) with false by lia. wp_simpl. wp_step. eapply wp_get_mm; [done|]. rewrite Hm. wp_steps.
      split; [done|]. split; [by right|]. split; [done|by intros [? _]].
    + eapply validate_overlap_ok; [done..|]. split; [done|]. rewrite any_overlap_spec.
      rewrite Forall_forall in Hall. split; [destruct (existsb _ _); auto|].
      assert (Hex : existsb (overlaps vmaid a b) (mmap m) = false <->
                    forall v, v ∈ mmap m -> vm_id v <> u64 vmaid -> clear_of a b v).
      { rewrite <- not_true_iff_false, existsb_exists. split.
        - intros Hn v Hin Hid. assert (Ho : overlaps vmaid a b v = false).
          { apply not_true_iff_false. intros Ho. apply Hn. exists v. split; [by apply list_elem_of_In|done]. }
          apply overlaps_false in Ho as [?|?]; [done|done|done|by apply Hall].
        - intros H (v & Hin%list_elem_of_In & Ho). assert (overlaps vmaid a b v = false); [|congruence].
          apply overlaps_false; [done|by apply Hall|]. destruct (decide (vm_id v = u64 vmaid)); [by left|right; by apply H]. }
      rewrite <- Hex. destruct (existsb _ _); naive_solver.
  - destruct Hc as [Hk Hp Hm]. unfold validate_overlap_vm_area.
    rewrite (proj2 (Z.eqb_neq (p_krnl c) _)), (proj2 (Z.eqb_neq (p_mm c) _)) by done.
    replace (b <=? a) with true by lia. wp_simpl. wp_step. split; [done|]. split; [by right|].
    split; [done|]. intros (_ & ? & _). lia.
Qed.

(** C37 (error): growing an area when RAM is short.  With no host allocation
    failing and the area staying below 2 GiB, [inc_vma_limit] on an
    area whose new range is free of overlaps returns 0 in both cases.  With
    enough free frames every new page is mapped to a free frame; with fewer,
    [vm_map_ram] fails with 2^64 - 1, which the test [< 0] on an unsigned
    value does not notice: the rollback is skipped, the area keeps its new
    limit with no new page mapped, and the frames are all free again. *)
Theorem inc_vma_limit_ignores_failure c m vmaid sz i v e n d s :
  pt_wf s -> caller_ok c s m -> s_host s = [] ->
  k_mram (os s) <> NULL -> devs s !! k_mram (os s) = Some d ->
  Forall (fun f => 0 <= f < 2 ^ 31) (frames_of d) ->
  find_vma (mmap m) vmaid = Some i -> mmap m !! i = Some v -> vm_end v = e * PAGING64_PAGESZ ->
  0 < sz -> n = (sz + 4095) / 4096 -> 0 <= e -> e + n < 2 ^ 19 ->
  any_overlap vmaid (vm_end v) (vm_end v + n * PAGING64_PAGESZ) (mmap m) = false ->
  wp (inc_vma_limit (Some c) vmaid sz) (fun r s' => r = 0 /\
    (exists m' v', mms s' !! p_mm c = Some m' /\ mmap m' !! i = Some v' /\
       vm_end v' = (e + n) * PAGING64_PAGESZ /\ sbrk v' = u64 (sbrk v + sz)) /\
    if decide (n <= Z.of_nat (length (free_fp_list d))) then
      forall k f, 0 <= k < n -> arr_get (free_fp_list d) k = Some f ->
        pte_of s' (p_mm c) (e + k) = pte_fpn_val (pte_of s (p_mm c) (e + k)) f
    else
      (forall q g, pte_of s' q g = pte_of s q g) /\
      exists d', devs s' !! k_mram (os s) = Some d' /\ free_fp_list d' ≡ₚ free_fp_list d /\
                 used_fp_list d' ≡ₚ used_fp_list d) s.
Proof.
  intros Hwf Hc Hh Hram Hd Hfr Hfind Hv He Hsz Hn He0 Hlim Hov. pose proof Hc as [_ _ Hm].
  eapply wp_mono; [by eapply (inc_vma_limit_spec c m vmaid sz i v e n d)|].
  destruct (set_mm_desc (p_mm c) m (grow_area i e n sz m) s) as [_ Hpt1]; [done..|].
  intros r s' [-> Hpost]. split; [done|]. set (mg := grow_area i e n sz m) in *.
  set (s1 := with_mm (p_mm c) mg s) in *.
  assert (Hm1 : mms s1 !! p_mm c = Some mg) by (simpl; by rewrite lookup_insert_eq).
  assert (Hmv : mmap mg !! i = Some (set_limits ((e + n) * PAGING64_PAGESZ) (u64 (sbrk v + sz)) v)).
  { unfold mg, grow_area. simpl. by rewrite list_lookup_alter_eq, Hv. }
  destruct (decide _) as [Hle|Hgt].
  - destruct Hpost as (_ & l & s2 & (l2 & h & Hlen & Hfl & _ & ->) & Hu). split.
    + pose proof (vu_mms _ _ _ _ _ Hu (p_mm c)) as Hq. rewrite decide_True in Hq by done.
      change (mms (at_dev _ _ s1 h)) with (mms s1) in Hq. rewrite Hm1 in Hq.
      destruct (mms s' !! p_mm c) as [m'|]; [|done]. simpl in Hq. apply (inj Some) in Hq.
      exists m', (set_limits ((e + n) * PAGING64_PAGESZ) (u64 (sbrk v + sz)) v). split; [done|]. split; [|done].
      transitivity (mmap (queue_pages e (Z.to_nat n) mg) !! i); [|exact Hmv]. f_equal. by injection Hq.
    + intros k f Hk Hf. rewrite (vu_ptes _ _ _ _ _ Hu). unfold mapped_ptes. rewrite decide_True by done.
      replace (e + k - e) with k by lia. apply arr_get_Some in Hf as [_ Hf].
      rewrite Hfl, lookup_app_l in Hf by lia.
      by rewrite (proj2 (arr_get_Some l k f)) by (split; [lia|done]).
  - destruct Hpost as (free & used & h & Hf & Hu & _ & -> & _). split; [|split].
    + exists mg, (set_limits ((e + n) * PAGING64_PAGESZ) (u64 (sbrk v + sz)) v). done.
    + exact Hpt1.
    + eexists. split; [simpl; by rewrite lookup_insert_eq|done].
Qed.
