(* ===== verification/Syscall.v ===== *)
(** * System calls: [src/syscall.c], [src/sys_mem.c], [src/sys_listsyscall.c],
    [src/libstd.c]

    [sys_mem.c] includes [os-mm.h] before [MM64] is defined, so in that file
    [addr_t] is [uint32_t]: the arguments it passes on are cut to 32 bits. *)

From S2P Require Import Prelude Pte MemPhy Kernel PageTable Mm64 MmVm.

Definition SYSMEM_MAP_OP : Z := 1.
Definition SYSMEM_INC_OP : Z := 2.
Definition SYSMEM_SWP_OP : Z := 3.
Definition SYSMEM_IO_READ : Z := 4.
Definition SYSMEM_IO_WRITE : Z := 5.

(** The argument registers in use; [a3] is [None] when indeterminate. *)
Record sc_regs := mk_regs { a1 : Z; a2 : Z; a3 : option Z }.

(** [*krnl] *)
Definition deref_krnl (krnl : Z) : M sys krnl_t := if krnl =? NULL then undef else gets os.
(** [*proc] *)
Definition get_pcb (p : Z) : M sys pcb_t :=
  let* s := gets (fun s => s) in from_opt (procs s !! p).

(** The test lets [pid = PID_MAX] through, one past the end of the table. *)
Definition get_proc_from_PID (krnl pid : Z) : M sys Z :=
  if (pid <? 0) || (PID_MAX <? pid) then ret NULL
  else let* k := deref_krnl krnl in from_opt (arr_get (proc_table k) pid).

(** The [switch] of [__sys_memmap]. *)
Definition memmap_op (krnl : Z) (c : pcb_t) (regs : sc_regs) : M sys (Z * sc_regs) :=
  let memop := i32 (a1 regs) in
  let* k := deref_krnl krnl in
  if memop =? SYSMEM_MAP_OP then
    let* x := from_opt (a3 regs) in
    vmap_pgd_memset (Some c) (u32 (a2 regs)) (i32 x) ;;; ret (0, regs)
  else if memop =? SYSMEM_INC_OP then
    let* x := from_opt (a3 regs) in
    inc_vma_limit (Some c) (i32 (a2 regs)) (u32 x) ;;; ret (0, regs)
  else if memop =? SYSMEM_SWP_OP then
    let* x := from_opt (a3 regs) in
    __mm_swap_page c (u32 (a2 regs)) (u32 x) ;;; ret (0, regs)
  else if memop =? SYSMEM_IO_READ then
    let* (_, value) := MEMPHY_read (k_mram k) (u32 (a2 regs)) in
    ret (0, mk_regs (a1 regs) (a2 regs) (u64 <$> value))
  else if memop =? SYSMEM_IO_WRITE then
    let* x := from_opt (a3 regs) in
    MEMPHY_write (k_mram k) (u32 (a2 regs)) (i8 x) ;;; ret (0, regs)
  else ret (0, regs).

Definition __sys_memmap (krnl pid : Z) (regs : sc_regs) : M sys (Z * sc_regs) :=
  let* caller := get_proc_from_PID krnl pid in
  if caller =? NULL then ret (-1, regs)
  else
    let* c := get_pcb caller in
    memmap_op krnl c regs.

(** [__sys_listsyscall] only prints the names. *)
Definition __sys_listsyscall (krnl pid : Z) (regs : sc_regs) : M sys (Z * sc_regs) := ret (0, regs).
Definition __sys_ni_syscall (krnl : Z) (regs : sc_regs) : M sys (Z * sc_regs) := ret (0, regs).

(** The cases [syscalltbl.sh] generates from [syscall.tbl]. *)
Definition _syscall (krnl pid nr : Z) (regs : sc_regs) : M sys (Z * sc_regs) :=
  if nr =? 0 then __sys_listsyscall krnl pid regs
  else if nr =? 17 then __sys_memmap krnl pid regs
  else __sys_ni_syscall krnl regs.

Definition libsyscall (caller syscall_idx a1 a2 a3 : Z) : M sys Z :=
  let* c := get_pcb caller in
  let* (r, _) := _syscall (p_krnl c) (pid c) syscall_idx (mk_regs a1 a2 (Some a3)) in
  ret r.

(** [c] is the process its pid is registered for. *)
Definition registered (c : pcb_t) (s : sys) : Prop :=
  0 <= pid c < PID_MAX /\
  exists ptr, arr_get (proc_table (os s)) (pid c) = Some ptr /\ ptr <> NULL /\ procs s !! ptr = Some c.

(** A system call of a registered caller is served for this caller. *)
Lemma wp_memmap c regs (Q : Z * sc_regs -> sys -> Prop) s :
  p_krnl c <> NULL -> registered c s -> wp (memmap_op (p_krnl c) c regs) Q s ->
  wp (_syscall (p_krnl c) (pid c) 17 regs) Q s.
Proof.
  intros Hk (Hpid & ptr & Ht & Hn & Hp) HQ. unfold _syscall. cbn [Z.eqb Pos.eqb].
  unfold __sys_memmap, get_proc_from_PID. unfold PID_MAX in *.
  replace ((pid c <? 0) || (255 <? pid c)) with false by lia.
  wp_steps. unfold deref_krnl. rewrite (proj2 (Z.eqb_neq (p_krnl c) _)) by done. wp_steps.
  rewrite (proj2 (Z.eqb_neq ptr _)) by done. unfold get_pcb. wp_steps. exact HQ.
Qed.

Lemma wp_deref_krnl p (Q : krnl_t -> sys -> Prop) s :
  p <> NULL -> Q (os s) s -> wp (deref_krnl p) Q s.
Proof. intros Hp HQ. unfold deref_krnl. rewrite (proj2 (Z.eqb_neq _ _)) by done. by wp_steps. Qed.
