(* ===== verification/LibMem.v ===== *)
(** * User memory: [src/libmem.c], first part

    Regions of a process, demand paging with a FIFO of resident pages, and
    reads and writes through them.  A function whose [caller] may be NULL
    takes an [option pcb_t]; the [lib*] entry points take the pointer. *)

From S2P Require Import Prelude Pte MemPhy Kernel PageTable Mm64 MmVm Syscall.

(** ** Regions *)

(** [&mm->symrgtbl[i]] *)
Definition get_symrg (mm i : Z) : M sys vm_rg_struct :=
  let* m := get_mm mm in from_opt (arr_get (symrgtbl m) i).
Definition upd_symrg (mm i : Z) (f : vm_rg_struct -> vm_rg_struct) : M sys unit :=
  let* m := get_mm mm in
  let* rg := from_opt (arr_get (symrgtbl m) i) in
  let* t := from_opt (arr_set (symrgtbl m) i (f rg)) in
  upd_mm mm (set_symrgtbl t).
Definition set_range (a b : Z) (rg : vm_rg_struct) : vm_rg_struct := mk_rg (rg_vmaid rg) a b.

(** The new region goes to the free list of the first area. *)
Definition enlist_vm_freerg_list (mm : Z) (rg_elmt : vm_rg_struct) : M sys Z :=
  let* v := get_vma mm 0 in
  if rg_end rg_elmt <=? rg_start rg_elmt then ret (-1)
  else
    upd_vma mm 0 (fun v => mk_vma (vm_id v) (vm_start v) (vm_end v) (sbrk v)
                                  (rg_elmt :: vm_freerg_list v)) ;;;
    ret 0.

(** [Some i] stands for [&mm->symrgtbl[i]]; [i = 30] is one past the table. *)
Definition get_symrg_byid (rgid : Z) : option Z :=
  if (rgid <? 0) || (PAGING_MAX_SYMTBL_SZ <? rgid) then None else Some rgid.

(** The search of [get_free_vmrg_area]: the range taken and the list left.
    A region used up is overwritten by its successor, which is freed; the
    last one stays as an empty region. *)
Fixpoint find_fit (size : Z) (rgit : list vm_rg_struct) : option (Z * Z * list vm_rg_struct) :=
  match rgit with
  | [] => None
  | rg :: rg_next =>
      let e := u64 (rg_start rg + size) in
      if e <=? rg_end rg then
        Some (rg_start rg, e,
              if e <? rg_end rg then set_range e (rg_end rg) rg :: rg_next
              else match rg_next with
                   | nextrg :: rest => set_range (rg_start nextrg) (rg_end nextrg) rg :: rest
                   | [] => [set_range (rg_end rg) (rg_end rg) rg]
                   end)
      else
        match find_fit size rg_next with
        | Some (a, b, l) => Some (a, b, rg :: l)
        | None => None
        end
  end.

(** [size] is an [int]; [Some (a, b)] is the return code 0 with
    [newrg = [a, b)].  A region that starts at 2^64 - 1 is taken for none. *)
Definition get_free_vmrg_area (c : pcb_t) (vmaid size : Z) : M sys (option (Z * Z)) :=
  let* cur_vma := get_vma_by_num (p_mm c) vmaid in
  let* i := from_opt cur_vma in
  let* v := get_vma (p_mm c) i in
  match vm_freerg_list v with
  | [] => ret None
  | rgs =>
      match find_fit size rgs with
      | Some (a, b, rgs) =>
          upd_vma (p_mm c) i (fun v => mk_vma (vm_id v) (vm_start v) (vm_end v) (sbrk v) rgs) ;;;
          ret (if a =? u64 (-1) then None else Some (a, b))
      | None => ret None
      end
  end.

(** The part of [__alloc] that grows the area; [old_sbrk] is an [int], and
    the result of the system call is not looked at. *)
Definition alloc_at_brk (c : pcb_t) (vmaid rgid size : Z) (i : nat) : M sys (Z * option Z) :=
  let* v := get_vma (p_mm c) i in
  let old_sbrk := i32 (sbrk v) in
  let aligned_size := PAGING64_PAGE_ALIGNSZ size in
  let* _ := _syscall (p_krnl c) (pid c) 17 (mk_regs SYSMEM_INC_OP (u64 vmaid) (Some aligned_size)) in
  upd_symrg (p_mm c) rgid (set_range (u64 old_sbrk) (u64 (old_sbrk + size))) ;;;
  (if size <? aligned_size then
     malloc_unchecked ;;;
     let* _ := enlist_vm_freerg_list (p_mm c)
                 (mk_rg None (u64 (old_sbrk + size)) (u64 (old_sbrk + aligned_size))) in
     ret tt
   else ret tt) ;;;
  ret (0, Some (u64 old_sbrk)).

(** The return code and [*alloc_addr]. *)
Definition __alloc (caller : option pcb_t) (vmaid rgid size : Z) : M sys (Z * option Z) :=
  match caller with
  | None => ret (-1, None)
  | Some c =>
      if (rgid <? 0) || (PAGING_MAX_SYMTBL_SZ <=? rgid) || (p_mm c =? NULL) then ret (-1, None)
      else
        let* cur_vma := get_vma_by_num (p_mm c) vmaid in
        let* rgnode := get_free_vmrg_area c vmaid (i32 size) in
        match rgnode with
        | Some (a, b) =>
            upd_symrg (p_mm c) rgid (set_range a b) ;;;
            ret (0, Some a)
        | None =>
            let* i := from_opt cur_vma in
            alloc_at_brk c vmaid rgid size i
        end
  end.

Definition __free (caller : option pcb_t) (vmaid rgid : Z) : M sys Z :=
  match caller with
  | None => ret (-1)
  | Some c =>
      if (rgid <? 0) || (PAGING_MAX_SYMTBL_SZ <=? rgid) || (p_krnl c =? NULL) then ret (-1)
      else
        match get_symrg_byid rgid with
        | None => ret (-1)
        | Some i =>
            let* rgnode := get_symrg (p_mm c) i in
            if (rg_start rgnode =? 0) && (rg_end rgnode =? 0) then ret (-1)
            else
              let* ok := malloc in
              if negb ok then ret (-1)
              else
                upd_symrg (p_mm c) i (set_range 0 0) ;;;
                let* _ := enlist_vm_freerg_list (p_mm c)
                            (mk_rg None (rg_start rgnode) (rg_end rgnode)) in
                ret 0
        end
  end.

(** [proc->regs[i] = v], ten registers. *)
Definition set_reg (proc i v : Z) : M sys unit :=
  let* c := get_pcb proc in
  let* r := from_opt (arr_set (regs c) i v) in
  modify (fun s => set_procs (<[proc := set_regs r c]> (procs s)) s).

(** [caller] as a pointer that may be NULL. *)
Definition opt_pcb (p : Z) : M sys (option pcb_t) :=
  if p =? NULL then ret None else let* c := get_pcb p in ret (Some c).

(** [reg_index] is a [uint32_t], passed on as an [int]. *)
Definition liballoc (proc size reg_index : Z) : M sys Z :=
  let* caller := opt_pcb proc in
  let* (val, addr) := __alloc caller 0 (i32 reg_index) size in
  if val =? -1 then ret (-1)
  else
    let* a := from_opt addr in
    set_reg proc reg_index a ;;;
    let* _ := print_pgtbl caller in
    ret val.

Definition libfree (proc reg_index : Z) : M sys Z :=
  let* caller := opt_pcb proc in
  let* val := __free caller 0 (i32 reg_index) in
  if val =? -1 then ret (-1)
  else
    set_reg proc reg_index 0 ;;;
    let* _ := print_pgtbl caller in
    ret 0.

(** ** Demand paging *)

(** [find_victim_page]: the last, oldest, page of the FIFO is removed. *)
Definition find_victim_page (mm : Z) : M sys (option Z) :=
  let* m := get_mm mm in
  match last (fifo_pgn m) with
  | None => ret None
  | Some pgn =>
      upd_mm mm (fun m => set_fifo (removelast (fifo_pgn m)) m) ;;;
      ret (Some pgn)
  end.

(** The branch of [pg_getpage] for a full RAM: a victim goes to swap and its
    frame is taken; [None] is the return code -1. *)
Definition evict_page (c : pcb_t) : M sys (option Z) :=
  let* k := krnl_of c in
  let* vicpgn := find_victim_page (p_mm c) in
  match vicpgn with
  | None => ret None
  | Some vicpgn =>
      let* vicpte := pte_get_entry (Some c) vicpgn in
      let vicfpn := PAGING_FPN vicpte in
      let* swpfpn := MEMPHY_get_freefp (k_active_mswp k) in
      match swpfpn with
      | None => ret None
      | Some swpfpn =>
          let* _ := _syscall (p_krnl c) (pid c) 17 (mk_regs SYSMEM_SWP_OP vicfpn (Some swpfpn)) in
          let* _ := pte_set_swap (Some c) vicpgn 0 swpfpn in
          ret (Some vicfpn)
      end
  end.

(** The rest of the fault: fetch the page from swap if it is there, and
    make it resident in frame [tgtfpn]. *)
Definition page_in (c : pcb_t) (pgn pte tgtfpn : Z) : M sys unit :=
  let* k := krnl_of c in
  (if PAGING_PAGE_SWAPPED pte then
     let saved_swpfpn := PAGING_SWP pte in
     let* _ := __swap_cp_page (k_active_mswp k) saved_swpfpn (k_mram k) tgtfpn in
     let* _ := MEMPHY_put_freefp (k_active_mswp k) saved_swpfpn in
     ret tt
   else ret tt) ;;;
  let* _ := pte_set_fpn (Some c) pgn tgtfpn in
  enlist_pgn_node (p_mm c) pgn.

(** The return code and [*fpn]; [pgn] is an [int], the parameter [mm] is not
    used. *)
Definition pg_getpage (pgn : Z) (c : pcb_t) : M sys (Z * option Z) :=
  let* pte := pte_get_entry (Some c) (u64 pgn) in
  let* ok :=
    if negb (PAGING_PAGE_PRESENT pte) then
      let* k := krnl_of c in
      let* free := MEMPHY_get_freefp (k_mram k) in
      let* tgtfpn := match free with Some f => ret (Some f) | None => evict_page c end in
      match tgtfpn with
      | None => ret false
      | Some tgtfpn => page_in c (u64 pgn) pte tgtfpn ;;; ret true
      end
    else ret true in
  if negb ok then ret (-1, None)
  else
    let* pte := pte_get_entry (Some c) (u64 pgn) in
    ret (0, Some (PAGING_FPN pte)).

(** [int phyaddr = (fpn << 12) + off] *)
Definition phyaddr_of (fpn off : Z) : M sys Z :=
  int_arith (Z.shiftl fpn PAGING64_ADDR_PT_SHIFT + off).

(** [addr & ((1 << 12) - 1)] *)
Definition page_off (addr : Z) : Z := Z.land addr (Z.shiftl 1 PAGING64_ADDR_PT_SHIFT - 1).

(** [addr] is an [int].  The value read by the system call stays in the local
    [regs]: [*data] is not assigned, which the second component says. *)
Definition pg_getval (addr : Z) (c : pcb_t) : M sys (Z * option Z) :=
  let pgn := Z.shiftr addr PAGING64_ADDR_PT_SHIFT in
  let off := page_off addr in
  let* (r, fpn) := pg_getpage pgn c in
  if negb (r =? 0) then ret (-1, None)
  else
    let* fpn := from_opt fpn in
    let* phyaddr := phyaddr_of fpn off in
    let* _ := _syscall (p_krnl c) (pid c) 17 (mk_regs SYSMEM_IO_READ (u64 phyaddr) None) in
    ret (0, None).

Definition pg_setval (addr value : Z) (c : pcb_t) : M sys Z :=
  let pgn := Z.shiftr addr PAGING64_ADDR_PT_SHIFT in
  let off := page_off addr in
  let* (r, fpn) := pg_getpage pgn c in
  if negb (r =? 0) then ret (-1)
  else
    let* fpn := from_opt fpn in
    let* phyaddr := phyaddr_of fpn off in
    let* _ := _syscall (p_krnl c) (pid c) 17
                (mk_regs SYSMEM_IO_WRITE (u64 phyaddr) (Some (u64 value))) in
    ret 0.

(** ** Reading and writing a region *)

(** The checks of [__read] and [__write]: the region of [rgid] and the
    address [rg_start + offset], or [None] for the return code -1. *)
Definition region_addr (mm rgid offset : Z) : M sys (option Z) :=
  match get_symrg_byid rgid with
  | None => ret None
  | Some i =>
      let* currg := get_symrg mm i in
      if (rg_start currg =? 0) && (rg_end currg =? 0) then ret None
      else if rg_end currg <=? u64 (rg_start currg + offset) then ret None
      else ret (Some (u64 (rg_start currg + offset)))
  end.

Definition __read (caller : option pcb_t) (vmaid rgid offset : Z) : M sys (Z * option Z) :=
  match caller with
  | None => ret (-1, None)
  | Some c =>
      if (p_krnl c =? NULL) || (rgid <? 0) || (PAGING_MAX_SYMTBL_SZ <=? rgid) then ret (-1, None)
      else
        let* addr := region_addr (p_mm c) rgid offset in
        match addr with
        | None => ret (-1, None)
        | Some addr => pg_getval (i32 addr) c
        end
  end.

(** The second component is [*destination]; [None] is the indeterminate
    local [data]. *)
Definition libread (proc source offset : Z) : M sys (Z * option Z) :=
  let* caller := opt_pcb proc in
  let* r := __read caller 0 (i32 source) offset in
  let* _ := print_pgtbl caller in
  ret r.

Definition __write (caller : option pcb_t) (vmaid rgid offset value : Z) : M sys Z :=
  match caller with
  | None => ret (-1)
  | Some c =>
      if (p_krnl c =? NULL) || (rgid <? 0) || (PAGING_MAX_SYMTBL_SZ <=? rgid) then ret (-1)
      else
        let* addr := region_addr (p_mm c) rgid offset in
        match addr with
        | None => ret (-1)
        | Some addr => pg_setval (i32 addr) value c
        end
  end.

Definition libwrite (proc data destination offset : Z) : M sys Z :=
  let* caller := opt_pcb proc in
  let* val := __write caller 0 (i32 destination) offset data in
  if val =? -1 then ret (-1)
  else
    let* _ := print_pgtbl caller in
    ret val.

(** ** Access by the kernel to user memory *)

(** The checks and the fault of [__read_user_mem] and [__write_user_mem]:
    the physical address, or [None] for the return code -1. *)
Definition user_phyaddr (caller : option pcb_t) (rgid offset : Z) : M sys (option Z) :=
  match caller with
  | None => ret None
  | Some c =>
      if (p_krnl c =? NULL) || (p_mm c =? NULL) then ret None
      else if (rgid <? 0) || (PAGING_MAX_SYMTBL_SZ <=? rgid) then ret None
      else
        let* currg := get_symrg (p_mm c) rgid in
        if (rg_start currg =? 0) && (rg_end currg =? 0) then ret None
        else if rg_end currg <=? u64 (rg_start currg + offset) then ret None
        else
          let vaddr := u64 (rg_start currg + offset) in
          let pgn := i32 (Z.shiftr vaddr PAGING64_ADDR_PT_SHIFT) in
          let off := page_off vaddr in
          let* (r, fpn) := pg_getpage pgn c in
          if negb (r =? 0) then ret None
          else
            let* fpn := from_opt fpn in
            let* phyaddr := phyaddr_of fpn off in
            ret (Some (u64 phyaddr))
  end.

Definition __read_user_mem (caller : option pcb_t) (vmaid rgid offset : Z) : M sys (Z * option Z) :=
  let* phyaddr := user_phyaddr caller rgid offset in
  match phyaddr with
  | None => ret (-1, None)
  | Some phyaddr =>
      let* k := gets os in
      let* (r, data) := MEMPHY_read (k_mram k) phyaddr in
      if negb (r =? 0) then ret (-1, data) else ret (0, data)
  end.

Definition __write_user_mem (caller : option pcb_t) (vmaid rgid offset value : Z) : M sys Z :=
  let* phyaddr := user_phyaddr caller rgid offset in
  match phyaddr with
  | None => ret (-1)
  | Some phyaddr =>
      let* k := gets os in
      let* r := MEMPHY_write (k_mram k) phyaddr value in
      if negb (r =? 0) then ret (-1) else ret 0
  end.

(** ** Releasing the frames of a process *)

Definition PAGING_MAX_PGN : Z := DIV_ROUND_UP (BIT 22) PAGING_PAGESZ.

(** The loop over [mm->pgd[pagenum]], for [n] more entries. *)
Fixpoint free_memph_loop (c : pcb_t) (pagenum : Z) (n : nat) : M sys Z :=
  match n with
  | O => ret 0
  | S n =>
      let* m := get_mm (p_mm c) in
      let* e := tbl_get (pgd m) pagenum in
      let pte := u32 e in
      let* k := krnl_of c in
      (if PAGING_PAGE_PRESENT pte then MEMPHY_put_freefp (k_mram k) (PAGING_FPN pte)
       else MEMPHY_put_freefp (k_active_mswp k) (PAGING_SWP pte)) ;;;
      free_memph_loop c (pagenum + 1) n
  end.

Definition free_pcb_memph (c : pcb_t) : M sys Z :=
  free_memph_loop c 0 (Z.to_nat PAGING_MAX_PGN).

(** ** [free_pcb_memph] *)

Lemma no_exit_put p f s c : MEMPHY_put_freefp p f s <> Exit c.
Proof.
  unfold MEMPHY_put_freefp. destruct (p =? NULL); [done|]. unfold on_dev, zoom.
  destruct (devs s !! p) as [d|]; [|done]. unfold memphy_put_freefp, bind, gets.
  by destruct (unlink _ _).
Qed.

Lemma free_memph_loop_undef c n : forall i s,
  0 <= i <= 512 -> 512 < i + Z.of_nat n -> free_memph_loop c i n s = Undef.
Proof.
  induction n as [|n IH]; intros i s Hi Hn; [lia|].
  cbn [free_memph_loop]. unfold get_mm, tbl_get, krnl_of, bind, gets, from_opt.
  destruct (mms s !! p_mm c) as [m|]; [|done]. cbn [ret].
  destruct (tables (heap s) !! pgd m) as [t|]; [|done]. cbn [ret].
  unfold tbl_index_ok, PAGING64_DIR_ENTRIES.
  destruct (decide (i = 512)) as [->|Hne]; [done|].
  replace ((0 <=? i) && (i <? 512)) with true by lia. cbn [ret].
  destruct (p_krnl c =? NULL); [done|].
  assert (Hput : forall p f, match MEMPHY_put_freefp p f s with
                  | Ok (_, s') => free_memph_loop c (i + 1) n s'
                  | Undef => Undef | Exit e => Exit e end = Undef).
  { intros p f. destruct (MEMPHY_put_freefp p f s) as [[r s']| |e] eqn:Hr; [apply IH; lia|done|].
    by destruct (no_exit_put p f s e). }
  destruct (PAGING_PAGE_PRESENT _); apply Hput.
Qed.

(** [free_pcb_memph] cannot be called.  Its loop reads
    [mm->pgd[0 .. PAGING_MAX_PGN - 1]], 16384 entries, but the root table has
    512: on every process and every state the call runs into undefined
    behaviour. *)
Theorem free_pcb_memph_out_of_bounds c s : free_pcb_memph c s = Undef.
Proof. apply free_memph_loop_undef; [lia|]. vm_compute. done. Qed.
