(* ===== verification/VMem.v ===== *)
(** * The virtual memory of all processes

    The abstract state of demand paging: what each page of each address space
    is ([views]), which pages are queued for eviction ([fifos]) and the two
    devices.  [vm_inv] is the invariant that keeps the processes apart;
    [mem_inv] says that a machine state implements such a state. *)

From S2P Require Import Prelude Pte MemPhy Kernel PageTable Mm64 MmVm Syscall LibMem.

Definition views := Z -> Z -> pte_view.
Definition fifos := Z -> option (list Z).

Definition updv (V : views) (p g : Z) (x : pte_view) : views :=
  fun q h => if decide ((q, h) = (p, g)) then x else V q h.
Definition updf (F : fifos) (p : Z) (l : list Z) : fifos :=
  fun q => if decide (q = p) then Some l else F q.

Lemma updv_same V p g x : updv V p g x p g = x.
Proof. unfold updv. by rewrite decide_True. Qed.
Lemma updv_ne V p g x q h : (q, h) <> (p, g) -> updv V p g x q h = V q h.
Proof. unfold updv. intros. by rewrite decide_False. Qed.

(** ** The invariant *)

(** Frames of RAM and slots of swap that back pages are in use, lie within
    their device, and back one page each; a queued page is resident. *)
Record vm_inv (V : views) (F : fifos) (rd sd : memphy_struct) : Prop := {
  vi_res p g f : V p g = Resident f -> f ∈ used_fp_list rd /\ fits rd f;
  vi_swp p g w : V p g = Swapped w -> w ∈ used_fp_list sd /\ fits sd w;
  vi_inj p g q h f : V p g = Resident f -> V q h = Resident f -> (p, g) = (q, h);
  vi_sinj p g q h w : V p g = Swapped w -> V q h = Swapped w -> (p, g) = (q, h);
  vi_fifo p l g : F p = Some l -> g ∈ l -> valid_pgn g /\ exists f, V p g = Resident f;
  vi_nodup p l : F p = Some l -> NoDup l;
  vi_rd : frames_wf rd;
  vi_sd : frames_wf sd;
}.

(** Frame [f] is taken but backs no page. *)
Definition reserved (V : views) (rd : memphy_struct) (f : Z) : Prop :=
  f ∈ used_fp_list rd /\ fits rd f /\ forall p g, V p g <> Resident f.

(** The frame that will be handed out next lies within the device. *)
Definition next_fits (d : memphy_struct) : Prop :=
  match free_fp_list d with [] => True | f :: _ => fits d f end.

(** On a device from [init_memphy], whose list numbers 256-byte frames, this
    is so as long as fewer than [max_size / 4096] frames have been taken. *)
Lemma init_memphy_next_fits max_size mp k :
  PAGING_PAGESZ <= max_size < 2 ^ 31 -> Z.of_nat k < max_size / PAGING64_PAGESZ ->
  wp (init_memphy max_size 1) (fun _ b =>
    next_fits (set_fps (drop k (free_fp_list (bdev b))) (rev (take k (free_fp_list (bdev b)))) (bdev b))) (mk_boot mp []).
Proof.
  intros Hsz Hk. eapply wp_intro; [by apply init_memphy_spec|]. unfold next_fits. simpl.
  destruct (drop k _) as [|f l] eqn:Hd; [done|].
  assert (Hf : zseq 0 (Z.to_nat (max_size / PAGING_PAGESZ)) !! k = Some f).
  { rewrite <- (Nat.add_0_r k), <- lookup_drop, Hd. done. }
  pose proof (lookup_lt_Some _ _ _ Hf) as Hl. rewrite zseq_length in Hl. rewrite zseq_lookup in Hf by done.
  injection Hf as <-. unfold fits, PAGING64_PAGESZ in *. simpl. lia.
Qed.

(** Byte [o] of a page. *)
Definition content (rd sd : memphy_struct) (v : pte_view) (o : Z) : option Z :=
  match v with
  | Resident f => Some (fbyte rd f o)
  | Swapped w => Some (fbyte sd w o)
  | Absent => None
  end.

(** Every byte of every page that has one is kept. *)
Definition bytes_kept (V : views) (rd sd : memphy_struct) (V' : views) (rd' sd' : memphy_struct) : Prop :=
  forall p g o b, 0 <= o < PAGING64_PAGESZ ->
    content rd sd (V p g) o = Some b -> content rd' sd' (V' p g) o = Some b.

Lemma bytes_kept_refl V rd sd : bytes_kept V rd sd V rd sd.
Proof. by intros p g o b _ H. Qed.

Lemma bytes_kept_trans V1 r1 s1 V2 r2 s2 V3 r3 s3 :
  bytes_kept V1 r1 s1 V2 r2 s2 -> bytes_kept V2 r2 s2 V3 r3 s3 -> bytes_kept V1 r1 s1 V3 r3 s3.
Proof. unfold bytes_kept. intros H1 H2 p g o b Ho Hb. by eapply H2, H1. Qed.

Lemma content_ext rd sd rd' sd' v o :
  storage rd' = storage rd -> storage sd' = storage sd -> content rd' sd' v o = content rd sd v o.
Proof. intros H1 H2. destruct v; simpl; unfold fbyte, byte_at; by rewrite ?H1, ?H2. Qed.

Lemma frames_wf_taken d f fs :
  free_fp_list d = f :: fs -> frames_wf d -> frames_wf (set_fps fs (f :: used_fp_list d) d).
Proof.
  intros Hf. apply frames_wf_perm. unfold frames_of; simpl. rewrite Hf. by rewrite <- Permutation_middle.
Qed.

Lemma free_not_used d f fs : free_fp_list d = f :: fs -> frames_wf d -> f ∉ used_fp_list d.
Proof.
  intros Hf [Hn _]. unfold frames_of in Hn. rewrite Hf in Hn. apply NoDup_cons in Hn as [Hn _].
  intros Hin. apply Hn. set_solver.
Qed.

Lemma frames_wf_used d f : frames_wf d -> f ∈ used_fp_list d -> 0 <= f < 2 ^ 31.
Proof. intros [_ Hf] Hin. rewrite Forall_forall in Hf. apply Hf. unfold frames_of. set_solver. Qed.

Section Steps.
Context (V : views) (F : fifos) (rd sd : memphy_struct).
Hypothesis Hinv : vm_inv V F rd sd.

(** A frame is taken from the free list of RAM. *)
Lemma take_frame f fs :
  free_fp_list rd = f :: fs -> next_fits rd ->
  let rd' := set_fps fs (f :: used_fp_list rd) rd in
  vm_inv V F rd' sd /\ reserved V rd' f /\ bytes_kept V rd sd V rd' sd.
Proof.
  intros Hf Hfit rd'. pose proof (free_not_used _ _ _ Hf (vi_rd _ _ _ _ Hinv)) as Hnu.
  split_and!.
  - destruct Hinv. split; try done.
    + intros p g x Hx. destruct (vi_res0 _ _ _ Hx). split; [simpl; set_solver|done].
    + by apply frames_wf_taken.
  - split_and!; [simpl; set_solver| |].
    + unfold next_fits in Hfit. rewrite Hf in Hfit. done.
    + intros p g Hx. apply Hnu. by apply (vi_res _ _ _ _ Hinv p g).
  - intros p g o b _ Hb. by rewrite <- Hb.
Qed.

(** The oldest page leaves the queue. *)
Lemma drop_victim p l v :
  F p = Some l -> last l = Some v ->
  vm_inv V (updf F p (removelast l)) rd sd /\
  valid_pgn v /\ (exists f, V p v = Resident f) /\ v ∉ removelast l.
Proof.
  intros HF Hl. apply last_Some in Hl as [l0 ->].
  rewrite removelast_last. pose proof (vi_nodup _ _ _ _ Hinv _ _ HF) as Hn.
  apply NoDup_app in Hn as (Hn0 & Hd & _).
  split_and!.
  - destruct Hinv. split; try done.
    + intros q lq g Hq Hg. unfold updf in Hq. case_decide; simplify_eq; [|by eapply vi_fifo0].
      eapply vi_fifo0; [done|]. set_solver.
    + intros q lq Hq. unfold updf in Hq. case_decide; simplify_eq; [done|by eapply vi_nodup0].
  - by eapply (vi_fifo _ _ _ _ Hinv p _ v); [done|set_solver].
  - by eapply (vi_fifo _ _ _ _ Hinv p _ v); [done|set_solver].
  - intros Hv. apply (Hd v Hv). set_solver.
Qed.

(** The victim's page is copied to the swap slot [w]; its frame becomes
    reserved. *)
Lemma swap_out p v f w ws sd' :
  V p v = Resident f -> (forall l, F p = Some l -> v ∉ l) ->
  free_fp_list sd = w :: ws -> next_fits sd ->
  page_copied rd f (set_fps ws (w :: used_fp_list sd) sd) w sd' ->
  let V' := updv V p v (Swapped w) in
  vm_inv V' F rd sd' /\ reserved V' rd f /\ bytes_kept V rd sd V' rd sd'.
Proof.
  intros Hv Hnf Hw Hfit Hcp V'. pose proof (free_not_used _ _ _ Hw (vi_sd _ _ _ _ Hinv)) as Hnu.
  destruct (pc_same _ _ _ _ _ Hcp) as [st Hst].
  assert (Hwfit : fits sd w) by (unfold next_fits in Hfit; by rewrite Hw in Hfit).
  assert (Hused : used_fp_list sd' = w :: used_fp_list sd) by (by rewrite Hst).
  assert (Hfits : forall x, fits sd' x <-> fits sd x) by (intros x; by rewrite Hst).
  assert (Hnsw : forall q h, V q h <> Swapped w).
  { intros q h Hx. apply Hnu. by apply (vi_swp _ _ _ _ Hinv q h). }
  split_and!.
  - split.
    + intros q h x Hx. unfold V', updv in Hx. case_decide; [done|by eapply vi_res].
    + intros q h x Hx. rewrite Hused, Hfits. unfold V', updv in Hx. case_decide; simplify_eq.
      * split; [set_solver|done].
      * destruct (vi_swp _ _ _ _ Hinv _ _ _ Hx). split; [set_solver|done].
    + intros q h q' h' x Hx Hy. unfold V', updv in Hx, Hy. repeat case_decide; try done. by eapply vi_inj.
    + intros q h q' h' x Hx Hy. unfold V', updv in Hx, Hy.
      destruct (decide ((q, h) = (p, v))), (decide ((q', h') = (p, v))); try congruence.
      by eapply vi_sinj.
    + intros q l g Hl Hg. destruct (vi_fifo _ _ _ _ Hinv _ _ _ Hl Hg) as [Hvg [x Hx]]. split; [done|].
      exists x. unfold V'. rewrite updv_ne; [done|]. intros [= -> ->]. by apply (Hnf l).
    + apply Hinv.
    + apply Hinv.
    + rewrite Hst. apply (frames_wf_taken sd w ws Hw). apply Hinv.
  - destruct (vi_res _ _ _ _ Hinv _ _ _ Hv) as [Hu Hfi]. split_and!; [done|done|].
    intros q h Hx. unfold V', updv in Hx. case_decide as Hqh; [done|].
    apply Hqh. by eapply vi_inj.
  - intros q h o b Ho Hb. unfold V', updv. case_decide as Hqh; simplify_eq.
    + rewrite Hv in Hb. simpl in *. rewrite (pc_frame _ _ _ _ _ Hcp o Ho). done.
    + destruct (V q h) as [|x|x] eqn:Hx; simpl in *; [done|done|].
      rewrite (pc_other _ _ _ _ _ Hcp x o); [done| |done]. intros ->. by apply (Hnsw q h).
Qed.

(** A page that is not resident is made resident in the reserved frame. *)
Lemma make_resident p g f l rd' sd' :
  reserved V rd f -> (forall x, V p g <> Resident x) -> valid_pgn g -> F p = Some l ->
  (V p g = Absent /\ rd' = rd /\ sd' = sd \/
   exists x used, V p g = Swapped x /\ page_copied sd x rd f rd' /\
     used_fp_list sd ≡ₚ x :: used /\ sd' = set_fps (x :: free_fp_list sd) used sd) ->
  let V' := updv V p g (Resident f) in
  vm_inv V' (updf F p (g :: l)) rd' sd' /\ bytes_kept V rd sd V' rd' sd'.
Proof.
  intros (Hfu & Hffit & Hfree) Hnr Hvg HF Hcase V'.
  assert (Hrd : used_fp_list rd' = used_fp_list rd /\ (forall x, fits rd' x <-> fits rd x) /\
                frames_of rd' = frames_of rd /\
                (forall x o, x <> f -> 0 <= o < PAGING64_PAGESZ -> fbyte rd' x o = fbyte rd x o)).
  { destruct Hcase as [(_ & -> & _)|(x & used & _ & Hcp & _)]; [done|].
    destruct (pc_same _ _ _ _ _ Hcp) as [st Hst]. split_and!; try by rewrite Hst.
    intros. by apply (pc_other _ _ _ _ _ Hcp). }
  destruct Hrd as (Hru & Hrf & Hrfr & Hrb).
  assert (Hsd : forall q h x, (q, h) <> (p, g) -> V q h = Swapped x ->
             x ∈ used_fp_list sd' /\ fits sd' x).
  { intros q h x Hne Hx. destruct (vi_swp _ _ _ _ Hinv _ _ _ Hx) as [Hu Hfi].
    destruct Hcase as [(_ & _ & ->)|(y & used & Hy & _ & Hp & ->)]; [done|]. split; [simpl|done].
    rewrite Hp in Hu. apply elem_of_cons in Hu as [->|Hu]; [|done].
    destruct Hne. by eapply (vi_sinj _ _ _ _ Hinv). }
  assert (Hsfr : frames_wf sd').
  { destruct Hcase as [(_ & _ & ->)|(y & used & Hy & _ & Hp & ->)]; [apply Hinv|].
    eapply frames_wf_perm; [|apply (vi_sd _ _ _ _ Hinv)]. unfold frames_of; simpl. rewrite Hp.
    by rewrite <- Permutation_middle. }
  split.
  - split.
    + intros q h x Hx. rewrite Hru, Hrf. unfold V', updv in Hx. case_decide; simplify_eq; [done|by eapply vi_res].
    + intros q h x Hx. unfold V', updv in Hx. case_decide; [done|by eapply Hsd].
    + intros q h q' h' x Hx Hy. unfold V', updv in Hx, Hy.
      destruct (decide ((q, h) = (p, g))), (decide ((q', h') = (p, g))); try congruence.
      by eapply vi_inj.
    + intros q h q' h' x Hx Hy. unfold V', updv in Hx, Hy. repeat case_decide; try done. by eapply vi_sinj.
    + intros q lq h Hq Hh. unfold updf in Hq. case_decide as Hqp; simplify_eq.
      * apply elem_of_cons in Hh as [->|Hh]; [split; [done|]; exists f; apply updv_same|].
        destruct (vi_fifo _ _ _ _ Hinv _ _ _ HF Hh) as [Hvh [x Hx]]. split; [done|]. exists x.
        unfold V'. rewrite updv_ne; [done|]. intros [= ->]. by apply (Hnr x).
      * destruct (vi_fifo _ _ _ _ Hinv _ _ _ Hq Hh) as [Hvh [x Hx]]. split; [done|]. exists x.
        unfold V'. rewrite updv_ne; [done|]. by intros [= -> ->].
    + intros q lq Hq. unfold updf in Hq. case_decide; simplify_eq; [|by eapply vi_nodup].
      apply NoDup_cons. split; [|by eapply vi_nodup]. intros Hh.
      destruct (vi_fifo _ _ _ _ Hinv _ _ _ HF Hh) as [_ [x Hx]]. by apply (Hnr x).
    + pose proof (vi_rd _ _ _ _ Hinv) as Hw. unfold frames_wf in *. by rewrite Hrfr.
    + done.
  - intros q h o b Ho Hb. unfold V', updv. case_decide as Hqh; simplify_eq.
    + destruct Hcase as [(Hab & _ & _)|(x & used & Hx & Hcp & _ & _)]; [by rewrite Hab in Hb|].
      rewrite Hx in Hb. simpl in *. by rewrite (pc_frame _ _ _ _ _ Hcp o Ho).
    + destruct (V q h) as [|x|x] eqn:Hx; simpl in *; [done| |].
      * rewrite Hrb; [done| |done]. intros ->. by apply (Hfree q h).
      * destruct Hcase as [(_ & _ & ->)|(y & used & _ & _ & _ & ->)]; done.
Qed.
End Steps.

(** ** Machine states *)

Definition view_of (s : sys) : views := fun p g => view (pte_of s p g).
Definition fifo_of (s : sys) : fifos := fun p => fifo_pgn <$> (mms s !! p).

Lemma vm_inv_ext V F V' F' rd sd :
  (forall p g, V' p g = V p g) -> (forall p, F' p = F p) -> vm_inv V F rd sd -> vm_inv V' F' rd sd.
Proof.
  intros HV HF H. split; try apply H.
  - intros p g f. rewrite HV. apply H.
  - intros p g f. rewrite HV. apply H.
  - intros p g q h f. rewrite !HV. apply H.
  - intros p g q h f. rewrite !HV. apply H.
  - intros p l g. rewrite HF, HV. apply H.
  - intros p l. rewrite HF. apply H.
Qed.

(** RAM of at most 32 MiB: its frame numbers fit the 13 bits of an entry. *)
Record machine (s : sys) (rd sd : memphy_struct) : Prop := {
  mi_wf : pt_wf s;
  mi_host : s_host s = [];
  mi_ramp : k_mram (os s) <> NULL;
  mi_ram : devs s !! k_mram (os s) = Some rd;
  mi_swapp : k_active_mswp (os s) <> NULL;
  mi_swap : devs s !! k_active_mswp (os s) = Some sd;
  mi_ne : k_mram (os s) <> k_active_mswp (os s);
  mi_rok : dev_ok rd /\ storage_len rd <= 2 ^ 25;
  mi_sok : dev_ok sd;
}.

Definition mem_inv (s : sys) (rd sd : memphy_struct) : Prop :=
  machine s rd sd /\ vm_inv (view_of s) (fifo_of s) rd sd.

(** What paging leaves alone: the kernel object, the processes and, in the
    descriptors, everything but counters and page queues. *)
Definition forget_vm (m : mm_struct) : mm_struct := set_fifo [] (forget_stats m).
Record env_same (s s' : sys) : Prop := {
  es_os : os s' = os s;
  es_procs : procs s' = procs s;
  es_host : s_host s = [] -> s_host s' = [];
  es_mms q : forget_vm <$> (mms s' !! q) = forget_vm <$> (mms s !! q);
}.

#[export] Instance env_same_refl : Reflexive env_same.
Proof. intros s. by split. Qed.
#[export] Instance env_same_trans : Transitive env_same.
Proof.
  intros s1 s2 s3 H1 H2. split.
  - by rewrite (es_os _ _ H2), (es_os _ _ H1).
  - by rewrite (es_procs _ _ H2), (es_procs _ _ H1).
  - intros Hh. by apply (es_host _ _ H2), (es_host _ _ H1).
  - intros q. by rewrite (es_mms _ _ H2), (es_mms _ _ H1).
Qed.

Lemma forget_vm_stats m m' : forget_stats m = forget_stats m' -> forget_vm m = forget_vm m'.
Proof. unfold forget_vm. by intros ->. Qed.

Lemma forget_stats_vm (o o' : option mm_struct) : forget_stats <$> o = forget_stats <$> o' -> forget_vm <$> o = forget_vm <$> o'.
Proof.
  destruct o, o'; intros H; try done. simpl in *. apply (inj Some) in H. f_equal. by apply forget_vm_stats.
Qed.

Lemma env_same_step s s' : pt_step s s' -> env_same s s'.
Proof. intros []. split; auto. intros q. by apply forget_stats_vm. Qed.

Lemma env_same_pte p g v s s' : pte_upd p g v s s' -> env_same s s'.
Proof. intros []. split; auto. intros q. by apply forget_stats_vm. Qed.

Lemma env_same_dev p d s : env_same s (at_dev p d s (s_host s)).
Proof. by split. Qed.

Lemma env_same_fifo p l s m :
  mms s !! p = Some m -> env_same s (set_mms (<[p := set_fifo l m]> (mms s)) s).
Proof.
  intros Hm. split; try done. intros q. simpl. rewrite lookup_insert. case_decide; [|done].
  subst. by rewrite Hm.
Qed.

Lemma env_same_caller c s s' m :
  env_same s s' -> caller_ok c s m -> exists m', caller_ok c s' m' /\ forget_vm m' = forget_vm m.
Proof.
  intros He [Hk Hp Hm]. pose proof (es_mms _ _ He (p_mm c)) as Hq. rewrite Hm in Hq.
  destruct (mms s' !! p_mm c) as [m'|] eqn:Hm'; [|done]. apply (inj Some) in Hq. exists m'. by split.
Qed.

Lemma registered_same c s s' : env_same s s' -> registered c s -> registered c s'.
Proof.
  intros He (Hpid & ptr & Ht & Hn & Hp). split; [done|]. exists ptr.
  by rewrite (es_os _ _ He), (es_procs _ _ He).
Qed.

Lemma view_of_step s s' p g : pt_step s s' -> view_of s' p g = view_of s p g.
Proof. intros H. unfold view_of. by rewrite (ps_ptes _ _ H). Qed.

Lemma fifo_of_stats s s' p :
  forget_stats <$> (mms s' !! p) = forget_stats <$> (mms s !! p) -> fifo_of s' p = fifo_of s p.
Proof.
  unfold fifo_of. destruct (mms s' !! p), (mms s !! p); intros H; try done. simpl in *.
  apply (inj Some) in H. f_equal. by apply forget_stats_fifo.
Qed.

Lemma machine_step s s' rd sd : pt_wf s' -> pt_step s s' -> machine s rd sd -> machine s' rd sd.
Proof.
  intros Hwf Hst []. pose proof (env_same_step _ _ Hst) as He.
  split; rewrite ?(es_os _ _ He), ?(ps_devs _ _ Hst); try done. by apply He.
Qed.

Lemma machine_pte p g v s s' rd sd :
  pt_wf s' -> pte_upd p g v s s' -> machine s rd sd -> machine s' rd sd.
Proof.
  intros Hwf Hu []. pose proof (env_same_pte _ _ _ _ _ Hu) as He.
  split; rewrite ?(es_os _ _ He), ?(pu_devs _ _ _ _ _ Hu); try done. by apply He.
Qed.

(** A device changes in its bytes or its frame lists. *)
Definition same_shape (d d' : memphy_struct) : Prop :=
  rdmflg d' = rdmflg d /\ storage_len d' = storage_len d.

Lemma machine_ram d s rd sd :
  machine s rd sd -> same_shape rd d -> machine (at_dev (k_mram (os s)) d s (s_host s)) d sd.
Proof.
  intros [] [H1 H2]. split; simpl; try done.
  - by apply pt_wf_at_dev.
  - by rewrite lookup_insert_eq.
  - by rewrite lookup_insert_ne.
  - unfold dev_ok in *. by rewrite H1, H2.
Qed.

Lemma machine_swap d s rd sd :
  machine s rd sd -> same_shape sd d -> machine (at_dev (k_active_mswp (os s)) d s (s_host s)) rd d.
Proof.
  intros [] [H1 H2]. split; simpl; try done.
  - by apply pt_wf_at_dev.
  - by rewrite lookup_insert_ne.
  - by rewrite lookup_insert_eq.
  - unfold dev_ok in *. by rewrite H1, H2.
Qed.

Lemma machine_fifo p l m s rd sd :
  mms s !! p = Some m -> machine s rd sd ->
  machine (set_mms (<[p := set_fifo l m]> (mms s)) s) rd sd.
Proof.
  intros Hm []. destruct (set_mm_desc p m (set_fifo l m) s) as [Hwf _]; [done..|]. by split.
Qed.

Lemma view_of_pte p g v s s' q h :
  pte_upd p g v s s' -> view_of s' q h = updv (view_of s) p g (view v) q h.
Proof.
  intros Hu. unfold view_of, updv. case_decide as Hq; [simplify_eq; by rewrite (pu_same _ _ _ _ _ Hu)|].
  by rewrite (pu_other _ _ _ _ _ Hu).
Qed.

Lemma view_of_fifo p l m s q h :
  pt_wf s -> mms s !! p = Some m -> view_of (set_mms (<[p := set_fifo l m]> (mms s)) s) q h = view_of s q h.
Proof.
  intros Hwf Hm. unfold view_of. destruct (set_mm_desc p m (set_fifo l m) s) as [_ Hp]; [done..|]. by rewrite Hp.
Qed.

Lemma fifo_of_fifo p l m s q :
  mms s !! p = Some m -> fifo_of (set_mms (<[p := set_fifo l m]> (mms s)) s) q = updf (fifo_of s) p l q.
Proof.
  intros Hm. unfold fifo_of, updf. simpl. rewrite lookup_insert.
  destruct (decide (p = q)) as [<-|]; [by rewrite decide_True|by rewrite decide_False by congruence].
Qed.

Lemma fifo_of_step s s' p : pt_step s s' -> fifo_of s' p = fifo_of s p.
Proof. intros H. apply fifo_of_stats, H. Qed.

Lemma fifo_of_pte q g v s s' p : pte_upd q g v s s' -> fifo_of s' p = fifo_of s p.
Proof. intros H. apply fifo_of_stats, H. Qed.

Lemma mem_inv_step s s' rd sd : pt_wf s' -> pt_step s s' -> mem_inv s rd sd -> mem_inv s' rd sd.
Proof.
  intros Hwf Hst [Hm Hv]. split; [by eapply machine_step|].
  eapply vm_inv_ext; [| |done]; intros; [by apply view_of_step|by apply fifo_of_step].
Qed.

(** ** The swap system call *)

Lemma view_Resident pte f : view pte = Resident f -> PAGING_FPN pte = f /\ PAGING_PAGE_PRESENT pte = true.
Proof. unfold view. destruct (PAGING_PAGE_PRESENT pte); [by intros [= ->]|]. by destruct (PAGING_PAGE_SWAPPED pte). Qed.

Lemma view_Swapped pte w :
  view pte = Swapped w ->
  PAGING_SWP pte = w /\ PAGING_PAGE_PRESENT pte = false /\ PAGING_PAGE_SWAPPED pte = true.
Proof. unfold view. destruct (PAGING_PAGE_PRESENT pte), (PAGING_PAGE_SWAPPED pte); naive_solver. Qed.

Lemma view_Absent pte :
  view pte = Absent -> PAGING_PAGE_PRESENT pte = false /\ PAGING_PAGE_SWAPPED pte = false.
Proof. unfold view. by destruct (PAGING_PAGE_PRESENT pte), (PAGING_PAGE_SWAPPED pte). Qed.

Lemma fits_small d f : dev_ok d -> fits d f -> 0 <= f < 2 ^ 19.
Proof. unfold dev_ok, fits, PAGING64_PAGESZ. lia. Qed.

(** [SYSMEM_SWP_OP] copies the RAM frame [f] to the swap slot [w]. *)
Lemma swp_syscall c s rd sd f w :
  p_krnl c <> NULL -> registered c s -> machine s rd sd -> fits rd f -> fits sd w ->
  wp (_syscall (p_krnl c) (pid c) 17 (mk_regs SYSMEM_SWP_OP f (Some w)))
     (fun _ s' => exists sd', page_copied rd f sd w sd' /\
        s' = at_dev (k_active_mswp (os s)) sd' s (s_host s)) s.
Proof.
  intros Hk Hreg Hm Hf Hw. destruct (mi_rok _ _ _ Hm) as [Hrok _]. pose proof (mi_sok _ _ _ Hm) as Hsok.
  pose proof (fits_small _ _ Hrok Hf). pose proof (fits_small _ _ Hsok Hw).
  apply wp_memmap; [done|done|]. unfold memmap_op. cbn [a1 a2 a3].
  wp_step. apply wp_deref_krnl; [done|].
  change (i32 SYSMEM_SWP_OP) with SYSMEM_SWP_OP. cbn [Z.eqb Pos.eqb SYSMEM_MAP_OP SYSMEM_INC_OP SYSMEM_SWP_OP].
  wp_steps. rewrite !u32_small by lia. unfold __mm_swap_page. wp_steps.
  apply krnl_of_ok; [done|]. wp_steps. eapply wp_mono; [eapply swap_cp_page_spec; first [done|apply Hm]|].
  intros r s' (-> & sd' & Hcp & ->). wp_steps. eauto.
Qed.

(** ** Page faults *)

(** The same device with the same frames, free or used. *)
Definition same_pool (d d' : memphy_struct) : Prop :=
  same_shape d d' /\ frames_of d' ≡ₚ frames_of d.

#[export] Instance same_pool_refl : Reflexive same_pool.
Proof. by split. Qed.
#[export] Instance same_pool_trans : Transitive same_pool.
Proof.
  intros d1 d2 d3 [[H1 H2] H3] [[H4 H5] H6]. split; [split; congruence|]. by rewrite H6.
Qed.

(** What serving a fault of page [g] of [p] does to the rest of memory. *)
Record faulted (p g : Z) (s : sys) (rd sd : memphy_struct) (s' : sys) (rd' sd' : memphy_struct) : Prop := {
  ft_inv : mem_inv s' rd' sd';
  ft_env : env_same s s';
  ft_bytes : bytes_kept (view_of s) rd sd (view_of s') rd' sd';
  ft_others q h : q <> p -> pte_of s' q h = pte_of s q h;
  ft_absent h : h <> g -> view_of s p h = Absent -> view_of s' p h = Absent;
  ft_pools : same_pool rd rd' /\ same_pool sd sd';
}.

Lemma faulted_refl p g s rd sd : mem_inv s rd sd -> faulted p g s rd sd s rd sd.
Proof. intros Hm. split; try done. apply bytes_kept_refl. Qed.

Lemma faulted_trans p g s1 r1 d1 s2 r2 d2 s3 r3 d3 :
  faulted p g s1 r1 d1 s2 r2 d2 -> faulted p g s2 r2 d2 s3 r3 d3 -> faulted p g s1 r1 d1 s3 r3 d3.
Proof.
  intros H1 H2. split.
  - apply H2.
  - etransitivity; [apply H1|apply H2].
  - eapply bytes_kept_trans; [apply H1|apply H2].
  - intros q h Hq. by rewrite (ft_others _ _ _ _ _ _ _ _ H2), (ft_others _ _ _ _ _ _ _ _ H1).
  - intros h Hh Ha. apply (ft_absent _ _ _ _ _ _ _ _ H2), (ft_absent _ _ _ _ _ _ _ _ H1); done.
  - destruct (ft_pools _ _ _ _ _ _ _ _ H1), (ft_pools _ _ _ _ _ _ _ _ H2). split; by etransitivity.
Qed.

Lemma bytes_kept_views V V' rd sd :
  (forall p g, V' p g = V p g) -> bytes_kept V rd sd V' rd sd.
Proof. intros HV p g o b _ Hb. by rewrite HV. Qed.

Lemma faulted_step p g s s' rd sd :
  pt_wf s' -> pt_step s s' -> mem_inv s rd sd -> faulted p g s rd sd s' rd sd.
Proof.
  intros Hwf Hst Hm. split.
  - by eapply mem_inv_step.
  - by apply env_same_step.
  - apply bytes_kept_views. intros. by apply view_of_step.
  - intros. apply Hst.
  - intros h _ Ha. by rewrite (view_of_step _ _ _ _ Hst).
  - done.
Qed.

(** The victim leaves the queue. *)
Lemma faulted_victim p g s rd sd m v :
  mem_inv s rd sd -> mms s !! p = Some m -> last (fifo_pgn m) = Some v ->
  let s' := set_mms (<[p := set_fifo (removelast (fifo_pgn m)) m]> (mms s)) s in
  faulted p g s rd sd s' rd sd /\ valid_pgn v /\ (exists f, view_of s' p v = Resident f) /\
  (forall l, fifo_of s' p = Some l -> v ∉ l) /\ (forall q h, pte_of s' q h = pte_of s q h).
Proof.
  intros [Hm Hv] Hmm Hl s'. set (l := removelast (fifo_pgn m)) in *.
  destruct (set_mm_desc p m (set_fifo l m) s) as [Hwf Hpte]; [apply Hm|done|done|]. fold s' in Hpte, Hwf.
  assert (HF : fifo_of s p = Some (fifo_pgn m)) by (unfold fifo_of; by rewrite Hmm).
  destruct (drop_victim _ _ _ _ Hv p _ v HF Hl) as (Hv' & Hvv & [f Hf] & Hn). fold l in Hv', Hn.
  assert (HV : forall q h, view_of s' q h = view_of s q h) by (intros; unfold view_of; by rewrite Hpte).
  split_and!; try done.
  - split; try done.
    + split; [by apply machine_fifo|]. eapply vm_inv_ext; [exact HV| |exact Hv'].
      intros q. by apply fifo_of_fifo.
    + by apply env_same_fifo.
    + by apply bytes_kept_views.
    + intros h _. by rewrite HV.
  - exists f. by rewrite HV.
  - intros l' Hl'. unfold s' in Hl'. rewrite (fifo_of_fifo _ _ _ _ _ Hmm) in Hl'. unfold updf in Hl'.
    rewrite decide_True in Hl' by done. by simplify_eq.
Qed.

Lemma view_of_dev p d s h q g : view_of (at_dev p d s h) q g = view_of s q g.
Proof. done. Qed.

(** The victim [v] goes to the first free swap slot. *)
Lemma faulted_swap_out p g s rd sd v f w ws sd2 s' x :
  mem_inv s rd sd -> view_of s p v = Resident f -> (forall l, fifo_of s p = Some l -> v ∉ l) ->
  free_fp_list sd = w :: ws -> next_fits sd ->
  page_copied rd f (set_fps ws (w :: used_fp_list sd) sd) w sd2 ->
  pt_wf s' -> pte_upd p v x (at_dev (k_active_mswp (os s)) sd2 s (s_host s)) s' ->
  view x = Swapped w ->
  faulted p g s rd sd s' rd sd2 /\ reserved (view_of s') rd f.
Proof.
  intros [Hm Hv] Hvf Hn Hw Hfit Hcp Hwf Hu Hx.
  destruct (swap_out _ _ _ _ Hv p v f w ws sd2) as (Hv' & Hres & Hb); [done..|].
  assert (HV : forall q h, view_of s' q h = updv (view_of s) p v (Swapped w) q h).
  { intros q h. rewrite (view_of_pte _ _ _ _ _ _ _ Hu), Hx. done. }
  assert (Hsh : same_shape sd sd2) by (destruct (pc_same _ _ _ _ _ Hcp) as [st ->]; done).
  assert (Hm1 := machine_swap _ _ _ _ Hm Hsh).
  split; [split|].
  - split; [by eapply machine_pte|]. eapply vm_inv_ext; [exact HV| |exact Hv'].
    intros q. by rewrite (fifo_of_pte _ _ _ _ _ _ Hu).
  - etransitivity; [apply (env_same_dev (k_active_mswp (os s)) sd2)|by eapply env_same_pte].
  - eapply bytes_kept_trans; [exact Hb|]. by apply bytes_kept_views.
  - intros q h Hq. by rewrite (pu_other _ _ _ _ _ Hu) by congruence.
  - intros h Hh Ha. rewrite HV. rewrite updv_ne; [done|]. intros [= ->]. by rewrite Hvf in Ha.
  - split; [done|]. split; [done|]. destruct (pc_same _ _ _ _ _ Hcp) as [st ->].
    unfold frames_of; simpl. rewrite Hw. by rewrite <- Permutation_middle.
  - destruct Hres as (Hr1 & Hr2 & Hr3). split_and!; [done..|]. intros q h. by rewrite HV.
Qed.

(** The victim is copied to the slot [w] just taken, and its entry set. *)
Lemma swap_victim_spec c m g s rd sd v f w ws :
  mem_inv s rd sd -> caller_ok c s m -> registered c s -> next_fits sd -> valid_pgn v ->
  view_of s (p_mm c) v = Resident f -> (forall l, fifo_of s (p_mm c) = Some l -> v ∉ l) -> free_fp_list sd = w :: ws ->
  wp (let* _ := _syscall (p_krnl c) (pid c) 17 (mk_regs SYSMEM_SWP_OP f (Some w)) in
      let* _ := pte_set_swap (Some c) v 0 w in ret (Some f))
     (fun r s' => exists sd', faulted (p_mm c) g s rd sd s' rd sd' /\
        (g <> v -> pte_of s' (p_mm c) g = pte_of s (p_mm c) g) /\ r = Some f /\ reserved (view_of s') rd f)
     (at_dev (k_active_mswp (os s)) (set_fps ws (w :: used_fp_list sd) sd) s (s_host s)).
Proof.
  intros Hinv Hc Hreg Hfit Hvv Hvf Hn Hw. pose proof Hinv as [Hm Hv]. pose proof Hc as [Hk Hp Hmm].
  set (sd1 := set_fps ws (w :: used_fp_list sd) sd). set (s3 := at_dev (k_active_mswp (os s)) sd1 s (s_host s)).
  assert (Hm3 : machine s3 rd sd1) by (by apply (machine_swap sd1 s rd sd)).
  assert (Hwfit : fits sd1 w) by (unfold next_fits in Hfit; by rewrite Hw in Hfit).
  wp_step. eapply wp_mono.
  { apply (swp_syscall c s3 rd sd1 f w); [done|by eapply registered_same; [apply env_same_dev|]|done| |done].
    by eapply (vi_res _ _ _ _ Hv). }
  intros _ s4 (sd2 & Hcp & ->). wp_steps.
  assert (Hs4 : at_dev (k_active_mswp (os s3)) sd2 s3 (s_host s3)
                = at_dev (k_active_mswp (os s)) sd2 s (s_host s)) by apply at_dev_twice.
  rewrite Hs4. set (s4 := at_dev (k_active_mswp (os s)) sd2 s (s_host s)).
  assert (He4 : env_same s s4) by apply env_same_dev.
  destruct (env_same_caller _ _ _ _ He4 Hc) as (m4 & Hc4 & _).
  assert (Hwf4 : pt_wf s4) by (apply pt_wf_at_dev, Hm).
  eapply wp_mono; [by apply (pte_set_swap_spec c m4)|].
  intros r s5 [Hwf5 [[-> Hu]|(_ & _ & Hne)]].
  2: { destruct Hne. apply He4, Hm. }
  wp_steps. pose proof (fits_small _ _ (mi_sok _ _ _ Hm) Hwfit) as Hwr.
  destruct (faulted_swap_out (p_mm c) g s rd sd v f w ws sd2 s5
             (pte_swap_val (pte_of s4 (p_mm c) v) 0 w)) as [Hf5 Hres]; try done.
  { rewrite view_swap_val by lia. f_equal. apply Z.mod_small. lia. }
  exists sd2. split_and!; [done| |done|apply Hres..].
  intros Hgv. rewrite (pu_other _ _ _ _ _ Hu); [done|]. by intros [= ->].
Qed.

Lemma evict_page_spec c m g s rd sd :
  mem_inv s rd sd -> caller_ok c s m -> registered c s -> next_fits sd ->
  (forall f, view_of s (p_mm c) g <> Resident f) ->
  wp (evict_page c)
     (fun r s' => exists sd', faulted (p_mm c) g s rd sd s' rd sd' /\
        pte_of s' (p_mm c) g = pte_of s (p_mm c) g /\
        match r with
        | Some f => reserved (view_of s') rd f
        | None => fifo_pgn m = [] \/ free_fp_list sd = []
        end) s.
Proof.
  intros Hinv Hc Hreg Hfit Hnr. pose proof Hinv as [Hm Hv]. pose proof Hc as [Hk Hp Hmm].
  unfold evict_page. wp_step. apply krnl_of_ok; [done|]. unfold find_victim_page.
  wp_steps. eapply wp_get_mm; [done|]. destruct (last (fifo_pgn m)) as [v|] eqn:Hl.
  2: { wp_steps. exists sd. split_and!; [by apply faulted_refl|done|left; by apply last_None]. }
  wp_steps. eapply wp_upd_mm; [done|]. wp_steps.
  destruct (faulted_victim (p_mm c) g s rd sd m v Hinv Hmm Hl) as (Hf1 & Hvv & [f Hvf] & Hn & Hpte).
  set (s1 := set_mms _ s) in *.
  destruct (env_same_caller _ _ _ _ (ft_env _ _ _ _ _ _ _ _ Hf1) Hc) as (m1 & Hc1 & _).
  pose proof (ft_inv _ _ _ _ _ _ _ _ Hf1) as Hi1.
  eapply wp_mono; [apply (pte_get_entry_spec c m1); [apply Hi1|done|done]|].
  intros r s2 (-> & Hwf2 & Hst2 & _). wp_steps.
  assert (Hf2 : faulted (p_mm c) g s rd sd s2 rd sd)
    by (eapply faulted_trans; [exact Hf1|by apply faulted_step]).
  assert (HPF : PAGING_FPN (u32 (pte_of s1 (p_mm c) v)) = f)
    by (apply view_Resident; rewrite view_u32; exact Hvf).
  rewrite HPF.
  pose proof (ft_inv _ _ _ _ _ _ _ _ Hf2) as Hi2. pose proof Hi2 as [Hm2 Hv2].
  assert (Hos2 : os s2 = os s) by apply (es_os _ _ (ft_env _ _ _ _ _ _ _ _ Hf2)). rewrite <- Hos2.
  assert (Hpte2 : forall q h, pte_of s2 q h = pte_of s q h) by (intros; by rewrite (ps_ptes _ _ Hst2), Hpte).
  assert (Hvf2 : view_of s2 (p_mm c) v = Resident f) by (by rewrite (view_of_step _ _ _ _ Hst2)).
  assert (Hn2 : forall l, fifo_of s2 (p_mm c) = Some l -> v ∉ l).
  { intros l Hl'. rewrite (fifo_of_step _ _ _ Hst2) in Hl'. by apply Hn. }
  eapply wp_MEMPHY_get_freefp; [apply Hm2|apply Hm2|].
  destruct (free_fp_list sd) as [|w ws] eqn:Hw.
  { wp_steps. exists sd. split_and!; [done|by rewrite Hpte2|by right]. }
  wp_simpl. destruct (env_same_caller _ _ _ _ (ft_env _ _ _ _ _ _ _ _ Hf2) Hc) as (m2 & Hc2 & _).
  eapply wp_mono; [apply (swap_victim_spec c m2 g s2 rd sd v f w ws); try done; by eapply registered_same; [exact (ft_env _ _ _ _ _ _ _ _ Hf2)|]|].
  intros r s3 (sd' & Hf3 & Hg & -> & Hres). exists sd'. split_and!; [by eapply faulted_trans| |done].
  rewrite Hg; [apply Hpte2|]. intros ->. apply (Hnr f). rewrite <- Hvf2. unfold view_of. by rewrite Hpte2.
Qed.

(** The page [g] becomes resident in the reserved frame [f]: from devices
    [rd1], [sd1] that hold its bytes there, entry and queue are updated. *)
Lemma faulted_page_in p g s rd sd f rd1 sd1 s1 s2 s3 x l :
  mem_inv s rd sd -> reserved (view_of s) rd f -> (forall y, view_of s p g <> Resident y) ->
  valid_pgn g -> fifo_of s p = Some l ->
  (view_of s p g = Absent /\ rd1 = rd /\ sd1 = sd \/
   exists y used, view_of s p g = Swapped y /\ page_copied sd y rd f rd1 /\
     used_fp_list sd ≡ₚ y :: used /\ sd1 = set_fps (y :: free_fp_list sd) used sd) ->
  machine s1 rd1 sd1 -> env_same s s1 -> mms s1 = mms s -> heap s1 = heap s ->
  pt_wf s2 -> pte_upd p g x s1 s2 -> view x = Resident f ->
  pt_wf s3 -> vm_upd p (fun m => set_fifo (g :: fifo_pgn m) m) (pte_of s2) s2 s3 ->
  faulted p g s rd sd s3 rd1 sd1 /\ view_of s3 p g = Resident f /\ fifo_of s3 p = Some (g :: l).
Proof.
  intros [Hm Hv] Hres Hnr Hvg HF Hcase Hm1 He1 Hmms Hheap Hwf2 Hu Hx Hwf3 Hq.
  destruct (make_resident _ _ _ _ Hv p g f l rd1 sd1 Hres Hnr Hvg HF Hcase) as [Hv' Hb].
  assert (Hs1 : forall q h, pte_of s1 q h = pte_of s q h).
  { intros. unfold pte_of, pte_slot, cell. by rewrite Hmms, Hheap. }
  assert (HV : forall q h, view_of s3 q h = updv (view_of s) p g (Resident f) q h).
  { intros q h. unfold view_of at 1. rewrite (vu_ptes _ _ _ _ _ Hq).
    change (view (pte_of s2 q h)) with (view_of s2 q h). rewrite (view_of_pte _ _ _ _ _ _ _ Hu), Hx.
    unfold updv, view_of. by rewrite Hs1. }
  assert (HFF : forall q, fifo_of s3 q = updf (fifo_of s) p (g :: l) q).
  { intros q. pose proof (vu_mms _ _ _ _ _ Hq q) as Hmq. pose proof (fifo_of_pte _ _ _ _ _ q Hu) as Hf2.
    assert (Hf1 : fifo_of s1 q = fifo_of s q) by (unfold fifo_of; by rewrite Hmms). rewrite Hf1 in Hf2.
    unfold updf. destruct (decide (q = p)) as [->|Hqp].
    - unfold fifo_of in *. destruct (mms s2 !! p) as [m2|]; simpl in *; [|congruence].
      destruct (mms s3 !! p) as [m3|]; simpl in Hmq; [|done]. apply (inj Some), forget_stats_fifo in Hmq.
      simpl. rewrite Hmq. simpl. rewrite HF in Hf2. by simplify_eq.
    - rewrite <- Hf2. by apply fifo_of_stats. }
  assert (Hm3 : machine s3 rd1 sd1).
  { pose proof (machine_pte _ _ _ _ _ _ _ Hwf2 Hu Hm1) as []. split; try done.
    - by apply (vu_host _ _ _ _ _ Hq).
    - by rewrite (vu_os _ _ _ _ _ Hq).
    - by rewrite (vu_os _ _ _ _ _ Hq), (vu_devs _ _ _ _ _ Hq).
    - by rewrite (vu_os _ _ _ _ _ Hq).
    - by rewrite (vu_os _ _ _ _ _ Hq), (vu_devs _ _ _ _ _ Hq).
    - by rewrite (vu_os _ _ _ _ _ Hq). }
  split_and!; [split|by rewrite HV, updv_same|by rewrite HFF; unfold updf; rewrite decide_True].
  - split; [done|]. by eapply vm_inv_ext.
  - etransitivity; [exact He1|]. etransitivity; [by eapply env_same_pte|].
    split; [apply Hq|apply Hq|apply Hq|]. intros q. pose proof (vu_mms _ _ _ _ _ Hq q) as Hmq.
    rewrite (forget_stats_vm _ _ Hmq). destruct (decide _); [|done]. by destruct (mms s2 !! q).
  - eapply bytes_kept_trans; [exact Hb|]. by apply bytes_kept_views.
  - intros q h Hqp. rewrite (vu_ptes _ _ _ _ _ Hq), (pu_other _ _ _ _ _ Hu) by congruence. apply Hs1.
  - intros h Hh Ha. rewrite HV, updv_ne; [done|congruence].
  - destruct Hcase as [(_ & -> & ->)|(y & used & _ & Hcp & Hp & ->)]; [done|].
    destruct (pc_same _ _ _ _ _ Hcp) as [st ->].
    split; (split; [done|]); [done|]. unfold frames_of; simpl. rewrite Hp. by rewrite <- Permutation_middle.
Qed.

Lemma page_in_spec c m g f pte s rd sd :
  mem_inv s rd sd -> caller_ok c s m -> reserved (view_of s) rd f -> valid_pgn g ->
  view pte = view_of s (p_mm c) g -> (forall y, view_of s (p_mm c) g <> Resident y) ->
  wp (page_in c g pte f)
     (fun _ s' => exists rd' sd', faulted (p_mm c) g s rd sd s' rd' sd' /\
        view_of s' (p_mm c) g = Resident f /\ fifo_of s' (p_mm c) = Some (g :: fifo_pgn m)) s.
Proof.
  intros Hinv Hc Hres Hvg Hpte Hnr. pose proof Hinv as [Hm Hv]. pose proof Hc as [Hk Hp Hmm].
  pose proof Hres as (Hfu & Hffit & _). destruct (mi_rok _ _ _ Hm) as [Hrok Hrlen].
  assert (Hf13 : f mod 2 ^ 13 = f).
  { apply Z.mod_small. unfold fits, PAGING64_PAGESZ in Hffit. lia. }
  assert (HF : fifo_of s (p_mm c) = Some (fifo_pgn m)) by (unfold fifo_of; by rewrite Hmm).
  assert (Hrest : forall rd1 sd1 s1,
    (view_of s (p_mm c) g = Absent /\ rd1 = rd /\ sd1 = sd \/
     exists y used, view_of s (p_mm c) g = Swapped y /\ page_copied sd y rd f rd1 /\
       used_fp_list sd ≡ₚ y :: used /\ sd1 = set_fps (y :: free_fp_list sd) used sd) ->
    machine s1 rd1 sd1 -> env_same s s1 -> mms s1 = mms s -> heap s1 = heap s ->
    wp (let* _ := pte_set_fpn (Some c) g f in enlist_pgn_node (p_mm c) g)
       (fun _ s' => exists rd' sd', faulted (p_mm c) g s rd sd s' rd' sd' /\
          view_of s' (p_mm c) g = Resident f /\ fifo_of s' (p_mm c) = Some (g :: fifo_pgn m)) s1).
  { intros rd1 sd1 s1 Hcase Hm1 He1 Hmms Hheap.
    destruct (env_same_caller _ _ _ _ He1 Hc) as (m1 & Hc1 & _).
    wp_step. eapply wp_mono; [by apply (pte_set_fpn_spec c m1); [apply Hm1|..]|].
    intros r s2 [Hwf2 [[-> Hu]|(_ & _ & Hne)]]; [|by destruct Hne; apply Hm1].
    destruct (pte_upd_mms_Some _ _ _ _ _ _ _ Hu (co_desc _ _ _ Hc1)) as (m2 & Hm2 & _).
    eapply enlist_pgn_node_spec; [done|done|apply (pu_host _ _ _ _ _ Hu), Hm1|].
    intros s3 Hwf3 Hq. exists rd1, sd1.
    eapply (faulted_page_in _ g s rd sd f rd1 sd1 s1 s2 s3); try exact Hu; try done.
    rewrite view_fpn_val by (destruct Hffit; done). by rewrite Hf13. }
  unfold page_in. wp_step. apply krnl_of_ok; [done|].
  destruct (view_of s (p_mm c) g) as [|y|y] eqn:Hvw.
  - destruct (view_Absent _ Hpte) as [_ ->]. wp_step. wp_simpl. wp_step. apply (Hrest rd sd s); [by left|done..].
  - by destruct (Hnr y).
  - destruct (view_Swapped _ _ Hpte) as (-> & _ & ->).
    destruct (vi_swp _ _ _ _ Hv _ _ _ Hvw) as [Hyu Hyfit].
    pose proof (frames_wf_used _ _ (vi_sd _ _ _ _ Hv) Hyu) as Hy31.
    destruct (unlink y (used_fp_list sd)) as [used|] eqn:Hun.
    2: { by apply unlink_None in Hun. }
    wp_steps. eapply wp_mono; [eapply swap_cp_page_spec; first [done|apply Hm|apply not_eq_sym, Hm]|].
    intros r s1 (-> & rd1 & Hcp & ->). wp_steps. destruct (pc_same _ _ _ _ _ Hcp) as [st Hst].
    assert (Hm1 : machine (at_dev (k_mram (os s)) rd1 s (s_host s)) rd1 sd)
      by (apply (machine_ram _ _ rd); [done|by rewrite Hst]).
    eapply wp_MEMPHY_put_freefp; [apply Hm|apply (mi_swap _ _ _ Hm1)|done|done|]. wp_step.
    apply (Hrest rd1 (set_fps (y :: free_fp_list sd) used sd)).
    + right. exists y, used. split_and!; try done. by apply unlink_Some.
    + apply (machine_swap _ _ _ _ Hm1). done.
    + etransitivity; [apply (env_same_dev (k_mram (os s)) rd1)|apply env_same_dev].
    + done.
    + done.
Qed.

(** When a fault can be served. *)
Definition can_serve (m : mm_struct) (rd sd : memphy_struct) : Prop :=
  free_fp_list rd <> [] \/ fifo_pgn m <> [] /\ free_fp_list sd <> [].

(** The outcome of [pg_getpage] for page [g] of [c]. *)
Record getpage_post (c : pcb_t) (m : mm_struct) (g : Z) (s : sys) (rd sd : memphy_struct)
    (r : Z * option Z) (s' : sys) (rd' sd' : memphy_struct) : Prop := {
  gp_faulted : faulted (p_mm c) g s rd sd s' rd' sd';
  gp_result : (exists f, r = (0, Some f) /\ view_of s' (p_mm c) g = Resident f) \/
              r = (-1, None) /\ ~ can_serve m rd sd /\ (forall f, view_of s (p_mm c) g <> Resident f) /\
              view_of s' (p_mm c) g = view_of s (p_mm c) g /\ rd' = rd;
  gp_hit f : view_of s (p_mm c) g = Resident f -> r = (0, Some f) /\ rd' = rd /\ sd' = sd;
}.

(** A frame for the fault of [g]: a free one or the victim's. *)
Lemma fault_frame_spec c m g s rd sd :
  mem_inv s rd sd -> caller_ok c s m -> registered c s -> next_fits rd -> next_fits sd ->
  (forall f, view_of s (p_mm c) g <> Resident f) ->
  wp (let* free := MEMPHY_get_freefp (k_mram (os s)) in
      match free with Some f => ret (Some f) | None => evict_page c end)
     (fun r s' => exists rd' sd', faulted (p_mm c) g s rd sd s' rd' sd' /\
        pte_of s' (p_mm c) g = pte_of s (p_mm c) g /\
        match r with
        | Some f => reserved (view_of s') rd' f
        | None => ~ can_serve m rd sd /\ rd' = rd
        end) s.
Proof.
  intros Hinv Hc Hreg Hfr Hfs Hnr. pose proof Hinv as [Hm Hv]. wp_step.
  eapply wp_MEMPHY_get_freefp; [apply Hm|apply Hm|].
  destruct (free_fp_list rd) as [|f fs] eqn:Hf.
  - eapply wp_mono; [by eapply evict_page_spec|]. intros r s' (sd' & Hft & Hp & Hr).
    exists rd, sd'. split_and!; [done|done|]. destruct r as [f|]; [done|].
    split; [|done]. unfold can_serve. rewrite Hf. intros [?|[? ?]]; [done|]. by destruct Hr.
  - wp_steps. destruct (take_frame _ _ _ _ Hv f fs Hf Hfr) as (Hv' & Hres & Hb).
    eexists _, sd. split_and!; [split|done|exact Hres].
    + split; [by apply (machine_ram _ _ rd)|done].
    + apply env_same_dev.
    + done.
    + done.
    + done.
    + split; (split; [done|]); [|done]. unfold frames_of; simpl. rewrite Hf. by rewrite <- Permutation_middle.
Qed.

Lemma pte_get_view_spec c m g s rd sd (Q : Z -> sys -> Prop) :
  mem_inv s rd sd -> caller_ok c s m -> valid_pgn g ->
  (forall pte s', view pte = view_of s (p_mm c) g -> pt_wf s' -> pt_step s s' -> Q pte s') ->
  wp (pte_get_entry (Some c) g) Q s.
Proof.
  intros [Hm _] Hc Hvg HQ. eapply wp_mono; [by apply (pte_get_entry_spec c m); [apply Hm|..]|].
  intros r s' (-> & Hwf & Hst & _). apply HQ; [apply view_u32|done|done].
Qed.

Lemma present_view pte : PAGING_PAGE_PRESENT pte = true -> view pte = Resident (PAGING_FPN pte).
Proof. unfold view. by intros ->. Qed.

Lemma absent_view pte : PAGING_PAGE_PRESENT pte = false -> forall f, view pte <> Resident f.
Proof. unfold view. intros -> f. by destruct (PAGING_PAGE_SWAPPED pte). Qed.

Lemma forget_vm_fifo_step c m m1 s s1 :
  pt_step s s1 -> caller_ok c s m -> caller_ok c s1 m1 -> fifo_pgn m1 = fifo_pgn m.
Proof.
  intros Hst [_ _ Hm] [_ _ Hm1]. pose proof (fifo_of_step _ _ (p_mm c) Hst) as Hf.
  unfold fifo_of in Hf. rewrite Hm, Hm1 in Hf. by apply (inj Some) in Hf.
Qed.

Lemma pg_getpage_spec c m g s rd sd :
  mem_inv s rd sd -> caller_ok c s m -> registered c s ->
  ((forall f, view_of s (p_mm c) g <> Resident f) -> next_fits rd /\ next_fits sd) ->
  0 <= g < 2 ^ 31 ->
  wp (pg_getpage g c)
     (fun r s' => exists rd' sd', getpage_post c m g s rd sd r s' rd' sd') s.
Proof.
  intros Hinv Hc Hreg Hfit Hg. set (p := p_mm c).
  assert (Hvg : valid_pgn g) by (unfold valid_pgn; lia). assert (Hu : u64 g = g) by (apply u64_small; lia).
  unfold pg_getpage. rewrite Hu. wp_step. eapply pte_get_view_spec; [done|done|done|].
  intros pte s1 Hpte Hwf1 Hst1. fold p in Hpte.
  pose proof (faulted_step p g _ _ _ _ Hwf1 Hst1 Hinv) as Hf1.
  destruct (env_same_caller _ _ _ _ (ft_env _ _ _ _ _ _ _ _ Hf1) Hc) as (m1 & Hc1 & Hm1).
  assert (Hfin : forall s2 rd2 sd2 f, faulted p g s rd sd s2 rd2 sd2 -> view_of s2 p g = Resident f ->
    ((forall f, view_of s p g = Resident f -> view_of s2 p g = Resident f /\ rd2 = rd /\ sd2 = sd)) ->
    wp (let* pte := pte_get_entry (Some c) g in ret (0, Some (PAGING_FPN pte)))
       (fun r s' => exists rd' sd', getpage_post c m g s rd sd r s' rd' sd') s2).
  { intros s2 rd2 sd2 f Hf2 Hvw Hhit.
    destruct (env_same_caller _ _ _ _ (ft_env _ _ _ _ _ _ _ _ Hf2) Hc) as (m2 & Hc2 & _).
    wp_step. eapply pte_get_view_spec; [apply Hf2|done|done|]. intros pte2 s3 Hp2 Hwf3 Hst3.
    fold p in Hp2. rewrite Hvw in Hp2. destruct (view_Resident _ _ Hp2) as [-> _].
    pose proof (faulted_step p g _ _ _ _ Hwf3 Hst3 (ft_inv _ _ _ _ _ _ _ _ Hf2)) as Hf3.
    wp_steps. exists rd2, sd2. split; [by eapply faulted_trans| |].
    - left. exists f. split; [done|]. fold p. by rewrite (view_of_step _ _ _ _ Hst3).
    - intros f' Hf'. destruct (Hhit f' Hf') as (Hv2 & -> & ->). split; [congruence|done]. }
  assert (Hv1 : view_of s1 p g = view_of s p g) by (by apply view_of_step).
  destruct (PAGING_PAGE_PRESENT pte) eqn:Hpr; wp_simpl; do 2 wp_step.
  { apply present_view in Hpr. wp_simpl. apply (Hfin s1 rd sd (PAGING_FPN pte)); [done|congruence|].
    intros f Hf. by rewrite Hv1. }
  assert (Hnr : forall f, view_of s p g <> Resident f) by (rewrite <- Hpte; by apply absent_view).
  destruct (Hfit Hnr) as [Hfr Hfs].
  assert (Hnr1 : forall f, view_of s1 p g <> Resident f) by (by rewrite Hv1).
  pose proof (ft_inv _ _ _ _ _ _ _ _ Hf1) as Hi1.
  assert (Hreg1 : registered c s1) by (eapply registered_same; [apply Hf1|done]).
  apply krnl_of_ok; [apply Hc|]. apply wp_assoc. wp_step.
  eapply wp_mono; [by eapply (fault_frame_spec c m1 g s1 rd sd)|].
  intros r2 s2 (rd2 & sd2 & Hf2 & Hp2 & Hr). fold p in Hp2, Hf2. destruct r2 as [f|].
  2: { wp_steps. exists rd2, sd2. split; [by eapply faulted_trans| |intros f Hf; by destruct (Hnr f)].
       destruct Hr as [Hr ->]. right. split_and!; [done| |done| |done].
       - unfold can_serve in *. by rewrite <- (forget_vm_fifo_step _ _ _ _ _ Hst1 Hc Hc1).
       - fold p. unfold view_of at 1. rewrite Hp2. exact Hv1. }
  destruct (env_same_caller _ _ _ _ (ft_env _ _ _ _ _ _ _ _ Hf2) Hc1) as (m2 & Hc2 & _).
  assert (Hv2 : view_of s2 p g = view_of s p g) by (unfold view_of at 1; by rewrite Hp2).
  wp_step. eapply wp_mono.
  { apply (page_in_spec c m2 g f pte s2 rd2 sd2); [apply Hf2|done|done|done|by fold p; rewrite Hv2|].
    fold p. by rewrite Hv2. }
  intros _ s3 (rd3 & sd3 & Hf3 & Hv3 & _). wp_step. wp_simpl. apply (Hfin s3 rd3 sd3 f); [|done|].
  - eapply faulted_trans; [exact Hf1|]. by eapply faulted_trans.
  - intros f' Hf'. by destruct (Hnr f').
Qed.

(** ** Properties *)

(** C5 (safety): demand paging is transparent.  [pg_getpage] of a page below
    2^31, on a machine with the paging invariant on which no host allocation
    fails; when the page is not in RAM,
    the frame of RAM and the slot of swap at the head of the free lists must
    lie inside their devices.  They do on devices in 4096-byte frames; on
    main's, which [init_memphy] cuts into 256-byte frames, only until the
    first [maxsz / 4096] frames are taken ([init_memphy_next_fits]), and past
    them the access is undefined.  Then the call is defined and keeps the
    invariant; every byte of every page of every process that has a value
    keeps it, across eviction to swap and fetching back; the entries of the
    other processes are not touched.  It returns 0 with the frame in which
    the page now is, and changes no device when the page was resident; it
    returns -1 only for a page that is not resident while RAM is full and
    there is no page to evict or no free swap slot. *)
Theorem page_fault_transparent c m g s rd sd :
  mem_inv s rd sd -> caller_ok c s m -> registered c s ->
  ((forall f, view_of s (p_mm c) g <> Resident f) -> next_fits rd /\ next_fits sd) ->
  0 <= g < 2 ^ 31 ->
  wp (pg_getpage g c) (fun r s' => exists rd' sd',
    mem_inv s' rd' sd' /\ env_same s s' /\
    bytes_kept (view_of s) rd sd (view_of s') rd' sd' /\
    (forall q h, q <> p_mm c -> pte_of s' q h = pte_of s q h) /\
    ((exists f, r = (0, Some f) /\ view_of s' (p_mm c) g = Resident f) \/
     r = (-1, None) /\ ~ can_serve m rd sd /\ (forall f, view_of s (p_mm c) g <> Resident f)) /\
    (forall f, view_of s (p_mm c) g = Resident f -> r = (0, Some f) /\ rd' = rd /\ sd' = sd)) s.
Proof.
  intros Hi Hc Hr Hf Hg. eapply wp_mono; [by apply (pg_getpage_spec c m g s rd sd)|].
  intros r s' (rd' & sd' & [[H1 H2 H3 H4 _ _] Hres Hhit]). exists rd', sd'. split_and!; try done.
  destruct Hres as [?|(? & ? & ? & _)]; auto.
Qed.

(** Queueing pages and taking victims. *)
Fixpoint enlist_all (mm : Z) (gs : list Z) : M sys unit :=
  match gs with [] => ret tt | g :: gs => enlist_pgn_node mm g ;;; enlist_all mm gs end.
Fixpoint victims (mm : Z) (n : nat) : M sys (list (option Z)) :=
  match n with
  | O => ret []
  | S n => let* v := find_victim_page mm in let* vs := victims mm n in ret (v :: vs)
  end.

Lemma enlist_all_spec p gs : forall m s,
  mms s !! p = Some m -> s_host s = [] ->
  wp (enlist_all p gs) (fun _ s' => mms s' !! p = Some (set_fifo (rev gs ++ fifo_pgn m) m)) s.
Proof.
  induction gs as [|g gs IH]; intros m s Hm Hh; simpl.
  - wp_steps. rewrite Hm. by destruct m.
  - wp_step. unfold enlist_pgn_node. wp_step. apply wp_malloc_unchecked; [done|].
    eapply wp_upd_mm; [done|]. eapply wp_mono; [apply IH; [by simpl; rewrite lookup_insert_eq|done]|].
    intros ? s' Hs'. rewrite Hs'. simpl. by rewrite <- app_assoc.
Qed.

Lemma victims_spec p : forall l m s n,
  mms s !! p = Some m -> fifo_pgn m = rev l -> length l = n ->
  wp (victims p n) (fun r s' => r = Some <$> l) s.
Proof.
  induction l as [|g l IH]; intros m s n Hm Hl Hn; simpl in Hn; subst n; simpl; [by wp_steps|].
  unfold find_victim_page. wp_steps. eapply wp_get_mm; [done|]. rewrite Hl. simpl. rewrite last_snoc.
  wp_steps. eapply wp_upd_mm; [done|]. wp_steps.
  eapply wp_mono; [eapply (IH _ _ _); [by simpl; rewrite lookup_insert_eq| |done]|].
  - simpl. rewrite Hl. simpl. by rewrite removelast_last.
  - intros r s' ->. by wp_steps.
Qed.

(** Eviction is first in, first out.  Whatever pages are
    queued ([l] in order of arrival) and then enqueued, calling
    [find_victim_page] once for each of them returns all pages in the order
    in which they arrived. *)
Theorem victims_in_fifo_order p m l gs s :
  mms s !! p = Some m -> fifo_pgn m = rev l -> s_host s = [] ->
  wp (enlist_all p gs ;;; victims p (length (l ++ gs))) (fun r _ => r = Some <$> (l ++ gs)) s.
Proof.
  intros Hm Hl Hh. wp_step. eapply wp_mono; [by apply (enlist_all_spec p gs m)|].
  intros ? s' Hs'. eapply victims_spec; [exact Hs'| |done]. simpl. by rewrite Hl, rev_app_distr.
Qed.
