(* ===== verification/UserMem.v ===== *)
(** * Reading and writing user memory

    The theorems about [__write], [__read] and the kernel's accessors of user
    memory of [src/libmem.c], on top of the paging invariant of [VMem.v]. *)

From S2P Require Import Prelude Pte MemPhy Kernel PageTable Mm64 MmVm Syscall LibMem VMem.

(** The byte at address [a] of address space [p]; [None] for a page that was
    never resident. *)
Definition ubyte (s : sys) (rd sd : memphy_struct) (p a : Z) : option Z :=
  content rd sd (view_of s p (a / PAGING64_PAGESZ)) (a mod PAGING64_PAGESZ).

Lemma bytes_kept_ubyte s rd sd s' rd' sd' q a b :
  bytes_kept (view_of s) rd sd (view_of s') rd' sd' ->
  ubyte s rd sd q a = Some b -> ubyte s' rd' sd' q a = Some b.
Proof. intros Hk. apply Hk. unfold PAGING64_PAGESZ. lia. Qed.

Lemma page_off_mod a : page_off a = a mod PAGING64_PAGESZ.
Proof. unfold page_off. change (Z.shiftl 1 _ - 1) with (Z.ones 12). by rewrite Z.land_ones. Qed.

Lemma page_of_div a : Z.shiftr a PAGING64_ADDR_PT_SHIFT = a / PAGING64_PAGESZ.
Proof. unfold PAGING64_ADDR_PT_SHIFT. by rewrite Z.shiftr_div_pow2. Qed.

(** ** A byte of a resident page *)

Lemma set_byte_resident s rd sd p g f o v :
  mem_inv s rd sd -> view_of s p g = Resident f -> 0 <= o < PAGING64_PAGESZ ->
  let rd' := set_storage (<[f * PAGING64_PAGESZ + o := v]> (storage rd)) rd in
  let s' := at_dev (k_mram (os s)) rd' s (s_host s) in
  mem_inv s' rd' sd /\ content rd' sd (view_of s' p g) o = Some v /\
  forall q h o', (q, h, o') <> (p, g, o) -> 0 <= o' < PAGING64_PAGESZ ->
    content rd' sd (view_of s' q h) o' = content rd sd (view_of s q h) o'.
Proof.
  intros [Hm Hv] Hvf Ho rd' s'. unfold PAGING64_PAGESZ in *. split_and!.
  - split; [by apply (machine_ram _ _ rd)|]. destruct Hv. split; done.
  - change (view_of s' p g) with (view_of s p g). rewrite Hvf. simpl. unfold rd', fbyte, PAGING64_PAGESZ. by rewrite byte_at_put.
  - intros q h o' Hne Ho'. change (view_of s' q h) with (view_of s q h). destruct (view_of s q h) as [|x|x] eqn:Hx; try done.
    simpl. f_equal. unfold rd', fbyte, PAGING64_PAGESZ. apply byte_at_put_ne. intros Heq.
    assert (f = x /\ o = o') as [-> ->] by lia. apply Hne.
    assert (Hpg : (p, g) = (q, h)) by (by eapply (vi_inj _ _ _ _ Hv)). by simplify_eq.
Qed.

(** Physical addresses of frames that fit are small. *)
Lemma wp_phyaddr d f o (Q : Z -> sys -> Prop) s :
  fits d f -> storage_len d <= 2 ^ 25 -> 0 <= o < PAGING64_PAGESZ ->
  Q (f * PAGING64_PAGESZ + o) s -> wp (phyaddr_of f o) Q s.
Proof.
  unfold fits, PAGING64_PAGESZ. intros Hf Hl Ho HQ. unfold phyaddr_of, PAGING64_ADDR_PT_SHIFT.
  rewrite Z.shiftl_mul_pow2 by lia. change (2 ^ 12) with 4096. apply wp_int_arith; [lia|done].
Qed.

(** [SYSMEM_IO_WRITE] stores a byte in RAM. *)
Lemma wp_io_write c s rd sd phy v (Q : Z * sc_regs -> sys -> Prop) :
  machine s rd sd -> p_krnl c <> NULL -> registered c s ->
  0 <= phy < storage_len rd -> storage_len rd <= 2 ^ 25 -> - 2 ^ 7 <= v < 2 ^ 7 ->
  (forall r, Q r (at_dev (k_mram (os s)) (set_storage (<[phy := v]> (storage rd)) rd) s (s_host s))) ->
  wp (_syscall (p_krnl c) (pid c) 17 (mk_regs SYSMEM_IO_WRITE (u64 phy) (Some (u64 v)))) Q s.
Proof.
  intros Hm Hk Hr Hphy Hlen Hv HQ. destruct (mi_rok _ _ _ Hm) as [[Hrd _] _]. apply wp_memmap; [done..|].
  unfold memmap_op. cbn [a1 a2 a3]. wp_step. apply wp_deref_krnl; [done|].
  change (i32 SYSMEM_IO_WRITE) with SYSMEM_IO_WRITE.
  cbn [Z.eqb Pos.eqb SYSMEM_MAP_OP SYSMEM_INC_OP SYSMEM_SWP_OP SYSMEM_IO_READ SYSMEM_IO_WRITE].
  wp_steps. rewrite (u64_small phy), u32_small by lia.
  eapply wp_MEMPHY_write; [apply Hm|apply Hm|done|lia|]. rewrite set_devs_at_dev. wp_steps.
  replace (i8 (u64 v)) with v by (unfold i8, u64, wrapS, wrapU; lia). apply HQ.
Qed.

Section Access.
Context (c : pcb_t) (m : mm_struct) (s : sys) (rd sd : memphy_struct).
Hypothesis Hinv : mem_inv s rd sd.
Hypothesis Hc : caller_ok c s m.
Hypothesis Hreg : registered c s.

(** A fault of the page of address [a], if there is one, gets a frame and a
    slot within the devices. *)
Definition fault_fits (a : Z) : Prop :=
  (forall f, view_of s (p_mm c) (a / PAGING64_PAGESZ) <> Resident f) -> next_fits rd /\ next_fits sd.

(** The other address spaces keep their pages and the devices their frames;
    of the caller's absent pages only the one of address [a] may be used. *)
Definition settled (a : Z) (s' : sys) (rd' sd' : memphy_struct) : Prop :=
  (forall q h, q <> p_mm c -> view_of s' q h = view_of s q h) /\ same_pool rd rd' /\ same_pool sd sd' /\
  (forall h, h <> a / PAGING64_PAGESZ -> view_of s (p_mm c) h = Absent -> view_of s' (p_mm c) h = Absent).

(** What an access to address [a] of [c] leaves of memory. *)
Definition access_failed (a : Z) (s' : sys) (rd' sd' : memphy_struct) : Prop :=
  mem_inv s' rd' sd' /\ env_same s s' /\
  (~ can_serve m rd sd /\ (forall f, view_of s (p_mm c) (a / PAGING64_PAGESZ) <> Resident f) /\
   settled a s' rd' sd' /\ rd' = rd) /\
  forall q a b, ubyte s rd sd q a = Some b -> ubyte s' rd' sd' q a = Some b.

Definition written (a v : Z) (s' : sys) (rd' sd' : memphy_struct) : Prop :=
  mem_inv s' rd' sd' /\ env_same s s' /\
  (ubyte s' rd' sd' (p_mm c) a = Some v /\ (exists f, view_of s' (p_mm c) (a / PAGING64_PAGESZ) = Resident f) /\
   settled a s' rd' sd') /\
  forall q a' b, (q, a') <> (p_mm c, a) -> ubyte s rd sd q a' = Some b -> ubyte s' rd' sd' q a' = Some b.

Lemma faulted_settled a s' rd' sd' :
  faulted (p_mm c) (a / PAGING64_PAGESZ) s rd sd s' rd' sd' -> settled a s' rd' sd'.
Proof.
  intros Hf. split; [|split_and!; apply Hf]. intros q h Hq. unfold view_of. by rewrite (ft_others _ _ _ _ _ _ _ _ Hf).
Qed.

(** A byte stored in RAM afterwards changes nothing of this. *)
Lemma settled_put a s1 rd1 sd1 x v :
  settled a s1 rd1 sd1 -> let rd2 := set_storage (<[x := v]> (storage rd1)) rd1 in
  settled a (at_dev (k_mram (os s1)) rd2 s1 (s_host s1)) rd2 sd1.
Proof.
  intros (H1 & H2 & H3 & H4). split_and!; [exact H1| |exact H3|exact H4]. etransitivity; [exact H2|by split].
Qed.

Lemma getpage_byte a g r s1 rd1 sd1 :
  getpage_post c m g s rd sd r s1 rd1 sd1 -> g = a / PAGING64_PAGESZ ->
  r = (-1, None) /\ access_failed a s1 rd1 sd1 \/
  exists f, r = (0, Some f) /\ view_of s1 (p_mm c) g = Resident f /\ fits rd1 f /\
    storage_len rd1 <= 2 ^ 25 /\ mem_inv s1 rd1 sd1.
Proof.
  intros [Hf Hr _] ->. pose proof (ft_inv _ _ _ _ _ _ _ _ Hf) as Hi1. pose proof Hi1 as [Hm1 Hv1].
  destruct Hr as [(f & -> & Hvf)|(-> & Hns & Hnr & _ & Hrd)]; [right|left].
  - exists f. split_and!; try done; [by eapply (vi_res _ _ _ _ Hv1)|apply (mi_rok _ _ _ Hm1)].
  - split; [done|]. split_and!; [done|apply Hf|done|done|by eapply faulted_settled|done|].
    intros q a' b. apply bytes_kept_ubyte, Hf.
Qed.

Lemma pg_setval_spec a v :
  fault_fits a -> 0 <= a < 2 ^ 31 -> - 2 ^ 7 <= v < 2 ^ 7 ->
  wp (pg_setval a v c)
     (fun r s' => exists rd' sd',
        r = 0 /\ written a v s' rd' sd' \/ r = -1 /\ access_failed a s' rd' sd') s.
Proof.
  intros Hfit0 Ha Hv. unfold pg_setval. rewrite page_off_mod, page_of_div.
  unfold fault_fits in Hfit0. unfold PAGING64_PAGESZ at 1 2. unfold PAGING64_PAGESZ at 1 in Hfit0.
  set (g := a / 4096). set (o := a mod 4096).
  assert (Ho : 0 <= o < PAGING64_PAGESZ) by (unfold PAGING64_PAGESZ; lia).
  wp_step. eapply wp_mono; [apply (pg_getpage_spec c m g s rd sd); try done; lia|].
  intros r s1 (rd1 & sd1 & Hgp). pose proof (gp_faulted _ _ _ _ _ _ _ _ _ _ Hgp) as Hf.
  destruct (getpage_byte a _ _ _ _ _ Hgp eq_refl) as [[-> Hfail]|(f & -> & Hvf & Hfit & Hlen & Hi1)];
    cbn [Z.eqb Pos.eqb negb]; wp_steps.
  { exists rd1, sd1. by right. }
  eapply wp_phyaddr; [done|done|done|]. wp_steps.
  assert (Hphy : 0 <= f * PAGING64_PAGESZ + o < 2 ^ 25) by (unfold fits, PAGING64_PAGESZ in *; lia).
  apply (wp_io_write c s1 rd1 sd1); [apply Hi1|apply Hc|eapply registered_same; [apply Hf|done]|unfold fits in *; lia|done|done|].
  intros r. wp_steps.
  destruct (set_byte_resident s1 rd1 sd1 (p_mm c) g f o v Hi1 Hvf Ho) as (Hi2 & Hb & Hoth).
  eexists _, sd1. left. split; [done|].
  split_and!; [done| |done|by exists f|eapply settled_put, faulted_settled, Hf|].
  - etransitivity; [apply Hf|apply env_same_dev].
  - intros q a' b Hne Hb'. unfold ubyte, PAGING64_PAGESZ in *. rewrite Hoth.
    + apply (ft_bytes _ _ _ _ _ _ _ _ Hf); [unfold PAGING64_PAGESZ; lia|done].
    + unfold g, o. intros [= -> Hd Hmod]. apply Hne. f_equal. lia.
    + lia.
Qed.

(** What an access to address [a] leaves of memory when it stores nothing. *)
Definition accessed (a : Z) (s' : sys) (rd' sd' : memphy_struct) : Prop :=
  mem_inv s' rd' sd' /\ env_same s s' /\ settled a s' rd' sd' /\
  forall q a' b, ubyte s rd sd q a' = Some b -> ubyte s' rd' sd' q a' = Some b.

Lemma pg_getval_spec a :
  fault_fits a -> 0 <= a < 2 ^ 31 ->
  wp (pg_getval a c) (fun r s' => r.2 = None /\ exists rd' sd', accessed a s' rd' sd' /\
        (r.1 = 0 \/ r.1 = -1 /\ ~ can_serve m rd sd)) s.
Proof.
  intros Hfit Ha. unfold pg_getval. rewrite page_off_mod, page_of_div.
  assert (Hg : 0 <= a / PAGING64_PAGESZ < 2 ^ 31) by (unfold PAGING64_PAGESZ; lia).
  wp_step. eapply wp_mono; [by apply (pg_getpage_spec c m _ s rd sd)|].
  intros r s1 (rd1 & sd1 & Hgp). pose proof (gp_faulted _ _ _ _ _ _ _ _ _ _ Hgp) as Hf.
  pose proof (faulted_settled a _ _ _ Hf) as Hset.
  destruct (getpage_byte a _ _ _ _ _ Hgp eq_refl)
    as [[-> (H1 & He & [H2 _] & H3)]|(f & -> & Hvf & Hfitf & Hlen & Hi1)]; cbn [Z.eqb Pos.eqb negb]; wp_steps.
  { split; [done|]. exists rd1, sd1. split; [done|]. by right. }
  assert (Ho : 0 <= a mod PAGING64_PAGESZ < PAGING64_PAGESZ) by (unfold PAGING64_PAGESZ; lia).
  eapply wp_phyaddr; [done..|]. wp_steps.
  apply wp_memmap; [apply Hc|eapply registered_same; [apply Hf|done]|].
  unfold memmap_op. cbn [a1 a2 a3]. wp_step. apply wp_deref_krnl; [apply Hc|].
  change (i32 SYSMEM_IO_READ) with SYSMEM_IO_READ.
  cbn [Z.eqb Pos.eqb SYSMEM_MAP_OP SYSMEM_INC_OP SYSMEM_SWP_OP SYSMEM_IO_READ]. wp_steps.
  pose proof Hi1 as [Hm1 _]. destruct (mi_rok _ _ _ Hm1) as [[Hrd _] _].
  unfold fits, PAGING64_PAGESZ in *. rewrite u64_small, u32_small by lia.
  eapply wp_MEMPHY_read; [apply Hm1|apply Hm1|done|lia|]. wp_steps. split; [done|].
  exists rd1, sd1. split; [|by left]. split_and!; [done|apply Hf|done|].
  intros q a' b. apply bytes_kept_ubyte, Hf.
Qed.

(** The kernel's path to a user byte ends at the byte's physical address. *)
Definition located (a : Z) (r : option Z) (s' : sys) (rd' sd' : memphy_struct) : Prop :=
  (exists phy, r = Some phy /\ mem_inv s' rd' sd' /\ env_same s s' /\
     0 <= phy < storage_len rd' /\ ubyte s' rd' sd' (p_mm c) a = Some (byte_at rd' phy) /\
     (exists f, view_of s' (p_mm c) (a / PAGING64_PAGESZ) = Resident f /\
                phy = f * PAGING64_PAGESZ + a mod PAGING64_PAGESZ /\ settled a s' rd' sd') /\
     forall q a' b, ubyte s rd sd q a' = Some b -> ubyte s' rd' sd' q a' = Some b) \/
  r = None /\ access_failed a s' rd' sd'.

(** The region [rg] of [rgid] holds the offset [off], below 2 GiB. *)
Definition in_region (rgid off : Z) (rg : vm_rg_struct) : Prop :=
  0 <= rgid < PAGING_MAX_SYMTBL_SZ /\ arr_get (symrgtbl m) rgid = Some rg /\
  0 <= rg_start rg /\ 0 <= off /\ rg_start rg + off < rg_end rg <= 2 ^ 31.

(** The region is unused, or the offset is past its end. *)
Definition outside_region (rgid off : Z) (rg : vm_rg_struct) : Prop :=
  0 <= rgid < PAGING_MAX_SYMTBL_SZ /\ arr_get (symrgtbl m) rgid = Some rg /\
  (rg_start rg = 0 /\ rg_end rg = 0 \/ rg_end rg <= u64 (rg_start rg + off)).

Lemma get_symrg_spec rgid rg (Q : vm_rg_struct -> sys -> Prop) :
  arr_get (symrgtbl m) rgid = Some rg -> Q rg s -> wp (get_symrg (p_mm c) rgid) Q s.
Proof.
  intros Hrg HQ. unfold get_symrg. wp_step. eapply wp_get_mm; [apply Hc|].
  by eapply wp_from_opt.
Qed.

Lemma region_addr_in rgid off rg (Q : option Z -> sys -> Prop) :
  in_region rgid off rg -> Q (Some (rg_start rg + off)) s -> wp (region_addr (p_mm c) rgid off) Q s.
Proof.
  intros (Hid & Hrg & Hs & Ho & He) HQ. unfold region_addr, get_symrg_byid. unfold PAGING_MAX_SYMTBL_SZ in *.
  replace ((rgid <? 0) || (30 <? rgid)) with false by lia.
  wp_step. eapply get_symrg_spec; [done|]. rewrite u64_small by lia.
  replace ((rg_start rg =? 0) && (rg_end rg =? 0)) with false by lia.
  replace (rg_end rg <=? rg_start rg + off) with false by lia. by wp_steps.
Qed.

Lemma region_addr_out rgid off rg (Q : option Z -> sys -> Prop) :
  outside_region rgid off rg -> Q None s -> wp (region_addr (p_mm c) rgid off) Q s.
Proof.
  intros (Hid & Hrg & Hout) HQ. unfold region_addr, get_symrg_byid. unfold PAGING_MAX_SYMTBL_SZ in *.
  replace ((rgid <? 0) || (30 <? rgid)) with false by lia.
  wp_step. eapply get_symrg_spec; [done|].
  destruct ((rg_start rg =? 0) && (rg_end rg =? 0)) eqn:Hz; [by wp_steps|].
  replace (rg_end rg <=? u64 (rg_start rg + off)) with true; [by wp_steps|].
  destruct Hout as [[H1 H2]|Hle]; [by rewrite H1, H2 in Hz|]. symmetry. by apply Z.leb_le.
Qed.

Lemma rgid_guard rgid : 0 <= rgid < PAGING_MAX_SYMTBL_SZ ->
  (rgid <? 0) || (PAGING_MAX_SYMTBL_SZ <=? rgid) = false.
Proof. unfold PAGING_MAX_SYMTBL_SZ. lia. Qed.

Lemma user_phyaddr_spec rgid off rg :
  in_region rgid off rg -> fault_fits (rg_start rg + off) ->
  wp (user_phyaddr (Some c) rgid off)
     (fun r s' => exists rd' sd', located (rg_start rg + off) r s' rd' sd') s.
Proof.
  intros Hin Hfit. pose proof Hin as (Hid & Hrg & Hs & Ho & He). pose proof Hc as [Hk Hp Hmm].
  unfold user_phyaddr. rewrite (proj2 (Z.eqb_neq (p_krnl c) _)), (proj2 (Z.eqb_neq (p_mm c) _)) by done.
  rewrite (rgid_guard _ Hid). wp_simpl. wp_step. eapply get_symrg_spec; [done|].
  rewrite u64_small by lia. set (a := rg_start rg + off) in *.
  replace ((rg_start rg =? 0) && (rg_end rg =? 0)) with false by lia.
  replace (rg_end rg <=? a) with false by lia. rewrite page_of_div, page_off_mod.
  assert (Hg : 0 <= a / PAGING64_PAGESZ < 2 ^ 31) by (unfold PAGING64_PAGESZ; lia).
  rewrite i32_small by lia. wp_simpl. wp_step.
  eapply wp_mono; [apply (pg_getpage_spec c m _ s rd sd); done|].
  intros r s1 (rd1 & sd1 & Hgp). pose proof (gp_faulted _ _ _ _ _ _ _ _ _ _ Hgp) as Hf.
  destruct (getpage_byte a _ _ _ _ _ Hgp eq_refl) as [[-> Hfail]|(f & -> & Hvf & Hfitf & Hlen & Hi1)];
    cbn [Z.eqb Pos.eqb negb]; wp_steps.
  { exists rd1, sd1. by right. }
  eapply wp_phyaddr; [done|done|unfold PAGING64_PAGESZ; lia|]. wp_steps. exists rd1, sd1. left.
  unfold fits in Hfitf. unfold PAGING64_PAGESZ in *. rewrite u64_small by lia.
  eexists. split_and!; [done|done|apply Hf|lia|lia| |exists f; split_and!; [done|done|by eapply faulted_settled]|].
  - unfold ubyte, PAGING64_PAGESZ. rewrite Hvf. done.
  - intros q a' b. apply bytes_kept_ubyte, Hf.
Qed.

Lemma __write_spec vmaid rgid off rg v :
  in_region rgid off rg -> fault_fits (rg_start rg + off) -> - 2 ^ 7 <= v < 2 ^ 7 ->
  wp (__write (Some c) vmaid rgid off v)
     (fun r s' => exists rd' sd', r = 0 /\ written (rg_start rg + off) v s' rd' sd' \/
                                 r = -1 /\ access_failed (rg_start rg + off) s' rd' sd') s.
Proof.
  intros Hin Hfit Hv. pose proof Hin as (Hid & _ & Hs & Ho & He). unfold __write.
  rewrite (caller_ok_krnl _ _ _ Hc). rewrite <- orb_assoc, (rgid_guard _ Hid). wp_simpl. wp_step.
  eapply region_addr_in; [done|]. rewrite i32_small by lia. apply pg_setval_spec; [done|lia|done].
Qed.

Lemma __write_user_mem_spec vmaid rgid off rg v :
  in_region rgid off rg -> fault_fits (rg_start rg + off) ->
  wp (__write_user_mem (Some c) vmaid rgid off v)
     (fun r s' => exists rd' sd', r = 0 /\ written (rg_start rg + off) v s' rd' sd' \/
                                 r = -1 /\ access_failed (rg_start rg + off) s' rd' sd') s.
Proof.
  intros Hin Hfit. unfold __write_user_mem. wp_step.
  eapply wp_mono; [by eapply user_phyaddr_spec|]. set (a := rg_start rg + off).
  intros r s1 (rd1 & sd1 & [(phy & -> & Hi1 & He & Hphy & _ & (f & Hvf & -> & Hset) & Hk)|[-> Hfail]]).
  2: { wp_steps. exists rd1, sd1. by right. }
  wp_steps. pose proof Hi1 as [Hm1 _]. destruct (mi_rok _ _ _ Hm1) as [[Hrd _] _].
  eapply wp_MEMPHY_write; [apply Hm1|apply Hm1|done|done|]. rewrite set_devs_at_dev.
  cbn [Z.eqb negb]. wp_steps.
  assert (Ho : 0 <= a mod PAGING64_PAGESZ < PAGING64_PAGESZ) by (unfold PAGING64_PAGESZ; lia).
  destruct (set_byte_resident s1 rd1 sd1 (p_mm c) _ f _ v Hi1 Hvf Ho) as (Hi2 & Hb & Hoth).
  eexists _, sd1. left. split; [done|]. split_and!; [done| |done|by exists f|by apply settled_put|].
  - etransitivity; [exact He|apply env_same_dev].
  - intros q a' b Hne Hb'. unfold ubyte, PAGING64_PAGESZ in *. rewrite Hoth; [by apply Hk| |lia].
    intros [= -> Hd Hmod]. apply Hne. f_equal. lia.
Qed.

Lemma __read_user_mem_spec vmaid rgid off rg :
  in_region rgid off rg -> fault_fits (rg_start rg + off) ->
  wp (__read_user_mem (Some c) vmaid rgid off)
     (fun r s' => exists rd' sd',
        (exists b, r = (0, Some b) /\ mem_inv s' rd' sd' /\ env_same s s' /\
           ubyte s' rd' sd' (p_mm c) (rg_start rg + off) = Some b /\
           forall q a' b, ubyte s rd sd q a' = Some b -> ubyte s' rd' sd' q a' = Some b) \/
        r = (-1, None) /\ access_failed (rg_start rg + off) s' rd' sd') s.
Proof.
  intros Hin Hfit. unfold __read_user_mem. wp_step.
  eapply wp_mono; [by eapply user_phyaddr_spec|]. set (a := rg_start rg + off).
  intros r s1 (rd1 & sd1 & [(phy & -> & Hi1 & He & Hphy & Hb & _ & Hk)|[-> Hfail]]).
  2: { wp_steps. exists rd1, sd1. by right. }
  wp_steps. pose proof Hi1 as [Hm1 _]. destruct (mi_rok _ _ _ Hm1) as [[Hrd _] _].
  eapply wp_MEMPHY_read; [apply Hm1|apply Hm1|done|done|]. cbn [Z.eqb negb]. wp_steps.
  exists rd1, sd1. left. by eexists.
Qed.
End Access.

Lemma forget_vm_symrgtbl m m' : forget_vm m' = forget_vm m -> symrgtbl m' = symrgtbl m.
Proof. by intros [= ? ? ? ?]. Qed.

(** ** Properties *)

(** C6 (functional): a write through a region.  The machine has the paging
    invariant and no host allocation fails; the region ends at or below 2 GiB (beyond, [write_past_2GiB]);
    if the page is not in RAM, the frame of RAM and the slot of swap at the
    head of the free lists lie inside their devices - true of devices in
    4096-byte frames, and of main's, which [init_memphy] cuts into 256-byte
    frames, only for the first [maxsz / 4096].  Then [__write] of a byte at
    an offset within the region is defined; when it returns 0 the byte at
    that address is the value written and every other byte of every process
    that had a value - in RAM or in swap - keeps it; it fails, with -1 and
    all bytes kept, only when RAM is full and nothing can be evicted (no
    queued page, or no free swap slot).  The invariant holds afterwards. *)
Theorem user_write_frame c m s rd sd vmaid rgid off rg v :
  mem_inv s rd sd -> caller_ok c s m -> registered c s ->
  in_region m rgid off rg -> fault_fits c s rd sd (rg_start rg + off) -> - 2 ^ 7 <= v < 2 ^ 7 ->
  wp (__write (Some c) vmaid rgid off v) (fun r s' => exists rd' sd',
    mem_inv s' rd' sd' /\ env_same s s' /\
    (r = 0 /\ ubyte s' rd' sd' (p_mm c) (rg_start rg + off) = Some v /\
       (forall q a b, (q, a) <> (p_mm c, rg_start rg + off) ->
          ubyte s rd sd q a = Some b -> ubyte s' rd' sd' q a = Some b) \/
     r = -1 /\ ~ can_serve m rd sd /\
       (forall q a b, ubyte s rd sd q a = Some b -> ubyte s' rd' sd' q a = Some b))) s.
Proof.
  intros Hi Hc Hr Hin Hfit Hv. eapply wp_mono; [by apply (__write_spec c m s rd sd)|].
  intros r s' (rd' & sd' & [(-> & H1 & H2 & [H3 _] & H4)|(-> & H1 & H2 & [H3 _] & H4)]); exists rd', sd'; eauto 8.
Qed.

(** C7 (roundtrip): what a process writes, the kernel reads.  On a machine with
    the paging invariant on which no host allocation fails, in a region that ends at or below 2 GiB (beyond,
    [write_past_2GiB] shows that it fails), and, if the page is not in RAM,
    with the frame of RAM and the slot of swap at the head of the free lists
    inside their devices (4096-byte frames; on main's devices only the first
    [maxsz / 4096] frames): [__write] followed by [__read_user_mem] of the
    same region and offset returns the byte written, also when the write had
    to evict a page or to fetch the page from swap; the pair fails only when
    the fault of the write could not be served. *)
Theorem user_write_read_back c m s rd sd vmaid rgid off rg v :
  mem_inv s rd sd -> caller_ok c s m -> registered c s ->
  in_region m rgid off rg -> fault_fits c s rd sd (rg_start rg + off) -> - 2 ^ 7 <= v < 2 ^ 7 ->
  wp (let* w := __write (Some c) vmaid rgid off v in
      if w =? 0 then __read_user_mem (Some c) vmaid rgid off else ret (w, None))
     (fun r _ => r = (0, Some v) \/ r = (-1, None) /\ ~ can_serve m rd sd) s.
Proof.
  intros Hi Hc Hr Hin Hfit Hv. wp_step. eapply wp_mono; [by apply (__write_spec c m s rd sd)|].
  intros r s' (rd' & sd' & [(-> & H1 & He & [Hb [[f Hf] _]] & _)|(-> & H1 & He & [H3 _] & H4)]).
  2: { cbn [Z.eqb]. wp_steps. by right. }
  cbn [Z.eqb]. destruct (env_same_caller _ _ _ _ He Hc) as (m' & Hc' & Hm').
  assert (Hin' : in_region m' rgid off rg) by (unfold in_region; by rewrite (forget_vm_symrgtbl _ _ Hm')).
  pose proof (registered_same _ _ _ He Hr) as Hr'.
  eapply wp_mono; [apply (__read_user_mem_spec c m' s' rd' sd' H1 Hc' Hr' vmaid rgid off rg Hin')|].
  - intros Hn. by destruct (Hn f).
  - intros r s'' (rd'' & sd'' & [(b & -> & _ & _ & Hb' & Hk)|(_ & _ & _ & [_ [Hn _]] & _)]).
    + left. apply (Hk _ _ _) in Hb. by simplify_eq.
    + by destruct (Hn f).
Qed.

(** The kernel's read of user memory.  [__read_user_mem] at
    an offset within a region returns the byte at that address - the one it
    had before, if the page had a value - with every byte of every process
    kept, and fails only when the fault cannot be served. *)
Theorem kernel_reads_user_byte c m s rd sd vmaid rgid off rg :
  mem_inv s rd sd -> caller_ok c s m -> registered c s ->
  in_region m rgid off rg -> fault_fits c s rd sd (rg_start rg + off) ->
  wp (__read_user_mem (Some c) vmaid rgid off) (fun r s' => exists rd' sd',
    mem_inv s' rd' sd' /\
    (forall q a b, ubyte s rd sd q a = Some b -> ubyte s' rd' sd' q a = Some b) /\
    ((exists b, r = (0, Some b) /\ ubyte s' rd' sd' (p_mm c) (rg_start rg + off) = Some b /\
        forall b0, ubyte s rd sd (p_mm c) (rg_start rg + off) = Some b0 -> b = b0) \/
     r = (-1, None) /\ ~ can_serve m rd sd)) s.
Proof.
  intros Hi Hc Hr Hin Hfit. eapply wp_mono; [by apply (__read_user_mem_spec c m s rd sd)|].
  intros r s' (rd' & sd' & [(b & -> & H1 & _ & Hb & Hk)|(-> & H1 & _ & [H3 _] & H4)]); exists rd', sd'.
  - split_and!; [done|done|]. left. exists b. split_and!; [done|done|]. intros b0 Hb0.
    apply Hk in Hb0. by simplify_eq.
  - split_and!; [done|done|]. by right.
Qed.

(** C40 (error): no access outside a region.  When the symbol has no region or
    the offset (with 64-bit wrap-around) reaches its end, the four accessors
    answer -1, deliver no byte and change nothing. *)
Theorem access_outside_region_rejected c m s vmaid rgid off rg v :
  caller_ok c s m -> outside_region m rgid off rg ->
  wp (__write (Some c) vmaid rgid off v) (fun r s' => r = -1 /\ s' = s) s /\
  wp (__read (Some c) vmaid rgid off) (fun r s' => r = (-1, None) /\ s' = s) s /\
  wp (__write_user_mem (Some c) vmaid rgid off v) (fun r s' => r = -1 /\ s' = s) s /\
  wp (__read_user_mem (Some c) vmaid rgid off) (fun r s' => r = (-1, None) /\ s' = s) s.
Proof.
  intros Hc Hout. pose proof Hout as (Hid & Hrg & Ho). pose proof Hc as [Hk Hp Hm].
  assert (Hup : forall Q : option Z -> sys -> Prop, Q None s -> wp (user_phyaddr (Some c) rgid off) Q s).
  { intros Q HQ. unfold user_phyaddr.
    rewrite (proj2 (Z.eqb_neq (p_krnl c) _)), (proj2 (Z.eqb_neq (p_mm c) _)), (rgid_guard _ Hid) by done.
    wp_simpl. wp_step. eapply get_symrg_spec; [done|done|].
    destruct ((rg_start rg =? 0) && (rg_end rg =? 0)) eqn:Hz; [by wp_steps|].
    replace (rg_end rg <=? u64 (rg_start rg + off)) with true; [by wp_steps|].
    destruct Ho as [[H1 H2]|Hle]; [by rewrite H1, H2 in Hz|]. symmetry. by apply Z.leb_le. }
  split_and!.
  - unfold __write. rewrite (caller_ok_krnl _ _ _ Hc), <- orb_assoc, (rgid_guard _ Hid). wp_simpl. wp_step.
    eapply region_addr_out; [done..|]. by wp_steps.
  - unfold __read. rewrite (caller_ok_krnl _ _ _ Hc), <- orb_assoc, (rgid_guard _ Hid). wp_simpl. wp_step.
    eapply region_addr_out; [done..|]. by wp_steps.
  - unfold __write_user_mem. wp_step. apply Hup. by wp_steps.
  - unfold __read_user_mem. wp_step. apply Hup. by wp_steps.
Qed.

(** [READ] delivers no value.  [__read] at an offset within
    a region faults the page in and performs the read system call, but the
    byte stays in the registers of [pg_getval]: whether the call returns 0 or
    -1, the caller's byte is not assigned, and [libread] copies an
    indeterminate byte to its destination. *)
Theorem read_delivers_no_value c m s rd sd vmaid rgid off rg :
  mem_inv s rd sd -> caller_ok c s m -> registered c s ->
  in_region m rgid off rg -> fault_fits c s rd sd (rg_start rg + off) ->
  wp (__read (Some c) vmaid rgid off) (fun r s' => r.2 = None /\
    exists rd' sd', mem_inv s' rd' sd' /\ (r.1 = 0 \/ r.1 = -1 /\ ~ can_serve m rd sd) /\
      (forall q a b, ubyte s rd sd q a = Some b -> ubyte s' rd' sd' q a = Some b)) s.
Proof.
  intros Hi Hc Hr Hin Hfit. pose proof Hin as (Hid & _ & Hs & Ho & He). unfold __read.
  rewrite (caller_ok_krnl _ _ _ Hc), <- orb_assoc, (rgid_guard _ Hid). wp_simpl. wp_step.
  eapply region_addr_in; [done..|]. rewrite i32_small by lia.
  eapply wp_mono; [apply (pg_getval_spec c m s rd sd); first [done|lia]|].
  intros r s' (Hr2 & rd' & sd' & (H1 & _ & _ & H2) & H3). split; [done|]. by exists rd', sd'.
Qed.
