(* ===== verification/Bounds.v ===== *)
(** * Where the widths of integers end what the code can address

    [pg_getval] and [pg_setval] of [src/libmem.c] take their address as an
    [int], the kernel's [__read_user_mem] and [__write_user_mem] compute a
    64-bit one; a page-table entry of [src/mm64.c] has 13 bits for a frame. *)

From S2P Require Import Prelude Pte MemPhy Kernel PageTable Mm64 MmVm Syscall LibMem VMem UserMem.

Lemma wp_same {S A} (m m' : M S A) (Q : A -> S -> Prop) s : m s = m' s -> wp m' Q s -> wp m Q s.
Proof. unfold wp. by intros ->. Qed.

(** ** Addresses from 2 GiB on *)

(** The page at which an [int] address with the sign bit set ends up: its
    page number is negative, and the walk of the table keeps 45 bits of it. *)
Definition high_page (a : Z) : Z := 2 ^ 45 - 2 ^ 20 + a / PAGING64_PAGESZ.

Lemma high_page_pd a :
  2 ^ 31 <= a < 2 ^ 32 ->
  valid_pgn (high_page a) /\
  get_pd_from_pagenum (u64 (Z.shiftr (i32 a) PAGING64_ADDR_PT_SHIFT)) = get_pd_from_pagenum (high_page a).
Proof.
  intros Ha. unfold high_page. assert (Hv : valid_pgn (2 ^ 45 - 2 ^ 20 + a / PAGING64_PAGESZ)) by (unfold valid_pgn, PAGING64_PAGESZ; lia).
  split; [done|]. rewrite (get_pd_from_pagenum_spec _ Hv).
  unfold get_pd_from_pagenum, get_pd_from_address, PAGING64_ADDR_PT_SHIFT, PAGING64_PAGESZ in *.
  replace (i32 a) with (a - 2 ^ 32) by (unfold i32, wrapS; lia).
  rewrite Z.shiftl_mul_pow2, (Z.shiftr_div_pow2 (a - 2 ^ 32)) by lia.
  replace (u64 (u64 ((a - 2 ^ 32) / 2 ^ 12) * 2 ^ 12)) with (2 ^ 64 - 2 ^ 32 + a / 4096 * 4096) by (unfold u64, wrapU; lia).
  rewrite (Z.shiftr_div_pow2 _ 57) by lia.
  replace ((2 ^ 64 - 2 ^ 32 + a / 4096 * 4096) / 2 ^ 57) with 127 by lia. cbn [Z.eqb negb andb Pos.eqb].
  unfold PAGING64_ADDR_PGD_MASK, PAGING64_ADDR_P4D_MASK, PAGING64_ADDR_PUD_MASK, PAGING64_ADDR_PMD_MASK, PAGING64_ADDR_PT_MASK.
  rewrite !field_div by lia. rewrite pt_index_eq. do 2 f_equal; lia.
Qed.

Section Access.
Context (c : pcb_t) (sd : memphy_struct).

(** A state in which the process can access memory, RAM being [rd]. *)
Record ready (rd : memphy_struct) (s : sys) (m : mm_struct) : Prop := {
  rdy_machine : machine s rd sd;
  rdy_caller : caller_ok c s m;
  rdy_reg : registered c s;
}.

Lemma ready_step rd s m s' : ready rd s m -> pt_wf s' -> pt_step s s' -> exists m', ready rd s' m' /\ forget_vm m' = forget_vm m.
Proof.
  intros [Hm Hc Hr] Hwf Hst. pose proof (env_same_step _ _ Hst) as He.
  destruct (env_same_caller _ _ _ _ He Hc) as (m' & Hc' & Hm'). exists m'. split; [|done].
  split; [by eapply machine_step|done|by eapply registered_same].
Qed.

Lemma pte_get_entry_pd g g' s :
  get_pd_from_pagenum g = get_pd_from_pagenum g' -> pte_get_entry (Some c) g s = pte_get_entry (Some c) g' s.
Proof. intros Hg. unfold pte_get_entry, get_pte_ptr. by rewrite Hg. Qed.

(** The page of a number that walks like [g'] is in RAM. *)
Lemma getpage_hit rd g g' f s m (Q : Z * option Z -> sys -> Prop) :
  ready rd s m -> valid_pgn g' -> get_pd_from_pagenum (u64 g) = get_pd_from_pagenum g' -> view_of s (p_mm c) g' = Resident f ->
  (forall s' m', ready rd s' m' -> forget_vm m' = forget_vm m -> pt_step s s' -> Q (0, Some f) s') -> wp (pg_getpage g c) Q s.
Proof.
  intros Hrdy Hg Hpd Hf HQ.
  assert (Hget : forall s m, ready rd s m -> view_of s (p_mm c) g' = Resident f ->
    wp (pte_get_entry (Some c) (u64 g)) (fun pte s' => PAGING_PAGE_PRESENT pte = true /\ PAGING_FPN pte = f /\ pt_wf s' /\ pt_step s s') s).
  { intros s1 m1 [Hm1 Hc1 _] Hf1. eapply wp_same; [apply (pte_get_entry_pd _ _ s1 Hpd)|].
    eapply wp_mono; [apply (pte_get_entry_spec c m1); [apply Hm1|done|done]|]. intros pte s2 (-> & Hwf & Hst & _).
    destruct (view_Resident (u32 (pte_of s1 (p_mm c) g')) f) as [E1 E2]; [by rewrite view_u32|]. by split_and!. }
  unfold pg_getpage. wp_step. eapply wp_mono; [by eapply Hget|]. intros pte s1 (Hp1 & Hf1 & Hwf1 & Hst1).
  destruct (ready_step _ _ _ _ Hrdy Hwf1 Hst1) as (m1 & Hrdy1 & Hm1). rewrite Hp1. cbn [negb]. wp_steps.
  eapply wp_mono; [eapply Hget; [done|by rewrite (view_of_step _ _ _ _ Hst1)]|]. intros pte2 s2 (Hp2 & Hf2 & Hwf2 & Hst2).
  destruct (ready_step _ _ _ _ Hrdy1 Hwf2 Hst2) as (m2 & Hrdy2 & Hm2). wp_steps. rewrite Hf2. apply (HQ s2 m2); [done|congruence|].
  by etransitivity.
Qed.

(** [__write] within a region: its address is an [int]. *)
Lemma __write_addr m s vmaid rgid off rg v :
  caller_ok c s m -> 0 <= rgid < PAGING_MAX_SYMTBL_SZ -> arr_get (symrgtbl m) rgid = Some rg ->
  0 <= rg_start rg -> 0 <= off -> rg_start rg + off < rg_end rg < 2 ^ 64 ->
  __write (Some c) vmaid rgid off v s = pg_setval (i32 (rg_start rg + off)) v c s.
Proof.
  intros Hc Hid Hrg Hs Ho He. unfold __write. rewrite (caller_ok_krnl _ _ _ Hc), <- orb_assoc, (rgid_guard _ Hid). cbn [orb].
  unfold region_addr, get_symrg_byid, get_symrg, get_mm, PAGING_MAX_SYMTBL_SZ in *.
  replace ((rgid <? 0) || (30 <? rgid)) with false by lia.
  unfold bind, gets, from_opt, ret. rewrite (co_desc _ _ _ Hc), Hrg. rewrite u64_small by lia.
  replace ((rg_start rg =? 0) && (rg_end rg =? 0)) with false by lia.
  by replace (rg_end rg <=? rg_start rg + off) with false by lia.
Qed.

(** [pg_setval] of a page that is in RAM. *)
Lemma pg_setval_hit rd a g f v s m (Q : Z -> sys -> Prop) :
  ready rd s m -> valid_pgn g -> get_pd_from_pagenum (u64 (Z.shiftr a PAGING64_ADDR_PT_SHIFT)) = get_pd_from_pagenum g ->
  view_of s (p_mm c) g = Resident f -> fits rd f -> - 2 ^ 7 <= v < 2 ^ 7 ->
  (forall s1 m1, ready rd s1 m1 -> forget_vm m1 = forget_vm m -> pt_step s s1 ->
     let rd' := set_storage (<[f * PAGING64_PAGESZ + a mod PAGING64_PAGESZ := v]> (storage rd)) rd in
     Q 0 (at_dev (k_mram (os s1)) rd' s1 (s_host s1))) ->
  wp (pg_setval a v c) Q s.
Proof.
  intros Hrdy Hg Hpd Hf Hfit Hv HQ. unfold pg_setval. rewrite page_off_mod. wp_step. eapply getpage_hit; [done..|].
  intros s1 m1 Hrdy1 Hm1 Hst1. destruct Hrdy1 as [M1 C1 R1] eqn:E1. clear E1. destruct (mi_rok _ _ _ M1) as [_ Hlen].
  assert (Ho : 0 <= a mod PAGING64_PAGESZ < PAGING64_PAGESZ) by (unfold PAGING64_PAGESZ; lia).
  cbn [Z.eqb negb]. wp_steps. eapply wp_phyaddr; [done..|]. wp_steps.
  eapply (wp_io_write c s1 rd sd); [done|apply C1|done| |done|done|].
  - unfold fits, PAGING64_PAGESZ in *. lia.
  - intros r. wp_steps. by apply (HQ s1 m1).
Qed.

(** [__read_user_mem] of a byte in RAM. *)
Lemma __read_user_mem_hit rd m s vmaid rgid off rg f (Q : Z * option Z -> sys -> Prop) :
  ready rd s m -> 0 <= rgid < PAGING_MAX_SYMTBL_SZ -> arr_get (symrgtbl m) rgid = Some rg ->
  0 <= rg_start rg -> 0 <= off -> let a := rg_start rg + off in
  0 < a < rg_end rg -> a < 2 ^ 43 -> view_of s (p_mm c) (a / PAGING64_PAGESZ) = Resident f -> fits rd f ->
  (forall s', devs s' = devs s -> os s' = os s -> Q (0, Some (fbyte rd f (a mod PAGING64_PAGESZ))) s') ->
  wp (__read_user_mem (Some c) vmaid rgid off) Q s.
Proof.
  intros Hrdy Hid Hrg Hs Ho a Ha He Hf Hfit HQ. pose proof Hrdy as [Hm [Hk Hp Hmm] Hr].
  unfold __read_user_mem, user_phyaddr. rewrite (proj2 (Z.eqb_neq (p_krnl c) _)), (proj2 (Z.eqb_neq (p_mm c) _)) by done.
  rewrite (rgid_guard _ Hid). wp_simpl. do 2 wp_step. eapply (get_symrg_spec c m); [done|done|].
  fold a. rewrite u64_small by lia.
  replace ((rg_start rg =? 0) && (rg_end rg =? 0)) with false by lia. replace (rg_end rg <=? a) with false by lia.
  rewrite page_of_div, page_off_mod.
  assert (Hg : 0 <= a / PAGING64_PAGESZ < 2 ^ 31) by (unfold PAGING64_PAGESZ; lia).
  assert (Hmod : 0 <= a mod PAGING64_PAGESZ < PAGING64_PAGESZ) by (unfold PAGING64_PAGESZ; lia).
  rewrite i32_small by lia. wp_step.
  eapply (getpage_hit rd _ (a / PAGING64_PAGESZ)); [done|unfold valid_pgn; lia|by rewrite u64_small by lia|done|].
  intros s1 m1 [M1 C1 R1] _ Hst1. cbn [Z.eqb negb]. wp_steps. destruct (mi_rok _ _ _ M1) as [[Hrd _] Hlen].
  eapply wp_phyaddr; [done..|]. wp_steps. unfold fits, PAGING64_PAGESZ in *. rewrite u64_small by lia.
  eapply wp_MEMPHY_read; [apply M1|apply M1|done|lia|]. cbn [Z.eqb negb]. wp_steps.
  apply HQ; [by apply ps_devs|]. apply (es_os _ _ (env_same_step _ _ Hst1)).
Qed.

(** C31 (bounds): user memory ends at 2 GiB.  For an address from 2 GiB to
    4 GiB within a region, [__write] stores its byte - its address is an
    [int], and negative - in the page 2^45 - 2^20 further, not in the page of
    the address.  Stated for two pages that are both in RAM, in different
    frames inside it: [__read_user_mem] of the same region and offset, which
    computes the address with 64 bits, returns what the page of the address
    held before, and the byte written is in the frame of the other.  And
    wherever the pages are, the offset 4 GiB further, when it is still in the
    region, is the same access for [__write]. *)
Theorem write_past_2GiB rd m s vmaid rgid off rg v f f' :
  ready rd s m -> 0 <= rgid < PAGING_MAX_SYMTBL_SZ -> arr_get (symrgtbl m) rgid = Some rg -> 0 <= rg_start rg -> 0 <= off ->
  let a := rg_start rg + off in
  2 ^ 31 <= a < 2 ^ 32 -> a < rg_end rg < 2 ^ 64 -> - 2 ^ 7 <= v < 2 ^ 7 ->
  view_of s (p_mm c) (high_page a) = Resident f -> view_of s (p_mm c) (a / PAGING64_PAGESZ) = Resident f' ->
  f <> f' -> fits rd f -> fits rd f' ->
  wp (let* w := __write (Some c) vmaid rgid off v in
      let* r := __read_user_mem (Some c) vmaid rgid off in ret (w, r))
     (fun r s' => r = (0, (0, Some (fbyte rd f' (a mod PAGING64_PAGESZ)))) /\
        exists rd', devs s' !! k_mram (os s) = Some rd' /\ fbyte rd' f (a mod PAGING64_PAGESZ) = v) s /\
  (a + 2 ^ 32 < rg_end rg -> __write (Some c) vmaid rgid (off + 2 ^ 32) v s = __write (Some c) vmaid rgid off v s).
Proof.
  intros Hrdy Hid Hrg Hs Ho a Ha He Hv Hf Hf' Hne Hfit Hfit'. pose proof Hrdy as [Hm Hc Hr].
  destruct (high_page_pd a Ha) as [Hvp Hpd]. assert (Hla : a / PAGING64_PAGESZ < 2 ^ 20 /\ 0 <= a / PAGING64_PAGESZ) by (unfold PAGING64_PAGESZ; lia).
  assert (Hmod : i32 a mod PAGING64_PAGESZ = a mod PAGING64_PAGESZ) by (unfold i32, wrapS, PAGING64_PAGESZ; lia).
  split.
  - wp_step. eapply wp_same; [by apply (__write_addr m s _ _ _ rg)|]. fold a.
    apply (pg_setval_hit rd (i32 a) (high_page a) f v s m); [done..|]. rewrite Hmod. intros s1 m1 Hrdy1 Hm1 Hst1 rd'.
    assert (Hrdy2 : ready rd' (at_dev (k_mram (os s1)) rd' s1 (s_host s1)) m1).
    { destruct Hrdy1 as [M1 C1 R1]. split; [by apply (machine_ram _ _ rd)|by destruct C1|done]. }
    assert (Hoth : fbyte rd' f' (a mod PAGING64_PAGESZ) = fbyte rd f' (a mod PAGING64_PAGESZ)).
    { unfold rd', fbyte. apply byte_at_put_ne. unfold PAGING64_PAGESZ. lia. }
    wp_step. rewrite <- Hoth. eapply (__read_user_mem_hit rd' m1 _ vmaid rgid off rg f'); try done.
    + by rewrite (forget_vm_symrgtbl _ _ Hm1).
    + lia.
    + fold a. lia.
    + fold a. change (view_of s1 (p_mm c) (a / PAGING64_PAGESZ) = Resident f'). by rewrite (view_of_step _ _ _ _ Hst1).
    + intros s3 Hd Hos. fold a. wp_steps. split; [done|]. exists rd'. split.
      * rewrite Hd. simpl. rewrite (es_os _ _ (env_same_step _ _ Hst1)). apply lookup_insert_eq.
      * unfold rd', fbyte. apply byte_at_put.
  - intros He'. rewrite !(__write_addr m s _ _ _ rg) by (done || lia). fold a. f_equal.
    replace (rg_start rg + (off + 2 ^ 32)) with (a + 2 ^ 32) by (unfold a; lia). unfold i32, wrapS. lia.
Qed.
End Access.

(** ** Frames from 8192 on *)

(** Map two pages, and look where they are. *)
Definition map_two (c : pcb_t) (g1 f1 g2 f2 : Z) : M sys (pte_view * pte_view) :=
  pte_set_fpn (Some c) g1 f1 ;;; pte_set_fpn (Some c) g2 f2 ;;;
  let* v1 := pte_get_entry (Some c) g1 in
  let* v2 := pte_get_entry (Some c) g2 in
  ret (view v1, view v2).

Lemma set_fpn_view c m s g f (Q : Z -> sys -> Prop) :
  pt_wf s -> caller_ok c s m -> valid_pgn g -> s_host s = [] -> 0 <= f ->
  (forall r s' m' v, pt_wf s' -> caller_ok c s' m' -> s_host s' = [] -> pte_upd (p_mm c) g v s s' ->
     (forall q h, view_of s' q h = if decide ((q, h) = (p_mm c, g)) then Resident (f mod 2 ^ 13) else view_of s q h) -> Q r s') ->
  wp (pte_set_fpn (Some c) g f) Q s.
Proof.
  intros Hwf Hc Hg Hh Hf HQ. eapply wp_mono; [by apply (pte_set_fpn_spec c m)|].
  intros r s' [Hwf' [[-> Hu]|(_ & _ & Hne)]]; [|done].
  destruct (pte_upd_mms_Some _ _ _ _ _ _ _ Hu (co_desc _ _ _ Hc)) as (m' & Hm' & _).
  eapply (HQ 0 s' m'); [done|by destruct Hc|by apply (pu_host _ _ _ _ _ Hu)|exact Hu|].
  intros q h. rewrite (view_of_pte _ _ _ _ _ _ _ Hu). unfold updv. case_decide; [by apply view_fpn_val|done].
Qed.

Lemma map_two_spec c m s g1 f1 g2 f2 :
  pt_wf s -> caller_ok c s m -> valid_pgn g1 -> valid_pgn g2 -> g1 <> g2 -> s_host s = [] -> 0 <= f1 -> 0 <= f2 ->
  wp (map_two c g1 f1 g2 f2) (fun r _ => r = (Resident (f1 mod 2 ^ 13), Resident (f2 mod 2 ^ 13))) s.
Proof.
  intros Hwf Hc Hg1 Hg2 Hne Hh Hf1 Hf2. unfold map_two.
  wp_step. eapply (set_fpn_view c m); [done..|]. intros _ s1 m1 ? Hwf1 Hc1 Hh1 _ Hv1.
  wp_step. eapply (set_fpn_view c m1); [done..|]. intros _ s2 m2 ? Hwf2 Hc2 _ _ Hv2.
  wp_step. eapply wp_mono; [by apply (pte_get_entry_spec c m2)|]. intros v1 s3 (-> & Hwf3 & Hst3 & _).
  destruct (env_same_caller _ _ _ _ (env_same_step _ _ Hst3) Hc2) as (m3 & Hc3 & _).
  wp_step. eapply wp_mono; [by apply (pte_get_entry_spec c m3)|]. intros v2 s4 (-> & _ & Hst4 & _). wp_steps.
  rewrite !view_u32. fold (view_of s2 (p_mm c) g1). fold (view_of s3 (p_mm c) g2).
  rewrite (view_of_step _ _ _ _ Hst3), !Hv2, Hv1. rewrite decide_False by congruence. by rewrite !decide_True.
Qed.

(** C32 (bounds): RAM ends at 8192 frames.  On every device that is formatted
    in [n] frames, the frame field of an entry - 13 bits - keeps the frames
    apart exactly when [n] is at most 2^13, which is 32 MiB of pages: then two
    pages mapped to different frames of its free list are in different
    frames; otherwise the list has two frames such that the two pages end up
    in the same one. *)
Theorem frame_field_bound c m s g1 g2 pagesz mp :
  pt_wf s -> caller_ok c s m -> valid_pgn g1 -> valid_pgn g2 -> g1 <> g2 -> s_host s = [] ->
  0 < pagesz -> pagesz <= maxsz mp < 2 ^ 31 ->
  wp (MEMPHY_format pagesz) (fun _ b => let free := free_fp_list (bdev b) in
    if maxsz mp / pagesz <=? 2 ^ 13 then
      forall f1 f2, f1 ∈ free -> f2 ∈ free -> f1 <> f2 -> wp (map_two c g1 f1 g2 f2) (fun r _ => r.1 <> r.2) s
    else
      exists f1 f2, f1 ∈ free /\ f2 ∈ free /\ f1 <> f2 /\ wp (map_two c g1 f1 g2 f2) (fun r _ => r.1 = r.2) s) (mk_boot mp []).
Proof.
  intros Hwf Hc Hg1 Hg2 Hne Hh Hps Hmax.
  assert (Hq : Z.quot (maxsz mp) pagesz = maxsz mp / pagesz) by (apply Z.quot_div_nonneg; lia).
  assert (0 < maxsz mp / pagesz <= maxsz mp)
    by (split; [apply Z.div_str_pos; lia|apply Z.div_le_upper_bound; nia]).
  eapply wp_intro; [apply MEMPHY_format_spec; simpl; [done|lia]|]. simpl. rewrite Hq.
  assert (Hin : forall f, f ∈ zseq 0 (Z.to_nat (maxsz mp / pagesz)) <-> 0 <= f < maxsz mp / pagesz)
    by (intros f; rewrite elem_of_zseq; lia).
  destruct (Z.leb_spec (maxsz mp / pagesz) (2 ^ 13)).
  - intros f1 f2 H1%Hin H2%Hin H12. eapply wp_mono; [apply (map_two_spec c m); (done || lia)|]. intros r _ ->. simpl.
    rewrite !Z.mod_small by lia. congruence.
  - exists 0, (2 ^ 13). rewrite !Hin. split_and!; [lia..|]. eapply wp_mono; [apply (map_two_spec c m); (done || lia)|]. by intros r _ ->.
Qed.
