(* ===== verification/Alloc.v ===== *)
(** * The region allocator: [__alloc] and [__free] of [src/libmem.c]

    The addresses of a process below its break belong each to at most one
    region: a symbol of [symrgtbl] or a free region.  [cover] counts the
    regions an address belongs to. *)

From S2P Require Import Prelude Pte MemPhy Kernel PageTable Mm64 MmVm Syscall LibMem VMem.

(** ** Counting regions *)

Definition inside (rg : vm_rg_struct) (a : Z) : bool := (rg_start rg <=? a) && (a <? rg_end rg).
Definition cnt (rg : vm_rg_struct) (a : Z) : Z := if inside rg a then 1 else 0.
Fixpoint cover (l : list vm_rg_struct) (a : Z) : Z :=
  match l with [] => 0 | rg :: l => cnt rg a + cover l a end.

Lemma cnt_range rg a : 0 <= cnt rg a <= 1.
Proof. unfold cnt. destruct (inside rg a); lia. Qed.

Lemma cover_nonneg l a : 0 <= cover l a.
Proof. induction l as [|rg l IH]; simpl; [lia|]. pose proof (cnt_range rg a). lia. Qed.

Lemma cover_app l1 l2 a : cover (l1 ++ l2) a = cover l1 a + cover l2 a.
Proof. induction l1 as [|rg l IH]; simpl; [done|]. lia. Qed.

Lemma cover_in rg l a : rg ∈ l -> inside rg a = true -> 1 <= cover l a.
Proof.
  intros Hin Ha. induction Hin as [rg l|rg rg' l _ IH]; simpl.
  - unfold cnt. rewrite Ha. pose proof (cover_nonneg l a). lia.
  - specialize (IH Ha). pose proof (cnt_range rg' a). lia.
Qed.

Lemma cover_insert l (i : nat) rg old a :
  l !! i = Some old -> cover (<[i := rg]> l) a = cover l a - cnt old a + cnt rg a.
Proof.
  revert i. induction l as [|x l IH]; intros [|i] H; simplify_eq/=; [lia|]. rewrite (IH i H). lia.
Qed.

Lemma cover_two l (i j : nat) r1 r2 a :
  i <> j -> l !! i = Some r1 -> l !! j = Some r2 -> inside r1 a = true -> inside r2 a = true ->
  2 <= cover l a.
Proof.
  intros Hij H1 H2 Ha1 Ha2. pose proof (cover_insert l i (mk_rg None 0 0) r1 a H1) as Hc.
  assert (Hj : <[i := mk_rg None 0 0]> l !! j = Some r2) by (by rewrite list_lookup_insert_ne).
  apply list_elem_of_lookup_2 in Hj. pose proof (cover_in _ _ _ Hj Ha2).
  pose proof (cnt_range (mk_rg None 0 0) a). unfold cnt at 1 in Hc. rewrite Ha1 in Hc.
  replace (cnt (mk_rg None 0 0) a) with 0 in Hc; [lia|]. unfold cnt, inside; simpl.
  destruct (Z.leb_spec 0 a), (Z.ltb_spec a 0); simpl; lia.
Qed.

Lemma cnt_split t1 t2 t3 a b e x :
  a <= b <= e -> cnt (mk_rg t1 a b) x + cnt (mk_rg t2 b e) x = cnt (mk_rg t3 a e) x.
Proof.
  intros H. unfold cnt, inside; simpl.
  destruct (Z.leb_spec a x), (Z.ltb_spec x b), (Z.leb_spec b x), (Z.ltb_spec x e); simpl; lia.
Qed.

Lemma cnt_empty t a x : cnt (mk_rg t a a) x = 0.
Proof. unfold cnt, inside; simpl. destruct (Z.leb_spec a x), (Z.ltb_spec x a); simpl; lia. Qed.

Lemma cnt_mk rg x : cnt rg x = cnt (mk_rg None (rg_start rg) (rg_end rg)) x.
Proof. done. Qed.

(** ** The search of the free list *)

Definition below (b : Z) (rg : vm_rg_struct) : Prop := 0 <= rg_start rg <= rg_end rg /\ rg_end rg <= b.

Lemma find_fit_spec size brk l :
  0 < size < 2 ^ 31 -> brk <= 2 ^ 31 -> Forall (below brk) l ->
  match find_fit size l with
  | Some (a, b, l') => 0 <= a /\ b = a + size /\ b <= brk /\ Forall (below brk) l' /\
      forall t x, cover l' x + cnt (mk_rg t a b) x = cover l x
  | None => Forall (fun rg => rg_end rg - rg_start rg < size) l
  end.
Proof.
  intros Hsz Hbrk Hl. induction Hl as [|rg l Hrg Hl IH]; [by constructor|]. simpl.
  unfold below in Hrg. rewrite u64_small by lia.
  destruct (Z.leb_spec (rg_start rg + size) (rg_end rg)) as [Hfit|Hno].
  - split_and!; [lia|done|lia| |].
    + destruct (Z.ltb_spec (rg_start rg + size) (rg_end rg)).
      * constructor; [unfold below; simpl; lia|done].
      * destruct l as [|nx l]; [repeat constructor; simpl; lia|].
        inversion_clear Hl. by constructor.
    + intros t x. rewrite (cnt_mk rg). destruct (Z.ltb_spec (rg_start rg + size) (rg_end rg)).
      * simpl. unfold set_range.
        pose proof (cnt_split t (rg_vmaid rg) None (rg_start rg) (rg_start rg + size) (rg_end rg) x). lia.
      * replace (rg_start rg + size) with (rg_end rg) by lia. destruct l as [|nx l]; simpl.
        -- unfold set_range. rewrite cnt_empty. unfold cnt, inside; simpl. lia.
        -- unfold cnt, inside; simpl. lia.
  - destruct (find_fit size l) as [[[a b] l']|].
    + destruct IH as (Ha & Hb & Hbb & Hl' & Hc). split_and!; [done..| |].
      * by constructor.
      * intros t x. simpl. specialize (Hc t x). lia.
    + constructor; [lia|done].
Qed.

(** ** The invariant *)

Definition regions (m : mm_struct) (v : vm_area_struct) : list vm_rg_struct :=
  symrgtbl m ++ vm_freerg_list v.

(** One area of id 0 that ends at the break, [e] pages long; every region is
    below the break and no two overlap. *)
Record reg_inv (m : mm_struct) (v : vm_area_struct) (e : Z) : Prop := {
  ri_map : mmap m = [v];
  ri_id : vm_id v = 0;
  ri_end : vm_end v = e * PAGING64_PAGESZ;
  ri_brk : sbrk v = e * PAGING64_PAGESZ;
  ri_size : 0 <= e <= 2 ^ 19;
  ri_len : Z.of_nat (length (symrgtbl m)) = PAGING_MAX_SYMTBL_SZ;
  ri_below : Forall (below (sbrk v)) (regions m v);
  ri_disj a : cover (regions m v) a <= 1;
}.

(** [m] with region [rgid] set to [[a, b)] and the free list of its area
    replaced. *)
Definition set_region (rgid a b : Z) (m : mm_struct) : mm_struct :=
  set_symrgtbl (alter (set_range a b) (Z.to_nat rgid) (symrgtbl m)) m.
Definition set_free (l : list vm_rg_struct) (v : vm_area_struct) : vm_area_struct :=
  mk_vma (vm_id v) (vm_start v) (vm_end v) (sbrk v) l.

Section Inv.
Context (m : mm_struct) (v : vm_area_struct) (e : Z).
Hypothesis Hinv : reg_inv m v e.

Lemma symrg_lookup rgid :
  0 <= rgid < PAGING_MAX_SYMTBL_SZ -> exists rg, arr_get (symrgtbl m) rgid = Some rg /\ below (sbrk v) rg.
Proof.
  intros Hid. destruct (arr_get_is_Some (symrgtbl m) rgid) as [rg Hrg]; [by rewrite (ri_len _ _ _ Hinv)|].
  exists rg. split; [done|]. apply arr_get_Some in Hrg as [_ Hrg].
  pose proof (ri_below _ _ _ Hinv) as Hb. unfold regions in Hb. apply Forall_app in Hb as [Hb _].
  rewrite Forall_forall in Hb. apply Hb. by eapply list_elem_of_lookup_2.
Qed.

(** Replacing region [rgid] and the free list so that no address is
    counted more often keeps the invariant. *)
Lemma reg_inv_update rgid rg a b fl e' :
  arr_get (symrgtbl m) rgid = Some rg -> 0 <= a <= b -> b <= e' * PAGING64_PAGESZ ->
  e <= e' <= 2 ^ 19 -> Forall (below (e' * PAGING64_PAGESZ)) fl ->
  (forall x, cnt (mk_rg None a b) x + cover fl x <= cnt rg x + cover (vm_freerg_list v) x \/
             (e * PAGING64_PAGESZ <= x /\ cnt (mk_rg None a b) x + cover fl x <= 1 + cover (vm_freerg_list v) x)) ->
  let v' := mk_vma (vm_id v) (vm_start v) (e' * PAGING64_PAGESZ) (e' * PAGING64_PAGESZ) fl in
  reg_inv (set_region rgid a b (set_mmap [v'] m)) v' e'.
Proof.
  intros Hrg Hab Hb He' Hfl Hcov v'. apply arr_get_Some in Hrg as [Hid Hrg].
  pose proof (ri_below _ _ _ Hinv) as Hbl. pose proof (ri_brk _ _ _ Hinv) as Hbrk.
  unfold regions in Hbl. rewrite Forall_app in Hbl. destruct Hbl as [Hbs Hbf].
  assert (Hup : forall rg, below (sbrk v) rg -> below (e' * PAGING64_PAGESZ) rg).
  { intros x. unfold below, PAGING64_PAGESZ in *. lia. }
  split; simpl; try done; try apply Hinv.
  - pose proof (ri_size _ _ _ Hinv). lia.
  - rewrite length_alter. apply Hinv.
  - unfold regions. simpl. rewrite (list_alter_insert _ _ _ rg) by done. apply Forall_app. split; [|done].
    apply Forall_insert; [eapply Forall_impl; [exact Hbs|exact Hup]|]. unfold below; simpl. lia.
  - intros x. unfold regions; simpl. rewrite (list_alter_insert _ _ _ rg) by done.
    rewrite cover_app, (cover_insert _ _ _ rg) by done. unfold set_range.
    pose proof (ri_disj _ _ _ Hinv x) as Hd. unfold regions in Hd. rewrite cover_app in Hd.
    change (cnt (mk_rg (rg_vmaid rg) a b) x) with (cnt (mk_rg None a b) x).
    destruct (Hcov x) as [Hc|[Hx Hc]]; [lia|].
    assert (Hz : forall l, Forall (below (sbrk v)) l -> cover l x = 0).
    { clear - Hx Hbrk. induction 1 as [|r l Hr Hl IH]; simpl; [done|]. rewrite IH.
      unfold below, cnt, inside in *. rewrite Hbrk in Hr.
      destruct (Z.leb_spec (rg_start r) x), (Z.ltb_spec x (rg_end r)); simpl; lia. }
    rewrite (Hz _ Hbs) in *. rewrite (Hz _ Hbf) in *. pose proof (cnt_range rg x). lia.
Qed.

(** Under the invariant a region of the table meets no other region. *)
Lemma reg_inv_disjoint i rg x :
  arr_get (symrgtbl m) i = Some rg -> inside rg x = true ->
  (forall j rg', j <> i -> arr_get (symrgtbl m) j = Some rg' -> inside rg' x = false) /\
  (forall rg', rg' ∈ vm_freerg_list v -> inside rg' x = false).
Proof.
  intros Hi Hx. apply arr_get_Some in Hi as [Hi0 Hi]. pose proof (ri_disj _ _ _ Hinv x) as Hd.
  unfold regions in Hd. rewrite cover_app in Hd. split.
  - intros j rg' Hj Hg. apply arr_get_Some in Hg as [Hj0 Hg]. destruct (inside rg' x) eqn:Hx'; [|done].
    pose proof (cover_nonneg (vm_freerg_list v) x).
    assert (2 <= cover (symrgtbl m) x) by (eapply (cover_two _ (Z.to_nat i) (Z.to_nat j) rg rg'); [lia|done..]). lia.
  - intros rg' Hin. destruct (inside rg' x) eqn:Hx'; [|done].
    pose proof (cover_in _ _ _ Hin Hx'). pose proof (cover_in _ _ _ (list_elem_of_lookup_2 _ _ _ Hi) Hx). lia.
Qed.
End Inv.

(** ** The steps of the allocator *)

Lemma with_mm_twice p m1 m2 s : with_mm p m2 (with_mm p m1 s) = with_mm p m2 s.
Proof. unfold with_mm, set_mms; simpl. by rewrite insert_insert_eq. Qed.

Lemma with_mm_lookup p m s : mms (with_mm p m s) !! p = Some m.
Proof. simpl. by rewrite lookup_insert_eq. Qed.

Lemma wp_upd_symrg p i a b rg m (Q : unit -> sys -> Prop) s :
  mms s !! p = Some m -> arr_get (symrgtbl m) i = Some rg ->
  Q tt (with_mm p (set_region i a b m) s) -> wp (upd_symrg p i (set_range a b)) Q s.
Proof.
  intros Hm Hrg HQ. pose proof (proj1 (arr_get_Some _ _ _) Hrg) as [Hi Hl].
  apply lookup_lt_Some in Hl as Hlt. unfold upd_symrg. wp_step. eapply wp_get_mm; [done|].
  wp_step. eapply wp_from_opt; [done|]. wp_step.
  eapply wp_from_opt; [apply arr_set_Some; lia|]. eapply wp_upd_mm; [done|].
  unfold set_region in HQ. by rewrite (list_alter_insert _ _ _ rg) in HQ.
Qed.

(** [get_free_vmrg_area] on the area of a process. *)
Lemma get_free_vmrg_area_spec c m v e size s (Q : option (Z * Z) -> sys -> Prop) :
  caller_ok c s m -> reg_inv m v e -> 0 < size < 2 ^ 31 ->
  (match find_fit size (vm_freerg_list v) with
   | Some (a, b, l) => Q (Some (a, b)) (with_mm (p_mm c) (set_mmap [set_free l v] m) s)
   | None => Q None s
   end) ->
  wp (get_free_vmrg_area c 0 size) Q s.
Proof.
  intros Hc Hr Hsz HQ. pose proof Hc as [_ _ Hm]. pose proof (ri_map _ _ _ Hr) as Hmap.
  assert (Hbl : Forall (below (sbrk v)) (vm_freerg_list v)).
  { pose proof (ri_below _ _ _ Hr) as Hb. unfold regions in Hb. by apply Forall_app in Hb as [_ Hb]. }
  pose proof (ri_brk _ _ _ Hr) as Hbrk. pose proof (ri_size _ _ _ Hr) as Hsize.
  assert (Hb31 : sbrk v <= 2 ^ 31) by (unfold PAGING64_PAGESZ in Hbrk; lia).
  pose proof (find_fit_spec size (sbrk v) _ Hsz Hb31 Hbl) as Hfit.
  unfold get_free_vmrg_area. wp_step. eapply wp_get_vma_by_num; [done|].
  rewrite Hmap. cbn [find_vma]. rewrite (ri_id _ _ _ Hr). change (i32 0 <? 0) with false. wp_steps.
  eapply wp_get_vma; [done|by rewrite Hmap|].
  destruct (find_fit size (vm_freerg_list v)) as [[[a b] l]|] eqn:Hff; rewrite ?Hff.
  2: { destruct (vm_freerg_list v); [by wp_steps|]. rewrite Hff. by wp_steps. }
  destruct (vm_freerg_list v) as [|rg0 rgs] eqn:Hl; [done|]. rewrite Hff.
  destruct Hfit as (Ha & -> & Hab & _). wp_step. eapply wp_upd_vma; [done|].
  rewrite Hmap. wp_step. change (u64 (-1)) with (2 ^ 64 - 1).
  replace (a =? 2 ^ 64 - 1) with false by lia. exact HQ.
Qed.

(** What an allocation leaves in the descriptor: region [rgid] is [[a, a +
    size)], the other symbols are as before, the invariant holds. *)
Record allocated (m : mm_struct) (rgid a size e : Z) (m' : mm_struct) (v' : vm_area_struct) : Prop := {
  al_inv : reg_inv m' v' e;
  al_region : exists rg, arr_get (symrgtbl m') rgid = Some rg /\ rg_start rg = a /\ rg_end rg = a + size;
  al_others j : j <> rgid -> 0 <= j -> arr_get (symrgtbl m') j = arr_get (symrgtbl m) j;
}.

Lemma set_region_same rgid a b m rg :
  arr_get (symrgtbl m) rgid = Some rg ->
  arr_get (symrgtbl (set_region rgid a b m)) rgid = Some (set_range a b rg).
Proof.
  intros H. apply arr_get_Some in H as [Hi Hl]. apply arr_get_Some. split; [done|]. simpl.
  by rewrite list_lookup_alter_eq, Hl.
Qed.

Lemma set_region_ne rgid a b m j :
  0 <= rgid -> 0 <= j -> j <> rgid ->
  arr_get (symrgtbl (set_region rgid a b m)) j = arr_get (symrgtbl m) j.
Proof.
  intros Hr Hj Hne. unfold arr_get. destruct (0 <=? j); [|done]. simpl.
  apply list_lookup_alter_ne. lia.
Qed.

(** The fit found in the free list is taken. *)
Lemma take_fit m v e rgid rg size a b l :
  reg_inv m v e -> arr_get (symrgtbl m) rgid = Some rg -> 0 < size < 2 ^ 31 ->
  find_fit size (vm_freerg_list v) = Some (a, b, l) ->
  allocated m rgid a size e (set_region rgid a b (set_mmap [set_free l v] m)) (set_free l v).
Proof.
  intros Hr Hrg Hsz Hf. pose proof (ri_brk _ _ _ Hr) as Hbrk. pose proof (ri_end _ _ _ Hr) as Hend.
  pose proof (ri_size _ _ _ Hr) as Hsize. pose proof (proj1 (arr_get_Some _ _ _) Hrg) as [Hid _].
  assert (Hbl : Forall (below (sbrk v)) (vm_freerg_list v)).
  { pose proof (ri_below _ _ _ Hr) as Hb. unfold regions in Hb. by apply Forall_app in Hb as [_ Hb]. }
  assert (Hb31 : sbrk v <= 2 ^ 31) by (unfold PAGING64_PAGESZ in Hbrk; lia).
  pose proof (find_fit_spec size (sbrk v) _ Hsz Hb31 Hbl) as Hfit. rewrite Hf in Hfit.
  destruct Hfit as (Ha & -> & Hab & Hl & Hc).
  split; [|eexists; split; [by apply set_region_same|done]|intros; by rewrite set_region_ne].
  replace (set_free l v) with (mk_vma (vm_id v) (vm_start v) (e * PAGING64_PAGESZ) (e * PAGING64_PAGESZ) l)
    by (unfold set_free; by rewrite Hbrk, Hend).
  apply (reg_inv_update m v e Hr rgid rg); try done; try lia.
  - by rewrite <- Hbrk.
  - intros x. left. specialize (Hc None x). pose proof (cnt_range rg x). lia.
Qed.

(** Growth at the break: the region is the start of the new pages, the rest
    of the last page is free. *)
Lemma take_brk m v e n rgid rg size :
  reg_inv m v e -> arr_get (symrgtbl m) rgid = Some rg -> 0 < size -> n = (size + 4095) / 4096 ->
  e + n <= 2 ^ 19 ->
  let a := e * PAGING64_PAGESZ in
  let top := (e + n) * PAGING64_PAGESZ in
  let fl := if a + size <? top then mk_rg None (a + size) top :: vm_freerg_list v else vm_freerg_list v in
  let v' := mk_vma (vm_id v) (vm_start v) top top fl in
  allocated m rgid a size (e + n) (set_region rgid a (a + size) (set_mmap [v'] m)) v'.
Proof.
  intros Hr Hrg Hsz Hn Hlim a top fl v'. pose proof (ri_brk _ _ _ Hr) as Hbrk.
  pose proof (ri_size _ _ _ Hr) as Hsize. pose proof (proj1 (arr_get_Some _ _ _) Hrg) as [Hid _].
  assert (Hbl : Forall (below (sbrk v)) (vm_freerg_list v)).
  { pose proof (ri_below _ _ _ Hr) as Hb. unfold regions in Hb. by apply Forall_app in Hb as [_ Hb]. }
  unfold a, top, PAGING64_PAGESZ in *.
  assert (Hup : Forall (below ((e + n) * 4096)) (vm_freerg_list v)).
  { eapply Forall_impl; [exact Hbl|]. intros x. unfold below. lia. }
  split; [|eexists; split; [by apply set_region_same|done]|intros; by rewrite set_region_ne].
  apply (reg_inv_update m v e Hr rgid rg); unfold PAGING64_PAGESZ; try done; try lia.
  - unfold fl. destruct (Z.ltb_spec (e * 4096 + size) ((e + n) * 4096)); [|done].
    constructor; [unfold below; simpl; lia|done].
  - intros x. unfold fl. pose proof (cnt_range rg x).
    destruct (Z.ltb_spec (e * 4096 + size) ((e + n) * 4096)) as [Hlt|Hge]; simpl.
    + pose proof (cnt_split None None None (e * 4096) (e * 4096 + size) ((e + n) * 4096) x) as Hc.
      destruct (Z.leb_spec (e * 4096) x).
      * right. split; [lia|]. pose proof (cnt_range (mk_rg None (e * 4096) ((e + n) * 4096)) x). lia.
      * left. unfold cnt at 1 2, inside; simpl.
        destruct (Z.leb_spec (e * 4096) x), (Z.leb_spec (e * 4096 + size) x); simpl; lia.
    + destruct (Z.leb_spec (e * 4096) x).
      * right. split; [lia|]. pose proof (cnt_range (mk_rg None (e * 4096) (e * 4096 + size)) x). lia.
      * left. unfold cnt at 1, inside; simpl. destruct (Z.leb_spec (e * 4096) x); simpl; lia.
Qed.

(** ** Allocation *)

(** The kernel part of the state that allocation needs; RAM is [d]. *)
Record kstate (s : sys) (d : memphy_struct) : Prop := {
  ks_wf : pt_wf s;
  ks_host : s_host s = [];
  ks_ram : k_mram (os s) <> NULL;
  ks_dev : devs s !! k_mram (os s) = Some d;
  ks_frames : Forall (fun f => 0 <= f < 2 ^ 31) (frames_of d);
}.

(** What growing [p] by the [n] pages from [e] does to memory: all of them
    are mapped to free frames and queued, or RAM has too few free frames and
    none is mapped. *)
Definition pages_added (p e n : Z) (d : memphy_struct) (s s' : sys) : Prop :=
  n <= Z.of_nat (length (free_fp_list d)) /\
  (exists l l2, Z.of_nat (length l) = n /\ free_fp_list d = l ++ l2 /\
     devs s' = <[k_mram (os s) := set_fps l2 (rev l ++ used_fp_list d) d]> (devs s) /\
     (forall q g, pte_of s' q g = mapped_ptes p e l (pte_of s) q g) /\
     (forall q, fifo_of s' q = if decide (q = p) then app (rev (zseq e (Z.to_nat n))) <$> fifo_of s p
                               else fifo_of s q)) \/
  Z.of_nat (length (free_fp_list d)) < n /\
  (exists free used, free ≡ₚ free_fp_list d /\ used ≡ₚ used_fp_list d /\
     devs s' = <[k_mram (os s) := set_fps free used d]> (devs s) /\
     (forall q g, pte_of s' q g = pte_of s q g) /\ (forall q, fifo_of s' q = fifo_of s q)).

Definition mem_same (s s' : sys) : Prop :=
  devs s' = devs s /\ (forall q g, pte_of s' q g = pte_of s q g) /\ (forall q, fifo_of s' q = fifo_of s q).

(** The rest of the state. *)
Record others_same (p : Z) (s s' : sys) : Prop := {
  os_os : os s' = os s;
  os_procs : procs s' = procs s;
  os_wf : pt_wf s';
  os_host : s_host s' = [];
  os_mms q : q <> p -> forget_vm <$> (mms s' !! q) = forget_vm <$> (mms s !! q);
}.

Lemma reg_inv_ext m m' v e :
  mmap m' = mmap m -> symrgtbl m' = symrgtbl m -> reg_inv m v e -> reg_inv m' v e.
Proof. intros H1 H2 []. split; unfold regions in *; by rewrite ?H1, ?H2. Qed.

Lemma allocated_ext m1 m2 m' m'' rgid a size e v :
  symrgtbl m2 = symrgtbl m1 -> forget_vm m'' = forget_vm m' ->
  allocated m1 rgid a size e m' v -> allocated m2 rgid a size e m'' v.
Proof.
  intros H1 H2 [Hi Hr Ho].
  assert (Hm : mmap m'' = mmap m') by (by injection H2).
  assert (Hs : symrgtbl m'' = symrgtbl m') by (by injection H2).
  split; [by eapply reg_inv_ext|by rewrite Hs|]. intros j Hj Hj0. rewrite Hs, H1. by apply Ho.
Qed.

Lemma set_mm_mem p m m' s :
  pt_wf s -> mms s !! p = Some m -> pgd m' = pgd m -> fifo_pgn m' = fifo_pgn m ->
  mem_same s (with_mm p m' s).
Proof.
  intros Hwf Hm Hpgd Hfifo. destruct (set_mm_desc p m m' s) as [Hwf' Hpt]; [done..|].
  split_and!; [done|done|]. intros q. unfold fifo_of; simpl. rewrite lookup_insert.
  case_decide; [|done]. subst. rewrite Hm. simpl. by rewrite Hfifo.
Qed.

Lemma set_mm_same p m m' s :
  pt_wf s -> mms s !! p = Some m -> pgd m' = pgd m -> fifo_pgn m' = fifo_pgn m -> s_host s = [] ->
  mem_same s (with_mm p m' s) /\ others_same p s (with_mm p m' s).
Proof.
  intros Hwf Hm Hpgd Hfifo Hh. split; [by apply (set_mm_mem p m)|].
  destruct (set_mm_desc p m m' s) as [Hwf' Hpt]; [done..|]. split; try done.
  intros q Hq. simpl. by rewrite lookup_insert_ne.
Qed.

(** [_syscall] 17 with [SYSMEM_INC_OP] is [inc_vma_limit]. *)
Lemma inc_syscall c vmaid sz (Q : Z * sc_regs -> sys -> Prop) s :
  p_krnl c <> NULL -> registered c s -> 0 <= vmaid < 2 ^ 31 -> 0 <= sz < 2 ^ 32 ->
  wp (inc_vma_limit (Some c) vmaid sz)
     (fun _ s' => forall regs, Q (0, regs) s') s ->
  wp (_syscall (p_krnl c) (pid c) 17 (mk_regs SYSMEM_INC_OP (u64 vmaid) (Some sz))) Q s.
Proof.
  intros Hk Hreg Hid Hsz Hw. apply wp_memmap; [done|done|]. unfold memmap_op. cbn [a1 a2 a3].
  wp_step. apply wp_deref_krnl; [done|]. change (i32 SYSMEM_INC_OP) with SYSMEM_INC_OP.
  cbn [Z.eqb Pos.eqb SYSMEM_MAP_OP SYSMEM_INC_OP]. wp_steps. rewrite u64_small, i32_small, u32_small by lia.
  eapply wp_mono; [exact Hw|]. intros r s' HQ. wp_steps. apply HQ.
Qed.

(** The growth as seen from the allocator. *)
Lemma grow_pages c m v e n d s :
  kstate s d -> caller_ok c s m -> reg_inv m v e -> 0 < n -> e + n < 2 ^ 19 ->
  wp (inc_vma_limit (Some c) 0 (n * PAGING64_PAGESZ))
     (fun _ s' => pages_added (p_mm c) e n d s s' /\ others_same (p_mm c) s s' /\
        exists m', mms s' !! p_mm c = Some m' /\ forget_vm m' = forget_vm (grow_area 0 e n (n * PAGING64_PAGESZ) m)) s.
Proof.
  intros [Hwf Hh Hram Hd Hfr] Hc Hr Hn Hlim. pose proof Hc as [Hk Hp Hm].
  pose proof (ri_map _ _ _ Hr) as Hmap. pose proof (ri_id _ _ _ Hr) as Hid. pose proof (ri_end _ _ _ Hr) as Hend.
  pose proof (ri_size _ _ _ Hr) as Hsize. set (p := p_mm c) in *.
  set (mg := grow_area 0 e n (n * PAGING64_PAGESZ) m). set (s1 := with_mm p mg s).
  destruct (set_mm_same p m mg s) as [(_ & Hpt & Hff) Ho1]; [done..|]. fold s1 in Hpt, Hff, Ho1.
  assert (Hm1 : mms s1 !! p = Some mg) by apply with_mm_lookup.
  unfold PAGING64_PAGESZ at 1. eapply wp_mono.
  { apply (inc_vma_limit_spec c m 0 (n * 4096) O v e n d s); try done; try lia.
    - rewrite Hmap. simpl. by rewrite Hid.
    - by rewrite Hmap.
    - rewrite Hmap. simpl. unfold overlaps. by rewrite Hid. }
  intros r s' [-> Hpost]. change 4096 with PAGING64_PAGESZ in Hpost. fold p mg s1 in Hpost.
  destruct (decide _) as [Hle|Hgt].
  - destruct Hpost as (Hwf' & l & s2 & (l2 & h & Hlen & Hfl & Hh2 & ->) & Hu).
    assert (Hs2 : mms (at_dev (k_mram (os s)) (set_fps l2 (rev l ++ used_fp_list d) d) s1 h) = mms s1) by done.
    split_and!.
    + left. split; [done|]. exists l, l2. split_and!; [lia|done|by rewrite (vu_devs _ _ _ _ _ Hu)|apply Hu|].
      intros q. pose proof (vu_mms _ _ _ _ _ Hu q) as Hq. rewrite Hs2 in Hq. destruct (decide (q = p)) as [->|Hne].
      * rewrite Hm1 in Hq.
        unfold fifo_of. rewrite Hm. destruct (mms s' !! p) as [m'|]; [|done]. simpl in *.
        apply (inj Some), forget_stats_fifo in Hq. f_equal. by rewrite Hq.
      * rewrite <- (Hff q). by apply fifo_of_stats.
    + split.
      * by rewrite (vu_os _ _ _ _ _ Hu).
      * by rewrite (vu_procs _ _ _ _ _ Hu).
      * done.
      * apply (vu_host _ _ _ _ _ Hu). simpl. by apply Hh2.
      * intros q Hq. pose proof (vu_mms _ _ _ _ _ Hu q) as Hmq. rewrite decide_False in Hmq by done.
        rewrite (forget_stats_vm _ _ Hmq). by apply Ho1.
    + pose proof (vu_mms _ _ _ _ _ Hu p) as Hq. rewrite decide_True in Hq by done.
      rewrite Hs2, Hm1 in Hq. destruct (mms s' !! p) as [m'|]; [|done]. exists m'. split; [done|].
      simpl in Hq. apply (inj Some) in Hq. rewrite (forget_vm_stats _ _ Hq). done.
  - destruct Hpost as (free & used & h & Hf & Hus & Hh2 & -> & _). split_and!.
    + right. split; [lia|]. exists free, used. split_and!; [done|done|done|exact Hpt|exact Hff].
    + split; [done|done|by apply pt_wf_at_dev, Ho1|simpl; by apply Hh2|]. intros q Hq. by apply Ho1.
    + exists mg. split; [exact Hm1|done].
Qed.

Lemma pages_added_same p e n d s s1 s2 :
  pages_added p e n d s s1 -> mem_same s1 s2 -> pages_added p e n d s s2.
Proof.
  intros Hp (Hd & Hpt & Hf). destruct Hp as [(Hn & l & l2 & H1 & H2 & H3 & H4 & H5)|(Hn & fr & us & H1 & H2 & H3 & H4 & H5)].
  - left. split; [done|]. exists l, l2. split_and!; [done|done|congruence| |]; intros; [by rewrite Hpt|by rewrite Hf].
  - right. split; [done|]. exists fr, us. split_and!; [done|done|congruence| |]; intros; [by rewrite Hpt|by rewrite Hf].
Qed.

Lemma others_same_trans p s1 s2 s3 : others_same p s1 s2 -> others_same p s2 s3 -> others_same p s1 s3.
Proof.
  intros H1 H2. split; try apply H2.
  - by rewrite (os_os _ _ _ H2), (os_os _ _ _ H1).
  - by rewrite (os_procs _ _ _ H2), (os_procs _ _ _ H1).
  - intros q Hq. by rewrite (os_mms _ _ _ H2), (os_mms _ _ _ H1).
Qed.

Lemma mem_same_trans s1 s2 s3 : mem_same s1 s2 -> mem_same s2 s3 -> mem_same s1 s3.
Proof.
  intros (H1 & H2 & H3) (H4 & H5 & H6). split_and!; [congruence| |]; intros; [by rewrite H5|by rewrite H6].
Qed.

(** A change of the descriptor that paging does not see, as a step. *)
Definition quiet (p : Z) (s : sys) (m' : mm_struct) (s' : sys) : Prop :=
  mms s' !! p = Some m' /\ mem_same s s' /\ others_same p s s'.

Lemma quiet_with_mm p m m' s :
  pt_wf s -> s_host s = [] -> mms s !! p = Some m -> pgd m' = pgd m -> fifo_pgn m' = fifo_pgn m ->
  quiet p s m' (with_mm p m' s).
Proof. intros. split; [apply with_mm_lookup|]. by apply (set_mm_same p m). Qed.

Lemma quiet_trans p s1 m2 s2 m3 s3 : quiet p s1 m2 s2 -> quiet p s2 m3 s3 -> quiet p s1 m3 s3.
Proof.
  intros (_ & H1 & H2) (H3 & H4 & H5). split; [done|]. split; [by eapply mem_same_trans|by eapply others_same_trans].
Qed.

Lemma enlist_vm_freerg_list_spec p m v rg s (Q : Z -> sys -> Prop) :
  pt_wf s -> s_host s = [] -> mms s !! p = Some m -> mmap m = [v] -> rg_start rg < rg_end rg ->
  (forall s', quiet p s (set_mmap [set_free (rg :: vm_freerg_list v) v] m) s' -> Q 0 s') ->
  wp (enlist_vm_freerg_list p rg) Q s.
Proof.
  intros Hwf Hh Hm Hmap Hrg HQ. unfold enlist_vm_freerg_list. wp_step.
  eapply wp_get_vma; [done|by rewrite Hmap|]. replace (rg_end rg <=? rg_start rg) with false by lia.
  wp_step. eapply wp_upd_vma; [done|]. wp_steps. rewrite Hmap. apply HQ. by apply (quiet_with_mm p m).
Qed.

Lemma alloc_at_brk_spec c m v e d rgid size s :
  kstate s d -> caller_ok c s m -> registered c s -> reg_inv m v e ->
  0 <= rgid < PAGING_MAX_SYMTBL_SZ -> 0 < size -> e + (size + 4095) / 4096 < 2 ^ 19 ->
  let n := (size + 4095) / 4096 in
  wp (alloc_at_brk c 0 rgid size 0)
     (fun r s' => exists m' v', r = (0, Some (e * PAGING64_PAGESZ)) /\ mms s' !! p_mm c = Some m' /\
        allocated m rgid (e * PAGING64_PAGESZ) size (e + n) m' v' /\
        others_same (p_mm c) s s' /\ pages_added (p_mm c) e n d s s') s.
Proof.
  intros Hks Hc Hreg Hr Hid Hsz Hlim n. pose proof Hc as [Hk Hp Hm].
  pose proof (ri_size _ _ _ Hr) as Hsize. pose proof (ri_brk _ _ _ Hr) as Hbrk.
  destruct (symrg_lookup _ _ _ Hr rgid Hid) as (rg & Hrg & _).
  assert (Hszb : 0 < size <= 2 ^ 63) by lia. destruct (page_alignsz_spec size Hszb) as [Hal _].
  pose proof (take_brk m v e n rgid rg size Hr Hrg Hsz eq_refl ltac:(lia)) as Htake. cbv zeta in Htake.
  unfold alloc_at_brk. wp_step. eapply wp_get_vma; [done|by rewrite (ri_map _ _ _ Hr)|].
  rewrite Hal, Hbrk. fold n in Hal, Hlim |- *. unfold PAGING64_PAGESZ in *.
  assert (Hn : size <= n * 4096 < size + 4096) by (unfold n; lia). clearbody n.
  rewrite !i32_small, !(u64_small (e * 4096)), !(u64_small (_ + size)), !(u64_small (_ + n * 4096)) by lia.
  wp_step. apply inc_syscall; [done|done|lia|lia|].
  eapply wp_mono; [apply (grow_pages c m v e n d s); first [done|lia]|].
  intros _ s1 (Hadd & Ho1 & m1 & Hm1 & Hf1) _.
  set (top := (e + n) * 4096) in *. set (a := e * 4096) in *.
  assert (Hmap1 : mmap m1 = [set_limits top (u64 (sbrk v + n * 4096)) v]).
  { transitivity (mmap (grow_area 0 e n (n * 4096) m)); [by injection Hf1|]. simpl. by rewrite (ri_map _ _ _ Hr). }
  assert (Hsym1 : symrgtbl m1 = symrgtbl m) by (by injection Hf1).
  assert (Hlim1 : set_limits top (u64 (sbrk v + n * 4096)) v = mk_vma (vm_id v) (vm_start v) top top (vm_freerg_list v)).
  { unfold set_limits. rewrite Hbrk, u64_small by lia. f_equal. unfold top, a. lia. }
  rewrite Hlim1 in Hmap1. wp_step. eapply wp_upd_symrg; [done|by rewrite Hsym1|].
  set (m2 := set_region rgid a (a + size) m1).
  assert (Hq2 : quiet (p_mm c) s1 m2 (with_mm (p_mm c) m2 s1)) by (eapply quiet_with_mm; [apply Ho1|apply Ho1|done..]).
  destruct Hq2 as (Hm2 & Hs2 & Ho2). set (s2 := with_mm (p_mm c) m2 s1) in *.
  assert (Hfin : forall m3 s3 fl, mmap m3 = [mk_vma (vm_id v) (vm_start v) top top fl] -> symrgtbl m3 = symrgtbl m2 ->
    fl = (if a + size <? top then mk_rg None (a + size) top :: vm_freerg_list v else vm_freerg_list v) ->
    quiet (p_mm c) s2 m3 s3 ->
    exists m' v', (0, Some a) = (0, Some a) /\ mms s3 !! p_mm c = Some m' /\ allocated m rgid a size (e + n) m' v' /\
      others_same (p_mm c) s s3 /\ pages_added (p_mm c) e n d s s3).
  { intros m3 s3 fl Hmap3 Hsym3 -> (Hm3 & Hs3 & Ho3). exists m3. eexists. split_and!; [done|done| | |].
    - destruct Htake as [Hri Hre Hoth]. split.
      + eapply reg_inv_ext; [| |exact Hri]; [exact Hmap3|]. rewrite Hsym3. unfold m2; simpl. by rewrite Hsym1.
      + rewrite Hsym3. unfold m2; simpl. rewrite Hsym1. exact Hre.
      + intros j Hj Hj0. rewrite Hsym3. unfold m2; simpl. rewrite Hsym1. by apply Hoth.
    - eapply others_same_trans; [exact Ho1|]. by eapply others_same_trans.
    - eapply pages_added_same; [exact Hadd|]. by eapply mem_same_trans. }
  assert (Htop : (a + size <? top) = (size <? n * 4096)).
  { unfold a, top. destruct (Z.ltb_spec (e * 4096 + size) ((e + n) * 4096)), (Z.ltb_spec size (n * 4096)); lia. }
  wp_step. destruct (Z.ltb_spec size (n * 4096)) as [Hlt|Hge].
  - wp_step. apply wp_malloc_unchecked; [apply Ho2|].
    wp_step. replace (a + n * 4096) with top by (unfold a, top; lia).
    eapply enlist_vm_freerg_list_spec; [apply Ho2|apply Ho2|exact Hm2|exact Hmap1|simpl; lia|].
    intros s3 Hq3. wp_steps. eapply Hfin; [| | |exact Hq3]; [done|done|by rewrite Htop].
  - wp_steps. eapply (Hfin m2 s2); [exact Hmap1|done|by rewrite Htop|].
    split; [done|]. split; [done|]. destruct Ho2 as []. by split.
Qed.

(** ** [__alloc] and [__free] *)

Lemma __alloc_spec c m v e d rgid size s :
  kstate s d -> caller_ok c s m -> registered c s -> reg_inv m v e ->
  0 <= rgid < PAGING_MAX_SYMTBL_SZ -> 0 < size -> e + (size + 4095) / 4096 < 2 ^ 19 ->
  wp (__alloc (Some c) 0 rgid size)
     (fun r s' => exists a n m' v', r = (0, Some a) /\ mms s' !! p_mm c = Some m' /\
        allocated m rgid a size (e + n) m' v' /\ others_same (p_mm c) s s' /\
        match find_fit size (vm_freerg_list v) with
        | Some _ => n = 0 /\ mem_same s s'
        | None => n = (size + 4095) / 4096 /\ a = e * PAGING64_PAGESZ /\ pages_added (p_mm c) e n d s s'
        end) s.
Proof.
  intros Hks Hc Hreg Hr Hid Hsz Hlim. pose proof Hc as [Hk Hp Hm]. pose proof (ri_map _ _ _ Hr) as Hmap.
  pose proof (ri_size _ _ _ Hr) as Hsize. assert (Hsz31 : 0 < size < 2 ^ 31) by lia.
  destruct (symrg_lookup _ _ _ Hr rgid Hid) as (rg & Hrg & _).
  unfold __alloc. replace ((rgid <? 0) || (PAGING_MAX_SYMTBL_SZ <=? rgid) || (p_mm c =? NULL)) with false.
  2: { unfold PAGING_MAX_SYMTBL_SZ, NULL in *. lia. }
  wp_step. eapply wp_get_vma_by_num; [done|]. rewrite Hmap. cbn [find_vma].
  rewrite (ri_id _ _ _ Hr). change (i32 0 <? 0) with false. cbn iota. rewrite i32_small by lia.
  wp_step. eapply (get_free_vmrg_area_spec c m v e); [done..|].
  destruct (find_fit size (vm_freerg_list v)) as [[[a b] l]|] eqn:Hff.
  - pose proof (take_fit m v e rgid rg size a b l Hr Hrg Hsz31 Hff) as Ht.
    assert (Hq1 : quiet (p_mm c) s (set_mmap [set_free l v] m) (with_mm (p_mm c) (set_mmap [set_free l v] m) s))
      by (eapply quiet_with_mm; [apply Hks|apply Hks|done..]).
    set (s1 := with_mm (p_mm c) _ s) in *. destruct Hq1 as (Hm1 & Hs1 & Ho1).
    wp_step. eapply wp_upd_symrg; [exact Hm1|exact Hrg|]. wp_steps.
    set (m2 := set_region rgid a b (set_mmap [set_free l v] m)) in *.
    assert (Hq2 : quiet (p_mm c) s1 m2 (with_mm (p_mm c) m2 s1))
      by (eapply quiet_with_mm; [apply Ho1|apply Ho1|done..]).
    assert (Hq : quiet (p_mm c) s m2 (with_mm (p_mm c) m2 s1)) by (by eapply quiet_trans).
    destruct Hq as (Hm2 & Hs2 & Ho2). exists a, 0, m2, (set_free l v). rewrite Z.add_0_r.
    split_and!; done.
  - wp_steps. eapply wp_mono; [by eapply (alloc_at_brk_spec c m v e d)|].
    intros r s' (m' & v' & -> & Hm' & Hal & Ho & Hadd). eexists _, _, m', v'. split_and!; done.
Qed.

(** Freeing the region [[a, b)] of [rgid]. *)
Lemma release_region m v e rgid rg :
  reg_inv m v e -> arr_get (symrgtbl m) rgid = Some rg -> rg_start rg < rg_end rg ->
  let v' := set_free (mk_rg None (rg_start rg) (rg_end rg) :: vm_freerg_list v) v in
  reg_inv (set_region rgid 0 0 (set_mmap [v'] m)) v' e /\
  forall x, cover (regions (set_region rgid 0 0 (set_mmap [v'] m)) v') x = cover (regions m v) x.
Proof.
  intros Hr Hrg Hlt v'. pose proof (ri_brk _ _ _ Hr) as Hbrk. pose proof (ri_end _ _ _ Hr) as Hend.
  pose proof (ri_size _ _ _ Hr) as Hsize. pose proof (ri_below _ _ _ Hr) as Hb. unfold regions in Hb.
  apply Forall_app in Hb as [Hbs Hbf]. pose proof (proj1 (arr_get_Some _ _ _) Hrg) as [Hid Hl].
  assert (Hrgb : below (sbrk v) rg).
  { rewrite Forall_forall in Hbs. apply Hbs. by eapply list_elem_of_lookup_2. }
  assert (Hv' : v' = mk_vma (vm_id v) (vm_start v) (e * PAGING64_PAGESZ) (e * PAGING64_PAGESZ)
                   (mk_rg None (rg_start rg) (rg_end rg) :: vm_freerg_list v))
    by (unfold v', set_free; by rewrite Hbrk, Hend).
  split.
  - rewrite Hv'. apply (reg_inv_update m v e Hr rgid rg); try done; try (unfold PAGING64_PAGESZ; lia).
    + rewrite <- Hbrk. by constructor.
    + intros x. left. rewrite cnt_empty. simpl. rewrite <- (cnt_mk rg). lia.
  - intros x. unfold regions; simpl. rewrite (list_alter_insert _ _ _ rg), !cover_app by done.
    rewrite (cover_insert _ _ _ rg) by done. unfold set_range. rewrite cnt_empty. simpl.
    rewrite <- (cnt_mk rg). lia.
Qed.

Lemma get_symrg_lookup p i rg m (Q : vm_rg_struct -> sys -> Prop) s :
  mms s !! p = Some m -> arr_get (symrgtbl m) i = Some rg -> Q rg s -> wp (get_symrg p i) Q s.
Proof.
  intros Hm Hrg HQ. unfold get_symrg. wp_step. eapply wp_get_mm; [done|]. by eapply wp_from_opt.
Qed.

(** The descriptor after [__free] of [rgid], whose region was [rg]. *)
Definition freed (rgid : Z) (rg : vm_rg_struct) (v : vm_area_struct) (m : mm_struct) : mm_struct :=
  if rg_start rg <? rg_end rg then
    set_region rgid 0 0 (set_mmap [set_free (mk_rg None (rg_start rg) (rg_end rg) :: vm_freerg_list v) v] m)
  else set_region rgid 0 0 m.

(** [__free], whatever the host answers to its [malloc]: only the descriptor
    and the list of host outcomes change, and without memory the first does not. *)
Lemma __free_run c m v e rgid rg s :
  caller_ok c s m -> reg_inv m v e ->
  0 <= rgid < PAGING_MAX_SYMTBL_SZ -> arr_get (symrgtbl m) rgid = Some rg ->
  wp (__free (Some c) 0 rgid)
     (fun r s' =>
        if (rg_start rg =? 0) && (rg_end rg =? 0) then r = -1 /\ s' = s
        else if default false (head (s_host s)) then r = -1 /\ s' = set_host (tail (s_host s)) s
        else r = 0 /\ s' = with_mm (p_mm c) (freed rgid rg v m) (set_host (tail (s_host s)) s)) s.
Proof.
  intros [Hk Hp Hm] Hr Hid Hrg. pose proof (ri_map _ _ _ Hr) as Hmap.
  unfold __free. replace ((rgid <? 0) || (PAGING_MAX_SYMTBL_SZ <=? rgid) || (p_krnl c =? NULL)) with false.
  2: { unfold PAGING_MAX_SYMTBL_SZ, NULL in *. lia. }
  unfold get_symrg_byid. replace ((rgid <? 0) || (PAGING_MAX_SYMTBL_SZ <? rgid)) with false
    by (unfold PAGING_MAX_SYMTBL_SZ in *; lia).
  wp_step. eapply get_symrg_lookup; [done|done|].
  destruct ((rg_start rg =? 0) && (rg_end rg =? 0)); [by wp_steps|].
  wp_step. eapply (wp_malloc_any (S := sys)). change (host s) with (s_host s).
  destruct (default false (head (s_host s))); simpl negb; cbn iota; [by wp_steps|].
  set (s0 := set_host (tail (s_host s)) s). wp_step. eapply wp_upd_symrg; [exact Hm|exact Hrg|].
  wp_step. unfold enlist_vm_freerg_list. wp_step.
  eapply wp_get_vma; [apply with_mm_lookup|by simpl; rewrite Hmap|]. simpl rg_start. simpl rg_end. unfold freed.
  destruct (Z.ltb_spec (rg_start rg) (rg_end rg)) as [Hlt|Hge].
  - replace (rg_end rg <=? rg_start rg) with false by lia. wp_step.
    eapply wp_upd_vma; [apply with_mm_lookup|]. wp_steps. split; [done|].
    etransitivity; [apply (with_mm_twice (p_mm c) (set_region rgid 0 0 m) _ s0)|]. simpl. by rewrite Hmap.
  - replace (rg_end rg <=? rg_start rg) with true by lia. by wp_steps.
Qed.

Lemma __free_spec c m v e d rgid rg s :
  kstate s d -> caller_ok c s m -> reg_inv m v e ->
  0 <= rgid < PAGING_MAX_SYMTBL_SZ -> arr_get (symrgtbl m) rgid = Some rg ->
  wp (__free (Some c) 0 rgid)
     (fun r s' =>
        if (rg_start rg =? 0) && (rg_end rg =? 0) then r = -1 /\ s' = s
        else r = 0 /\ mem_same s s' /\ others_same (p_mm c) s s' /\
             mms s' !! p_mm c = Some (freed rgid rg v m)) s.
Proof.
  intros Hks Hc Hr Hid Hrg. eapply wp_mono; [by eapply (__free_run c m v e)|]. intros r s'.
  destruct (_ && _); [done|]. rewrite (ks_host _ _ Hks). simpl default. cbn iota. intros [-> ->].
  assert (Hs0 : set_host (tail []) s = s) by (simpl tail; rewrite <- (ks_host _ _ Hks); by destruct s).
  rewrite Hs0. split; [done|].
  destruct (set_mm_same (p_mm c) m (freed rgid rg v m) s) as [H1 H2]; try apply Hks; try apply Hc.
  1,2: unfold freed; by destruct (_ <? _).
  split_and!; [done|done|apply with_mm_lookup].
Qed.

(** What [__free] leaves of the regions. *)
Lemma free_region_inv m v e rgid rg :
  reg_inv m v e -> arr_get (symrgtbl m) rgid = Some rg ->
  let m' := freed rgid rg v m in
  exists v', reg_inv m' v' e /\ (forall x, cover (regions m' v') x = cover (regions m v) x) /\
    (rg_start rg < rg_end rg -> mk_rg None (rg_start rg) (rg_end rg) ∈ vm_freerg_list v').
Proof.
  intros Hr Hrg m'. unfold m', freed. destruct (Z.ltb_spec (rg_start rg) (rg_end rg)) as [Hlt|Hge].
  - destruct (release_region m v e rgid rg Hr Hrg Hlt) as [Hi Hcov].
    eexists. split_and!; [exact Hi|exact Hcov|]. intros _. apply list_elem_of_here.
  - pose proof (ri_brk _ _ _ Hr) as Hbrk. pose proof (ri_end _ _ _ Hr) as Hend.
    assert (Hv : set_mmap [v] m = m) by (rewrite <- (ri_map _ _ _ Hr); by destruct m).
    exists v. split_and!; [| |lia].
    + pose proof (reg_inv_update m v e Hr rgid rg 0 0 (vm_freerg_list v) e Hrg) as Hup. cbv zeta in Hup.
      pose proof (ri_size _ _ _ Hr). pose proof (ri_below _ _ _ Hr) as Hb. unfold regions in Hb.
      apply Forall_app in Hb as [_ Hb]. rewrite Hbrk in Hb.
      replace (mk_vma (vm_id v) (vm_start v) (e * PAGING64_PAGESZ) (e * PAGING64_PAGESZ) (vm_freerg_list v))
        with v in Hup by (rewrite <- Hend at 1; rewrite <- Hbrk; by destruct v).
      rewrite Hv in Hup. apply Hup; [lia|unfold PAGING64_PAGESZ; lia|lia|done|].
      intros x. left. rewrite cnt_empty. pose proof (cnt_range rg x). lia.
    + intros x. unfold regions; simpl. pose proof (proj1 (arr_get_Some _ _ _) Hrg) as [_ Hl].
      rewrite (list_alter_insert _ _ _ rg), !cover_app, (cover_insert _ _ _ rg) by done.
      unfold set_range. rewrite cnt_empty. replace (cnt rg x) with 0; [lia|].
      unfold cnt, inside. destruct (Z.leb_spec (rg_start rg) x), (Z.ltb_spec x (rg_end rg)); simpl; lia.
Qed.

(** ** Allocation and paging *)

(** Mapping fresh pages to fresh frames, on the abstract state. *)
Lemma map_fresh p l : forall V F rd sd g0 q l2,
  vm_inv V F rd sd -> free_fp_list rd = l ++ l2 -> Forall (fits rd) l -> F p = Some q ->
  0 <= g0 -> g0 + Z.of_nat (length l) <= 2 ^ 45 -> (forall g, g0 <= g -> V p g = Absent) ->
  let V' q' g := if decide (q' = p) then match arr_get l (g - g0) with Some f => Resident f | None => V q' g end
                 else V q' g in
  let rd' := set_fps l2 (rev l ++ used_fp_list rd) rd in
  vm_inv V' (updf F p (rev (zseq g0 (length l)) ++ q)) rd' sd /\ bytes_kept V rd sd V' rd' sd.
Proof.
  induction l as [|f l IH]; intros V F rd sd g0 q l2 Hv Hfree Hfit HF Hg Hlim Hab V' rd'.
  - assert (Hrd : set_fps l2 (rev [] ++ used_fp_list rd) rd = rd) by (simpl in *; rewrite <- Hfree; apply set_fps_self).
    unfold rd'. clear rd'. rewrite Hrd.
    assert (HV : forall q' g, V' q' g = V q' g).
    { intros q' g. unfold V'. destruct (decide _); [|done]. unfold arr_get. by destruct (0 <=? _). }
    split; [|by apply bytes_kept_views]. eapply vm_inv_ext; [exact HV| |exact Hv].
    intros q'. unfold updf. case_decide; [by subst|done].
  - inversion_clear Hfit as [|? ? Hf Hl]. simpl in Hlim.
    assert (Hnf : next_fits rd) by (unfold next_fits; by rewrite Hfree).
    destruct (take_frame V F rd sd Hv f (l ++ l2) Hfree Hnf) as (Hv1 & Hres & Hb1).
    set (rd1 := set_fps (l ++ l2) (f :: used_fp_list rd) rd) in *.
    destruct (make_resident V F rd1 sd Hv1 p g0 f q rd1 sd Hres) as [Hv2 Hb2]; [|unfold valid_pgn; lia|done| |].
    { intros x. by rewrite (Hab g0) by lia. }
    { left. by rewrite (Hab g0) by lia. }
    set (V1 := updv V p g0 (Resident f)) in *.
    destruct (IH V1 (updf F p (g0 :: q)) rd1 sd (g0 + 1) (g0 :: q) l2 Hv2 eq_refl Hl) as [Hv3 Hb3];
      [unfold updf; by rewrite decide_True|lia|lia| |].
    { intros g Hge. unfold V1. rewrite updv_ne by (intros [=]; lia). apply Hab. lia. }
    assert (Hrd : set_fps l2 (rev (f :: l) ++ used_fp_list rd) rd = set_fps l2 (rev l ++ used_fp_list rd1) rd1).
    { unfold rd1; simpl. by rewrite <- app_assoc. }
    unfold rd'. clear rd'. rewrite Hrd.
    assert (HV : forall q' g, V' q' g = (if decide (q' = p) then
        match arr_get l (g - (g0 + 1)) with Some f => Resident f | None => V1 q' g end else V1 q' g)).
    { intros q' g. unfold V', V1, updv. destruct (decide (q' = p)) as [->|Hq]; [|by rewrite decide_False by congruence].
      unfold arr_get. destruct (Z.leb_spec 0 (g - g0)), (Z.leb_spec 0 (g - (g0 + 1))); try lia.
      - replace (Z.to_nat (g - g0)) with (S (Z.to_nat (g - (g0 + 1)))) by lia. simpl.
        destruct (l !! _); [done|]. rewrite decide_False; [done|]. intros [=]. lia.
      - replace g with g0 by lia. rewrite Z.sub_diag. simpl. by rewrite decide_True.
      - rewrite decide_False; [done|]. intros [=]. lia. }
    split.
    + eapply vm_inv_ext; [exact HV| |exact Hv3]. intros q'. unfold updf. case_decide; [|done].
      simpl. by rewrite <- app_assoc.
    + eapply bytes_kept_trans; [exact Hb1|]. eapply bytes_kept_trans; [exact Hb2|].
      eapply bytes_kept_trans; [exact Hb3|]. by apply bytes_kept_views.
Qed.

Lemma mem_inv_kstate s rd sd : mem_inv s rd sd -> kstate s rd.
Proof.
  intros [Hm Hv]. split; try apply Hm. apply Hv.
Qed.

Lemma machine_others p s s' rd sd rd' :
  machine s rd sd -> others_same p s s' -> devs s' = <[k_mram (os s) := rd']> (devs s) -> same_shape rd rd' ->
  machine s' rd' sd.
Proof.
  intros [] Ho Hd [H1 H2]. destruct Ho. split; rewrite ?os_os0, ?Hd; try done.
  - by rewrite lookup_insert_eq.
  - by rewrite lookup_insert_ne.
  - unfold dev_ok in *. by rewrite H1, H2.
Qed.

(** Adding pages keeps the paging invariant and all bytes. *)
Lemma pages_added_inv p e n s s' rd sd m :
  mem_inv s rd sd -> mms s !! p = Some m -> others_same p s s' -> pages_added p e n rd s s' ->
  0 <= e -> 0 <= n -> e + n <= 2 ^ 45 ->
  (forall g, e <= g -> view_of s p g = Absent) ->
  (n <= Z.of_nat (length (free_fp_list rd)) -> Forall (fits rd) (take (Z.to_nat n) (free_fp_list rd))) ->
  exists rd', mem_inv s' rd' sd /\ bytes_kept (view_of s) rd sd (view_of s') rd' sd /\
    (forall q g, q <> p -> view_of s' q g = view_of s q g) /\
    (forall g, e + n <= g -> view_of s' p g = Absent) /\
    (forall g, e <= g < e + n -> if decide (n <= Z.of_nat (length (free_fp_list rd)))
                                  then exists f, view_of s' p g = Resident f else view_of s' p g = Absent) /\
    same_pool rd rd'.
Proof.
  intros [Hm Hv] Hmm Ho Hadd He Hn Hlim Hab Hfit.
  destruct Hadd as [(Hle & l & l2 & Hlen & Hfree & Hd & Hpt & Hff)|(Hgt & fr & us & Hfr & Hus & Hd & Hpt & Hff)].
  - specialize (Hfit Hle). replace (Z.to_nat n) with (length l) in Hfit by lia.
    rewrite Hfree, take_app_length in Hfit.
    assert (HF : fifo_of s p = Some (fifo_pgn m)) by (unfold fifo_of; by rewrite Hmm).
    destruct (map_fresh p l _ _ rd sd e _ l2 Hv Hfree Hfit HF) as [Hv' Hb']; [lia|lia|done|].
    set (rd' := set_fps l2 _ rd) in *.
    assert (Hl : forall f, f ∈ l -> f mod 2 ^ 13 = f /\ 0 <= f).
    { intros f Hin. rewrite Forall_forall in Hfit. specialize (Hfit f Hin). destruct (mi_rok _ _ _ Hm) as [_ Hr].
      unfold fits, PAGING64_PAGESZ in Hfit. split; [apply Z.mod_small|]; lia. }
    assert (HV : forall q g, view_of s' q g = if decide (q = p) then
        match arr_get l (g - e) with Some f => Resident f | None => view_of s q g end else view_of s q g).
    { intros q g. unfold view_of. rewrite Hpt. unfold mapped_ptes. destruct (decide (q = p)); [|done].
      destruct (arr_get l (g - e)) as [f|] eqn:Hgl; [|done].
      apply arr_get_Some in Hgl as [_ Hgl]. apply list_elem_of_lookup_2 in Hgl. destruct (Hl f Hgl) as [Hf Hf0].
      by rewrite view_fpn_val, Hf. }
    exists rd'. split_and!.
    + split; [by eapply machine_others|]. eapply vm_inv_ext; [exact HV| |exact Hv'].
      intros q. rewrite Hff. unfold updf. case_decide; [|done]. rewrite HF. simpl.
      by replace (Z.to_nat n) with (length l) by lia.
    + eapply bytes_kept_trans; [exact Hb'|]. by apply bytes_kept_views.
    + intros q g Hq. rewrite HV. by rewrite decide_False.
    + intros g Hg. rewrite HV, decide_True by done. destruct (arr_get l (g - e)) eqn:Hgl; [|apply Hab; lia].
      apply arr_get_Some in Hgl as [_ Hgl]. apply lookup_lt_Some in Hgl. lia.
    + intros g Hg. rewrite decide_True by done. rewrite HV, decide_True by done.
      destruct (arr_get_is_Some l (g - e)) as [f ->]; [lia|]. eauto.
    + split; [done|]. unfold frames_of, rd'; simpl. rewrite Hfree, <- app_assoc, <- (Permutation_rev l).
      rewrite !app_assoc. by rewrite (Permutation_app_comm l2 l).
  - assert (HV : forall q g, view_of s' q g = view_of s q g) by (intros; unfold view_of; by rewrite Hpt).
    exists (set_fps fr us rd).
    split_and!.
    + split; [by eapply machine_others|]. eapply vm_inv_ext; [exact HV|exact Hff|].
      split; try apply Hv.
      * intros q g f Hf. destruct (vi_res _ _ _ _ Hv _ _ _ Hf). split; [simpl; by rewrite Hus|done].
      * eapply frames_wf_perm; [|apply Hv]. unfold frames_of; simpl. by rewrite Hfr, Hus.
    + intros q g o b Ho' Hb. rewrite HV. by rewrite <- Hb.
    + intros q g _. apply HV.
    + intros g Hg. rewrite HV. apply Hab. lia.
    + intros g Hg. rewrite decide_False by lia. rewrite HV. apply Hab. lia.
    + split; [done|]. unfold frames_of; simpl. by rewrite Hfr, Hus.
Qed.

(** [__alloc] on a machine with the paging invariant. *)
Lemma __alloc_memory c m v e rgid size s rd sd :
  mem_inv s rd sd -> caller_ok c s m -> registered c s -> reg_inv m v e ->
  (forall g, e <= g -> view_of s (p_mm c) g = Absent) ->
  0 <= rgid < PAGING_MAX_SYMTBL_SZ -> 0 < size -> e + (size + 4095) / 4096 < 2 ^ 19 ->
  Forall (fits rd) (take (Z.to_nat ((size + 4095) / 4096)) (free_fp_list rd)) ->
  wp (__alloc (Some c) 0 rgid size)
     (fun r s' => exists a n m' v' rd', r = (0, Some a) /\ (n = 0 \/ n = (size + 4095) / 4096) /\
        mms s' !! p_mm c = Some m' /\ reg_inv m' v' (e + n) /\
        mem_inv s' rd' sd /\ bytes_kept (view_of s) rd sd (view_of s') rd' sd /\
        (forall q g, q <> p_mm c -> view_of s' q g = view_of s q g) /\
        (forall g, e + n <= g -> view_of s' (p_mm c) g = Absent) /\
        (forall g, e <= g < e + n ->
           if decide (n <= Z.of_nat (length (free_fp_list rd)))
           then exists f, view_of s' (p_mm c) g = Resident f else view_of s' (p_mm c) g = Absent) /\
        others_same (p_mm c) s s' /\ same_pool rd rd') s.
Proof.
  intros Hinv Hc Hreg Hr Hab Hid Hsz Hlim Hfit. pose proof (ri_size _ _ _ Hr) as Hsize.
  eapply wp_mono; [eapply (__alloc_spec c m v e rd); try done; by eapply mem_inv_kstate|].
  intros r s' (a & n & m' & v' & -> & Hm' & Hal & Ho & Hn). exists a, n, m', v'.
  destruct (find_fit size (vm_freerg_list v)) as [[[? ?] ?]|].
  - destruct Hn as [-> (Hd & Hpt & Hff)]. rewrite Z.add_0_r in *. exists rd.
    assert (HV : forall q g, view_of s' q g = view_of s q g) by (intros; unfold view_of; by rewrite Hpt).
    destruct Hinv as [Hm Hv]. split_and!; try done; [by left|apply Hal| | |by intros; rewrite HV; apply Hab|lia].
    + split; [|by eapply vm_inv_ext]. eapply (machine_others (p_mm c) s); [done|done| |done].
      rewrite Hd. symmetry. apply insert_id. apply Hm.
    + by apply bytes_kept_views.
  - destruct Hn as (Hn & Ha & Hadd). rewrite <- Hn in *.
    destruct (pages_added_inv (p_mm c) e n s s' rd sd m) as (rd' & Hi & Hb & Hq & Hab' & Hnew & Hpool); try done;
      [apply Hc|lia|lia|lia|].
    exists rd'. split_and!; try done; [by right|apply Hal].
Qed.

(** ** Properties *)

(** C12 (safety): allocation never hands out memory twice.  On a process whose
    regions do not overlap, with no host allocation failing, [__alloc] of a
    positive size that keeps the break below 2 GiB succeeds with a region of
    exactly that size at the address returned; no address of it belongs to
    another symbol or to a free region, the other symbols keep their regions,
    and the regions still do not overlap and lie below the break - whether
    the space came from the free list or from growing the area. *)
Theorem alloc_fresh_region c m v e d rgid size s :
  kstate s d -> caller_ok c s m -> registered c s -> reg_inv m v e ->
  0 <= rgid < PAGING_MAX_SYMTBL_SZ -> 0 < size -> e + (size + 4095) / 4096 < 2 ^ 19 ->
  wp (__alloc (Some c) 0 rgid size)
     (fun r s' => exists a m' v' e' rg, r = (0, Some a) /\ mms s' !! p_mm c = Some m' /\
        reg_inv m' v' e' /\ e <= e' /\
        arr_get (symrgtbl m') rgid = Some rg /\ rg_start rg = a /\ rg_end rg = a + size /\
        (forall x, a <= x < a + size ->
           (forall j rg', j <> rgid -> arr_get (symrgtbl m') j = Some rg' -> inside rg' x = false) /\
           (forall rg', rg' ∈ vm_freerg_list v' -> inside rg' x = false)) /\
        (forall j, j <> rgid -> 0 <= j -> arr_get (symrgtbl m') j = arr_get (symrgtbl m) j)) s.
Proof.
  intros Hks Hc Hreg Hr Hid Hsz Hlim. eapply wp_mono; [by eapply (__alloc_spec c m v e d)|].
  intros r s' (a & n & m' & v' & -> & Hm' & [Hi (rg & Hrg & Hs & He) Ho] & _ & Hn).
  exists a, m', v', (e + n), rg. split_and!; try done.
  - destruct (find_fit _ _); destruct Hn as [-> _]; lia.
  - intros x Hx. eapply (reg_inv_disjoint m' v' _ Hi); [done|]. unfold inside. rewrite Hs, He. lia.
Qed.

(** C14 (functional): [__free] of an id of the symbol table, on every branch
    past the id test, whatever the host's [malloc] answers (the descriptor has
    its one area and well-formed regions).  A symbol with no region (both
    bounds 0: never allocated, or freed before) gives -1 and changes nothing.
    When [malloc] fails the call returns -1 and the symbol keeps its region:
    nothing changes but the host's answer used up.  Otherwise the call returns
    0, the symbol loses its region, a nonempty region goes to the free list,
    the regions still do not overlap, and every address belongs to a region
    exactly when it did before, so nothing is lost or duplicated.  Page
    tables, queues and devices are untouched. *)
Theorem free_recycles_region c m v e rgid rg s :
  pt_wf s -> caller_ok c s m -> reg_inv m v e ->
  0 <= rgid < PAGING_MAX_SYMTBL_SZ -> arr_get (symrgtbl m) rgid = Some rg ->
  wp (__free (Some c) 0 rgid)
     (fun r s' =>
        if (rg_start rg =? 0) && (rg_end rg =? 0) then r = -1 /\ s' = s
        else if default false (head (s_host s)) then r = -1 /\ s' = set_host (tail (s_host s)) s
        else r = 0 /\ mem_same s s' /\ exists m' v' rg', mms s' !! p_mm c = Some m' /\
          arr_get (symrgtbl m') rgid = Some rg' /\ rg_start rg' = 0 /\ rg_end rg' = 0 /\
          (rg_start rg < rg_end rg -> mk_rg None (rg_start rg) (rg_end rg) ∈ vm_freerg_list v') /\
          reg_inv m' v' e /\ forall x, cover (regions m' v') x = cover (regions m v) x) s.
Proof.
  intros Hwf Hc Hr Hid Hrg. eapply wp_mono; [by eapply (__free_run c m v e)|]. intros r s'.
  destruct (_ && _); [done|]. destruct (default false _); [done|]. intros [-> ->]. split; [done|].
  set (m1 := freed rgid rg v m). split.
  { destruct (set_mm_mem (p_mm c) m m1 (set_host (tail (s_host s)) s)) as (H1 & H2 & H3).
    - destruct Hwf as [ow Hwf]. exists ow. by apply pt_wf_host.
    - apply Hc.
    - unfold m1, freed. by destruct (_ <? _).
    - unfold m1, freed. by destruct (_ <? _).
    - by split_and!. }
  destruct (free_region_inv m v e rgid rg Hr Hrg) as (v' & Hi & Hcov & Hfree). fold m1 in Hi, Hcov.
  exists m1, v', (set_range 0 0 rg). split_and!; try done; [apply with_mm_lookup|].
  unfold m1, freed. destruct (_ <? _); by apply set_region_same.
Qed.

(** C13 (invariant): allocation and paging.  From a state with the paging
    invariant and no host allocation failing, of a process with one area of
    [e] pages, well-formed regions and no page past the area in use, for a
    positive size that keeps the area below 2 GiB, the frames of RAM that the
    new pages would get lying inside RAM (4096-byte frames; of main's RAM,
    which [init_memphy] cuts into 256-byte frames, the first [maxsz / 4096]):
    [__alloc] keeps all of this and every byte of every process, touches no
    other process's pages, and leaves no page past the new area in use.  A
    page it adds is resident when RAM had a free frame for every new page,
    and absent - left to demand paging - when it had not: the call succeeds
    all the same. *)
Theorem alloc_keeps_memory c m v e rgid size s rd sd :
  mem_inv s rd sd -> caller_ok c s m -> registered c s -> reg_inv m v e ->
  (forall g, e <= g -> view_of s (p_mm c) g = Absent) ->
  0 <= rgid < PAGING_MAX_SYMTBL_SZ -> 0 < size -> e + (size + 4095) / 4096 < 2 ^ 19 ->
  Forall (fits rd) (take (Z.to_nat ((size + 4095) / 4096)) (free_fp_list rd)) ->
  wp (__alloc (Some c) 0 rgid size)
     (fun r s' => exists a m' v' e' rd', r = (0, Some a) /\
        mms s' !! p_mm c = Some m' /\ reg_inv m' v' e' /\
        mem_inv s' rd' sd /\ bytes_kept (view_of s) rd sd (view_of s') rd' sd /\
        (forall q g, q <> p_mm c -> view_of s' q g = view_of s q g) /\
        (forall g, e' <= g -> view_of s' (p_mm c) g = Absent) /\
        (forall g, e <= g < e' ->
           if decide (e' - e <= Z.of_nat (length (free_fp_list rd)))
           then exists f, view_of s' (p_mm c) g = Resident f else view_of s' (p_mm c) g = Absent)) s.
Proof.
  intros Hinv Hc Hreg Hr Hab Hid Hsz Hlim Hfit. eapply wp_mono; [by apply (__alloc_memory c m v e rgid size s rd sd)|].
  intros r s' (a & n & m' & v' & rd' & -> & _ & H1 & H2 & H3 & H4 & H5 & H6 & H7 & _). exists a, m', v', (e + n), rd'.
  replace (e + n - e) with n by lia. by split_and!.
Qed.
