(* ===== verification/Kmem.v ===== *)
(** * Kernel memory: [libkmem_*], [__kmalloc], [__kmem_cache_alloc] and the
    kernel's accessors of [src/libmem.c]

    The kernel's address space is the descriptor [krnl->mm]; the code reaches
    it through a copy of the caller's PCB whose [mm] is replaced. *)

From S2P Require Import Prelude Pte MemPhy Kernel PageTable Mm64 MmVm Syscall LibMem VMem UserMem Alloc.

(** [kcaller]: a copy of [*caller] in the kernel's address space. *)
Definition kcaller (c : pcb_t) (k : krnl_t) : pcb_t := set_mm (k_mm k) c.

(** ** Allocation *)

(** The loop of [__kmalloc] from page [i]; [false] is the return code -1. *)
Fixpoint kmalloc_pages (c : pcb_t) (vaddr i : Z) (n : nat) : M sys bool :=
  match n with
  | O => ret true
  | S n =>
      let* k := krnl_of c in
      let kc := kcaller c k in
      let* fpn := MEMPHY_get_freefp (k_mram k) in
      match fpn with
      | None => ret false
      | Some fpn =>
          let* off := int_arith (i * PAGING64_PAGESZ) in
          let pgn := Z.shiftr (u64 (vaddr + off)) PAGING64_ADDR_PT_SHIFT in
          let* pte := get_pte_ptr (Some kc) pgn 1 in
          match pte with
          | None => ret false
          | Some pte =>
              let* r := pte_set_fpn (Some kc) pgn fpn in
              if negb (r =? 0) then ret false
              else
                let* v := pte_load pte in
                pte_store pte (SETBIT v PAGING_PTE_PRESENT_MASK) ;;;
                kmalloc_pages c vaddr (i + 1) n
          end
      end
  end.

(** The result and [*alloc_addr]; [size] is an [addr_t], [rgid] an [int]. *)
Definition __kmalloc (c : pcb_t) (vmaid rgid size : Z) : M sys (Z * option Z) :=
  if (p_krnl c =? NULL) || (size =? 0) then ret (u64 (-1), None)
  else
    let num_pages := i32 (u64 (size + PAGING64_PAGESZ - 1) / PAGING64_PAGESZ) in
    let vaddr := u64 (u64 rgid * PAGING64_PAGESZ * 1000) in
    let* ok := kmalloc_pages c vaddr 0 (Z.to_nat num_pages) in
    ret (if ok then (u64 0, Some vaddr) else (u64 (-1), None)).

(** [size] and [reg_index] are [uint32_t]; the address is not recorded. *)
Definition libkmem_malloc (caller size reg_index : Z) : M sys Z :=
  let* caller := opt_pcb caller in
  match caller with
  | None => ret (-1)
  | Some c =>
      if size =? 0 then ret (-1)
      else
        let* (r, _) := __kmalloc c (-1) (i32 reg_index) size in
        let val := i32 r in
        if negb (val =? 0) then ret (-1) else ret 0
  end.

(** ** Cache pools *)

Definition empty_pools : list kcache_pool_struct :=
  replicate (Z.to_nat PAGING_MAX_KCACHE_POOLS) (mk_pool 0 0 0).

(** [mm->kcpooltbl[i]] and the assignment to its three fields *)
Definition get_pool (mm i : Z) : M sys kcache_pool_struct :=
  let* m := get_mm mm in
  let* t := from_opt (kcpooltbl m) in
  from_opt (arr_get t i).
Definition put_pool (mm i : Z) (p : kcache_pool_struct) : M sys unit :=
  let* m := get_mm mm in
  let* t := from_opt (kcpooltbl m) in
  let* t := from_opt (arr_set t i p) in
  upd_mm mm (set_kcpooltbl (Some t)).

Definition libkmem_cache_pool_create (caller size align cache_pool_id : Z) : M sys Z :=
  let* caller := opt_pcb caller in
  match caller with
  | None => ret (-1)
  | Some c =>
      if p_krnl c =? NULL then ret (-1)
      else
        let* k := gets os in
        let mm := k_mm k in
        if mm =? NULL then ret (-1)
        else if (size =? 0) || (align =? 0) || (size <? align) then ret (-1)
        else
          let* m := get_mm mm in
          let* ok := match kcpooltbl m with
                     | Some _ => ret true
                     | None =>
                         let* ok := malloc in
                         if ok then upd_mm mm (set_kcpooltbl (Some empty_pools)) ;;; ret true
                         else ret false
                     end in
          if negb ok then ret (-1)
          else if PAGING_MAX_KCACHE_POOLS <=? cache_pool_id then ret (-1)
          else
            let* (r, pool_storage_addr) := __kmalloc c (-1) (i32 cache_pool_id) size in
            if negb (i32 r =? 0) then ret (-1)
            else
              let* a := from_opt pool_storage_addr in
              put_pool mm cache_pool_id (mk_pool (i32 size) (i32 align) a) ;;;
              ret 0
  end.

(** The bump allocator; the result and [*alloc_addr]. *)
Definition __kmem_cache_alloc (caller : option pcb_t) (vmaid rgid cache_pool_id : Z)
    : M sys (Z * option Z) :=
  match caller with
  | None => ret (u64 (-1), None)
  | Some c =>
      if p_krnl c =? NULL then ret (u64 (-1), None)
      else
        let* k := gets os in
        let mm := k_mm k in
        if mm =? NULL then ret (u64 (-1), None)
        else if (cache_pool_id <? 0) || (PAGING_MAX_KCACHE_POOLS <=? cache_pool_id) then ret (u64 (-1), None)
        else
          let* pool := get_pool mm cache_pool_id in
          if (kc_align pool =? 0) || (kc_size pool <? kc_align pool) then ret (u64 (-1), None)
          else
            let slot_addr := kc_storage pool in
            let* size := int_arith (kc_size pool - kc_align pool) in
            let pool := mk_pool size (kc_align pool) (u64 (kc_storage pool + kc_align pool)) in
            put_pool mm cache_pool_id pool ;;;
            if (0 <=? rgid) && (rgid <? PAGING_MAX_SYMTBL_SZ) then
              upd_symrg mm rgid (fun _ => mk_rg (Some vmaid) slot_addr (u64 (slot_addr + kc_align pool))) ;;;
              ret (u64 0, Some slot_addr)
            else
              let* size := int_arith (kc_size pool + kc_align pool) in
              put_pool mm cache_pool_id
                (mk_pool size (kc_align pool) (u64 (kc_storage pool - kc_align pool))) ;;;
              ret (u64 (-1), None)
  end.

(** The result 0 of the helper counts as a failure. *)
Definition libkmem_cache_alloc (proc cache_pool_id reg_index : Z) : M sys Z :=
  let* caller := opt_pcb proc in
  match caller with
  | None => ret (-1)
  | Some c =>
      if p_krnl c =? NULL then ret (-1)
      else
        let* k := gets os in
        if k_mm k =? NULL then ret (-1)
        else
          let* (val, _) := __kmem_cache_alloc caller (-1) (i32 reg_index) (i32 cache_pool_id) in
          if (val =? u64 (-1)) || (val =? 0) then ret (-1) else ret 0
  end.

(** ** Access to kernel memory *)

(** The checks and the translation of [__read_kernel_mem] and
    [__write_kernel_mem]: the physical address, or [None] for -1.  A page
    that is not resident is not faulted in. *)
Definition kernel_phyaddr (caller : option pcb_t) (rgid offset : Z) : M sys (option Z) :=
  match caller with
  | None => ret None
  | Some c =>
      if p_krnl c =? NULL then ret None
      else
        let* k := gets os in
        if (rgid <? 0) || (PAGING_MAX_SYMTBL_SZ <=? rgid) then ret None
        else if k_mm k =? NULL then ret None
        else
          let* currg := get_symrg (k_mm k) rgid in
          if (rg_start currg =? 0) && (rg_end currg =? 0) then ret None
          else if rg_end currg <=? u64 (rg_start currg + offset) then ret None
          else
            let vaddr := u64 (rg_start currg + offset) in
            let pgn := Z.shiftr vaddr PAGING64_ADDR_PT_SHIFT in
            let off := page_off vaddr in
            let* pte := pte_get_entry (Some (kcaller c k)) pgn in
            if negb (PAGING_PAGE_PRESENT pte) then ret None
            else ret (Some (u64 (Z.shiftl (PAGING_FPN pte) PAGING64_ADDR_PT_SHIFT + off)))
  end.

Definition __read_kernel_mem (caller : option pcb_t) (vmaid rgid offset : Z) : M sys (Z * option Z) :=
  let* phyaddr := kernel_phyaddr caller rgid offset in
  match phyaddr with
  | None => ret (-1, None)
  | Some phyaddr =>
      let* k := gets os in
      let* (r, data) := MEMPHY_read (k_mram k) phyaddr in
      if negb (r =? 0) then ret (-1, data) else ret (0, data)
  end.

Definition __write_kernel_mem (caller : option pcb_t) (vmaid rgid offset value : Z) : M sys Z :=
  let* phyaddr := kernel_phyaddr caller rgid offset in
  match phyaddr with
  | None => ret (-1)
  | Some phyaddr =>
      let* k := gets os in
      let* r := MEMPHY_write (k_mram k) phyaddr value in
      if negb (r =? 0) then ret (-1) else ret 0
  end.

(** ** Copies *)

(** The loop of both copies from byte [i]; [source], [destination] and
    [offset + i] are [uint32_t]. *)
Fixpoint copy_loop (c : pcb_t) (source destination offset i : Z) (n : nat) : M sys Z :=
  match n with
  | O => ret 0
  | S n =>
      let* (r, temp_data) := __read_kernel_mem (Some c) (-1) (i32 source) (u32 (offset + i)) in
      if negb (r =? 0) then ret (-1)
      else
        let* temp_data := from_opt temp_data in
        let* r := __write_user_mem (Some c) (-1) (i32 destination) (u32 (offset + i)) temp_data in
        if negb (r =? 0) then ret (-1)
        else copy_loop c source destination offset (i + 1) n
  end.

Definition libkmem_copy_to_user (caller source destination offset size : Z) : M sys Z :=
  let* caller := opt_pcb caller in
  match caller with
  | None => ret (-1)
  | Some c => if size =? 0 then ret (-1) else copy_loop c source destination offset 0 (Z.to_nat size)
  end.

(** The same code: it too copies from the kernel to the user. *)
Definition libkmem_copy_from_user (caller source destination offset size : Z) : M sys Z :=
  let* caller := opt_pcb caller in
  match caller with
  | None => ret (-1)
  | Some c => if size =? 0 then ret (-1) else copy_loop c source destination offset 0 (Z.to_nat size)
  end.

(** ** Mapping kernel pages *)

(** The present bit is already set by [pte_set_fpn]. *)
Lemma SETBIT_fpn_val v f : SETBIT (pte_fpn_val v f) PAGING_PTE_PRESENT_MASK = pte_fpn_val v f.
Proof.
  apply Z.bits_inj'. intros i Hi. unfold_pte. autorewrite with bits. bits_cases.
Qed.

Lemma kmalloc_page_spec c m g f (k : M sys bool) (Q : bool -> sys -> Prop) s :
  pt_wf s -> caller_ok c s m -> s_host s = [] -> valid_pgn g ->
  (forall s', pt_wf s' -> pte_upd (p_mm c) g (pte_fpn_val (pte_of s (p_mm c) g) f) s s' -> wp k Q s') ->
  wp (let* pte := get_pte_ptr (Some c) g 1 in
      match pte with
      | None => ret false
      | Some pte =>
          let* r := pte_set_fpn (Some c) g f in
          if negb (r =? 0) then ret false
          else let* v := pte_load pte in
               pte_store pte (SETBIT v PAGING_PTE_PRESENT_MASK) ;;; k
      end) Q s.
Proof.
  intros Hwf Hc Hh Hv HQ. pose proof Hc as [Hk Hp Hm]. wp_call get_pte_ptr_spec; [done..|].
  intros r s1 [Hwf1 Hst1 Hslot1 Hal1 _]. destruct r as [slot|]; [|by destruct (Hal1 ltac:(done) Hh)].
  specialize (Hslot1 slot eq_refl). destruct (ps_mms_Some _ _ _ _ Hst1 Hm) as (m1 & Hm1 & _).
  wp_steps. eapply wp_mono; [apply (pte_set_fpn_spec c m1); [done|by split|done]|].
  intros r s2 [Hwf2 [[-> Hu]|(_ & _ & Hne)]]; [|by destruct Hne; apply (ps_host _ _ Hst1)].
  cbn [Z.eqb negb]. wp_steps. pose proof (pu_slot _ _ _ _ _ Hu _ _ _ Hslot1) as Hslot2.
  eapply wp_pte_load; [done|done|]. wp_steps. eapply wp_pte_store; [done|done|].
  intros s3 Hwf3 Hu3 _. apply HQ; [done|].
  rewrite (pu_same _ _ _ _ _ Hu), SETBIT_fpn_val, (ps_ptes _ _ Hst1) in Hu3.
  rewrite (ps_ptes _ _ Hst1) in Hu. destruct Hu, Hu3.
  pose proof (ps_devs _ _ Hst1). pose proof (ps_procs _ _ Hst1). pose proof (ps_os _ _ Hst1).
  split; try congruence.
  - intros Hs. by apply pu_host0, pu_host, (ps_host _ _ Hst1).
  - intros q. by rewrite pu_mms0, pu_mms, (ps_mms _ _ Hst1).
  - intros q h Hne. by rewrite pu_other0, pu_other, (ps_ptes _ _ Hst1).
  - intros q h x Hx. by eapply pu_slot0, pu_slot, ps_slot.
Qed.

(** Device [d] after [k] frames have been taken from the free list. *)
Definition taken (k : nat) (d : memphy_struct) : memphy_struct :=
  set_fps (drop k (free_fp_list d)) (rev (take k (free_fp_list d)) ++ used_fp_list d) d.

(** [k] frames of RAM mapped to the pages of [p] from [g0] on, and no more. *)
Record kmapped (p g0 : Z) (k : nat) (d : memphy_struct) (s s' : sys) : Prop := {
  km_wf : pt_wf s';
  km_devs : devs s' = <[k_mram (os s) := taken k d]> (devs s);
  km_procs : procs s' = procs s;
  km_os : os s' = os s;
  km_host : s_host s' = [];
  km_mms q : forget_stats <$> (mms s' !! q) = forget_stats <$> (mms s !! q);
  km_ptes q g : pte_of s' q g = mapped_ptes p g0 (take k (free_fp_list d)) (pte_of s) q g;
}.

Lemma taken_0 d : taken 0 d = d.
Proof. by destruct d. Qed.

Lemma kmapped_refl p g0 d s :
  pt_wf s -> s_host s = [] -> devs s !! k_mram (os s) = Some d -> kmapped p g0 0 d s s.
Proof.
  intros Hwf Hh Hd. split; try done.
  - by rewrite taken_0, insert_id.
  - intros q g. unfold mapped_ptes. destruct (decide _); [|done]. unfold arr_get. by destruct (0 <=? _).
Qed.

(** One more page: frame [f] is taken and entered for page [g0], then the
    rest of the range is mapped. *)
Lemma kmapped_cons p g0 k f fs d s s1 s2 :
  devs s !! k_mram (os s) = Some d -> free_fp_list d = f :: fs ->
  let d1 := set_fps fs (f :: used_fp_list d) d in
  pte_upd p g0 (pte_fpn_val (pte_of s p g0) f) (at_dev (k_mram (os s)) d1 s (s_host s)) s1 ->
  kmapped p (g0 + 1) k d1 s1 s2 -> kmapped p g0 (S k) d s s2.
Proof.
  intros Hd Hf d1 Hu [].
  pose proof (pu_os _ _ _ _ _ Hu) as Hos. pose proof (pu_devs _ _ _ _ _ Hu) as Hdv. simpl in Hos, Hdv.
  assert (Ht : taken k d1 = taken (S k) d).
  { unfold taken, d1. rewrite Hf. simpl. by rewrite <- app_assoc. }
  split; try done.
  - by rewrite km_devs0, Hos, Hdv, insert_insert_eq, Ht.
  - by rewrite km_procs0, (pu_procs _ _ _ _ _ Hu).
  - by rewrite km_os0.
  - intros q. by rewrite km_mms0, (pu_mms _ _ _ _ _ Hu).
  - intros q g. rewrite km_ptes0, Hf. simpl take. rewrite mapped_ptes_cons.
    unfold mapped_ptes. simpl free_fp_list.
    assert (Hpt : forall q g, pte_of s1 q g = if decide ((q, g) = (p, g0)) then pte_fpn_val (pte_of s p g0) f else pte_of s q g).
    { intros q' g'. destruct (decide _) as [[= -> ->]|Hne]; [apply Hu|]. by rewrite (pu_other _ _ _ _ _ Hu). }
    rewrite !Hpt. done.
Qed.

Lemma kmalloc_pages_spec c m n : forall g0 i d s,
  pt_wf s -> caller_ok (kcaller c (os s)) s m -> s_host s = [] ->
  k_mram (os s) <> NULL -> devs s !! k_mram (os s) = Some d ->
  0 <= g0 -> 0 <= i -> g0 + i + Z.of_nat n <= 2 ^ 45 -> i + Z.of_nat n < 2 ^ 19 ->
  wp (kmalloc_pages c (g0 * PAGING64_PAGESZ) i n) (fun ok s' =>
    kmapped (k_mm (os s)) (g0 + i) (Nat.min n (length (free_fp_list d))) d s s' /\
    ok = bool_decide (n <= length (free_fp_list d))%nat) s.
Proof.
  revert m. induction n as [|n IH]; intros m g0 i d s Hwf Hc Hh Hr Hd Hg Hi Hv Hn; cbn [kmalloc_pages].
  { wp_steps. split; [by apply kmapped_refl|]. by rewrite bool_decide_true by lia. }
  wp_step. apply krnl_of_ok; [apply Hc|]. wp_steps. eapply wp_MEMPHY_get_freefp; [done|done|].
  destruct (free_fp_list d) as [|f fs] eqn:Hf.
  { wp_steps. rewrite Nat.min_0_r. split; [by apply kmapped_refl|]. by rewrite bool_decide_false by (simpl; lia). }
  wp_simpl. wp_step. unfold PAGING64_PAGESZ in *. apply wp_int_arith; [lia|].
  rewrite u64_small by lia. replace (g0 * 4096 + i * 4096) with ((g0 + i) * 4096) by lia. rewrite page_of_addr.
  set (d1 := set_fps fs (f :: used_fp_list d) d). set (s0 := at_dev _ d1 s (s_host s)).
  apply (kmalloc_page_spec _ m); [by apply pt_wf_at_dev|by destruct Hc; split|done|unfold valid_pgn; lia|].
  intros s1 Hwf1 Hu. change (pte_of s0) with (pte_of s) in Hu. change (p_mm _) with (k_mm (os s)) in Hu.
  pose proof (pu_os _ _ _ _ _ Hu) as Hos. pose proof (pu_devs _ _ _ _ _ Hu) as Hdv. simpl in Hos, Hdv.
  destruct (pte_upd_mms_Some _ _ _ _ _ _ _ Hu (co_desc _ _ _ Hc)) as (m1 & Hm1 & _).
  eapply wp_mono.
  - apply (IH m1 g0 (i + 1) d1); rewrite ?Hos; try done; try lia.
    + destruct Hc. by split.
    + by apply (pu_host _ _ _ _ _ Hu).
    + by rewrite Hdv, lookup_insert_eq.
  - intros ok s2 [Hkm ->]. simpl. replace (g0 + (i + 1)) with (g0 + i + 1) in Hkm by lia.
    rewrite Hos in Hkm. split; [by eapply kmapped_cons|]. apply bool_decide_ext. lia.
Qed.

(** ** Kernel accesses *)

Section KernelAccess.
Context (c : pcb_t) (km : mm_struct) (s : sys) (rd sd : memphy_struct).
Hypothesis Hinv : mem_inv s rd sd.
Hypothesis Hc : caller_ok (kcaller c (os s)) s km.

Lemma kernel_phyaddr_spec rgid off rg (Q : option Z -> sys -> Prop) :
  in_region km rgid off rg ->
  (forall s1, pt_wf s1 -> pt_step s s1 ->
     Q (match view_of s (k_mm (os s)) ((rg_start rg + off) / PAGING64_PAGESZ) with
        | Resident f => Some (f * PAGING64_PAGESZ + (rg_start rg + off) mod PAGING64_PAGESZ)
        | _ => None end) s1) ->
  wp (kernel_phyaddr (Some c) rgid off) Q s.
Proof.
  intros (Hid & Hrg & Hs & Ho & He) HQ. pose proof Hc as [Hk Hp Hm]. simpl in Hk, Hp, Hm.
  unfold kernel_phyaddr. rewrite (proj2 (Z.eqb_neq (p_krnl c) _)) by done. wp_steps.
  rewrite (rgid_guard _ Hid), (proj2 (Z.eqb_neq (k_mm (os s)) _)) by done. wp_step.
  apply (get_symrg_spec (kcaller c (os s)) km s Hc rgid rg); [done|].
  rewrite u64_small by lia. set (a := rg_start rg + off) in *.
  replace ((rg_start rg =? 0) && (rg_end rg =? 0)) with false by lia.
  replace (rg_end rg <=? a) with false by lia. wp_simpl. rewrite page_of_div, page_off_mod.
  wp_step. eapply pte_get_view_spec; [done|done|unfold valid_pgn, PAGING64_PAGESZ; lia|].
  intros pte s1 Hpte Hwf1 Hst1. specialize (HQ s1 Hwf1 Hst1).
  change (p_mm (kcaller c (os s))) with (k_mm (os s)) in Hpte. rewrite <- Hpte in HQ.
  destruct (PAGING_PAGE_PRESENT pte) eqn:Hpr; wp_simpl; wp_step.
  - rewrite (present_view _ Hpr) in HQ. pose proof (FPN_range pte).
    unfold PAGING64_ADDR_PT_SHIFT. rewrite Z.shiftl_mul_pow2 by lia. change (2 ^ 12) with 4096.
    unfold PAGING64_PAGESZ in *. rewrite u64_small by lia. exact HQ.
  - pose proof (absent_view _ Hpr) as Hab. destruct (view pte) as [|f|w]; [done|by destruct (Hab f)|done].
Qed.

(** The bytes of RAM behind kernel addresses. *)
Lemma kernel_byte_at p a f :
  view_of s p (a / PAGING64_PAGESZ) = Resident f -> 0 <= a ->
  0 <= f * PAGING64_PAGESZ + a mod PAGING64_PAGESZ < storage_len rd /\
  ubyte s rd sd p a = Some (byte_at rd (f * PAGING64_PAGESZ + a mod PAGING64_PAGESZ)).
Proof.
  intros Hv Ha. destruct Hinv as [_ Hvi]. destruct (vi_res _ _ _ _ Hvi _ _ _ Hv) as [_ Hf].
  unfold ubyte. rewrite Hv. split; [|done]. unfold fits, PAGING64_PAGESZ in *. lia.
Qed.

Lemma __read_kernel_mem_spec vmaid rgid off rg (Q : Z * option Z -> sys -> Prop) :
  in_region km rgid off rg ->
  (forall s1, pt_wf s1 -> pt_step s s1 ->
     Q (match view_of s (k_mm (os s)) ((rg_start rg + off) / PAGING64_PAGESZ) with
        | Resident _ => (0, ubyte s rd sd (k_mm (os s)) (rg_start rg + off))
        | _ => (-1, None) end) s1) ->
  wp (__read_kernel_mem (Some c) vmaid rgid off) Q s.
Proof.
  intros Hin HQ. pose proof Hin as (_ & _ & Hs & Ho & _). unfold __read_kernel_mem. wp_step.
  eapply kernel_phyaddr_spec; [exact Hin|]. intros s1 Hwf1 Hst1. specialize (HQ s1 Hwf1 Hst1).
  destruct (view_of _ _ _) as [|f|w] eqn:Hv; try by wp_steps.
  destruct (kernel_byte_at _ (rg_start rg + off) f Hv) as [Hphy Hb]; [lia|].
  wp_steps. pose proof Hinv as [Hm _]. rewrite (ps_os _ _ Hst1).
  eapply wp_MEMPHY_read; [apply Hm|rewrite (ps_devs _ _ Hst1); apply Hm|apply (mi_rok _ _ _ Hm)|done|].
  cbn [Z.eqb negb]. wp_steps. by rewrite <- Hb.
Qed.

Lemma __write_kernel_mem_spec vmaid rgid off rg v f :
  in_region km rgid off rg -> view_of s (k_mm (os s)) ((rg_start rg + off) / PAGING64_PAGESZ) = Resident f ->
  wp (__write_kernel_mem (Some c) vmaid rgid off v) (fun r s' => r = 0 /\ exists rd',
     mem_inv s' rd' sd /\ env_same s s' /\ (forall q h, view_of s' q h = view_of s q h) /\
     ubyte s' rd' sd (k_mm (os s)) (rg_start rg + off) = Some v /\
     forall q a b, 0 <= a -> (q, a) <> (k_mm (os s), rg_start rg + off) ->
       ubyte s rd sd q a = Some b -> ubyte s' rd' sd q a = Some b) s.
Proof.
  intros Hin Hv. pose proof Hin as (_ & _ & Hs & Ho & _). unfold __write_kernel_mem. wp_step.
  eapply kernel_phyaddr_spec; [exact Hin|]. intros s1 Hwf1 Hst1. rewrite Hv.
  set (a := rg_start rg + off) in *. destruct (kernel_byte_at _ a f Hv) as [Hphy _]; [lia|].
  wp_steps. pose proof (mem_inv_step _ _ _ _ Hwf1 Hst1 Hinv) as Hi1. pose proof Hi1 as [Hm1 _].
  eapply wp_MEMPHY_write; [apply Hm1|apply Hm1|apply (mi_rok _ _ _ Hm1)|done|].
  rewrite set_devs_at_dev. cbn [Z.eqb negb]. wp_steps. split; [done|].
  assert (Hv1 : view_of s1 (k_mm (os s)) (a / PAGING64_PAGESZ) = Resident f) by (by rewrite (view_of_step _ _ _ _ Hst1)).
  assert (Ho' : 0 <= a mod PAGING64_PAGESZ < PAGING64_PAGESZ) by (unfold PAGING64_PAGESZ; lia).
  destruct (set_byte_resident s1 rd sd _ _ f _ v Hi1 Hv1 Ho') as (Hi2 & Hb & Hoth).
  eexists. split_and!; [exact Hi2| |intros q h; rewrite view_of_dev; by apply view_of_step|exact Hb|].
  - etransitivity; [by apply env_same_step|apply env_same_dev].
  - intros q a' b Ha' Hne Hb'. unfold ubyte, PAGING64_PAGESZ in *. rewrite Hoth; [|intros [= -> Hd Hmod]; apply Hne; f_equal; lia|lia].
    by rewrite (view_of_step _ _ _ _ Hst1).
Qed.
End KernelAccess.

(** Both accesses of a page out of RAM, one after the other. *)
Lemma kernel_access_misses c km s rd sd :
  mem_inv s rd sd -> caller_ok (kcaller c (os s)) s km -> forall rgid off rg vmaid v,
  in_region km rgid off rg ->
  (forall f, view_of s (k_mm (os s)) ((rg_start rg + off) / PAGING64_PAGESZ) <> Resident f) ->
  wp (__write_kernel_mem (Some c) vmaid rgid off v)
     (fun w s' => wp (let* r := __read_kernel_mem (Some c) vmaid rgid off in ret (w, r))
        (fun r s' => r = (-1, (-1, None)) /\ mem_inv s' rd sd /\ devs s' = devs s /\
           forall q g, view_of s' q g = view_of s q g) s') s.
Proof.
  intros Hi Hc rgid off rg vmaid v Hin Hv. unfold __write_kernel_mem. wp_step.
  eapply (kernel_phyaddr_spec c km s rd sd); [done|done|done|]. intros s1 Hwf1 Hst1.
  pose proof (mem_inv_step _ _ _ _ Hwf1 Hst1 Hi) as Hi1. pose proof (env_same_step _ _ Hst1) as He1.
  destruct (env_same_caller _ _ _ _ He1 Hc) as (km1 & Hc1 & Hm1).
  destruct (view_of s _ _) as [|f|w] eqn:Hpg; [|by destruct (Hv f)|].
  all: wp_steps; rewrite <- (es_os _ _ He1) in *;
    eapply (__read_kernel_mem_spec c km1 s1 rd sd); [done|done|by unfold in_region; rewrite (forget_vm_symrgtbl _ _ Hm1)|].
  all: intros s2 Hwf2 Hst2; rewrite (view_of_step _ _ _ _ Hst1), Hpg; wp_steps.
  all: split_and!; [done|by eapply mem_inv_step|by rewrite (ps_devs _ _ Hst2), (ps_devs _ _ Hst1)|].
  all: intros q g; by rewrite (view_of_step _ _ _ _ Hst2), (view_of_step _ _ _ _ Hst1).
Qed.

(** ** Copying *)

(** Every frame of the device lies within it. *)
Definition all_fit (d : memphy_struct) : Prop := Forall (fits d) (frames_of d).

Lemma all_fit_next d : all_fit d -> next_fits d.
Proof.
  unfold all_fit, next_fits, frames_of. destruct (free_fp_list d) as [|f fs]; [done|].
  intros H. by inversion H.
Qed.

Lemma all_fit_pool d d' : same_pool d d' -> all_fit d -> all_fit d'.
Proof.
  intros [[_ Hl] Hp]. unfold all_fit. rewrite Hp. intros H. eapply Forall_impl; [exact H|].
  intros f. unfold fits. by rewrite Hl.
Qed.

(** What a copy of [n] bytes needs: the two regions, on a machine whose
    frames lie within their devices. *)
Record copy_ready (c : pcb_t) (src dst lo : Z) (n : nat) (krg urg : vm_rg_struct)
    (s : sys) (rd sd : memphy_struct) : Prop := {
  cr_inv : mem_inv s rd sd;
  cr_rfit : all_fit rd;
  cr_sfit : all_fit sd;
  cr_reg : registered c s;
  cr_ne : p_mm c <> k_mm (os s);
  cr_user : exists um, caller_ok c s um /\ arr_get (symrgtbl um) dst = Some urg;
  cr_kernel : exists km, caller_ok (kcaller c (os s)) s km /\ arr_get (symrgtbl km) src = Some krg;
  cr_src : 0 <= src < PAGING_MAX_SYMTBL_SZ;
  cr_dst : 0 <= dst < PAGING_MAX_SYMTBL_SZ;
  cr_lo : 0 <= lo;
  cr_krg : 0 <= rg_start krg /\ rg_start krg + lo + Z.of_nat n <= rg_end krg <= 2 ^ 31;
  cr_urg : 0 <= rg_start urg /\ rg_start urg + lo + Z.of_nat n <= rg_end urg <= 2 ^ 31;
}.

(** The page of kernel address [a] is in RAM. *)
Definition kernel_resident (s : sys) (a : Z) : Prop :=
  exists f, view_of s (k_mm (os s)) (a / PAGING64_PAGESZ) = Resident f.

(** Byte [x] of a copy into space [p] has arrived: the source, read from RAM in the
    state before, and the destination in the state after hold the same byte. *)
Definition copied (p : Z) (krg urg : vm_rg_struct) (s : sys) (rd sd : memphy_struct)
    (s' : sys) (rd' sd' : memphy_struct) (x : Z) : Prop :=
  kernel_resident s (rg_start krg + x) /\
  exists b, ubyte s rd sd (k_mm (os s)) (rg_start krg + x) = Some b /\
            ubyte s' rd' sd' p (rg_start urg + x) = Some b.

(** How a copy of [[lo, hi)] ends: [n] bytes have arrived, and either that is
    all of them, or the next byte has its source page out of RAM or RAM had
    no free frame left for its destination. *)
Definition copy_ends (krg : vm_rg_struct) (lo hi n : Z) (s : sys) (rd' : memphy_struct) (r : Z) : Prop :=
  0 <= n <= hi - lo /\
  (r = 0 /\ n = hi - lo \/
   r = -1 /\ n < hi - lo /\
     (~ kernel_resident s (rg_start krg + (lo + n)) \/ free_fp_list rd' = [])).

(** The copy of one byte leaves the rest of the copy ready. *)
Lemma copy_ready_next c src dst lo n krg urg s rd sd s' rd' sd' :
  copy_ready c src dst lo (S n) krg urg s rd sd ->
  mem_inv s' rd' sd' -> env_same s s' -> (exists a, settled c s rd sd a s' rd' sd') ->
  copy_ready c src dst (lo + 1) n krg urg s' rd' sd'.
Proof.
  intros [] Hi He (a & Hvw & Hp1 & Hp2 & _). pose proof (es_os _ _ He) as Hos.
  split; rewrite ?Hos; try done; try lia.
  - by eapply all_fit_pool.
  - by eapply all_fit_pool.
  - by eapply registered_same.
  - destruct cr_user0 as (um & Hc & Hrg). destruct (env_same_caller _ _ _ _ He Hc) as (um' & Hc' & Hf).
    exists um'. split; [done|]. by rewrite (forget_vm_symrgtbl _ _ Hf).
  - destruct cr_kernel0 as (km & Hc & Hrg). destruct (env_same_caller _ _ _ _ He Hc) as (km' & Hc' & Hf).
    exists km'. split; [done|]. by rewrite (forget_vm_symrgtbl _ _ Hf).
Qed.

(** One byte of the copy: the read misses, the write misses, or the byte
    arrives. *)
Lemma copy_step_spec c src dst x krg urg s rd sd (k : M sys Z) (Q : Z -> sys -> Prop) :
  copy_ready c src dst x 1 krg urg s rd sd -> let U := p_mm c in
  (forall s1, mem_inv s1 rd sd -> (forall q a, ubyte s1 rd sd q a = ubyte s rd sd q a) ->
     ~ kernel_resident s (rg_start krg + x) -> Q (-1) s1) ->
  (forall s1 rd1 sd1, mem_inv s1 rd1 sd1 -> free_fp_list rd1 = [] ->
     (forall q a b, ubyte s rd sd q a = Some b -> ubyte s1 rd1 sd1 q a = Some b) -> Q (-1) s1) ->
  (forall s1 rd1 sd1, mem_inv s1 rd1 sd1 -> env_same s s1 -> (exists a, settled c s rd sd a s1 rd1 sd1) ->
     (forall q a b, (q, a) <> (U, rg_start urg + x) -> ubyte s rd sd q a = Some b -> ubyte s1 rd1 sd1 q a = Some b) ->
     copied U krg urg s rd sd s1 rd1 sd1 x -> wp k Q s1) ->
  wp (let* (r, temp_data) := __read_kernel_mem (Some c) (-1) (i32 src) (u32 x) in
      if negb (r =? 0) then ret (-1)
      else
        let* temp_data := from_opt temp_data in
        let* r := __write_user_mem (Some c) (-1) (i32 dst) (u32 x) temp_data in
        if negb (r =? 0) then ret (-1) else k) Q s.
Proof.
  intros [] U Hmiss Hfull Hnext. destruct cr_user0 as (um & Hcu & Hurg), cr_kernel0 as (km & Hck & Hkrg).
  assert (Hik : in_region km src x krg) by (split_and!; lia || done).
  assert (Hiu : in_region um dst x urg) by (split_and!; lia || done).
  unfold PAGING_MAX_SYMTBL_SZ in *. rewrite !i32_small, u32_small by lia. wp_step.
  eapply (__read_kernel_mem_spec c km s rd sd); [done|done|done|]. intros s1 Hwf1 Hst1.
  pose proof (mem_inv_step _ _ _ _ Hwf1 Hst1 cr_inv0) as Hi1. pose proof (env_same_step _ _ Hst1) as He1.
  assert (Hub : forall q a, ubyte s1 rd sd q a = ubyte s rd sd q a).
  { intros. unfold ubyte. by rewrite (view_of_step _ _ _ _ Hst1). }
  destruct (view_of s _ _) as [|f|w] eqn:Hf.
  1,3: cbn [Z.eqb negb]; wp_steps; apply (Hmiss s1); [done|done|]; unfold kernel_resident; rewrite Hf; by intros [].
  destruct (kernel_byte_at s rd sd cr_inv0 _ (rg_start krg + x) f Hf) as [_ Hb]; [lia|].
  set (v := byte_at rd _) in *. rewrite Hb. cbn [Z.eqb negb]. wp_steps.
  destruct (env_same_caller _ _ _ _ He1 Hcu) as (um1 & Hcu1 & Hum1). eapply wp_mono.
  { apply (__write_user_mem_spec c um1 s1 rd sd Hi1 Hcu1) with (rg := urg).
    - by eapply registered_same.
    - unfold in_region. by rewrite (forget_vm_symrgtbl _ _ Hum1).
    - intros _. split; by apply all_fit_next. }
  intros r s2 (rd2 & sd2 & [(-> & Hi2 & He2 & (Hw & _ & Hset) & Hk)|(-> & Hi2 & He2 & (Hns & _ & _ & Hrd) & Hk)]).
  - cbn [Z.eqb negb]. apply (Hnext s2 rd2 sd2); [done|by etransitivity| | |].
    + exists (rg_start urg + x). destruct Hset as (H1 & H2 & H3 & H4). split_and!; [|done|done|].
      * intros q h Hq. rewrite H1 by done. by apply view_of_step.
      * intros h Hh Ha. apply H4; [done|]. by rewrite (view_of_step _ _ _ _ Hst1).
    + intros q a b Hne Hb'. apply Hk; [done|by rewrite Hub].
    + split; [by exists f|]. by exists v.
  - cbn [Z.eqb negb]. wp_steps. apply (Hfull s2 rd2 sd2); [done| |].
    + rewrite Hrd. unfold can_serve in Hns. destruct (free_fp_list rd); [done|]. destruct Hns. by left.
    + intros q a b Hb'. apply Hk. by rewrite Hub.
Qed.

Lemma copy_ready_one c src dst lo n krg urg s rd sd :
  copy_ready c src dst lo (S n) krg urg s rd sd -> copy_ready c src dst lo 1 krg urg s rd sd.
Proof. intros []. split; try done; lia. Qed.

Lemma copy_loop_spec c src dst off krg urg n : forall i s rd sd,
  copy_ready c src dst (off + i) n krg urg s rd sd -> 0 <= off -> 0 <= i ->
  let U := p_mm c in let lo := off + i in let hi := lo + Z.of_nat n in
  wp (copy_loop c src dst off i n) (fun r s' => exists rd' sd' k, mem_inv s' rd' sd' /\
    copy_ends krg lo hi k s rd' r /\
    (forall q a b, ~ (q = U /\ rg_start urg + lo <= a < rg_start urg + (lo + k)) ->
       ubyte s rd sd q a = Some b -> ubyte s' rd' sd' q a = Some b) /\
    (forall x, lo <= x < lo + k -> copied U krg urg s rd sd s' rd' sd' x)) s.
Proof.
  induction n as [|n IH]; intros i s rd sd Hr Hoff Hi U lo hi; cbn [copy_loop].
  { wp_steps. exists rd, sd, 0. split_and!; [apply Hr|split; [|left]; lia|done|lia]. }
  fold lo.
  apply (copy_step_spec c src dst lo krg urg s rd sd); [by eapply copy_ready_one| | |].
  - intros s1 Hi1 Hub Hno. exists rd, sd, 0. rewrite Z.add_0_r. split_and!; [done| |by intros; rewrite Hub|lia].
    split; [lia|]. right. rewrite Z.add_0_r. split_and!; [done|lia|by left].
  - intros s1 rd1 sd1 Hi1 Hfull Hub. exists rd1, sd1, 0. split_and!; [done| |by intros; apply Hub|lia].
    split; [lia|]. right. split_and!; [done|lia|by right].
  - intros s2 rd2 sd2 Hi2 He Hset Hk Hcp.
    pose proof (copy_ready_next _ _ _ _ _ _ _ _ _ _ _ _ _ Hr Hi2 He Hset) as Hr2.
    pose proof (cr_ne _ _ _ _ _ _ _ _ _ _ Hr) as Hne. destruct Hset as (a0 & Hvw & _).
    replace (off + i + 1) with (off + (i + 1)) in Hr2 by lia.
    assert (Hkr : forall a, kernel_resident s2 a <-> kernel_resident s a).
    { intros a. unfold kernel_resident. rewrite (es_os _ _ He), Hvw by done. done. }
    eapply wp_mono; [apply (IH (i + 1) s2 rd2 sd2 Hr2); lia|].
    intros r s3 (rd3 & sd3 & k & Hi3 & [Hk0 Hend] & Hk3 & Hcp3). exists rd3, sd3, (k + 1).
    replace (off + (i + 1)) with (lo + 1) in * by (unfold lo; lia).
    split_and!; [done| | |].
    + split; [lia|]. destruct Hend as [Hend|(-> & Hlt & Hend)]; [left; lia|right]. split_and!; [done|lia|].
      rewrite Hkr in Hend. by replace (lo + (k + 1)) with (lo + 1 + k) by lia.
    + intros q a b Hq Hb'. apply Hk3; [unfold U in *; lia|]. apply Hk; [|done].
      intros [= -> ->]. apply Hq. unfold U. lia.
    + intros x Hx. destruct (decide (x = lo)) as [->|Hxl].
      * destruct Hcp as (H1 & b & H2 & H3). split; [done|]. exists b. split; [done|]. apply Hk3; [lia|done].
      * destruct (Hcp3 x) as (H1 & b & H2 & H3); [lia|]. apply Hkr in H1. split; [done|]. exists b. split; [|done].
        rewrite (es_os _ _ He) in H2. destruct H1 as [fx Hfx].
        destruct (kernel_byte_at s rd sd (cr_inv _ _ _ _ _ _ _ _ _ _ Hr) _ (rg_start krg + x) fx Hfx) as [_ Hbx];
          [destruct Hr; lia|].
        rewrite Hbx. rewrite <- H2. symmetry. apply Hk; [|done]. intros [= ? _]. by destruct Hne.
Qed.

(** [__kmalloc] with arguments in range maps as many frames as there are. *)
Lemma __kmalloc_spec c m rgid size d s (Q : Z * option Z -> sys -> Prop) :
  pt_wf s -> caller_ok (kcaller c (os s)) s m -> s_host s = [] ->
  k_mram (os s) <> NULL -> devs s !! k_mram (os s) = Some d ->
  0 <= rgid < 2 ^ 31 -> 0 < size < 2 ^ 31 - 4096 ->
  let n := Z.to_nat ((size + 4095) / 4096) in
  let free := length (free_fp_list d) in
  (forall s', kmapped (k_mm (os s)) (1000 * rgid) (Nat.min n free) d s s' ->
     Q (if bool_decide (n <= free)%nat then (0, Some (1000 * rgid * PAGING64_PAGESZ)) else (u64 (-1), None)) s') ->
  wp (__kmalloc c (-1) rgid size) Q s.
Proof.
  intros Hwf Hc Hh Hr Hd Hid Hsz n free HQ. unfold __kmalloc. rewrite (proj2 (Z.eqb_neq (p_krnl c) _)) by apply Hc.
  replace (size =? 0) with false by lia. unfold PAGING64_PAGESZ. rewrite (u64_small rgid), (u64_small (size + 4096 - 1)), (u64_small (rgid * 4096 * 1000)), i32_small by lia.
  wp_simpl. replace (rgid * 4096 * 1000) with (1000 * rgid * 4096) by lia.
  replace (size + 4096 - 1) with (size + 4095) by lia. fold n. wp_step.
  eapply wp_mono; [apply (kmalloc_pages_spec c m n (1000 * rgid) 0 d s); try done; lia|].
  intros ok s' [Hk ->]. wp_steps. rewrite Z.add_0_r in Hk. specialize (HQ s' Hk). fold free.
  unfold PAGING64_PAGESZ in HQ. by case_bool_decide.
Qed.

(** ** Slots of a cache pool *)

(** [pool] is entry [i] of the table of the kernel that [c] runs on. *)
Record pool_ok (c : pcb_t) (s : sys) (i : Z) (pool : kcache_pool_struct) : Prop := {
  po_krnl : p_krnl c <> NULL;
  po_mm : k_mm (os s) <> NULL;
  po_at : exists m t, mms s !! k_mm (os s) = Some m /\ kcpooltbl m = Some t /\ arr_get t i = Some pool /\
                      Z.of_nat (length (symrgtbl m)) = PAGING_MAX_SYMTBL_SZ;
  po_id : 0 <= i < PAGING_MAX_KCACHE_POOLS;
  po_align : 0 < kc_align pool < 2 ^ 31;
  po_size : 0 <= kc_size pool < 2 ^ 31;
  po_storage : 0 <= kc_storage pool /\ kc_storage pool + kc_size pool < 2 ^ 64;
}.

Definition bumped (p : kcache_pool_struct) : kcache_pool_struct :=
  mk_pool (kc_size p - kc_align p) (kc_align p) (kc_storage p + kc_align p).

(** [put_pool] on an entry of the table. *)
Lemma wp_put_pool p i pool pool' m t (Q : unit -> sys -> Prop) s :
  mms s !! p = Some m -> kcpooltbl m = Some t -> arr_get t i = Some pool ->
  Q tt (with_mm p (set_kcpooltbl (Some (<[Z.to_nat i := pool']> t)) m) s) -> wp (put_pool p i pool') Q s.
Proof.
  intros Hm Ht Hi HQ. apply arr_get_Some in Hi as [Hi Hl]. apply lookup_lt_Some in Hl.
  unfold put_pool. wp_step. eapply wp_get_mm; [done|]. wp_steps.
  eapply wp_from_opt; [apply arr_set_Some; lia|]. by eapply wp_upd_mm.
Qed.

Lemma cache_alloc_spec c s i pool vmaid r :
  pool_ok c s i pool -> 0 <= r < PAGING_MAX_SYMTBL_SZ ->
  wp (__kmem_cache_alloc (Some c) vmaid r i) (fun res s' =>
    if kc_size pool <? kc_align pool then res = (u64 (-1), None) /\ s' = s
    else res = (0, Some (kc_storage pool)) /\ pool_ok c s' i (bumped pool) /\
         exists m', s' = with_mm (k_mm (os s)) m' s /\
           arr_get (symrgtbl m') r =
             Some (mk_rg (Some vmaid) (kc_storage pool) (kc_storage pool + kc_align pool))) s.
Proof.
  intros [] Hr. destruct po_at0 as (m & t & Hm & Ht & Hi & Hlen). unfold __kmem_cache_alloc.
  rewrite (proj2 (Z.eqb_neq (p_krnl c) _)) by done. wp_steps.
  rewrite (proj2 (Z.eqb_neq (k_mm (os s)) _)) by done.
  unfold PAGING_MAX_KCACHE_POOLS, PAGING_MAX_SYMTBL_SZ in *.
  replace ((i <? 0) || (100 <=? i)) with false by lia.
  unfold get_pool. wp_steps. eapply wp_get_mm; [done|]. wp_steps.
  replace (kc_align pool =? 0) with false by lia. rewrite orb_false_l.
  destruct (Z.ltb_spec (kc_size pool) (kc_align pool)) as [Hlt|Hge]; [by wp_steps|].
  wp_step. apply wp_int_arith; [lia|]. rewrite u64_small by lia. wp_steps.
  eapply wp_put_pool; [done|done|done|]. replace ((0 <=? r) && (r <? 30)) with true by lia.
  change (mk_pool _ _ _) with (bumped pool).
  wp_steps. unfold upd_symrg. wp_step. eapply wp_get_mm; [apply with_mm_lookup|].
  destruct (lookup_lt_is_Some_2 (symrgtbl m) (Z.to_nat r)) as [rg Hrg]; [lia|].
  wp_step. eapply wp_from_opt; [simpl; apply arr_get_Some; split; [lia|exact Hrg]|].
  wp_step. eapply wp_from_opt; [apply arr_set_Some; simpl; lia|].
  eapply wp_upd_mm; [apply with_mm_lookup|]. wp_steps. cbn [kc_align bumped]. rewrite !u64_small by lia.
  pose proof (proj1 (arr_get_Some _ _ _) Hi) as [_ Hit]. apply lookup_lt_Some in Hit.
  split; [done|]. split.
  - split; simpl; try done; try lia. eexists _, _. rewrite lookup_insert_eq. split; [done|].
    split; [done|]. simpl. rewrite length_insert. split; [apply arr_get_insert; lia|done].
  - eexists. split; [apply with_mm_twice|]. simpl. apply arr_get_insert. lia.
Qed.

(** A history of allocations from one pool: the addresses handed out. *)
Fixpoint cache_allocs (c : pcb_t) (i : Z) (rgids : list Z) : M sys (list (option Z)) :=
  match rgids with
  | [] => ret []
  | r :: rs =>
      let* (_, a) := __kmem_cache_alloc (Some c) (-1) r i in
      let* l := cache_allocs c i rs in
      ret (a :: l)
  end.

Lemma pool_ok_same c s s' i pool :
  mms s' = mms s -> os s' = os s -> pool_ok c s i pool -> pool_ok c s' i pool.
Proof. intros Hm Ho []. split; rewrite ?Ho, ?Hm; done. Qed.

Definition slot (pool : kcache_pool_struct) (k : Z) : option Z :=
  if (k + 1) * kc_align pool <=? kc_size pool then Some (kc_storage pool + k * kc_align pool) else None.

Lemma slot_bumped pool k : slot (bumped pool) k = slot pool (k + 1).
Proof.
  unfold slot, bumped; simpl. destruct (Z.leb_spec ((k + 1) * kc_align pool) (kc_size pool - kc_align pool)),
    (Z.leb_spec ((k + 1 + 1) * kc_align pool) (kc_size pool)); try lia; [f_equal; lia|done].
Qed.

Lemma map_slot_bumped pool n : forall k, map (slot (bumped pool)) (zseq k n) = map (slot pool) (zseq (k + 1) n).
Proof. induction n as [|n IH]; intros k; simpl; [done|]. by rewrite slot_bumped, IH. Qed.

(** An exhausted pool stays exhausted. *)
Lemma slot_none pool k n : 0 <= k -> 0 < kc_align pool -> kc_size pool < kc_align pool ->
  map (slot pool) (zseq (k + 1) n) = map (slot pool) (zseq k n).
Proof.
  intros Hk Ha Hs. revert k Hk. induction n as [|n IH]; intros k Hk; simpl; [done|].
  rewrite IH by lia. f_equal. unfold slot.
  destruct (Z.leb_spec ((k + 1 + 1) * kc_align pool) (kc_size pool)), (Z.leb_spec ((k + 1) * kc_align pool) (kc_size pool)); nia || done.
Qed.

(** ** Properties *)

(** The slots of a cache pool.  On a pool of [kc_size] bytes
    at [kc_storage] with slots of [kc_align] bytes, for every history of
    allocations with valid region ids the k-th allocation returns
    [kc_storage + k * kc_align] as long as k + 1 slots fit into the pool and
    fails from then on: the slots handed out are consecutive, disjoint and
    within the pool.  Only the kernel's memory descriptor changes. *)
Theorem cache_slots_consecutive c i pool rgids s :
  pool_ok c s i pool -> Forall (fun r => 0 <= r < PAGING_MAX_SYMTBL_SZ) rgids ->
  wp (cache_allocs c i rgids) (fun l s' => l = map (slot pool) (zseq 0 (length rgids)) /\
    exists m', mms s' = <[k_mm (os s) := m']> (mms s) /\ s' = set_mms (mms s') s) s.
Proof.
  intros Hp Hr. revert pool s Hp. induction Hr as [|r rs Hr _ IH]; intros pool s Hp; cbn [cache_allocs].
  { wp_steps. split; [done|]. destruct (po_at _ _ _ _ Hp) as (m & t & Hm & _). exists m.
    split; [by rewrite insert_id|by destruct s]. }
  wp_step. eapply wp_mono; [by apply (cache_alloc_spec c s i pool)|]. intros [x a] s1 H1.
  pose proof (po_align _ _ _ _ Hp) as Ha. simpl.
  destruct (Z.ltb_spec (kc_size pool) (kc_align pool)) as [Hlt|Hge].
  - destruct H1 as [[= -> ->] ->]. wp_steps. eapply wp_mono; [by apply IH|]. intros l s2 [-> Hs2]. wp_steps.
    split; [|done]. rewrite slot_none by lia. f_equal. unfold slot.
    destruct (Z.leb_spec ((0 + 1) * kc_align pool) (kc_size pool)); [lia|done].
  - destruct H1 as ([= -> ->] & Hp1 & m1 & -> & _). wp_steps. eapply wp_mono; [by apply IH|].
    intros l s2 [-> (m2 & Hm2 & Hs2)]. wp_steps. split.
    + rewrite map_slot_bumped. f_equal. unfold slot.
      destruct (Z.leb_spec ((0 + 1) * kc_align pool) (kc_size pool)); [f_equal; lia|lia].
    + exists m2. simpl in Hm2. rewrite insert_insert_eq in Hm2. split; [done|]. by rewrite Hs2.
Qed.

(** [libkmem_cache_alloc] never reports success.  Its helper
    returns 0 when it has handed out a slot, and the wrapper treats both 0 and
    -1 as failures: on every state, whenever the call returns, it returns -1 -
    also when a slot was taken from the pool and entered in the symbol
    table. *)
Theorem cache_alloc_reports_failure proc i r s :
  (forall res s', libkmem_cache_alloc proc i r s = Ok (res, s') -> res = -1) /\
  (forall c pool, proc <> NULL -> procs s !! proc = Some c -> pool_ok c s i pool ->
     0 <= r < PAGING_MAX_SYMTBL_SZ -> kc_align pool <= kc_size pool ->
     wp (libkmem_cache_alloc proc i r) (fun res s' => res = -1 /\ pool_ok c s' i (bumped pool)) s).
Proof.
  assert (Hval : forall c vmaid r i s a s', __kmem_cache_alloc (Some c) vmaid r i s = Ok (a, s') ->
            a.1 = u64 (-1) \/ a.1 = 0).
  { clear. intros c vmaid r i s. unfold __kmem_cache_alloc, bind, gets, ret, get_pool, put_pool, upd_symrg,
      upd_mm, get_mm, from_opt, modify, int_arith, undef, ret, gets, bind. intros a s' H.
    repeat (case_match; simplify_eq/=; try discriminate); auto. }
  split.
  - intros res s' H. unfold libkmem_cache_alloc, opt_pcb, bind, gets, ret in H.
    destruct (proc =? NULL); [by simplify_eq|]. destruct (get_pcb proc s) as [[c s1]| |]; [|done|done].
    destruct (p_krnl c =? NULL); [by simplify_eq|]. destruct (k_mm (os s1) =? NULL); [by simplify_eq|].
    destruct (__kmem_cache_alloc _ _ _ _ s1) as [[[v a] s2]| |] eqn:Hk; [|done|done].
    apply Hval in Hk. simpl in Hk. replace ((v =? u64 (-1)) || (v =? 0)) with true in H; [by simplify_eq|].
    destruct Hk as [->| ->]; reflexivity.
  - intros c pool Hn Hc Hp Hr Hge. unfold libkmem_cache_alloc, opt_pcb. rewrite (proj2 (Z.eqb_neq proc _)) by done.
    unfold get_pcb. wp_steps. rewrite (proj2 (Z.eqb_neq (p_krnl c) _)) by apply Hp. wp_steps.
    rewrite (proj2 (Z.eqb_neq (k_mm (os s)) _)) by apply Hp. wp_steps.
    pose proof (po_id _ _ _ _ Hp). unfold PAGING_MAX_KCACHE_POOLS, PAGING_MAX_SYMTBL_SZ in *.
    rewrite !i32_small by lia. eapply wp_mono; [by apply (cache_alloc_spec c s i pool)|].
    intros [v a] s1 H1. destruct (Z.ltb_spec (kc_size pool) (kc_align pool)); [lia|].
    destruct H1 as ([= -> ->] & Hp1 & _). by wp_steps.
Qed.

(** C27 (error): [__kmalloc] on both branches.  On a kernel with enough host
    memory a request of [n] pages for region id [rgid] maps the first [n] free
    frames of RAM, in order, to the pages from [1000 * rgid] of the kernel's
    address space and returns their address; when fewer than [n] frames are
    free it returns -1, but all frames that were free are gone: they stay
    mapped, and none is given back.  No other entry of any address space and
    no region table changes. *)
Theorem kmalloc_maps_or_exhausts c m rgid size d s :
  pt_wf s -> caller_ok (kcaller c (os s)) s m -> s_host s = [] ->
  k_mram (os s) <> NULL -> devs s !! k_mram (os s) = Some d ->
  0 <= rgid < 2 ^ 31 -> 0 < size < 2 ^ 31 - 4096 ->
  wp (__kmalloc c (-1) rgid size) (fun r s' =>
    let n := Z.to_nat ((size + 4095) / 4096) in
    let free := length (free_fp_list d) in
    kmapped (k_mm (os s)) (1000 * rgid) (Nat.min n free) d s s' /\
    r = (if bool_decide (n <= free)%nat then (0, Some (1000 * rgid * PAGING64_PAGESZ)) else (u64 (-1), None))) s.
Proof.
  intros Hwf Hc Hh Hr Hd Hid Hsz. by eapply __kmalloc_spec.
Qed.

(** C26 (roundtrip): kernel memory is accessed only while it is in RAM.
    [__write_kernel_mem] and then [__read_kernel_mem] at an offset of a region
    of the kernel (ending at or below 2 GiB, on a machine with the paging
    invariant on which no host allocation fails): when the page is in RAM the two return 0 and 0 with the byte
    written, and every other byte of every address space is kept.  When it is
    not - never mapped, or swapped out - it is not faulted in: the write
    returns -1, the read returns -1 with no byte, the page stays where it is,
    as does every page of every address space, and both devices, contents and
    frame lists, are untouched. *)
Theorem kernel_write_read_back c km s rd sd vmaid rgid off rg v :
  mem_inv s rd sd -> caller_ok (kcaller c (os s)) s km -> in_region km rgid off rg ->
  wp (let* w := __write_kernel_mem (Some c) vmaid rgid off v in
      let* r := __read_kernel_mem (Some c) vmaid rgid off in
      ret (w, r))
     (fun r s' =>
        match view_of s (k_mm (os s)) ((rg_start rg + off) / PAGING64_PAGESZ) with
        | Resident _ => r = (0, (0, Some v)) /\ exists rd', mem_inv s' rd' sd /\
            forall q a b, 0 <= a -> (q, a) <> (k_mm (os s), rg_start rg + off) ->
              ubyte s rd sd q a = Some b -> ubyte s' rd' sd q a = Some b
        | _ => r = (-1, (-1, None)) /\ mem_inv s' rd sd /\ devs s' = devs s /\
            forall q g, view_of s' q g = view_of s q g
        end) s.
Proof.
  intros Hi Hc Hin. wp_step. destruct (view_of s (k_mm (os s)) _) as [|f|w] eqn:Hv.
  2: { eapply wp_mono; [by eapply (__write_kernel_mem_spec c km s rd sd Hi Hc)|].
       intros r s1 (-> & rd1 & Hi1 & He & Hvw & Hb & Hk). wp_step.
       destruct (env_same_caller _ _ _ _ He Hc) as (km1 & Hc1 & Hm1). rewrite <- (es_os _ _ He) in *.
       eapply (__read_kernel_mem_spec c km1 s1 rd1 sd); [done|done| |].
       - unfold in_region. rewrite (forget_vm_symrgtbl _ _ Hm1). exact Hin.
       - intros s2 Hwf2 Hst2. rewrite Hvw, Hv, Hb. wp_steps. split; [done|]. exists rd1. split; [by eapply mem_inv_step|].
         intros q a b Ha Hne Hb'. unfold ubyte. rewrite (view_of_step _ _ _ _ Hst2). by apply Hk. }
  all: apply (kernel_access_misses c km s rd sd Hi Hc _ _ rg); [done|by rewrite Hv].
Qed.

(** C25 (functional): copies from the kernel reach the user exactly.  Copying
    [size] bytes at [off] from a kernel region to a region of the caller (on
    a machine with the paging invariant and devices whose frames all lie
    inside them; regions that end at or below 2 GiB; no host allocation
    fails): the bytes arrive in order, and every byte that arrived equals the
    kernel's byte at the same offset.  The call returns 0 when all [size]
    have arrived; otherwise it returns -1 after [n < size] of them, because
    the kernel's page of the next byte is not in RAM - it is never faulted
    in - or with no free frame left in RAM for the user's page.  Every byte
    of every address space outside the [n] that arrived is kept, page faults
    and evictions of the caller's pages included.  [libkmem_copy_from_user],
    whose name says the opposite, does the same. *)
Theorem kernel_copies_to_user f ptr c src dst off size krg urg s rd sd :
  f = libkmem_copy_to_user \/ f = libkmem_copy_from_user ->
  ptr <> NULL -> procs s !! ptr = Some c -> 0 <= off -> 0 < size ->
  copy_ready c src dst off (Z.to_nat size) krg urg s rd sd ->
  wp (f ptr src dst off size) (fun r s' => exists rd' sd' n, mem_inv s' rd' sd' /\ 0 <= n <= size /\
    (r = 0 /\ n = size \/
     r = -1 /\ n < size /\
       ((forall fr, view_of s (k_mm (os s)) ((rg_start krg + (off + n)) / PAGING64_PAGESZ) <> Resident fr) \/
        free_fp_list rd' = [])) /\
    (forall x, off <= x < off + n -> exists fr b,
        view_of s (k_mm (os s)) ((rg_start krg + x) / PAGING64_PAGESZ) = Resident fr /\
        ubyte s rd sd (k_mm (os s)) (rg_start krg + x) = Some b /\
        ubyte s' rd' sd' (p_mm c) (rg_start urg + x) = Some b) /\
    (forall q a b, ~ (q = p_mm c /\ rg_start urg + off <= a < rg_start urg + (off + n)) ->
       ubyte s rd sd q a = Some b -> ubyte s' rd' sd' q a = Some b)) s.
Proof.
  intros Hf Hn Hp Hoff Hsz Hr. replace f with libkmem_copy_to_user by (by destruct Hf).
  unfold libkmem_copy_to_user, opt_pcb. rewrite (proj2 (Z.eqb_neq ptr _)) by done. unfold get_pcb. wp_steps.
  replace (size =? 0) with false by lia. rewrite <- (Z.add_0_r off) in Hr.
  eapply wp_mono; [by eapply copy_loop_spec|]. rewrite Z.add_0_r, Z2Nat.id by lia.
  intros r s' (rd' & sd' & n & Hi & [Hn0 Hend] & Hk & Hcp). exists rd', sd', n.
  replace (off + size - off) with size in * by lia. split_and!; [done|lia|lia| | |done].
  - destruct Hend as [?|(-> & Hlt & [Hres|?])]; [by left| |]; right; split_and!; try done; [left|by right].
    intros fr Hfr. apply Hres. by exists fr.
  - intros x Hx. destruct (Hcp x Hx) as ([fr Hfr] & b & Hb). by exists fr, b.
Qed.
