(* ===== verification/KmemVm.v ===== *)
(** * Kernel allocations and paging

    [__kmalloc] maps frames to pages of the kernel's address space, over
    whatever those pages had before: the paging invariant and the memory of
    every other address space survive it. *)

From S2P Require Import Prelude Pte MemPhy Kernel PageTable Mm64 MmVm Syscall LibMem VMem UserMem Alloc Kmem.

(** The frames [l] mapped to the pages of [p] from [g0] on. *)
Definition over (p g0 : Z) (l : list Z) (V : views) : views :=
  fun q g => if decide (q = p) then match arr_get l (g - g0) with Some f => Resident f | None => V q g end else V q g.

Lemma over_cases p g0 l V q g :
  (exists f, q = p /\ l !! Z.to_nat (g - g0) = Some f /\ 0 <= g - g0 /\ over p g0 l V q g = Resident f) \/
  over p g0 l V q g = V q g.
Proof.
  unfold over. destruct (decide (q = p)) as [->|]; [|by right]. destruct (arr_get l (g - g0)) as [f|] eqn:Hg; [left|by right].
  exists f. apply arr_get_Some in Hg as [H0 Hg]. split_and!; (done || lia).
Qed.

Lemma over_inv p g0 l l2 V F rd sd :
  vm_inv V F rd sd -> free_fp_list rd = l ++ l2 -> Forall (fits rd) l ->
  vm_inv (over p g0 l V) F (set_fps l2 (rev l ++ used_fp_list rd) rd) sd.
Proof.
  intros Hv Hf Hfit. pose proof (vi_rd _ _ _ _ Hv) as Hwf. pose proof Hwf as [Hn _]. unfold frames_of in Hn. rewrite Hf in Hn.
  rewrite <- app_assoc in Hn. apply NoDup_app in Hn as (Hnl & Hd & Hn). apply NoDup_app in Hn as (_ & _ & _).
  (* a free frame backs no page *)
  assert (Hfree : forall f q g, f ∈ l -> V q g <> Resident f).
  { intros f q g Hin Hr. apply (Hd f Hin). apply elem_of_app. right. by apply (vi_res _ _ _ _ Hv _ _ _ Hr). }
  assert (Hnew : forall i f, l !! i = Some f -> f ∈ l) by (intros i f; apply list_elem_of_lookup_2).
  split.
  - intros q g f Hr. destruct (over_cases p g0 l V q g) as [(x & _ & Hx & _ & He)|He]; rewrite He in Hr.
    + injection Hr as <-. apply Hnew in Hx. split; [simpl; apply elem_of_app; left; by rewrite <- Permutation_rev|].
      rewrite Forall_forall in Hfit. by apply Hfit.
    + destruct (vi_res _ _ _ _ Hv _ _ _ Hr). split; [simpl; apply elem_of_app; by right|done].
  - intros q g w Hr. destruct (over_cases p g0 l V q g) as [(x & _ & _ & _ & He)|He]; rewrite He in Hr; [done|].
    by apply (vi_swp _ _ _ _ Hv _ _ _ Hr).
  - intros q g q' g' f H1 H2. destruct (over_cases p g0 l V q g) as [(x & -> & Hx & Hge & He)|He]; rewrite He in H1;
      destruct (over_cases p g0 l V q' g') as [(y & -> & Hy & Hge' & He')|He']; rewrite He' in H2.
    + injection H1 as ->. injection H2 as ->. pose proof (NoDup_lookup _ _ _ _ Hnl Hx Hy). f_equal. lia.
    + injection H1 as ->. by destruct (Hfree f q' g' (Hnew _ _ Hx)).
    + injection H2 as ->. by destruct (Hfree f q g (Hnew _ _ Hy)).
    + by apply (vi_inj _ _ _ _ Hv _ _ _ _ _ H1).
  - intros q g q' g' w H1 H2. destruct (over_cases p g0 l V q g) as [(x & _ & _ & _ & He)|He]; rewrite He in H1; [done|].
    destruct (over_cases p g0 l V q' g') as [(y & _ & _ & _ & He')|He']; rewrite He' in H2; [done|].
    by apply (vi_sinj _ _ _ _ Hv _ _ _ _ _ H1).
  - intros q x g HF Hg. destruct (vi_fifo _ _ _ _ Hv _ _ _ HF Hg) as [Hval [f Hr]]. split; [done|].
    destruct (over_cases p g0 l V q g) as [(y & _ & _ & _ & He)|He]; rewrite He; eauto.
  - apply (vi_nodup _ _ _ _ Hv).
  - eapply frames_wf_perm; [|exact Hwf]. unfold frames_of. simpl. rewrite Hf, <- app_assoc, <- (Permutation_rev l).
    rewrite !app_assoc. by rewrite (Permutation_app_comm l2 l).
  - apply Hv.
Qed.

(** [kmalloc_pages] on a machine with the paging invariant. *)
Lemma kmapped_inv p g0 k s s' rd sd :
  mem_inv s rd sd -> all_fit rd -> kmapped p g0 k rd s s' ->
  mem_inv s' (taken k rd) sd /\ all_fit (taken k rd) /\
  (forall q g, q <> p -> view_of s' q g = view_of s q g) /\
  (forall q x b, q <> p -> ubyte s rd sd q x = Some b -> ubyte s' (taken k rd) sd q x = Some b).
Proof.
  intros [Hm Hv] Hfit Hk. set (l := take k (free_fp_list rd)). set (l2 := drop k (free_fp_list rd)).
  assert (Hf : free_fp_list rd = l ++ l2) by (symmetry; apply take_drop).
  assert (Hfl : Forall (fits rd) l).
  { unfold all_fit, frames_of in Hfit. apply Forall_app in Hfit as [Hfit _]. rewrite Hf in Hfit. by apply Forall_app in Hfit as [? _]. }
  assert (Hview : forall q g, view_of s' q g = over p g0 l (view_of s) q g).
  { intros q g. unfold view_of, over. rewrite (km_ptes _ _ _ _ _ _ Hk). unfold mapped_ptes. fold l.
    destruct (decide (q = p)); [|done]. destruct (arr_get l (g - g0)) as [f|] eqn:Hg; [|done].
    apply arr_get_Some in Hg as [_ Hg]. apply list_elem_of_lookup_2 in Hg. rewrite Forall_forall in Hfl. specialize (Hfl f Hg).
    destruct (mi_rok _ _ _ Hm) as [_ Hr]. unfold fits, PAGING64_PAGESZ in Hfl. rewrite view_fpn_val by lia. by rewrite Z.mod_small by lia. }
  assert (Hother : forall q g, q <> p -> view_of s' q g = view_of s q g).
  { intros q g Hq. rewrite Hview. unfold over. by rewrite decide_False. }
  split; [split|split; [|split; [done|]]].
  - destruct Hm, Hk. split; rewrite ?km_os, ?km_devs; try done.
    + by rewrite lookup_insert_eq.
    + by rewrite lookup_insert_ne.
  - eapply vm_inv_ext; [exact Hview| |by apply over_inv]. intros q.
    apply fifo_of_stats, Hk.
  - unfold all_fit in *. assert (Hp : frames_of (taken k rd) ≡ₚ frames_of rd).
    { unfold frames_of, taken. simpl. fold l l2. rewrite Hf, <- app_assoc, <- (Permutation_rev l).
      rewrite !app_assoc. by rewrite (Permutation_app_comm l2 l). }
    rewrite Hp. eapply Forall_impl; [exact Hfit|done].
  - intros q x b Hq Hb. unfold ubyte in *. rewrite Hother by done.
    by rewrite (content_ext rd sd (taken k rd) sd).
Qed.

(** ** The kernel's descriptor *)

(** The kernel's descriptor, if there is one, is live and its table of pools
    has its full length. *)
Definition kernel_ok (s : sys) : Prop :=
  k_mm (os s) <> NULL ->
  exists km, mms s !! k_mm (os s) = Some km /\
    forall t, kcpooltbl km = Some t -> Z.of_nat (length t) = PAGING_MAX_KCACHE_POOLS.

Lemma kernel_ok_same s s' :
  os s' = os s -> forget_vm <$> (mms s' !! k_mm (os s)) = forget_vm <$> (mms s !! k_mm (os s)) ->
  kernel_ok s -> kernel_ok s'.
Proof.
  intros Ho Hm Hk Hn. rewrite Ho in Hn |- *. destruct (Hk Hn) as (km & Hkm & Ht). rewrite Hkm in Hm.
  destruct (mms s' !! k_mm (os s)) as [km'|]; [|done]. apply (inj Some) in Hm. exists km'. split; [done|].
  assert (kcpooltbl km' = kcpooltbl km) as -> by (by injection Hm). exact Ht.
Qed.
