(* ===== verification/Faults.v ===== *)
(** * Memory accesses of several CPUs at a time

    [__read] and the kernel's accesses to user memory do not hold
    [mmvm_lock], so the page faults of several processes are served at a time,
    with [__write]s among them.  Here [pg_getpage], the four accesses and what
    they call in [src/libmem.c] are cut into steps: every access to a device,
    and every access to the tables and the page queue of the process, is one.
    [MEMPHY_get_freefp] is two, since it tests for an empty list before it
    takes [memphy_lock]: the test, and what it does with the lock. *)

From S2P Require Import Prelude Pte MemPhy Kernel PageTable Mm64 MmVm Syscall LibMem VMem UserMem Alloc Kmem Steps.

(** ** The programs *)

(** [mp == NULL || mp->free_fp_list == NULL] *)
Definition freefp_test (mp : Z) : M sys bool :=
  if mp =? NULL then ret true
  else on_dev mp (let* d := gets (fun d => d) in ret (match free_fp_list d with [] => true | _ => false end)).
(** The head of the list is dereferenced. *)
Definition freefp_pop (mp : Z) : M sys Z :=
  on_dev mp (let* d := gets (fun d => d) in
             match free_fp_list d with
             | [] => undef
             | fpn :: free => modify (set_fps free (fpn :: used_fp_list d)) ;;; ret fpn
             end).
Definition MEMPHY_get_freefp_p (mp : Z) : prog sys (option Z) :=
  step* empty := op (freefp_test mp) in
  if empty then Done None else step* fpn := op (freefp_pop mp) in Done (Some fpn).

(** [data] is indeterminate when the read fails. *)
Definition read_cell (mp addr : Z) : M sys Z := let* (_, data) := MEMPHY_read mp addr in from_opt data.

Fixpoint cp_page_loop_p (mpsrc srcfpn mpdst dstfpn cellidx : Z) (n : nat) : prog sys Z :=
  match n with
  | O => Done 0
  | S n =>
      let addrsrc := u64 (srcfpn * PAGING64_PAGESZ + cellidx) in
      let addrdst := u64 (dstfpn * PAGING64_PAGESZ + cellidx) in
      step* data := op (read_cell mpsrc addrsrc) in
      step* _ := op (MEMPHY_write mpdst addrdst data) in
      cp_page_loop_p mpsrc srcfpn mpdst dstfpn (cellidx + 1) n
  end.

Definition __swap_cp_page_p (mpsrc srcfpn mpdst dstfpn : Z) : prog sys Z :=
  cp_page_loop_p mpsrc srcfpn mpdst dstfpn 0 (Z.to_nat PAGING64_PAGESZ).

Definition __mm_swap_page_p (c : pcb_t) (vicfpn swpfpn : Z) : prog sys Z :=
  step* k := op (krnl_of c) in
  step* _ := __swap_cp_page_p (k_mram k) vicfpn (k_active_mswp k) swpfpn in
  Done 0.

Definition memmap_op_p (krnl : Z) (c : pcb_t) (regs : sc_regs) : prog sys (Z * sc_regs) :=
  let memop := i32 (a1 regs) in
  step* k := op (deref_krnl krnl) in
  if memop =? SYSMEM_MAP_OP then
    step* x := op (from_opt (a3 regs)) in
    step* _ := op (vmap_pgd_memset (Some c) (u32 (a2 regs)) (i32 x)) in
    Done (0, regs)
  else if memop =? SYSMEM_INC_OP then
    step* x := op (from_opt (a3 regs)) in
    step* _ := op (inc_vma_limit (Some c) (i32 (a2 regs)) (u32 x)) in
    Done (0, regs)
  else if memop =? SYSMEM_SWP_OP then
    step* x := op (from_opt (a3 regs)) in
    step* _ := __mm_swap_page_p c (u32 (a2 regs)) (u32 x) in
    Done (0, regs)
  else if memop =? SYSMEM_IO_READ then
    step* (_, value) := op (MEMPHY_read (k_mram k) (u32 (a2 regs))) in
    Done (0, mk_regs (a1 regs) (a2 regs) (u64 <$> value))
  else if memop =? SYSMEM_IO_WRITE then
    step* x := op (from_opt (a3 regs)) in
    step* _ := op (MEMPHY_write (k_mram k) (u32 (a2 regs)) (i8 x)) in
    Done (0, regs)
  else Done (0, regs).

Definition __sys_memmap_p (krnl pid : Z) (regs : sc_regs) : prog sys (Z * sc_regs) :=
  step* caller := op (get_proc_from_PID krnl pid) in
  if caller =? NULL then Done (-1, regs)
  else
    step* c := op (get_pcb caller) in
    memmap_op_p krnl c regs.

Definition evict_page_p (c : pcb_t) : prog sys (option Z) :=
  step* k := op (krnl_of c) in
  step* vicpgn := op (find_victim_page (p_mm c)) in
  match vicpgn with
  | None => Done None
  | Some vicpgn =>
      step* vicpte := op (pte_get_entry (Some c) vicpgn) in
      let vicfpn := PAGING_FPN vicpte in
      step* swpfpn := MEMPHY_get_freefp_p (k_active_mswp k) in
      match swpfpn with
      | None => Done None
      | Some swpfpn =>
          step* _ := __sys_memmap_p (p_krnl c) (pid c) (mk_regs SYSMEM_SWP_OP vicfpn (Some swpfpn)) in
          step* _ := op (pte_set_swap (Some c) vicpgn 0 swpfpn) in
          Done (Some vicfpn)
      end
  end.

Definition page_in_p (c : pcb_t) (pgn pte tgtfpn : Z) : prog sys unit :=
  step* k := op (krnl_of c) in
  step* _ :=
    (if PAGING_PAGE_SWAPPED pte then
       let saved_swpfpn := PAGING_SWP pte in
       step* _ := __swap_cp_page_p (k_active_mswp k) saved_swpfpn (k_mram k) tgtfpn in
       step* _ := op (MEMPHY_put_freefp (k_active_mswp k) saved_swpfpn) in
       Done tt
     else Done tt) in
  step* _ := op (pte_set_fpn (Some c) pgn tgtfpn) in
  op (enlist_pgn_node (p_mm c) pgn).

Definition pg_getpage_p (pgn : Z) (c : pcb_t) : prog sys (Z * option Z) :=
  step* pte := op (pte_get_entry (Some c) (u64 pgn)) in
  step* ok :=
    (if negb (PAGING_PAGE_PRESENT pte) then
       step* k := op (krnl_of c) in
       step* free := MEMPHY_get_freefp_p (k_mram k) in
       step* tgtfpn := match free with Some f => Done (Some f) | None => evict_page_p c end in
       match tgtfpn with
       | None => Done false
       | Some tgtfpn => step* _ := page_in_p c (u64 pgn) pte tgtfpn in Done true
       end
     else Done true) in
  if negb ok then Done (-1, None)
  else
    step* pte := op (pte_get_entry (Some c) (u64 pgn)) in
    Done (0, Some (PAGING_FPN pte)).

Definition pg_getval_p (addr : Z) (c : pcb_t) : prog sys (Z * option Z) :=
  let pgn := Z.shiftr addr PAGING64_ADDR_PT_SHIFT in
  let off := page_off addr in
  step* (r, fpn) := pg_getpage_p pgn c in
  if negb (r =? 0) then Done (-1, None)
  else
    step* fpn := op (from_opt fpn) in
    step* phyaddr := op (phyaddr_of fpn off) in
    step* _ := __sys_memmap_p (p_krnl c) (pid c) (mk_regs SYSMEM_IO_READ (u64 phyaddr) None) in
    Done (0, None).

Definition pg_setval_p (addr value : Z) (c : pcb_t) : prog sys Z :=
  let pgn := Z.shiftr addr PAGING64_ADDR_PT_SHIFT in
  let off := page_off addr in
  step* (r, fpn) := pg_getpage_p pgn c in
  if negb (r =? 0) then Done (-1)
  else
    step* fpn := op (from_opt fpn) in
    step* phyaddr := op (phyaddr_of fpn off) in
    step* _ := __sys_memmap_p (p_krnl c) (pid c)
                 (mk_regs SYSMEM_IO_WRITE (u64 phyaddr) (Some (u64 value))) in
    Done 0.

(** [__read] takes no lock; [__write] holds [mmvm_lock] from its check of
    [krnl] on, which the theorem does not rely on. *)
Definition __read_p (caller : option pcb_t) (vmaid rgid offset : Z) : prog sys (Z * option Z) :=
  match caller with
  | None => Done (-1, None)
  | Some c =>
      if (p_krnl c =? NULL) || (rgid <? 0) || (PAGING_MAX_SYMTBL_SZ <=? rgid) then Done (-1, None)
      else
        step* addr := op (region_addr (p_mm c) rgid offset) in
        match addr with
        | None => Done (-1, None)
        | Some addr => pg_getval_p (i32 addr) c
        end
  end.

Definition __write_p (caller : option pcb_t) (vmaid rgid offset value : Z) : prog sys Z :=
  match caller with
  | None => Done (-1)
  | Some c =>
      if (p_krnl c =? NULL) || (rgid <? 0) || (PAGING_MAX_SYMTBL_SZ <=? rgid) then Done (-1)
      else
        step* addr := op (region_addr (p_mm c) rgid offset) in
        match addr with
        | None => Done (-1)
        | Some addr => pg_setval_p (i32 addr) value c
        end
  end.

(** The kernel's accesses to the memory of a user take no lock either. *)
Definition user_phyaddr_p (caller : option pcb_t) (rgid offset : Z) : prog sys (option Z) :=
  match caller with
  | None => Done None
  | Some c =>
      if (p_krnl c =? NULL) || (p_mm c =? NULL) then Done None
      else if (rgid <? 0) || (PAGING_MAX_SYMTBL_SZ <=? rgid) then Done None
      else
        step* currg := op (get_symrg (p_mm c) rgid) in
        if (rg_start currg =? 0) && (rg_end currg =? 0) then Done None
        else if rg_end currg <=? u64 (rg_start currg + offset) then Done None
        else
          let vaddr := u64 (rg_start currg + offset) in
          let pgn := i32 (Z.shiftr vaddr PAGING64_ADDR_PT_SHIFT) in
          let off := page_off vaddr in
          step* (r, fpn) := pg_getpage_p pgn c in
          if negb (r =? 0) then Done None
          else
            step* fpn := op (from_opt fpn) in
            step* phyaddr := op (phyaddr_of fpn off) in
            Done (Some (u64 phyaddr))
  end.

Definition __read_user_mem_p (caller : option pcb_t) (vmaid rgid offset : Z) : prog sys (Z * option Z) :=
  step* phyaddr := user_phyaddr_p caller rgid offset in
  match phyaddr with
  | None => Done (-1, None)
  | Some phyaddr =>
      step* k := op (gets os) in
      step* (r, data) := op (MEMPHY_read (k_mram k) phyaddr) in
      if negb (r =? 0) then Done (-1, data) else Done (0, data)
  end.

Definition __write_user_mem_p (caller : option pcb_t) (vmaid rgid offset value : Z) : prog sys Z :=
  step* phyaddr := user_phyaddr_p caller rgid offset in
  match phyaddr with
  | None => Done (-1)
  | Some phyaddr =>
      step* k := op (gets os) in
      step* r := op (MEMPHY_write (k_mram k) phyaddr value) in
      if negb (r =? 0) then Done (-1) else Done 0
  end.

(** Run without interruption they are the functions of [LibMem]. *)

Lemma whole_get_freefp mp s : whole (MEMPHY_get_freefp_p mp) s = MEMPHY_get_freefp mp s.
Proof.
  unfold MEMPHY_get_freefp_p, MEMPHY_get_freefp, freefp_test, freefp_pop, op, on_dev, zoom. cbn [pbind whole]. unfold bind at 1.
  destruct (mp =? NULL); [done|]. destruct (devs s !! mp) as [d|] eqn:Hd; [|done]. rewrite get_freefp_spec.
  unfold bind, gets, ret. destruct (free_fp_list d) as [|f fs] eqn:Hf; simpl.
  - done.
  - unfold bind; simpl. rewrite lookup_insert_eq, Hf. unfold set_devs; simpl. by rewrite insert_insert_eq.
Qed.
#[export] Hint Resolve whole_get_freefp : whole.

Lemma whole_cp_page_loop sp sf dp df i n s : whole (cp_page_loop_p sp sf dp df i n) s = cp_page_loop sp sf dp df i n s.
Proof.
  revert i s. induction n as [|n IH]; intros i s; [done|]. cbn [cp_page_loop_p cp_page_loop]. cbv zeta.
  rewrite whole_bind. etransitivity; [apply bind_ext; [apply whole_op|]|].
  - intros data s'. apply whole_seq; [apply whole_op|]. intros r s2. apply IH.
  - unfold read_cell. rewrite bind_bind. apply bind_ext; [done|]. by intros [r d] s'.
Qed.
#[export] Hint Resolve whole_cp_page_loop : whole.

Lemma whole_mm_swap_page c f w s : whole (__mm_swap_page_p c f w) s = __mm_swap_page c f w s.
Proof. unfold __mm_swap_page_p, __mm_swap_page, __swap_cp_page_p, __swap_cp_page. solve_whole. Qed.
#[export] Hint Resolve whole_mm_swap_page : whole.

Lemma whole_sys_memmap krnl pid regs s : whole (__sys_memmap_p krnl pid regs) s = _syscall krnl pid 17 regs s.
Proof.
  change (_syscall krnl pid 17 regs s) with (__sys_memmap krnl pid regs s).
  unfold __sys_memmap_p, __sys_memmap, memmap_op_p, memmap_op. solve_whole.
Qed.
#[export] Hint Resolve whole_sys_memmap : whole.

Lemma whole_evict_page c s : whole (evict_page_p c) s = evict_page c s.
Proof. unfold evict_page_p, evict_page. solve_whole. Qed.
#[export] Hint Resolve whole_evict_page : whole.

Lemma whole_page_in c g pte f s : whole (page_in_p c g pte f) s = page_in c g pte f s.
Proof. unfold page_in_p, page_in, __swap_cp_page_p, __swap_cp_page. solve_whole. Qed.
#[export] Hint Resolve whole_page_in : whole.

Lemma whole_pg_getpage g c s : whole (pg_getpage_p g c) s = pg_getpage g c s.
Proof. unfold pg_getpage_p, pg_getpage. solve_whole. Qed.
#[export] Hint Resolve whole_pg_getpage : whole.

Lemma whole_pg_getval a c s : whole (pg_getval_p a c) s = pg_getval a c s.
Proof. unfold pg_getval_p, pg_getval. solve_whole. Qed.

Lemma whole_pg_setval a v c s : whole (pg_setval_p a v c) s = pg_setval a v c s.
Proof. unfold pg_setval_p, pg_setval. solve_whole. Qed.
#[export] Hint Resolve whole_pg_getval whole_pg_setval : whole.

Lemma whole_read caller vmaid rgid off s : whole (__read_p caller vmaid rgid off) s = __read caller vmaid rgid off s.
Proof. unfold __read_p, __read. solve_whole. Qed.

Lemma whole_write caller vmaid rgid off v s :
  whole (__write_p caller vmaid rgid off v) s = __write caller vmaid rgid off v s.
Proof. unfold __write_p, __write. solve_whole. Qed.

Lemma whole_user_phyaddr caller rgid off s : whole (user_phyaddr_p caller rgid off) s = user_phyaddr caller rgid off s.
Proof. unfold user_phyaddr_p, user_phyaddr. solve_whole. Qed.
#[export] Hint Resolve whole_user_phyaddr : whole.

Lemma whole_read_user_mem caller vmaid rgid off s :
  whole (__read_user_mem_p caller vmaid rgid off) s = __read_user_mem caller vmaid rgid off s.
Proof. unfold __read_user_mem_p, __read_user_mem. solve_whole. Qed.

Lemma whole_write_user_mem caller vmaid rgid off v s :
  whole (__write_user_mem_p caller vmaid rgid off v) s = __write_user_mem caller vmaid rgid off v s.
Proof. unfold __write_user_mem_p, __write_user_mem. solve_whole. Qed.

(** They make few steps besides the two copies of a page. *)

Lemma within_cp sp sf dp df n : forall i, within (2 * n) (cp_page_loop_p sp sf dp df i n).
Proof.
  induction n as [|n IH]; intros i; [done|]. cbn [cp_page_loop_p]. cbv zeta.
  replace (2 * S n)%nat with (S (S (2 * n))) by lia. intros b r. apply IH.
Qed.

Definition page_steps : nat := 2 * Z.to_nat PAGING64_PAGESZ.

Lemma within_swap sp sf dp df : within page_steps (__swap_cp_page_p sp sf dp df).
Proof. apply within_cp. Qed.

#[export] Hint Resolve within_swap : within.

Lemma within_swap_page c f w : within (page_steps + 1) (__mm_swap_page_p c f w).
Proof. unfold __mm_swap_page_p. solve_within. Qed.
#[export] Hint Resolve within_swap_page : within.

Lemma within_memmap krnl pid regs : within (page_steps + 5) (__sys_memmap_p krnl pid regs).
Proof. unfold __sys_memmap_p, memmap_op_p. solve_within. Qed.
#[local] Hint Resolve within_memmap | 10 : within.

Lemma within_get_freefp mp : within 2 (MEMPHY_get_freefp_p mp).
Proof. unfold MEMPHY_get_freefp_p. solve_within. Qed.
#[export] Hint Resolve within_get_freefp : within.

Lemma within_evict c : within (page_steps + 11) (evict_page_p c).
Proof. unfold evict_page_p. solve_within. Qed.
Lemma within_page_in c g pte f : within (page_steps + 4) (page_in_p c g pte f).
Proof. unfold page_in_p. solve_within. Qed.
#[export] Hint Resolve within_evict within_page_in : within.

Lemma within_getpage g c : within (2 * page_steps + 20) (pg_getpage_p g c).
Proof. unfold pg_getpage_p. solve_within. Qed.
#[export] Hint Resolve within_getpage : within.

(** Reading or writing a byte of RAM copies nothing. *)
Lemma within_io_read krnl pid a b : within 5 (__sys_memmap_p krnl pid (mk_regs SYSMEM_IO_READ a b)).
Proof. unfold __sys_memmap_p, memmap_op_p. cbv zeta. change (i32 (a1 _)) with SYSMEM_IO_READ. cbn [Z.eqb Pos.eqb SYSMEM_MAP_OP SYSMEM_INC_OP SYSMEM_SWP_OP SYSMEM_IO_READ SYSMEM_IO_WRITE].
  solve_within. Qed.
Lemma within_io_write krnl pid a b : within 5 (__sys_memmap_p krnl pid (mk_regs SYSMEM_IO_WRITE a b)).
Proof. unfold __sys_memmap_p, memmap_op_p. cbv zeta. change (i32 (a1 _)) with SYSMEM_IO_WRITE. cbn [Z.eqb Pos.eqb SYSMEM_MAP_OP SYSMEM_INC_OP SYSMEM_SWP_OP SYSMEM_IO_READ SYSMEM_IO_WRITE].
  solve_within. Qed.
#[local] Hint Resolve within_io_read within_io_write : within.

Lemma within_read caller vmaid rgid off : within (2 * page_steps + 28) (__read_p caller vmaid rgid off).
Proof. unfold __read_p, pg_getval_p. solve_within. Qed.

Lemma within_write caller vmaid rgid off v : within (2 * page_steps + 28) (__write_p caller vmaid rgid off v).
Proof. unfold __write_p, pg_setval_p. solve_within. Qed.

Lemma within_user_phyaddr caller rgid off : within (2 * page_steps + 24) (user_phyaddr_p caller rgid off).
Proof. unfold user_phyaddr_p. solve_within. Qed.
#[export] Hint Resolve within_user_phyaddr : within.

Lemma within_read_user_mem caller vmaid rgid off : within (2 * page_steps + 28) (__read_user_mem_p caller vmaid rgid off).
Proof. unfold __read_user_mem_p. solve_within. Qed.

Lemma within_write_user_mem caller vmaid rgid off v : within (2 * page_steps + 28) (__write_user_mem_p caller vmaid rgid off v).
Proof. unfold __write_user_mem_p. solve_within. Qed.
