(* ===== verification/Parallel.v ===== *)
(** * Page faults in parallel

    Several CPUs access the memory of different processes at a time, each with
    a sequence of the programs of [Faults].  Each thread owns the pages of its process and what
    it has in hand: a frame of RAM it has taken and not mapped yet, and a slot
    of swap.  No step of a thread touches what another owns, and a thread sees
    its own memory as if it were alone. *)

From S2P Require Import Prelude Pte MemPhy Kernel PageTable Mm64 MmVm Syscall LibMem VMem UserMem Alloc Kmem Steps Faults.

(** ** Programs of accesses *)

(** The accesses of a process to its memory: [__read], [__write], and the
    kernel's [__read_user_mem] and [__write_user_mem]. *)
Inductive access :=
| A_read (rgid off : Z) | A_write (rgid off v : Z) | A_fetch (rgid off : Z) | A_store (rgid off v : Z).

Definition access_at (a : access) : Z * Z :=
  match a with A_read r o | A_write r o _ | A_fetch r o | A_store r o _ => (r, o) end.

(** The return code, and the byte that is read. *)
Definition access_prog (c : pcb_t) (a : access) : prog sys (Z * option Z) :=
  match a with
  | A_read rgid off => __read_p (Some c) 0 rgid off
  | A_write rgid off v => step* r := __write_p (Some c) 0 rgid off v in Done (r, None)
  | A_fetch rgid off => __read_user_mem_p (Some c) 0 rgid off
  | A_store rgid off v => step* r := __write_user_mem_p (Some c) 0 rgid off v in Done (r, None)
  end.

Fixpoint accesses_prog (c : pcb_t) (l : list access) : prog sys (list (Z * option Z)) :=
  match l with
  | [] => Done []
  | a :: l => step* r := access_prog c a in step* rs := accesses_prog c l in Done (r :: rs)
  end.

Lemma accesses_within c l : within (length l * (2 * page_steps + 28)) (accesses_prog c l).
Proof.
  induction l as [|a l IH]; [done|]. cbn [accesses_prog length]. rewrite Nat.mul_succ_l, Nat.add_comm.
  apply within_bind.
  - rewrite <- (Nat.add_0_r (_ + 28)). destruct a; cbn [access_prog].
    + rewrite Nat.add_0_r. apply within_read.
    + apply within_bind; [apply within_write|done].
    + rewrite Nat.add_0_r. apply within_read_user_mem.
    + apply within_bind; [apply within_write_user_mem|done].
  - intros r. rewrite <- (Nat.add_0_r (length l * _)). by apply within_bind.
Qed.

(** An access within a region, and the address it is at. *)
Definition access_ok (m : mm_struct) (a : access) : Prop :=
  (exists rg, in_region m (access_at a).1 (access_at a).2 rg) /\
  match a with A_write _ _ v | A_store _ _ v => - 2 ^ 7 <= v < 2 ^ 7 | _ => True end.
Definition access_addr (m : mm_struct) (a : access) : Z :=
  match arr_get (symrgtbl m) (access_at a).1 with Some rg => rg_start rg + (access_at a).2 | None => 0 end.

(** The reference: a process alone on an array of bytes, of which [mem] are
    known.  [__read] delivers no byte; a byte that is not known is whatever
    is read. *)
Definition put (mem : Z -> option Z) (a v : Z) : Z -> option Z := fun x => if decide (x = a) then Some v else mem x.

Inductive alone (addr : access -> Z) (fails : Z -> Prop) :
    (Z -> option Z) -> list access -> list (Z * option Z) -> (Z -> option Z) -> Prop :=
| alone_nil mem : alone addr fails mem [] [] mem
| alone_fail mem a l rs mem' :
    fails (addr a) -> alone addr fails mem l rs mem' -> alone addr fails mem (a :: l) ((-1, None) :: rs) mem'
| alone_read mem rgid off l rs mem' :
    ~ fails (addr (A_read rgid off)) ->
    alone addr fails mem l rs mem' -> alone addr fails mem (A_read rgid off :: l) ((0, None) :: rs) mem'
| alone_fetch mem rgid off b l rs mem' :
    ~ fails (addr (A_fetch rgid off)) ->
    (forall b', mem (addr (A_fetch rgid off)) = Some b' -> b' = b) ->
    alone addr fails (put mem (addr (A_fetch rgid off)) b) l rs mem' ->
    alone addr fails mem (A_fetch rgid off :: l) ((0, Some b) :: rs) mem'
| alone_write mem rgid off v l rs mem' :
    ~ fails (addr (A_write rgid off v)) ->
    alone addr fails (put mem (addr (A_write rgid off v)) v) l rs mem' ->
    alone addr fails mem (A_write rgid off v :: l) ((0, None) :: rs) mem'
| alone_store mem rgid off v l rs mem' :
    ~ fails (addr (A_store rgid off v)) ->
    alone addr fails (put mem (addr (A_store rgid off v)) v) l rs mem' ->
    alone addr fails mem (A_store rgid off v :: l) ((0, None) :: rs) mem'.

Lemma alone_iff addr (F F' : Z -> Prop) mem l rs mem' :
  (forall a, a ∈ l -> F (addr a) <-> F' (addr a)) -> alone addr F mem l rs mem' -> alone addr F' mem l rs mem'.
Proof.
  intros HF Hal. induction Hal; constructor; rewrite <- ?HF by set_solver; try done; apply IHHal; set_solver.
Qed.

(** ** What a thread owns *)

(** A page, or what is in the hand of the thread. *)
Inductive place := Pg (g : Z) | Hand | Slot.
#[export] Instance place_eq_dec : EqDecision place.
Proof. solve_decision. Defined.

(** The state with the views of the proof: [w_view] runs ahead of the entry
    of the page [w_lag p], and holds what is in hand under an address
    space that does not exist; [w_token p] is the number of frames process [p]
    may still take. *)
Record world := mk_world {
  w_sys : sys; w_view : views; w_lag : Z -> option Z; w_ram : memphy_struct; w_swap : memphy_struct;
  w_token : Z -> nat
}.

Section World.
(** With [roomy], RAM has a free frame for every token; without, it has none
    and swap has. *)
Context (K : krnl_t) (H : Z) (ps : list Z) (roomy : bool) (w0 : world).

Definition loc (p : Z) (pl : place) : Z * Z :=
  match pl with Pg h => (p, h) | Hand => (H, 2 * p) | Slot => (H, 2 * p + 1) end.
Definition pv (V : views) (p : Z) (pl : place) : pte_view := V (loc p pl).1 (loc p pl).2.
Definition updl (V : views) (p : Z) (pl : place) (x : pte_view) : views := updv V (loc p pl).1 (loc p pl).2 x.
Definition bytes (w : world) (v : pte_view) (o : Z) : option Z := content (w_ram w) (w_swap w) v o.

Lemma loc_inj p a b : p <> H -> loc p a = loc p b -> a = b.
Proof. intros Hp. destruct a, b; simpl; intros Hab; simplify_eq; done || lia. Qed.

Lemma loc_other p q a b : p <> q -> p <> H -> q <> H -> loc p a <> loc q b.
Proof. intros Hpq Hp Hq. destruct a, b; simpl; intros Hab; simplify_eq; lia. Qed.

Lemma pv_updl V p pl x a : p <> H -> pv (updl V p pl x) p a = if decide (a = pl) then x else pv V p a.
Proof.
  intros Hp. unfold pv, updl. destruct (decide (a = pl)) as [->|Hne]; [apply updv_same|]. apply updv_ne.
  rewrite <- !surjective_pairing. intros Heq. by apply Hne, (loc_inj p).
Qed.

Lemma pv_updl_other V p q pl x a : q <> p -> p <> H -> q <> H -> pv (updl V p pl x) q a = pv V q a.
Proof. intros Hqp Hp Hq. apply updv_ne. rewrite <- !surjective_pairing. by apply loc_other. Qed.

(** What the others leave to process [p]. *)
Record kept_for (p : Z) (w w' : world) : Prop := {
  kf_env : env_same (w_sys w) (w_sys w');
  kf_view pl : pv (w_view w') p pl = pv (w_view w) p pl;
  kf_bytes pl o : 0 <= o < PAGING64_PAGESZ -> bytes w' (pv (w_view w) p pl) o = bytes w (pv (w_view w) p pl) o;
  kf_queue : fifo_of (w_sys w') p = fifo_of (w_sys w) p;
  kf_lag : w_lag w' p = w_lag w p;
  kf_token : w_token w' p = w_token w p;
}.

#[export] Instance kept_for_pre p : PreOrder (kept_for p).
Proof.
  split; [by intros w|]. intros w1 w2 w3 H1 H2. split.
  - etransitivity; [apply H1|apply H2].
  - intros pl. by rewrite (kf_view _ _ _ H2), (kf_view _ _ _ H1).
  - intros pl o Ho. rewrite <- (kf_bytes _ _ _ H1 pl o Ho). rewrite <- (kf_view _ _ _ H1). by apply (kf_bytes _ _ _ H2).
  - by rewrite (kf_queue _ _ _ H2), (kf_queue _ _ _ H1).
  - by rewrite (kf_lag _ _ _ H2), (kf_lag _ _ _ H1).
  - by rewrite (kf_token _ _ _ H2), (kf_token _ _ _ H1).
Qed.

(** What a step of a thread of process [p] leaves to all other processes. *)
Definition kept_others (p : Z) (w w' : world) : Prop := forall q, q <> p -> q <> H -> kept_for q w w'.

#[export] Instance kept_others_pre p : PreOrder (kept_others p).
Proof.
  split; [intros w q _ _; reflexivity|]. intros w1 w2 w3 H1 H2 q Hq HH.
  etransitivity; [by apply H1|by apply H2].
Qed.

(** How many frames the threads may still take, of [rd] or of [sd]. *)
Definition tokens (w : world) : nat := sum_list_with (w_token w) ps.
Definition enough (w : world) : Prop :=
  if roomy then (tokens w <= length (free_fp_list (w_ram w)))%nat
  else free_fp_list (w_ram w) = [] /\ (tokens w <= length (free_fp_list (w_swap w)))%nat.

(** The shared memory between two steps, the entries aside. *)
Record core (w : world) : Prop := {
  co_machine : machine (w_sys w) (w_ram w) (w_swap w);
  co_vm : vm_inv (w_view w) (fifo_of (w_sys w)) (w_ram w) (w_swap w);
  co_fit : all_fit (w_ram w) /\ all_fit (w_swap w);
  co_os : os (w_sys w) = K;
  co_fresh : mms (w_sys w) !! H = None;
  co_ghost h : w_view w H h <> Absent -> h / 2 ∈ ps;
  co_enough : enough w;
}.

Definition agrees (w : world) : Prop :=
  forall q h, q <> H -> w_lag w q <> Some h -> view_of (w_sys w) q h = w_view w q h.

(** The processes without a thread see nothing. *)
Definition aside (w : world) : Prop := forall q, q ∉ ps -> q <> H -> kept_for q w0 w.

Record shared_ok (w : world) : Prop := {
  so_core : core w;
  so_agrees : agrees w;
  so_aside : aside w;
  so_env : env_same (w_sys w0) (w_sys w);
}.

Lemma kept_others_env p w w' : kept_others p w w' -> env_same (w_sys w) (w_sys w').
Proof. intros Hk. apply (Hk (Z.max (Z.abs p) (Z.abs H) + 1)); lia. Qed.

Lemma shared_step p w w' : p ∈ ps -> shared_ok w -> core w' -> agrees w' -> kept_others p w w' -> shared_ok w'.
Proof.
  intros Hp [_ _ Hr He] Hc Ha Hk. split; [done..| |etransitivity; [exact He|by eapply kept_others_env]]. intros q Hq HH. etransitivity; [by apply Hr|]. apply Hk; [|done].
  by intros ->.
Qed.

(** Changing what one place holds. *)
Lemma vm_inv_set V F rd sd q h x :
  vm_inv V F rd sd -> 
  match x with
  | Resident f => f ∈ used_fp_list rd /\ fits rd f /\ forall q' h', (q', h') <> (q, h) -> V q' h' <> Resident f
  | Swapped w => w ∈ used_fp_list sd /\ fits sd w /\ forall q' h', (q', h') <> (q, h) -> V q' h' <> Swapped w
  | Absent => True
  end ->
  ((exists f, x = Resident f) \/ forall l, F q = Some l -> h ∉ l) ->
  vm_inv (updv V q h x) F rd sd.
Proof.
  intros Hv Hx Hn. destruct Hv. unfold updv. split; try done.
  - intros p g f. case_decide; [intros ->; tauto|apply vi_res].
  - intros p g f. case_decide; [intros ->; tauto|apply vi_swp].
  - intros p g p' g' f. destruct (decide ((p, g) = (q, h))) as [E|E], (decide ((p', g') = (q, h))) as [E'|E']; [congruence| | |apply vi_inj].
    + intros -> Hf. by destruct Hx as (_ & _ & Hx); destruct (Hx p' g').
    + intros Hf ->. by destruct Hx as (_ & _ & Hx); destruct (Hx p g).
  - intros p g p' g' f. destruct (decide ((p, g) = (q, h))) as [E|E], (decide ((p', g') = (q, h))) as [E'|E']; [congruence| | |apply vi_sinj].
    + intros -> Hf. by destruct Hx as (_ & _ & Hx); destruct (Hx p' g').
    + intros Hf ->. by destruct Hx as (_ & _ & Hx); destruct (Hx p g).
  - intros p l g Hl Hg. destruct (vi_fifo p l g Hl Hg) as [Hvg [f Hf]]. split; [done|]. case_decide as E; [|by exists f].
    injection E as -> ->. destruct Hn as [Hn|Hn]; [done|]. by destruct (Hn l Hl).
Qed.

(** ** What a thread knows *)

(** Its memory: what each place holds and the bytes there, the page whose
    entry lags behind, the page queue, how many frames it may still take. *)
Record lst := mk_lst { lv : place -> pte_view; lb : place -> Z -> option Z; l_lag : option Z; queue : list Z; l_token : nat }.

Definition setv (pl : place) (x : pte_view) (b : Z -> option Z) (l : lst) : lst :=
  mk_lst (fun a => if decide (a = pl) then x else lv l a) (fun a => if decide (a = pl) then b else lb l a)
         (l_lag l) (queue l) (l_token l).
(** What is at [a] goes to [b]. *)
Definition movev (a b : place) (l : lst) : lst := setv b (lv l a) (lb l a) (setv a Absent (fun _ => None) l).

(** Computing what a place holds. *)
Ltac places :=
  unfold movev, setv in *; cbn [lv lb l_lag queue] in *;
  repeat first [rewrite decide_True in * by done | rewrite decide_False in * by congruence]; try done; try congruence.

Section Thread.
Context (c : pcb_t).
Hypothesis Hk : p_krnl c <> NULL.
Hypothesis Hmm : p_mm c <> NULL.
Hypothesis Hps : p_mm c ∈ ps.

Record knows (l : lst) (w : world) : Prop := {
  kn_view pl : pv (w_view w) (p_mm c) pl = lv l pl;
  kn_bytes pl o : 0 <= o < PAGING64_PAGESZ -> bytes w (lv l pl) o = lb l pl o;
  kn_lag : w_lag w (p_mm c) = l_lag l;
  kn_queue : fifo_of (w_sys w) (p_mm c) = Some (queue l);
  kn_reg : registered c (w_sys w);
  kn_token : w_token w (p_mm c) = l_token l;
}.

Lemma knows_stable l w w' : knows l w -> kept_for (p_mm c) w w' -> shared_ok w' -> knows l w'.
Proof.
  intros [Hv Hb Hl Hq Hr Ht] [He Hv' Hb' Hq' Hl' Ht'] _. split.
  - intros pl. by rewrite Hv'.
  - intros pl o Ho. specialize (Hb' pl o Ho). rewrite Hv in Hb'. by rewrite Hb', Hb.
  - by rewrite Hl'.
  - by rewrite Hq'.
  - by eapply registered_same.
  - by rewrite Ht'.
Qed.

Lemma knows_space l w : core w -> knows l w -> p_mm c <> H.
Proof. intros Hc Hkn HH. pose proof (kn_queue _ _ Hkn) as Hq. unfold fifo_of in Hq. by rewrite HH, (co_fresh _ Hc) in Hq. Qed.

Lemma knows_caller l w : knows l w -> exists m, caller_ok c (w_sys w) m /\ fifo_pgn m = queue l.
Proof.
  intros Hkn. pose proof (kn_queue _ _ Hkn) as Hq. unfold fifo_of in Hq.
  destruct (mms (w_sys w) !! p_mm c) as [m|] eqn:Hm; [|done]. injection Hq as Hq. by exists m.
Qed.

(** ** Steps of the proof *)

Definition setw (pl : place) (x : pte_view) (w : world) : world :=
  mk_world (w_sys w) (updl (w_view w) (p_mm c) pl x) (w_lag w) (w_ram w) (w_swap w) (w_token w).

Lemma kept_setw pl x w : p_mm c <> H -> kept_others (p_mm c) w (setw pl x w).
Proof. intros Hp q Hq HH. split; try done. intros a. by apply pv_updl_other. Qed.

Lemma ghost_set pl x b w l :
  core w -> knows l w ->
  match x with
  | Resident f => f ∈ used_fp_list (w_ram w) /\ fits (w_ram w) f /\
                  forall q h, (q, h) <> loc (p_mm c) pl -> w_view w q h <> Resident f
  | Swapped f => f ∈ used_fp_list (w_swap w) /\ fits (w_swap w) f /\
                  forall q h, (q, h) <> loc (p_mm c) pl -> w_view w q h <> Swapped f
  | Absent => True
  end ->
  (forall h, pl = Pg h -> h ∈ queue l -> exists f, x = Resident f) ->
  (forall o, 0 <= o < PAGING64_PAGESZ -> bytes w x o = b o) ->
  core (setw pl x w) /\ knows (setv pl x b l) (setw pl x w).
Proof.
  intros Hc Hkn Hx Hq Hb. pose proof (knows_space _ _ Hc Hkn) as Hp. destruct Hkn as [Kv Kb Kl Kq Kr Kt]. split.
  - destruct Hc as [Cm Cv Cf Co Cfr Cg Ct]. split; try done.
    + apply vm_inv_set; [done|by rewrite <- surjective_pairing|]. destruct pl as [h| |]; simpl in *.
      * destruct (decide (h ∈ queue l)) as [Hin|Hni]; [left; by apply (Hq h)|right]. intros l' Hl'. rewrite Kq in Hl'. by injection Hl' as <-.
      * right. intros l'. unfold fifo_of. by rewrite Cfr.
      * right. intros l'. unfold fifo_of. by rewrite Cfr.
    + intros h. simpl. unfold updl, updv. case_decide as E; [|apply Cg]. intros _. destruct pl as [g| |]; simpl in E.
      * congruence.
      * injection E as ->. by replace (2 * p_mm c / 2) with (p_mm c) by lia.
      * injection E as ->. by replace ((2 * p_mm c + 1) / 2) with (p_mm c) by lia.
  - split; simpl; try done.
    + intros a. rewrite pv_updl by done. by case_decide.
    + intros a o Ho. case_decide; [by apply Hb|by apply Kb].
Qed.

(** A place is the only owner of its frame. *)
Lemma only_owner l w a q h :
  core w -> knows l w -> (q, h) <> loc (p_mm c) a -> lv l a <> Absent -> w_view w q h <> lv l a.
Proof.
  intros Hc Hkn Hne Ha Heq. destruct Hne. pose proof (kn_view _ _ Hkn a) as Hv. unfold pv in Hv.
  rewrite (surjective_pairing (loc _ a)). destruct (lv l a) as [|f|f]; [done| |].
  - by eapply (vi_inj _ _ _ _ (co_vm _ Hc)).
  - by eapply (vi_sinj _ _ _ _ (co_vm _ Hc)).
Qed.

Lemma owned l w a :
  core w -> knows l w ->
  match lv l a with
  | Resident f => f ∈ used_fp_list (w_ram w) /\ fits (w_ram w) f
  | Swapped f => f ∈ used_fp_list (w_swap w) /\ fits (w_swap w) f
  | Absent => True
  end.
Proof.
  intros Hc Hkn. pose proof (kn_view _ _ Hkn a) as Hv. unfold pv in Hv. destruct (lv l a) as [|f|f]; [done| |].
  - by apply (vi_res _ _ _ _ (co_vm _ Hc) _ _ _ Hv).
  - by apply (vi_swp _ _ _ _ (co_vm _ Hc) _ _ _ Hv).
Qed.

Lemma ghost_move a b w l :
  core w -> knows l w -> a <> b ->
  (forall h, a = Pg h -> h ∉ queue l) -> (forall h, b = Pg h -> h ∉ queue l) ->
  core (setw b (lv l a) (setw a Absent w)) /\ knows (movev a b l) (setw b (lv l a) (setw a Absent w)).
Proof.
  intros Hc Hkn Hab Ha Hb. pose proof (knows_space _ _ Hc Hkn) as Hp.
  destruct (ghost_set a Absent (fun _ => None) w l) as [Hc1 Hk1]; [done..| |done|].
  { intros h -> Hin. by destruct (Ha h). }
  apply ghost_set; [done|done| | |].
  - pose proof (owned l w a Hc Hkn) as Ho. pose proof (fun q h => only_owner l w a q h Hc Hkn) as Hon.
    destruct (lv l a) as [|f|f]; [done| |]; split_and!; try apply Ho; intros q h _; simpl; unfold updl, updv; case_decide as E; try done;
      apply Hon; try done; by rewrite (surjective_pairing (loc _ a)).
  - intros h -> Hin. by destruct (Hb h).
  - intros o Ho. by apply (kn_bytes _ _ Hkn a).
Qed.

(** ** Steps of the programs *)

Local Abbreviation Does := (does w_sys shared_ok (kept_others (p_mm c)) knows).

(** Reading does not change the state. *)
Lemma does_read {A} (m : M sys A) l (Q : A -> Prop) :
  (forall w, shared_ok w -> knows l w -> wp m (fun a s' => s' = w_sys w /\ Q a) (w_sys w)) ->
  Does m l (fun a l' => l' = l /\ Q a).
Proof.
  intros Hm w Hi Hkn. eapply wp_mono; [by apply Hm|]. intros a s' [-> HQ]. exists w, l. by split_and!.
Qed.

(** The step from [w] ends in [w'] with [l']. *)
Lemma step_end w w' l' (Q : lst -> Prop) :
  shared_ok w -> core w' -> agrees w' -> kept_others (p_mm c) w w' -> knows l' w' -> Q l' ->
  exists w2 l2, w_sys w2 = w_sys w' /\ kept_others (p_mm c) w w2 /\ shared_ok w2 /\ knows l2 w2 /\ Q l2.
Proof. intros Hi Hc Ha Hko Hkn HQ. exists w', l'. split_and!; try done. by eapply shared_step. Qed.
Ltac step_ends w w' l' :=
  lazymatch goal with
  | |- exists w2 l2, w_sys w2 = _ /\ _ /\ _ /\ _ /\ @?Q l2 => apply (step_end w w' l' Q)
  end; try done.

(** The same in another machine state. *)
Definition in_sys (s' : sys) (w : world) : world := mk_world s' (w_view w) (w_lag w) (w_ram w) (w_swap w) (w_token w).

Lemma entry_step w s' l :
  shared_ok w -> knows l w -> pt_wf s' -> pt_step (w_sys w) s' ->
  core (in_sys s' w) /\ agrees (in_sys s' w) /\ kept_others (p_mm c) w (in_sys s' w) /\ knows l (in_sys s' w).
Proof.
  intros [[Cm Cv Cf Co Cfr Cg Ct] Ha _ _] [Kv Kb Kl Kq Kr Kt] Hwf Hst. pose proof (env_same_step _ _ Hst) as He. split_and!.
  - split; simpl; try done.
    + by eapply machine_step.
    + eapply vm_inv_ext; [done| |exact Cv]. intros q. by apply fifo_of_step.
    + by rewrite (es_os _ _ He).
    + pose proof (es_mms _ _ He H) as Hq. rewrite Cfr in Hq. by destruct (mms s' !! H).
  - intros q h HH Hl. simpl. rewrite (view_of_step _ _ _ _ Hst). by apply Ha.
  - intros q _ _. split; try done. simpl. by apply fifo_of_step.
  - split; try done; simpl; [by rewrite (fifo_of_step _ _ _ Hst)|by eapply registered_same].
Qed.

Lemma does_pte_get l g :
  valid_pgn g -> l_lag l <> Some g -> Does (pte_get_entry (Some c) g) l (fun pte l' => l' = l /\ view pte = lv l (Pg g)).
Proof.
  intros Hg Hl w Hi Hkn. destruct (knows_caller _ _ Hkn) as (m & Hc & _).
  eapply wp_mono; [apply (pte_get_entry_spec c m); [apply (co_machine _ (so_core _ Hi))|done|done]|].
  intros r s' (-> & Hwf & Hst & _). destruct (entry_step w s' l Hi Hkn Hwf Hst) as (? & ? & ? & ?).
  step_ends w (in_sys s' w) l. split; [done|]. rewrite view_u32, <- (kn_view _ _ Hkn).
  apply (so_agrees _ Hi); [by apply (knows_space l w); [apply Hi|]|]. by rewrite (kn_lag _ _ Hkn).
Qed.

(** *** Free frames *)

Definition spent (l : lst) : lst := mk_lst (lv l) (lb l) (l_lag l) (queue l) (pred (l_token l)).
Definition spend (w : world) : Z -> nat := fun q => if decide (q = p_mm c) then pred (w_token w q) else w_token w q.

Lemma tokens_pos w l : knows l w -> (0 < l_token l)%nat -> (0 < tokens w)%nat.
Proof.
  intros Hkn Ht. rewrite <- (kn_token _ _ Hkn) in Ht. unfold tokens. assert (Hin := Hps).
  apply list_elem_of_split in Hin as (a & b & ->). rewrite sum_list_with_app. simpl. lia.
Qed.

Lemma tokens_spent w w' l : knows l w -> (0 < l_token l)%nat -> w_token w' = spend w -> (tokens w' < tokens w)%nat.
Proof.
  intros Hkn Ht Hw. unfold tokens. rewrite Hw. assert (Hin := Hps). apply list_elem_of_split in Hin as (a & b & ->).
  rewrite <- (kn_token _ _ Hkn) in Ht.
  assert (Hle : forall l, (sum_list_with (spend w) l <= sum_list_with (w_token w) l)%nat).
  { clear. induction l as [|x l IH]; [done|]. simpl. unfold spend at 1. case_decide; lia. }
  rewrite !sum_list_with_app. simpl. unfold spend at 2. rewrite decide_True by done. pose proof (Hle a). pose proof (Hle b). lia.
Qed.

Lemma does_test_ram l :
  (0 < l_token l)%nat -> Does (freefp_test (k_mram K)) l (fun e l' => l' = l /\ e = negb roomy).
Proof.
  intros Ht. apply does_read. intros w Hi Hkn. pose proof (so_core _ Hi) as Hc. pose proof (co_machine _ Hc) as Cm.
  pose proof (tokens_pos w l Hkn Ht) as Hpos. pose proof (co_enough _ Hc) as He. unfold enough in He.
  unfold freefp_test. rewrite <- (co_os _ Hc), (proj2 (Z.eqb_neq _ _)) by apply Cm.
  eapply wp_on_dev; [apply Cm|]. wp_steps. rewrite insert_id by apply Cm. split; [by destruct (w_sys w)|].
  destruct roomy.
  - destruct (free_fp_list (w_ram w)); [simpl in He; lia|done].
  - by destruct He as [-> _].
Qed.

Lemma does_test_swap l :
  (0 < l_token l)%nat -> roomy = false -> Does (freefp_test (k_active_mswp K)) l (fun e l' => l' = l /\ e = false).
Proof.
  intros Ht Hroomy. apply does_read. intros w Hi Hkn. pose proof (so_core _ Hi) as Hc. pose proof (co_machine _ Hc) as Cm.
  pose proof (tokens_pos w l Hkn Ht) as Hpos. pose proof (co_enough _ Hc) as He. unfold enough in He. rewrite Hroomy in He.
  unfold freefp_test. rewrite <- (co_os _ Hc), (proj2 (Z.eqb_neq _ _)) by apply Cm.
  eapply wp_on_dev; [apply Cm|]. wp_steps. rewrite insert_id by apply Cm. split; [by destruct (w_sys w)|].
  destruct (free_fp_list (w_swap w)); [destruct He; simpl in *; lia|done].
Qed.

Lemma wp_freefp_pop mp (Q : Z -> sys -> Prop) s d f fs :
  devs s !! mp = Some d -> free_fp_list d = f :: fs ->
  Q f (at_dev mp (set_fps fs (f :: used_fp_list d) d) s (s_host s)) -> wp (freefp_pop mp) Q s.
Proof. intros Hd Hf HQ. unfold freefp_pop. eapply wp_on_dev; [done|]. wp_step. wp_steps. rewrite Hf. by wp_steps. Qed.

Lemma does_pop_ram l :
  (0 < l_token l)%nat -> roomy = true ->
  Does (freefp_pop (k_mram K)) l (fun f l' => exists b, l' = spent (setv Hand (Resident f) b l)).
Proof.
  intros Ht Hroomy w Hi Hkn. pose proof (so_core _ Hi) as Hc. pose proof Hc as [Cm Cv [Cf1 Cf2] Co Cfr Cg Ct].
  pose proof (knows_space _ _ Hc Hkn) as Hp. pose proof (tokens_pos w l Hkn Ht) as Hpos.
  assert (Hen : (tokens w <= length (free_fp_list (w_ram w)))%nat) by (unfold enough in Ct; by rewrite Hroomy in Ct).
  rewrite <- Co. destruct (free_fp_list (w_ram w)) as [|f fs] eqn:Hf; [simpl in Hen; lia|].
  eapply wp_freefp_pop; [apply Cm|done|].
  destruct (take_frame _ _ _ _ Cv f fs Hf) as (Hv' & (Hu & Hfit & Hfree) & _); [by apply all_fit_next|].
  set (rd' := set_fps fs _ _) in *. set (s' := at_dev _ _ _ _).
  assert (Hpool : same_pool (w_ram w) rd').
  { split; [done|]. unfold frames_of; simpl. rewrite Hf. by rewrite <- Permutation_middle. }
  set (w1 := mk_world s' (w_view w) (w_lag w) rd' (w_swap w) (spend w)).
  assert (Hc1 : core w1).
  { split; simpl; try done; [by apply (machine_ram _ _ (w_ram w))|split; [by eapply all_fit_pool|done]|].
    pose proof (tokens_spent w w1 l Hkn Ht eq_refl). unfold enough. rewrite Hroomy. simpl in *. lia. }
  assert (Hk1 : knows (spent l) w1).
  { destruct Hkn as [? ? ? ? ? Kt]. split; try done. unfold w1, spend; simpl. by rewrite decide_True, Kt. }
  destruct (ghost_set Hand (Resident f) (fun o => Some (fbyte rd' f o)) w1 (spent l)) as [Hc2 Hk2]; try done.
  { split_and!; [done|done|]. intros q h _. by apply Hfree. }
  step_ends w (setw Hand (Resident f) w1) (setv Hand (Resident f) (fun o => Some (fbyte rd' f o)) (spent l)).
  - intros q h HH Hl. simpl. unfold updl, updv. simpl. rewrite decide_False by congruence. by apply (so_agrees _ Hi).
  - etransitivity; [|by apply kept_setw]. intros q Hq HH. split; try done. unfold w1, spend; simpl. by rewrite decide_False.
  - by eexists.
Qed.

Lemma does_pop_swap l :
  (0 < l_token l)%nat -> roomy = false ->
  Does (freefp_pop (k_active_mswp K)) l (fun f l' => exists b, l' = spent (setv Slot (Swapped f) b l)).
Proof.
  intros Ht Hroomy w Hi Hkn. pose proof (so_core _ Hi) as Hc. pose proof Hc as [Cm Cv [Cf1 Cf2] Co Cfr Cg Ct].
  pose proof (knows_space _ _ Hc Hkn) as Hp. pose proof (tokens_pos w l Hkn Ht) as Hpos.
  assert (Hen : free_fp_list (w_ram w) = [] /\ (tokens w <= length (free_fp_list (w_swap w)))%nat)
    by (unfold enough in Ct; by rewrite Hroomy in Ct).
  rewrite <- Co. destruct (free_fp_list (w_swap w)) as [|f fs] eqn:Hf; [simpl in Hen; lia|].
  eapply wp_freefp_pop; [apply Cm|done|].
  pose proof (free_not_used _ _ _ Hf (vi_sd _ _ _ _ Cv)) as Hnu. pose proof (all_fit_next _ Cf2) as Hnf.
  unfold next_fits in Hnf. rewrite Hf in Hnf.
  set (sd' := set_fps fs _ _). set (s' := at_dev _ _ _ _).
  assert (Hpool : same_pool (w_swap w) sd').
  { split; [done|]. unfold frames_of; simpl. rewrite Hf. by rewrite <- Permutation_middle. }
  set (w1 := mk_world s' (w_view w) (w_lag w) (w_ram w) sd' (spend w)).
  assert (Hc1 : core w1).
  { split; simpl; try done; [by apply (machine_swap _ _ (w_ram w) (w_swap w))| |split; [done|by eapply all_fit_pool]|].
    - destruct Cv. split; try done; [|by apply frames_wf_taken]. intros q g x Hx. destruct (vi_swp _ _ _ Hx). simpl. set_solver.
    - pose proof (tokens_spent w w1 l Hkn Ht eq_refl). unfold enough. rewrite Hroomy. simpl in *. split; [apply Hen|lia]. }
  assert (Hk1 : knows (spent l) w1).
  { destruct Hkn as [? ? ? ? ? Kt]. split; try done. unfold w1, spend; simpl. by rewrite decide_True, Kt. }
  destruct (ghost_set Slot (Swapped f) (fun o => Some (fbyte sd' f o)) w1 (spent l)) as [Hc2 Hk2]; try done.
  { split_and!; [simpl; set_solver|done|]. intros q h _ Hx. apply Hnu. by apply (vi_swp _ _ _ _ Cv q h). }
  step_ends w (setw Slot (Swapped f) w1) (setv Slot (Swapped f) (fun o => Some (fbyte sd' f o)) (spent l)).
  - intros q h HH Hl. simpl. unfold updl, updv. simpl. rewrite decide_False by congruence. by apply (so_agrees _ Hi).
  - etransitivity; [|by apply kept_setw]. intros q Hq HH. split; try done. unfold w1, spend; simpl. by rewrite decide_False.
  - by eexists.
Qed.

(** ** Bytes *)

Definition dev_of (v : pte_view) : option (Z * Z) :=
  match v with Resident f => Some (k_mram K, f) | Swapped f => Some (k_active_mswp K, f) | Absent => None end.

Lemma cell_addr f o d : dev_ok d -> fits d f -> 0 <= o < PAGING64_PAGESZ ->
  u64 (f * PAGING64_PAGESZ + o) = f * PAGING64_PAGESZ + o /\ 0 <= f * PAGING64_PAGESZ + o < storage_len d.
Proof. unfold dev_ok, fits, PAGING64_PAGESZ. intros. split; [apply u64_small; lia|lia]. Qed.

Lemma does_MEMPHY_read l a mp f o :
  dev_of (lv l a) = Some (mp, f) -> 0 <= o < PAGING64_PAGESZ ->
  Does (MEMPHY_read mp (u64 (f * PAGING64_PAGESZ + o))) l (fun r l' => l' = l /\ exists b, r = (0, Some b) /\ lb l a o = Some b).
Proof.
  intros Hd Ho. apply does_read. intros w Hi Hkn. pose proof (so_core _ Hi) as Hc. pose proof Hc as [Cm _ _ Co _ _ _].
  pose proof (owned l w a Hc Hkn) as Hown. rewrite <- (kn_bytes _ _ Hkn a o Ho). unfold bytes.
  destruct (mi_rok _ _ _ Cm) as [Hrok _]. pose proof (mi_sok _ _ _ Cm) as Hsok.
  destruct (lv l a) as [|x|x]; try done; simpl in Hd; injection Hd as <- <-; rewrite <- Co; destruct Hown as [_ Hfit].
  - destruct (cell_addr x o _ Hrok Hfit Ho) as [-> Hr]. eapply wp_MEMPHY_read; [apply Cm|apply Cm|apply Hrok|done|]. split; [done|]. by eexists.
  - destruct (cell_addr x o _ Hsok Hfit Ho) as [-> Hr]. eapply wp_MEMPHY_read; [apply Cm|apply Cm|apply Hsok|done|]. split; [done|]. by eexists.
Qed.

Lemma does_read_cell l a mp f o :
  dev_of (lv l a) = Some (mp, f) -> 0 <= o < PAGING64_PAGESZ ->
  Does (read_cell mp (u64 (f * PAGING64_PAGESZ + o))) l (fun b l' => l' = l /\ lb l a o = Some b).
Proof.
  intros Hd Ho w Hi Hkn. unfold read_cell. wp_step.
  eapply wp_mono; [by apply (does_MEMPHY_read l a mp f o Hd Ho w)|].
  intros [r d] s' (w' & l' & H1 & H2 & H3 & H4 & -> & b & [= -> ->] & Hb). wp_steps. exists w', l. by split_and!.
Qed.

Definition setb (a : place) (o b : Z) (l : lst) : lst :=
  mk_lst (lv l) (fun a' o' => if decide (a' = a /\ o' = o) then Some b else lb l a' o') (l_lag l) (queue l) (l_token l).

(** The device of place [a] with byte [o] of its frame changed. *)
Definition put_cell (v : pte_view) (o b : Z) (w : world) : world :=
  match v with
  | Resident f =>
      let d := set_storage (<[f * PAGING64_PAGESZ + o := b]> (storage (w_ram w))) (w_ram w) in
      mk_world (at_dev (k_mram K) d (w_sys w) (s_host (w_sys w))) (w_view w) (w_lag w) d (w_swap w) (w_token w)
  | Swapped f =>
      let d := set_storage (<[f * PAGING64_PAGESZ + o := b]> (storage (w_swap w))) (w_swap w) in
      mk_world (at_dev (k_active_mswp K) d (w_sys w) (s_host (w_sys w))) (w_view w) (w_lag w) (w_ram w) d (w_token w)
  | Absent => w
  end.

Lemma put_cell_bytes v x o o' b w :
  v <> Absent -> 0 <= o < PAGING64_PAGESZ -> 0 <= o' < PAGING64_PAGESZ ->
  bytes (put_cell v o b w) x o' = if decide (x = v /\ o' = o) then Some b else bytes w x o'.
Proof.
  intros Hv Ho Ho'. unfold bytes, put_cell, PAGING64_PAGESZ in *.
  assert (Hput : forall f f' d, fbyte (set_storage (<[f * 4096 + o := b]> (storage d)) d) f' o' =
                 if decide (f' = f /\ o' = o) then b else fbyte d f' o').
  { intros f f' d. unfold fbyte, PAGING64_PAGESZ. case_decide as E; [destruct E as [-> ->]; apply byte_at_put|].
    apply byte_at_put_ne. intros Heq. apply E. lia. }
  destruct v as [|f|f]; [done| |]; destruct x as [|f'|f']; cbn [content w_ram w_swap];
    try (rewrite decide_False; [done|by intros [? _]]).
  - rewrite Hput. repeat case_decide; naive_solver.
  - rewrite Hput. repeat case_decide; naive_solver.
Qed.

Lemma put_cell_core v o b w : core w -> core (put_cell v o b w).
Proof.
  intros Hc. pose proof Hc as [Cm Cv [Cf1 Cf2] Co Cfr Cg Ct]. destruct v as [|f|f]; [done| |]; split; simpl; try done.
  - rewrite <- Co. by apply (machine_ram _ _ (w_ram w)).
  - by destruct Cv.
  - rewrite <- Co. by apply (machine_swap _ _ (w_ram w) (w_swap w)).
  - by destruct Cv.
Qed.

Lemma does_write_cell l a mp f o b :
  dev_of (lv l a) = Some (mp, f) -> 0 <= o < PAGING64_PAGESZ ->
  Does (MEMPHY_write mp (u64 (f * PAGING64_PAGESZ + o)) b) l (fun r l' => r = 0 /\ l' = setb a o b l).
Proof.
  intros Hd Ho w Hi Hkn. pose proof (so_core _ Hi) as Hc. pose proof Hc as [Cm _ _ Co _ _ _].
  pose proof (knows_space _ _ Hc Hkn) as Hp. pose proof (owned l w a Hc Hkn) as Hown.
  assert (Hna : lv l a <> Absent) by (by destruct (lv l a)).
  destruct (mi_rok _ _ _ Cm) as [Hrok _]. pose proof (mi_sok _ _ _ Cm) as Hsok.
  assert (Hend : exists w2 l2, w_sys w2 = w_sys (put_cell (lv l a) o b w) /\ kept_others (p_mm c) w w2 /\
                   shared_ok w2 /\ knows l2 w2 /\ 0 = 0 /\ l2 = setb a o b l).
  { assert (Hw : w_view (put_cell (lv l a) o b w) = w_view w /\ w_lag (put_cell (lv l a) o b w) = w_lag w /\
                 fifo_of (w_sys (put_cell (lv l a) o b w)) = fifo_of (w_sys w) /\
                 view_of (w_sys (put_cell (lv l a) o b w)) = view_of (w_sys w) /\
                 env_same (w_sys w) (w_sys (put_cell (lv l a) o b w)) /\
                 w_token (put_cell (lv l a) o b w) = w_token w) by (by destruct (lv l a)).
    destruct Hw as (Hwv & Hwl & Hwf & Hwo & Hwe & Hwt). step_ends w (put_cell (lv l a) o b w) (setb a o b l).
    - by apply put_cell_core.
    - intros q h HH Hl. rewrite Hwo, Hwv. rewrite Hwl in Hl. by apply (so_agrees _ Hi).
    - intros q Hq HH. split; [done|by rewrite Hwv| |by rewrite Hwf|by rewrite Hwl|by rewrite Hwt]. intros pl o' Ho'.
      rewrite put_cell_bytes by done. rewrite decide_False; [done|]. intros [Heq _]. revert Heq.
      apply (only_owner l w a); [done|done| |done]. rewrite <- surjective_pairing. by apply loc_other.
    - destruct Hkn as [Kv Kb Kl Kq Kr Kt]. split; simpl; [by rewrite Hwv| |by rewrite Hwl|by rewrite Hwf|by eapply registered_same|by rewrite Hwt].
      intros pl o' Ho'. rewrite put_cell_bytes by done. rewrite (Kb pl o' Ho').
      destruct (decide (pl = a)) as [->|Hne]; [repeat case_decide; naive_solver|]. rewrite !decide_False; [done|naive_solver|].
      intros [Heq _]. revert Heq. rewrite <- Kv. apply (only_owner l w a); [done|by split| |done].
      rewrite <- surjective_pairing. intros E. by apply Hne, (loc_inj (p_mm c)). }
  destruct (lv l a) as [|x|x]; [done| |]; simpl in Hd; injection Hd as <- <-; destruct Hown as [_ Hfit].
  - destruct (cell_addr x o _ Hrok Hfit Ho) as [-> Hr].
    eapply wp_MEMPHY_write; [rewrite <- Co; apply Cm|rewrite <- Co; apply Cm|apply Hrok|done|]. exact Hend.
  - destruct (cell_addr x o _ Hsok Hfit Ho) as [-> Hr].
    eapply wp_MEMPHY_write; [rewrite <- Co; apply Cm|rewrite <- Co; apply Cm|apply Hsok|done|]. exact Hend.
Qed.

(** ** Entries and the page queue *)

Definition set_queue (q : list Z) (l : lst) : lst := mk_lst (lv l) (lb l) (l_lag l) q (l_token l).
Definition set_lag (o : option Z) (l : lst) : lst := mk_lst (lv l) (lb l) o (queue l) (l_token l).

(** The queue of a process holds pages that are resident. *)
Lemma queued l w g : core w -> knows l w -> g ∈ queue l -> valid_pgn g /\ exists f, lv l (Pg g) = Resident f.
Proof.
  intros Hc Hkn Hg. destruct (vi_fifo _ _ _ _ (co_vm _ Hc) _ _ _ (kn_queue _ _ Hkn) Hg) as [Hv [f Hf]]. split; [done|].
  exists f. by rewrite <- (kn_view _ _ Hkn).
Qed.

(** The descriptor of the process with another queue. *)
Lemma queue_step w l m q' :
  shared_ok w -> knows l w -> mms (w_sys w) !! p_mm c = Some m ->
  vm_inv (w_view w) (updf (fifo_of (w_sys w)) (p_mm c) q') (w_ram w) (w_swap w) ->
  let w' := in_sys (set_mms (<[p_mm c := set_fifo q' m]> (mms (w_sys w))) (w_sys w)) w in
  core w' /\ agrees w' /\ kept_others (p_mm c) w w' /\ knows (set_queue q' l) w'.
Proof.
  intros [[Cm Cv Cf Co Cfr Cg Ct] Ha _ _] Hkn Hm Hv' w'. pose proof Hkn as [Kv Kb Kl Kq Kr Kt].
  pose proof (env_same_fifo (p_mm c) q' (w_sys w) m Hm) as He. split_and!.
  - split; simpl; try done.
    + by apply machine_fifo.
    + eapply vm_inv_ext; [done| |exact Hv']. intros q. by apply fifo_of_fifo.
    + by rewrite lookup_insert_ne by (intros E; rewrite E in Hm; congruence).
  - intros q h HH Hl. unfold w', in_sys; cbn [w_sys w_view]. rewrite view_of_fifo; [by apply Ha|apply Cm|done].
  - intros q Hq HH. split; try done. unfold w', in_sys; cbn [w_sys]. rewrite (fifo_of_fifo _ _ _ _ _ Hm).
    unfold updf. by rewrite decide_False.
  - split; try done. unfold w', in_sys; cbn [w_sys]. rewrite (fifo_of_fifo _ _ _ _ _ Hm).
    unfold updf. by rewrite decide_True.
Qed.

Lemma does_find_victim l :
  Does (find_victim_page (p_mm c)) l (fun r l' =>
    match r with
    | None => l' = l /\ queue l = []
    | Some v => l' = set_queue (removelast (queue l)) l /\ valid_pgn v /\ (v ∉ removelast (queue l)) /\
                (exists f, lv l (Pg v) = Resident f) /\ queue l <> []
    end).
Proof.
  intros w Hi Hkn. pose proof (so_core _ Hi) as Hc. destruct (knows_caller _ _ Hkn) as (m & Hcal & Hq).
  unfold find_victim_page. wp_steps. eapply wp_get_mm; [apply Hcal|]. rewrite Hq. destruct (last (queue l)) as [v|] eqn:Hl.
  - wp_steps. eapply wp_upd_mm; [apply Hcal|]. wp_steps. rewrite Hq.
    destruct (drop_victim _ _ _ _ (co_vm _ Hc) _ _ _ (kn_queue _ _ Hkn) Hl) as (Hv' & Hvv & [f Hf] & Hn).
    destruct (queue_step w l m (removelast (queue l)) Hi Hkn) as (? & ? & ? & ?); [apply Hcal|done|].
    step_ends w (in_sys (set_mms (<[p_mm c:=set_fifo (removelast (queue l)) m]> (mms (w_sys w))) (w_sys w)) w)
              (set_queue (removelast (queue l)) l).
    split_and!; try done; [|by intros E; rewrite E in Hl]. exists f. by rewrite <- (kn_view _ _ Hkn).
  - wp_steps. step_ends w w l; [by apply Hi|]. split; [done|by apply last_None].
Qed.

Lemma does_enlist l g :
  valid_pgn g -> g ∉ queue l -> (exists f, lv l (Pg g) = Resident f) ->
  Does (enlist_pgn_node (p_mm c) g) l (fun _ l' => l' = set_queue (g :: queue l) l).
Proof.
  intros Hg Hn [f Hf] w Hi Hkn. pose proof (so_core _ Hi) as Hc. destruct (knows_caller _ _ Hkn) as (m & Hcal & Hq).
  unfold enlist_pgn_node. wp_steps. apply wp_malloc_unchecked; [apply (co_machine _ Hc)|].
  eapply wp_upd_mm; [apply Hcal|]. rewrite Hq.
  destruct (queue_step w l m (g :: queue l) Hi Hkn) as (? & ? & ? & ?); [apply Hcal| |].
  - pose proof (co_vm _ Hc) as Hv. destruct Hv. split; try done.
    + intros q l' h Hl' Hh. unfold updf in Hl'. case_decide as E; [|by eapply vi_fifo]. injection Hl' as <-. subst q.
      apply elem_of_cons in Hh as [->|Hh].
      * split; [done|]. exists f. by rewrite <- Hf, <- (kn_view _ _ Hkn).
      * eapply vi_fifo; [apply Hkn|done].
    + intros q l' Hl'. unfold updf in Hl'. case_decide as E; [|by eapply vi_nodup]. injection Hl' as <-.
      apply NoDup_cons. split; [done|]. eapply vi_nodup. apply Hkn.
  - step_ends w (in_sys (set_mms (<[p_mm c:=set_fifo (g :: queue l) m]> (mms (w_sys w))) (w_sys w)) w) (set_queue (g :: queue l) l).
Qed.

(** An entry of the process is written; the views say so already. *)
Lemma entry_written_step w1 s' l g x :
  core w1 -> knows l w1 -> pt_wf s' -> pte_upd (p_mm c) g x (w_sys w1) s' -> view x = lv l (Pg g) ->
  (forall q h, q <> H -> (q, h) <> (p_mm c, g) -> w_lag w1 q <> Some h -> view_of (w_sys w1) q h = w_view w1 q h) ->
  let w' := mk_world s' (w_view w1) (fun q => if decide (q = p_mm c) then None else w_lag w1 q) (w_ram w1) (w_swap w1) (w_token w1) in
  (forall h, l_lag l = Some h -> h = g) ->
  core w' /\ agrees w' /\ kept_others (p_mm c) w1 w' /\ knows (set_lag None l) w'.
Proof.
  intros Hc Hkn Hwf Hu Hx Ha w' Hlag. pose proof Hc as [Cm Cv Cf Co Cfr Cg Ct]. pose proof Hkn as [Kv Kb Kl Kq Kr Kt].
  pose proof (env_same_pte _ _ _ _ _ Hu) as He. split_and!.
  - split; simpl; try done.
    + by eapply machine_pte.
    + eapply vm_inv_ext; [done| |exact Cv]. intros q. by apply (fifo_of_pte _ _ _ _ _ _ Hu).
    + by rewrite (es_os _ _ He).
    + pose proof (es_mms _ _ He H) as Hq. rewrite Cfr in Hq. by destruct (mms s' !! H).
  - intros q h HH Hl. simpl in *. rewrite (view_of_pte _ _ _ _ _ _ _ Hu). unfold updv.
    destruct (decide ((q, h) = (p_mm c, g))) as [E|E]; [injection E as -> ->; by rewrite Hx, <- Kv|].
    apply Ha; [done|done|]. destruct (decide (q = p_mm c)) as [Eq|]; [|done]. subst q. rewrite Kl. intros Hlg. apply E. by rewrite (Hlag h Hlg).
  - intros q Hq HH. split; try done; simpl; [by apply (fifo_of_pte _ _ _ _ _ _ Hu)|]. by rewrite decide_False.
  - split; try done; simpl; [by rewrite decide_True|by rewrite (fifo_of_pte _ _ _ _ _ _ Hu)|by eapply registered_same].
Qed.

(** The views of a world moved, nothing else. *)
Definition views_moved (l1 : lst) (g : Z) (w w1 : world) : Prop :=
  w_sys w1 = w_sys w /\ w_lag w1 = w_lag w /\ w_ram w1 = w_ram w /\ w_swap w1 = w_swap w /\
  core w1 /\ knows l1 w1 /\ kept_others (p_mm c) w w1 /\
  forall q h, q <> H -> (q, h) <> (p_mm c, g) -> w_view w1 q h = w_view w q h.

Lemma views_moved_refl l g w : core w -> knows l w -> views_moved l g w w.
Proof. done. Qed.

Lemma updl_out V a x q h : (q, h) <> loc (p_mm c) a -> updl V (p_mm c) a x q h = V q h.
Proof. intros Hn. apply updv_ne. by rewrite <- surjective_pairing. Qed.

(** A move between the hand and page [g]. *)
Lemma views_moved_step l1 g w w1 a b :
  views_moved l1 g w w1 -> a <> b -> (forall h, a = Pg h -> h = g) -> (forall h, b = Pg h -> h = g) ->
  g ∉ queue l1 -> exists w2, views_moved (movev a b l1) g w w2.
Proof.
  intros (E1 & E2 & E3 & E4 & Hc & Hkn & Hko & Hv) Hab Ha Hb Hg. pose proof (knows_space _ _ Hc Hkn) as Hp.
  destruct (ghost_move a b w1 l1) as [Hc2 Hk2]; [done..|intros h Eh; by rewrite (Ha h Eh)|intros h Eh; by rewrite (Hb h Eh)|].
  exists (setw b (lv l1 a) (setw a Absent w1)). split_and!; [exact E1|exact E2|exact E3|exact E4|exact Hc2|exact Hk2| |].
  - etransitivity; [exact Hko|]. etransitivity; [by apply kept_setw|by apply kept_setw].
  - intros q h HH Hn. simpl. rewrite !updl_out; [by apply Hv|..].
    + intros E. destruct a as [x| |]; simpl in E; [|congruence..]. rewrite (Ha x eq_refl) in E. done.
    + intros E. destruct b as [x| |]; simpl in E; [|congruence..]. rewrite (Hb x eq_refl) in E. done.
Qed.

(** The entry of [g] is written with [x], which the moved views say it holds. *)
Lemma does_entry l l1 g val (m : M sys Z) :
  l_lag l1 = l_lag l -> (forall h, l_lag l = Some h -> h = g) ->
  (forall w, core w -> knows l w -> exists w1, views_moved l1 g w w1) ->
  (forall s m', caller_ok c s m' -> pt_wf s -> wp m (entry_written (p_mm c) g (val (pte_of s (p_mm c) g)) s) s) ->
  (forall w pte, core w -> knows l w -> view (val pte) = lv l1 (Pg g)) ->
  Does m l (fun _ l' => l' = set_lag None l1).
Proof.
  intros Hl1 Hlag Hmove Hspec Hval w Hi Hkn. pose proof (so_core _ Hi) as Hc. destruct (knows_caller _ _ Hkn) as (m' & Hcal & _).
  destruct (Hmove w Hc Hkn) as (w1 & E1 & E2 & _ & _ & Hc1 & Hk1 & Hko & Hv).
  eapply wp_mono; [apply (Hspec _ m'); [done|apply (co_machine _ Hc)]|].
  intros r s' [Hwf [[-> Hu]|(_ & _ & Hne)]]; [|by destruct Hne; apply (co_machine _ Hc)].
  rewrite <- E1 in Hu. destruct (entry_written_step w1 s' l1 g _ Hc1 Hk1 Hwf Hu) as (H1 & H2 & H3 & H4).
  - by apply (Hval w).
  - intros q h HH Hn Hlg. rewrite E1, (Hv q h HH Hn). rewrite E2 in Hlg. by apply (so_agrees _ Hi).
  - rewrite Hl1. exact Hlag.
  - step_ends w (mk_world s' (w_view w1) (fun q => if decide (q = p_mm c) then None else w_lag w1 q) (w_ram w1) (w_swap w1) (w_token w1))
              (set_lag None l1). by etransitivity.
Qed.

Lemma not_queued l w g : core w -> knows l w -> (forall f, lv l (Pg g) <> Resident f) -> g ∉ queue l.
Proof. intros Hc Hkn Hnr Hg. destruct (queued _ _ _ Hc Hkn Hg) as [_ [f Hf]]. by destruct (Hnr f). Qed.

Lemma does_set_swap l v f x :
  valid_pgn v -> l_lag l = None -> v ∉ queue l -> lv l (Pg v) = Resident f -> lv l Slot = Swapped x ->
  Does (pte_set_swap (Some c) v 0 x) l (fun _ l' => l' = set_lag None (movev Slot (Pg v) (movev (Pg v) Hand l))).
Proof.
  intros Hv Hl Hn Hr Hs. apply (does_entry l _ v (fun pte => pte_swap_val pte 0 x)); [done|by rewrite Hl| | |].
  - intros w Hc Hkn. destruct (views_moved_step l v w w (Pg v) Hand) as [w1 Hw1]; try done; [by intros h [= ->]|].
    apply (views_moved_step _ v w w1 Slot (Pg v) Hw1); [done|done|by intros h [= ->]|done].
  - intros s m Hcal Hwf. by apply (pte_set_swap_spec c m).
  - intros w pte Hc Hkn. pose proof (owned l w Slot Hc Hkn) as Ho. rewrite Hs in Ho. destruct Ho as [_ Hfit].
    pose proof (fits_small _ _ (mi_sok _ _ _ (co_machine _ Hc)) Hfit). rewrite view_swap_val by lia.
    rewrite Z.mod_small by lia. rewrite <- Hs. places.
Qed.

Lemma fpn_val_view l w a f pte : core w -> knows l w -> lv l a = Resident f -> view (pte_fpn_val pte f) = Resident f.
Proof.
  intros Hc Hkn Ha. pose proof (owned l w a Hc Hkn) as Ho. rewrite Ha in Ho. destruct Ho as [_ Hfit].
  destruct (mi_rok _ _ _ (co_machine _ Hc)) as [_ Hlen]. unfold fits, PAGING64_PAGESZ in Hfit.
  rewrite view_fpn_val by lia. f_equal. apply Z.mod_small. lia.
Qed.

Lemma does_set_fpn_lag l g f :
  valid_pgn g -> l_lag l = Some g -> lv l (Pg g) = Resident f ->
  Does (pte_set_fpn (Some c) g f) l (fun _ l' => l' = set_lag None l).
Proof.
  intros Hg Hl Hr. apply (does_entry l l g (fun pte => pte_fpn_val pte f)); [done|rewrite Hl; congruence| | |].
  - intros w Hc Hkn. exists w. by apply views_moved_refl.
  - intros s m Hcal Hwf. by apply (pte_set_fpn_spec c m).
  - intros w pte Hc Hkn. rewrite Hr. by eapply fpn_val_view.
Qed.

Lemma does_set_fpn_new l g f :
  valid_pgn g -> l_lag l = None -> lv l (Pg g) = Absent -> lv l Hand = Resident f ->
  Does (pte_set_fpn (Some c) g f) l (fun _ l' => l' = set_lag None (movev Hand (Pg g) l)).
Proof.
  intros Hg Hl Ha Hh. apply (does_entry l _ g (fun pte => pte_fpn_val pte f)); [done|by rewrite Hl| | |].
  - intros w Hc Hkn. apply (views_moved_step l g w w Hand (Pg g)); try done; [by intros h [= ->]|].
    eapply not_queued; [done..|]. by rewrite Ha.
  - intros s m Hcal Hwf. by apply (pte_set_fpn_spec c m).
  - intros w pte Hc Hkn. rewrite (fpn_val_view l w Hand f pte Hc Hkn Hh), <- Hh. places.
Qed.

(** The slot of page [g], whose bytes the hand has, is given back. *)
Lemma does_put_slot l g f y :
  l_lag l = None -> lv l (Pg g) = Swapped y -> lv l Hand = Resident f ->
  Does (MEMPHY_put_freefp (k_active_mswp K) y) l (fun _ l' => l' = set_lag (Some g) (movev Hand (Pg g) l)).
Proof.
  intros Hl Hy Hf w Hi Hkn. pose proof (so_core _ Hi) as Hc. pose proof (owned l w (Pg g) Hc Hkn) as Ho. rewrite Hy in Ho.
  destruct Ho as [Hyu Hyfit]. assert (Hn : g ∉ queue l) by (eapply not_queued; [done..|]; by rewrite Hy).
  pose proof (frames_wf_used _ _ (vi_sd _ _ _ _ (co_vm _ Hc)) Hyu) as Hy31.
  destruct (unlink y (used_fp_list (w_swap w))) as [used|] eqn:Hun; [|by apply unlink_None in Hun].
  pose proof (unlink_Some _ _ _ Hun) as Hperm.
  pose proof (knows_space _ _ Hc Hkn) as Hp.
  destruct (ghost_move Hand (Pg g) w l Hc Hkn) as [Hc1 Hk1]; [done|done|by intros h [= ->]|].
  set (w1 := setw (Pg g) (lv l Hand) (setw Hand Absent w)) in *.
  assert (HV : forall q h, (q, h) <> loc (p_mm c) Hand -> (q, h) <> (p_mm c, g) -> w_view w1 q h = w_view w q h).
  { intros q h H1 H2. unfold w1. simpl. by rewrite !updl_out. }
  assert (Hnone : forall q h, w_view w1 q h <> Swapped y).
  { intros q h. unfold w1, setw; cbn [w_view]. unfold updl, updv. case_decide; [by rewrite Hf|]. case_decide as E; [done|].
    rewrite <- Hy. apply (only_owner l w (Pg g)); try done. by rewrite Hy. }
  set (sd' := set_fps (y :: free_fp_list (w_swap w)) used (w_swap w)).
  assert (Hpool : same_pool (w_swap w) sd').
  { split; [done|]. unfold frames_of; simpl. rewrite Hperm. by rewrite <- Permutation_middle. }
  pose proof Hc as [Cm Cv [Cf1 Cf2] Co Cfr Cg Ct]. rewrite <- Co.
  eapply wp_MEMPHY_put_freefp; [apply Cm|apply Cm|done|done|]. fold sd'.
  set (s' := at_dev _ _ _ _).
  step_ends w (mk_world s' (w_view w1) (fun q => if decide (q = p_mm c) then Some g else w_lag w q) (w_ram w) sd' (w_token w))
            (set_lag (Some g) (movev Hand (Pg g) l)).
  - pose proof Hc1 as [Dm Dv Df Do Dfr Dg Dt]. split; cbn [w_sys w_view w_ram w_swap w_lag]; try done.
    + apply (machine_swap _ _ _ _ Cm). apply Hpool.
    + destruct Dv. split; try done.
      * intros q h x Hx. destruct (vi_swp q h x Hx) as [Hu Hfi]. split; [|done]. cbn [w_swap w1 setw] in Hu. rewrite Hperm in Hu.
        apply elem_of_cons in Hu as [->|Hu]; [|done]. by destruct (Hnone q h).
      * eapply frames_wf_perm; [apply Hpool|done].
    + split; [done|by eapply all_fit_pool].
    + unfold enough, tokens in *. destruct roomy; simpl in *; [done|]. split; [apply Ct|lia].
  - intros q h HH Hlg. simpl in Hlg. change (view_of (w_sys w) q h = w_view w1 q h).
    assert (Hne : (q, h) <> (p_mm c, g)) by (intros [= -> ->]; by rewrite decide_True in Hlg).
    rewrite HV; [|by intros [= -> _]|done]. apply (so_agrees _ Hi); [done|]. case_decide; [subst q; by rewrite (kn_lag _ _ Hkn), Hl|done].
  - intros q Hq HH. assert (Hko : kept_for q w w1) by (etransitivity; apply kept_setw; done).
    destruct Hko as [G1 G2 G3 G4 G5 G6]. split; try done. simpl. by rewrite decide_False.
  - destruct Hk1 as [Kv Kb Kl Kq Kr Kt]. split; try done. simpl. by rewrite decide_True.
Qed.

(** ** The programs, by their local states *)

Local Abbreviation Runs := (runs w_sys shared_ok (kept_for (p_mm c)) (kept_others (p_mm c)) knows).

Lemma run_step {A B} (m : M sys A) (f : A -> prog sys B) l P Q :
  Does m l P -> (forall a l', P a l' -> Runs (f a) l' Q) -> Runs (pbind (op m) f) l Q.
Proof. apply runs_step. apply knows_stable. Qed.

Lemma run_bind {A B} (p : prog sys A) (f : A -> prog sys B) l P Q :
  Runs p l P -> (forall a l', P a l' -> Runs (f a) l' Q) -> Runs (pbind p f) l Q.
Proof. apply runs_bind. typeclasses eauto. Qed.

Lemma run_done {A} (a : A) l (Q : A -> lst -> Prop) : Q a l -> Runs (Done a) l Q.
Proof. apply runs_done. apply knows_stable. Qed.

(** A step that only reads. *)
Lemma run_read {A B} (m : M sys A) (f : A -> prog sys B) l (P : A -> Prop) Q :
  Does m l (fun a l' => l' = l /\ P a) -> (forall a, P a -> Runs (f a) l Q) -> Runs (pbind (op m) f) l Q.
Proof. intros Hm Hf. eapply run_step; [exact Hm|]. intros a l' [-> HP]. by apply Hf. Qed.

(** What the shared invariant says of a local state. *)
Lemma run_fact {A} (p : prog sys A) l Q (F : Prop) :
  (forall w, core w -> knows l w -> F) -> (F -> Runs p l Q) -> Runs p l Q.
Proof. intros HF Hr w Hi Hkn. apply Hr; [|done|done]. apply (HF w); [apply Hi|done]. Qed.

Lemma does_const {A} (m : M sys A) l (P : A -> Prop) :
  (forall s, os s = K -> registered c s -> wp m (fun a s' => s' = s /\ P a) s) -> Does m l (fun a l' => l' = l /\ P a).
Proof. intros Hm. apply does_read. intros w Hi Hkn. apply Hm; [apply Hi|apply Hkn]. Qed.

Lemma run_krnl_of {A} (f : krnl_t -> prog sys A) l Q : Runs (f K) l Q -> Runs (pbind (op (krnl_of c)) f) l Q.
Proof.
  intros Hf. apply (run_read _ _ _ (fun k => k = K)); [|by intros k ->]. apply does_const. intros s Ho _. by apply krnl_of_ok.
Qed.

Lemma run_from_opt {A B} (a : A) (f : A -> prog sys B) l Q : Runs (f a) l Q -> Runs (pbind (op (from_opt (Some a))) f) l Q.
Proof. intros Hf. apply (run_read _ _ _ (fun k => k = a)); [|by intros k ->]. by apply does_const. Qed.

Lemma run_memmap regs l Q :
  Runs (memmap_op_p (p_krnl c) c regs) l Q -> Runs (__sys_memmap_p (p_krnl c) (pid c) regs) l Q.
Proof.
  intros Hr. unfold __sys_memmap_p.
  apply (run_read _ _ _ (fun ptr => arr_get (proc_table K) (pid c) = Some ptr /\ ptr <> NULL)).
  - apply does_const. intros s Ho (Hpid & ptr & Ht & Hn & _). unfold get_proc_from_PID, PID_MAX in *.
    replace ((pid c <? 0) || (255 <? pid c)) with false by lia. wp_step. apply wp_deref_krnl; [done|]. wp_steps. by rewrite <- Ho.
  - intros ptr [Hptr Hn]. rewrite (proj2 (Z.eqb_neq _ _)) by done. apply (run_read _ _ _ (fun x => x = c)); [|by intros x ->].
    apply does_const. intros s Ho (_ & ptr' & Ht & _ & Hp). rewrite Ho, Hptr in Ht. injection Ht as <-. unfold get_pcb. by wp_steps.
Qed.

Lemma run_deref {A} (f : krnl_t -> prog sys A) l Q : Runs (f K) l Q -> Runs (pbind (op (deref_krnl (p_krnl c))) f) l Q.
Proof.
  intros Hf. apply (run_read _ _ _ (fun k => k = K)); [|by intros k ->]. apply does_const. intros s Ho _. by apply wp_deref_krnl.
Qed.

(** Only the bytes of [dst] change. *)
Definition copied (dst : place) (l l' : lst) : Prop :=
  lv l' = lv l /\ l_lag l' = l_lag l /\ (queue l' = queue l /\ l_token l' = l_token l) /\
  forall a o, a <> dst -> lb l' a o = lb l a o.

Lemma run_cp_loop src dst sp sf dp df n : forall i l,
  dev_of (lv l src) = Some (sp, sf) -> dev_of (lv l dst) = Some (dp, df) -> src <> dst ->
  0 <= i -> i + Z.of_nat n = PAGING64_PAGESZ -> (forall o, 0 <= o < i -> lb l dst o = lb l src o) ->
  Runs (cp_page_loop_p sp sf dp df i n) l
       (fun _ l' => copied dst l l' /\ forall o, 0 <= o < PAGING64_PAGESZ -> lb l' dst o = lb l' src o).
Proof.
  induction n as [|n IH]; intros i l Hs Hd Hne Hi Hn Hb; cbn [cp_page_loop_p].
  - apply run_done. split; [done|]. intros o Ho. apply Hb. lia.
  - cbv zeta. eapply run_read; [apply (does_read_cell l src); [done|lia]|]. intros b Hbs.
    eapply run_step; [apply (does_write_cell l dst); [done|lia]|]. intros _ l' [_ ->].
    eapply runs_mono; [apply IH; try done; [lia|lia|]|].
    + intros o Ho. cbn [lb setb]. rewrite (decide_False (P := src = dst /\ o = i)) by naive_solver.
      case_decide as E; [destruct E as [_ ->]; done|]. apply Hb. assert (o <> i) by naive_solver. lia.
    + intros r l' [(E1 & E2 & E3 & E4) Hall]. split; [|done]. split; [done|]. split; [done|]. split; [done|]. intros a o Ha. rewrite E4 by done.
      cbn [lb setb]. by rewrite decide_False by naive_solver.
Qed.

Lemma run_swap_cp src dst sp sf dp df l :
  dev_of (lv l src) = Some (sp, sf) -> dev_of (lv l dst) = Some (dp, df) -> src <> dst ->
  Runs (__swap_cp_page_p sp sf dp df) l
       (fun _ l' => copied dst l l' /\ forall o, 0 <= o < PAGING64_PAGESZ -> lb l' dst o = lb l' src o).
Proof.
  intros Hs Hd Hne. apply run_cp_loop; try done. intros o Ho. lia.
Qed.

(** The process keeps its bytes. *)
Definition mem_kept (l l' : lst) : Prop :=
  forall h o b, 0 <= o < PAGING64_PAGESZ -> lb l (Pg h) o = Some b -> lb l' (Pg h) o = Some b.

(** Nothing in hand, no entry behind. *)
Definition idle (l : lst) : Prop := l_lag l = None /\ lv l Hand = Absent /\ lv l Slot = Absent.

Lemma mem_kept_refl l : mem_kept l l.
Proof. by intros h o b. Qed.
Local Hint Resolve mem_kept_refl : core.

Lemma mem_kept_trans l1 l2 l3 : mem_kept l1 l2 -> mem_kept l2 l3 -> mem_kept l1 l3.
Proof. unfold mem_kept. eauto. Qed.

Lemma copied_kept l l' a : copied a l l' -> (forall h, a <> Pg h) -> mem_kept l l'.
Proof. intros (_ & _ & _ & Hb) Ha h o b Ho Hlb. by rewrite Hb. Qed.

(** A place in RAM, or in swap, has a small frame number. *)
Lemma frame_small l w a f : core w -> knows l w -> lv l a = Resident f \/ lv l a = Swapped f -> 0 <= f < 2 ^ 19.
Proof.
  intros Hc Hkn Ha. pose proof (owned l w a Hc Hkn) as Ho. pose proof (co_machine _ Hc) as Hm.
  destruct Ha as [Ha|Ha]; rewrite Ha in Ho; destruct Ho as [_ Hfit].
  - eapply fits_small; [apply (mi_rok _ _ _ Hm)|done].
  - eapply fits_small; [apply (mi_sok _ _ _ Hm)|done].
Qed.

(** Taking a frame, with a token. *)
Lemma run_get_ram l :
  (0 < l_token l)%nat ->
  Runs (MEMPHY_get_freefp_p (k_mram K)) l (fun r l' =>
    match r with
    | None => l' = l /\ roomy = false
    | Some f => roomy = true /\ exists b, l' = spent (setv Hand (Resident f) b l)
    end).
Proof.
  intros Ht. unfold MEMPHY_get_freefp_p. eapply run_read; [by apply does_test_ram|]. intros e ->.
  destruct roomy eqn:Hroomy; cbn [negb]; [|by apply run_done].
  eapply run_step; [by apply does_pop_ram|]. intros f l' [b ->]. apply run_done. split; [done|by exists b].
Qed.

Lemma run_get_swap l :
  (0 < l_token l)%nat -> roomy = false ->
  Runs (MEMPHY_get_freefp_p (k_active_mswp K)) l
       (fun r l' => exists f b, r = Some f /\ l' = spent (setv Slot (Swapped f) b l)).
Proof.
  intros Ht Hroomy. unfold MEMPHY_get_freefp_p. eapply run_read; [by apply does_test_swap|]. intros e ->.
  eapply run_step; [by apply does_pop_swap|]. intros f l' [b ->]. apply run_done. by exists f, b.
Qed.

(** [SYSMEM_SWP_OP] copies the frame of page [v] to the slot in hand. *)
Lemma run_swap_op l v f x :
  lv l (Pg v) = Resident f -> lv l Slot = Swapped x ->
  Runs (__sys_memmap_p (p_krnl c) (pid c) (mk_regs SYSMEM_SWP_OP f (Some x))) l
       (fun _ l' => copied Slot l l' /\ forall o, 0 <= o < PAGING64_PAGESZ -> lb l' Slot o = lb l' (Pg v) o).
Proof.
  intros Hv Hs. apply run_memmap. unfold memmap_op_p. cbn [a1 a2 a3]. cbv zeta.
  change (i32 SYSMEM_SWP_OP) with SYSMEM_SWP_OP. cbn [Z.eqb Pos.eqb SYSMEM_MAP_OP SYSMEM_INC_OP SYSMEM_SWP_OP].
  apply run_deref, run_from_opt.
  apply (run_fact _ _ _ (0 <= f < 2 ^ 19 /\ 0 <= x < 2 ^ 19)).
  { intros w Hc Hkn. split; [apply (frame_small l w (Pg v))|apply (frame_small l w Slot)]; auto. }
  intros [Hf Hx]. rewrite !u32_small by lia. eapply run_bind; [|intros r l' HP; apply run_done, HP].
  unfold __mm_swap_page_p. apply run_krnl_of. eapply run_bind; [|intros r l' HP; apply run_done, HP].
  apply (run_swap_cp (Pg v) Slot); [by rewrite Hv|by rewrite Hs|done].
Qed.

Lemma run_evict l :
  idle l -> (0 < l_token l)%nat -> roomy = false ->
  Runs (evict_page_p c) l (fun r l' =>
    mem_kept l l' /\ l_lag l' = None /\ lv l' Slot = Absent /\ (l_token l <= S (l_token l'))%nat /\
    match r with
    | None => l' = l /\ queue l = []
    | Some f => queue l <> [] /\ lv l' Hand = Resident f /\
                forall h, (forall f, lv l (Pg h) <> Resident f) -> lv l' (Pg h) = lv l (Pg h)
    end).
Proof.
  intros (Hlag & Hhand & Hslot) Htok Hroomy. unfold evict_page_p. apply run_krnl_of.
  eapply run_step; [apply does_find_victim|]. intros [v|] l1 H1; [|destruct H1 as [-> Hq]; apply run_done; split_and!; try done; lia].
  destruct H1 as (-> & Hvv & Hn & (f & Hf) & Hne). set (l1 := set_queue _ l).
  eapply run_read; [by apply (does_pte_get l1); [|simpl; rewrite Hlag]|]. intros pte Hpte. cbv zeta.
  assert (PAGING_FPN pte = f) as -> by (apply view_Resident; rewrite Hpte; exact Hf).
  eapply run_bind; [by apply (run_get_swap l1)|]. intros r0 l2 (x & b & -> & ->). set (l2 := spent _).
  eapply run_bind; [apply (run_swap_op l2 v f x); unfold l2, spent; places|].
  intros r l3 [(E1 & E2 & [E3 E5] & E4) Hb].
  eapply run_step; [apply (does_set_swap l3 v f x); rewrite ?E1, ?E2, ?E3; try done; unfold l2, spent; places|].
  intros r' l4 ->. apply run_done. split_and!.
  - intros h o b' Ho Hlb. unfold set_lag. cbn [lb].
    assert (E : lb l3 (Pg h) o = Some b') by (rewrite E4 by done; unfold l2, spent; places).
    destruct (decide (h = v)) as [->|Hhv]; [|by places]. places. by rewrite Hb.
  - done.
  - places.
  - cbn [set_lag movev setv l_token]. rewrite E5. cbn. lia.
  - done.
  - cbn [set_lag lv]. places. rewrite E1. unfold l2, spent. places.
  - intros h Hh. assert (h <> v) by (intros ->; by destruct (Hh f)). cbn [set_lag lv]. places. rewrite E1. unfold l2, spent. places.
Qed.

Lemma run_page_in l g pte f :
  l_lag l = None -> lv l Slot = Absent -> lv l Hand = Resident f -> valid_pgn g ->
  view pte = lv l (Pg g) -> (forall y, lv l (Pg g) <> Resident y) ->
  Runs (page_in_p c g pte f) l (fun _ l' =>
    mem_kept l l' /\ idle l' /\ lv l' (Pg g) = Resident f /\ queue l' <> [] /\ l_token l' = l_token l).
Proof.
  intros Hlag Hslot Hhand Hg Hpte Hnr. apply (run_fact _ _ _ (g ∉ queue l)); [intros w Hc Hkn; by eapply not_queued|].
  intros Hq. apply (run_fact _ _ _ (lv l (Pg g) = Absent -> forall o, 0 <= o < PAGING64_PAGESZ -> lb l (Pg g) o = None)).
  { intros w _ Hkn Ha o Ho. by rewrite <- (kn_bytes _ _ Hkn) by done; rewrite Ha. }
  intros Hnone. unfold page_in_p. apply run_krnl_of.
  assert (Hend : forall l1, queue l1 = queue l -> l_lag l1 = None -> lv l1 Hand = Absent -> lv l1 Slot = Absent ->
    lv l1 (Pg g) = Resident f -> mem_kept l l1 -> l_token l1 = l_token l ->
    Runs (op (enlist_pgn_node (p_mm c) g)) l1 (fun _ l' =>
      mem_kept l l' /\ idle l' /\ lv l' (Pg g) = Resident f /\ queue l' <> [] /\ l_token l' = l_token l)).
  { intros l1 E1 E2 E3 E4 E5 E6 E7. change (op (enlist_pgn_node (p_mm c) g)) with (pbind (op (enlist_pgn_node (p_mm c) g)) Done).
    eapply run_step; [apply (does_enlist l1 g); [done|by rewrite E1|by exists f]|]. intros [] l2 ->. by apply run_done. }
  destruct (lv l (Pg g)) as [|y|y] eqn:Hy; [|by destruct (Hnr y)|].
  - destruct (view_Absent _ Hpte) as [_ ->]. cbn [pbind]. eapply run_step; [by apply (does_set_fpn_new l g f)|].
    intros r l1 ->. apply Hend; try done; cbn [set_lag lv l_lag queue]; try by places.
    intros h o b Ho Hlb. cbn [set_lag lb]. destruct (decide (h = g)) as [->|Hh]; [|by places].
    by rewrite Hnone in Hlb.
  - destruct (view_Swapped _ _ Hpte) as (-> & _ & ->). cbv zeta.
    eapply (run_bind _ _ _ (fun _ l1 => exists l0, l1 = set_lag (Some g) (movev Hand (Pg g) l0) /\ copied Hand l l0 /\
              forall o, 0 <= o < PAGING64_PAGESZ -> lb l0 Hand o = lb l0 (Pg g) o)).
    + eapply run_bind; [apply (run_swap_cp (Pg g) Hand); [by rewrite Hy|by rewrite Hhand|done]|].
      intros r l0 [Hcp Hb]. pose proof Hcp as (E1 & E2 & [E3 _] & E4).
      eapply run_step; [apply (does_put_slot l0 g f y); by rewrite ?E1, ?E2|]. intros r' l1 ->. apply run_done. by exists l0.
    + intros [] l1 (l0 & -> & (E1 & E2 & [E3 E5] & E4) & Hb).
      eapply run_step; [apply (does_set_fpn_lag _ g f); [done|done|]; cbn [set_lag lv]; places; by rewrite E1|].
      intros r l1 ->. apply Hend; try done; cbn [set_lag lv l_lag queue]; try by (places; rewrite E1).
      intros h o b Ho Hlb. cbn [set_lag lb]. assert (E : lb l0 (Pg h) o = Some b) by (by rewrite E4).
      destruct (decide (h = g)) as [->|Hh]; places. by rewrite Hb.
Qed.

(** An access can fail: RAM is full and the process has no page to evict. *)
Definition starved (l : lst) : Prop := roomy = false /\ queue l = [].

(** What an access leaves: a process that has no page to evict afterwards had
    none before, and the same pages; and one that has none when RAM is full
    keeps its pages. *)
Record left_by (l l' : lst) : Prop := {
  lf_idle : idle l';
  lf_token : (l_token l <= S (l_token l'))%nat;
  lf_queue : queue l' = [] -> queue l = [] /\ forall h, lv l' (Pg h) = lv l (Pg h);
  lf_starved : starved l -> queue l' = [] /\ forall h, lv l' (Pg h) = lv l (Pg h);
}.

Lemma left_refl l : idle l -> left_by l l.
Proof. intros Hi. split; [done|lia|done|by intros [_ ?]]. Qed.

Lemma left_setb l l' a o b : left_by l l' -> left_by l (setb a o b l').
Proof. by intros [? ? ? ?]. Qed.

(** The access to page [g] failed: it was not in RAM, and there was no frame for it. *)
Definition no_frame (l : lst) (g : Z) : Prop := starved l /\ forall f, lv l (Pg g) <> Resident f.

Lemma run_getpage l g :
  idle l -> (0 < l_token l)%nat -> 0 <= g < 2 ^ 31 ->
  Runs (pg_getpage_p g c) l (fun r l' => mem_kept l l' /\ left_by l l' /\
    ((exists f, r = (0, Some f) /\ lv l' (Pg g) = Resident f /\ ~ no_frame l g) \/ r = (-1, None) /\ no_frame l g)).
Proof.
  intros Hidle Htok Hg. pose proof Hidle as (Hlag & Hhand & Hslot).
  assert (Hvg : valid_pgn g) by (unfold valid_pgn; lia). unfold pg_getpage_p. rewrite (u64_small g) by lia.
  eapply run_read; [by apply (does_pte_get l g); [|rewrite Hlag]|]. intros pte Hpte.
  assert (Hfin : forall l1 f, mem_kept l l1 -> left_by l l1 -> lv l1 (Pg g) = Resident f -> ~ no_frame l g ->
    Runs (step* pte := op (pte_get_entry (Some c) g) in Done (0, Some (PAGING_FPN pte))) l1 (fun r l' =>
      mem_kept l l' /\ left_by l l' /\
      ((exists f, r = (0, Some f) /\ lv l' (Pg g) = Resident f /\ ~ no_frame l g) \/ r = (-1, None) /\ no_frame l g))).
  { intros l1 f Hm Hi1 Hf Hnn. eapply run_read; [apply (does_pte_get l1 g); [done|]; by destruct Hi1 as [[-> _] _ _ _]|]. intros pte1 Hp1.
    apply run_done. split; [done|]. split; [done|]. left. exists f. split; [|done]. rewrite Hf in Hp1. by destruct (view_Resident _ _ Hp1) as [-> _]. }
  destruct (PAGING_PAGE_PRESENT pte) eqn:Hpr; cbn [negb pbind].
  { apply present_view in Hpr. apply (Hfin l (PAGING_FPN pte)); [done|by apply left_refl|by rewrite <- Hpr|].
    intros [_ Hn]. by apply (Hn (PAGING_FPN pte)); rewrite <- Hpr. }
  assert (Hnr : forall f, lv l (Pg g) <> Resident f) by (rewrite <- Hpte; by apply absent_view).
  eapply (run_bind _ _ _ (fun ok l1 => mem_kept l l1 /\ left_by l l1 /\
            if ok : bool then (exists f, lv l1 (Pg g) = Resident f) /\ ~ starved l else starved l)).
  - apply run_krnl_of. eapply run_bind; [by apply run_get_ram|]. intros free l1 H1.
    eapply (run_bind _ _ _ (fun r l2 => mem_kept l l2 /\ l_lag l2 = None /\ lv l2 Slot = Absent /\ (l_token l <= S (l_token l2))%nat /\
       match r with None => l2 = l /\ starved l | Some f => ~ starved l /\ lv l2 Hand = Resident f /\ lv l2 (Pg g) = lv l (Pg g) end)).
    + destruct free as [f|].
      * destruct H1 as [Hroomy [b ->]]. apply run_done. split_and!; unfold spent; places; [|cbn; lia|by intros [? _]; congruence].
        intros h o b' Ho Hb. places.
      * destruct H1 as [-> Hroomy]. eapply runs_mono; [by apply run_evict|]. intros r l2 (H1 & H2 & H3 & H4 & H5). split_and!; auto.
        destruct r; [|by destruct H5 as [-> ?]]. destruct H5 as (? & ? & H5). split_and!; [by intros [_ ?]|done|auto].
    + intros [f|] l2 (H1' & H2 & H3 & H4 & H5).
      * destruct H5 as (Hst & H5 & H6). eapply run_bind; [apply (run_page_in l2 g pte f); try done; by rewrite H6|].
        intros [] l3 (G1 & G2 & G3 & G4 & G5). apply run_done. split; [by eapply mem_kept_trans|]. split; [|eauto].
        split; [done|lia|done|done].
      * destruct H5 as [-> H5]. apply run_done. split; [done|]. split; [by apply left_refl|done].
  - intros [|] l1 (H1 & H2 & H3); cbn [negb].
    + destruct H3 as [[f Hf] Hst]. apply (Hfin l1 f); try done. by intros [? _].
    + apply run_done. split; [done|]. split; [done|]. by right.
Qed.

(** ** Accesses *)

Context (m0 : mm_struct).
Hypothesis Hc0 : caller_ok c (w_sys w0) m0.

Lemma does_region l rgid off rg :
  in_region m0 rgid off rg -> Does (region_addr (p_mm c) rgid off) l (fun r l' => l' = l /\ r = Some (rg_start rg + off)).
Proof.
  intros Hin. apply does_read. intros w Hi Hkn. destruct (env_same_caller _ _ _ _ (so_env _ Hi) Hc0) as (m & Hc & Hm).
  eapply (region_addr_in c m); [done|unfold in_region in *; by rewrite (forget_vm_symrgtbl _ _ Hm)|done].
Qed.

Lemma run_phyaddr {A} l a f o (k : Z -> prog sys A) Q :
  lv l a = Resident f -> 0 <= o < PAGING64_PAGESZ ->
  (0 <= f * PAGING64_PAGESZ + o < 2 ^ 25 -> Runs (k (f * PAGING64_PAGESZ + o)) l Q) ->
  Runs (pbind (op (phyaddr_of f o)) k) l Q.
Proof.
  intros Ha Ho Hr.
  apply (run_read _ _ _ (fun x => x = f * PAGING64_PAGESZ + o /\ 0 <= f * PAGING64_PAGESZ + o < 2 ^ 25)); [|intros x [-> H0]; by apply Hr].
  apply does_read. intros w Hi Hkn. pose proof (so_core _ Hi) as Hc. pose proof (owned l w a Hc Hkn) as Hown.
  rewrite Ha in Hown. destruct Hown as [_ Hfit]. destruct (mi_rok _ _ _ (co_machine _ Hc)) as [_ Hlen].
  eapply wp_phyaddr; [done|done|done|]. unfold fits, PAGING64_PAGESZ in *. split; [done|]. split; [done|lia].
Qed.

(** [SYSMEM_IO_READ] of a byte of a resident page. *)
Lemma run_io_read l a f o :
  lv l a = Resident f -> 0 <= o < PAGING64_PAGESZ -> 0 <= f * PAGING64_PAGESZ + o < 2 ^ 25 ->
  Runs (__sys_memmap_p (p_krnl c) (pid c) (mk_regs SYSMEM_IO_READ (u64 (f * PAGING64_PAGESZ + o)) None)) l
       (fun _ l' => l' = l).
Proof.
  intros Ha Ho Hphy. apply run_memmap. unfold memmap_op_p. cbn [a1 a2 a3]. cbv zeta.
  change (i32 SYSMEM_IO_READ) with SYSMEM_IO_READ. cbn [Z.eqb Pos.eqb SYSMEM_MAP_OP SYSMEM_INC_OP SYSMEM_SWP_OP SYSMEM_IO_READ].
  apply run_deref. rewrite u32_small by (rewrite u64_small; lia).
  eapply run_read; [apply (does_MEMPHY_read l a); [by rewrite Ha|done]|]. intros [r v] _. by apply run_done.
Qed.

Lemma run_io_write l a f o v :
  lv l a = Resident f -> 0 <= o < PAGING64_PAGESZ -> 0 <= f * PAGING64_PAGESZ + o < 2 ^ 25 -> - 2 ^ 7 <= v < 2 ^ 7 ->
  Runs (__sys_memmap_p (p_krnl c) (pid c) (mk_regs SYSMEM_IO_WRITE (u64 (f * PAGING64_PAGESZ + o)) (Some (u64 v)))) l
       (fun _ l' => l' = setb a o v l).
Proof.
  intros Ha Ho Hphy Hv. apply run_memmap. unfold memmap_op_p. cbn [a1 a2 a3]. cbv zeta.
  change (i32 SYSMEM_IO_WRITE) with SYSMEM_IO_WRITE.
  cbn [Z.eqb Pos.eqb SYSMEM_MAP_OP SYSMEM_INC_OP SYSMEM_SWP_OP SYSMEM_IO_READ SYSMEM_IO_WRITE].
  apply run_deref, run_from_opt. rewrite u32_small by (rewrite u64_small; lia).
  replace (i8 (u64 v)) with v by (unfold i8, u64, wrapS, wrapU; lia).
  eapply run_step; [apply (does_write_cell l a); [by rewrite Ha|done]|]. intros r l' [_ ->]. by apply run_done.
Qed.

Lemma page_parts a : 0 <= a < 2 ^ 31 ->
  Z.shiftr a PAGING64_ADDR_PT_SHIFT = a / PAGING64_PAGESZ /\ page_off a = a mod PAGING64_PAGESZ /\
  0 <= a / PAGING64_PAGESZ < 2 ^ 31 /\ 0 <= a mod PAGING64_PAGESZ < PAGING64_PAGESZ.
Proof. intros Ha. rewrite page_of_div, page_off_mod. unfold PAGING64_PAGESZ. split_and!; try done; lia. Qed.

(** The byte of the process at address [a]. *)
Definition lmem (l : lst) (a : Z) : option Z := lb l (Pg (a / PAGING64_PAGESZ)) (a mod PAGING64_PAGESZ).

Lemma lmem_kept l l' a b : mem_kept l l' -> lmem l a = Some b -> lmem l' a = Some b.
Proof. intros Hm. apply Hm. unfold PAGING64_PAGESZ. lia. Qed.

(** The byte at [a] is now [v], the others are as they were. *)
Definition stored (a v : Z) (l l' : lst) : Prop :=
  lmem l' a = Some v /\ forall x b, x <> a -> lmem l x = Some b -> lmem l' x = Some b.

Lemma stored_setb l l1 a v :
  mem_kept l l1 -> stored a v l (setb (Pg (a / PAGING64_PAGESZ)) (a mod PAGING64_PAGESZ) v l1).
Proof.
  intros Hm. unfold stored, lmem. cbn [setb lb]. split; [by rewrite decide_True|]. intros x b Hx Hb.
  rewrite decide_False; [by apply (lmem_kept l)|]. unfold PAGING64_PAGESZ in *. intros [[= E1] E2]. apply Hx. lia.
Qed.

(** What an access to address [a] does, by its result. *)
Definition read_post (l : lst) (a : Z) (r : Z * option Z) (l' : lst) : Prop :=
  left_by l l' /\ mem_kept l l' /\ (r = (0, None) /\ ~ no_frame l (a / PAGING64_PAGESZ) \/ r = (-1, None) /\ no_frame l (a / PAGING64_PAGESZ)).
Definition fetch_post (l : lst) (a : Z) (r : Z * option Z) (l' : lst) : Prop :=
  left_by l l' /\ mem_kept l l' /\
  ((exists b, r = (0, Some b) /\ lmem l' a = Some b) /\ ~ no_frame l (a / PAGING64_PAGESZ) \/
   r = (-1, None) /\ no_frame l (a / PAGING64_PAGESZ)).
Definition write_post (l : lst) (a v r : Z) (l' : lst) : Prop :=
  left_by l l' /\ (r = 0 /\ stored a v l l' /\ ~ no_frame l (a / PAGING64_PAGESZ) \/
                  r = -1 /\ no_frame l (a / PAGING64_PAGESZ) /\ mem_kept l l').

Lemma run_read_p l vmaid rgid off rg :
  idle l -> (0 < l_token l)%nat -> in_region m0 rgid off rg ->
  Runs (__read_p (Some c) vmaid rgid off) l (read_post l (rg_start rg + off)).
Proof.
  intros Hidle Htok Hin. pose proof Hin as (Hid & _ & Hs & Ho & He). unfold __read_p.
  rewrite (proj2 (Z.eqb_neq _ _) Hk), <- orb_assoc, (rgid_guard _ Hid). cbn [orb].
  eapply run_read; [by apply does_region|]. intros ? ->. rewrite i32_small by lia. unfold pg_getval_p. cbv zeta.
  destruct (page_parts (rg_start rg + off)) as (-> & -> & Hg & Hoff); [lia|]. set (a := rg_start rg + off) in *.
  eapply run_bind; [by apply run_getpage|]. intros [r fpn] l1 (Hm & Hi1 & [(f & [= -> ->] & Hf & Hnn)|([= -> ->] & Hn)]); cbn [Z.eqb negb].
  - apply run_from_opt. eapply run_phyaddr; [done..|]. intros Hphy. eapply run_bind; [by eapply run_io_read|].
    intros r l2 ->. apply run_done. split_and!; [done..|]. by left.
  - apply run_done. split_and!; [done..|]. by right.
Qed.

Lemma run_write_p l vmaid rgid off rg v :
  idle l -> (0 < l_token l)%nat -> in_region m0 rgid off rg -> - 2 ^ 7 <= v < 2 ^ 7 ->
  Runs (__write_p (Some c) vmaid rgid off v) l (write_post l (rg_start rg + off) v).
Proof.
  intros Hidle Htok Hin Hv. pose proof Hin as (Hid & _ & Hs & Ho & He). unfold __write_p.
  rewrite (proj2 (Z.eqb_neq _ _) Hk), <- orb_assoc, (rgid_guard _ Hid). cbn [orb].
  eapply run_read; [by apply does_region|]. intros ? ->. rewrite i32_small by lia. unfold pg_setval_p. cbv zeta.
  destruct (page_parts (rg_start rg + off)) as (-> & -> & Hg & Hoff); [lia|]. set (a := rg_start rg + off) in *.
  eapply run_bind; [by apply run_getpage|]. intros [r fpn] l1 (Hm & Hi1 & [(f & [= -> ->] & Hf & Hnn)|([= -> ->] & Hn)]); cbn [Z.eqb negb].
  - apply run_from_opt. eapply run_phyaddr; [done..|]. intros Hphy. eapply run_bind; [by apply (run_io_write l1 (Pg (a / PAGING64_PAGESZ)))|].
    intros r l2 ->. apply run_done. split; [by apply left_setb|]. left. split; [done|]. split; [by apply stored_setb|done].
  - apply run_done. split; [done|]. by right.
Qed.

Lemma run_user_phyaddr l rgid off rg :
  idle l -> (0 < l_token l)%nat -> in_region m0 rgid off rg ->
  let a := rg_start rg + off in
  Runs (user_phyaddr_p (Some c) rgid off) l (fun r l' => left_by l l' /\ mem_kept l l' /\
    ((exists f, r = Some (u64 (f * PAGING64_PAGESZ + a mod PAGING64_PAGESZ)) /\ lv l' (Pg (a / PAGING64_PAGESZ)) = Resident f /\
        ~ no_frame l (a / PAGING64_PAGESZ)) \/
     r = None /\ no_frame l (a / PAGING64_PAGESZ))).
Proof.
  intros Hidle Htok Hin a. pose proof Hin as (Hid & Hrg & Hs & Ho & He). unfold user_phyaddr_p.
  rewrite (proj2 (Z.eqb_neq _ _) Hk), (proj2 (Z.eqb_neq _ _) Hmm), (rgid_guard _ Hid). cbn [orb].
  eapply (run_read _ _ _ (fun x => x = rg)).
  { apply does_read. intros w Hi Hkn. destruct (env_same_caller _ _ _ _ (so_env _ Hi) Hc0) as (m & Hc & Hm).
    eapply (get_symrg_spec c m); [done|by rewrite (forget_vm_symrgtbl _ _ Hm)|done]. }
  intros ? ->. rewrite (u64_small (rg_start rg + off)) by lia. fold a. fold a in He.
  replace ((rg_start rg =? 0) && (rg_end rg =? 0)) with false by lia. replace (rg_end rg <=? a) with false by lia.
  cbv zeta. destruct (page_parts a) as (-> & -> & Hg & Hoff); [lia|]. rewrite i32_small by lia.
  eapply run_bind; [by apply run_getpage|]. intros [r fpn] l1 (Hm & Hi1 & [(f & [= -> ->] & Hf & Hnn)|([= -> ->] & Hn)]); cbn [Z.eqb negb].
  - apply run_from_opt. eapply run_phyaddr; [done..|]. intros Hphy. apply run_done. split_and!; [done..|]. left. by exists f.
  - apply run_done. split_and!; [done..|]. by right.
Qed.

Lemma run_gets_os {A} (f : krnl_t -> prog sys A) l Q : Runs (f K) l Q -> Runs (pbind (op (gets os)) f) l Q.
Proof. intros Hf. apply (run_read _ _ _ (fun k => k = K)); [|by intros k ->]. apply does_const. intros s Ho _. by wp_steps. Qed.

Lemma run_read_user_mem l vmaid rgid off rg :
  idle l -> (0 < l_token l)%nat -> in_region m0 rgid off rg ->
  Runs (__read_user_mem_p (Some c) vmaid rgid off) l (fetch_post l (rg_start rg + off)).
Proof.
  intros Hidle Htok Hin. unfold __read_user_mem_p. eapply run_bind; [by apply run_user_phyaddr|].
  intros phy l1 (Hi1 & Hm & [(f & -> & Hf & Hnn)|(-> & Hn)]); [|apply run_done; split_and!; [done..|]; by right].
  apply run_gets_os. eapply run_read; [apply (does_MEMPHY_read l1 (Pg ((rg_start rg + off) / PAGING64_PAGESZ)))|].
  - by rewrite Hf.
  - unfold PAGING64_PAGESZ. lia.
  - intros [r d] (b & [= -> ->] & Hb). cbn [Z.eqb negb]. apply run_done. split_and!; [done..|]. left. split; [by exists b|done].
Qed.

Lemma run_write_user_mem l vmaid rgid off rg v :
  idle l -> (0 < l_token l)%nat -> in_region m0 rgid off rg ->
  Runs (__write_user_mem_p (Some c) vmaid rgid off v) l (write_post l (rg_start rg + off) v).
Proof.
  intros Hidle Htok Hin. unfold __write_user_mem_p. eapply run_bind; [by apply run_user_phyaddr|].
  intros phy l1 (Hi1 & Hm & [(f & -> & Hf & Hnn)|(-> & Hn)]); [|apply run_done; split; [done|]; by right].
  apply run_gets_os. eapply run_step; [apply (does_write_cell l1 (Pg ((rg_start rg + off) / PAGING64_PAGESZ)))|].
  - by rewrite Hf.
  - unfold PAGING64_PAGESZ. lia.
  - intros r l2 [-> ->]. cbn [Z.eqb negb]. apply run_done. split; [by apply left_setb|]. left. split; [done|]. split; [by apply stored_setb|done].
Qed.

(** *** Programs of accesses *)

(** From [l0] to [l]: where there was no page to evict the pages are the same. *)
Definition same_pages (l0 l : lst) : Prop := forall h, lv l (Pg h) = lv l0 (Pg h).
Definition since (l0 l : lst) : Prop :=
  idle l /\ (queue l = [] -> queue l0 = [] /\ same_pages l0 l) /\ (starved l0 -> queue l = [] /\ same_pages l0 l).

Lemma since_left l0 l l' : since l0 l -> left_by l l' -> since l0 l'.
Proof.
  intros (_ & Hq & Hs) [Hi _ Hq' Hs']. split; [done|]. split.
  - intros E. destruct (Hq' E) as [E1 E2]. destruct (Hq E1) as [E3 E4]. split; [done|]. intros h. by rewrite E2.
  - intros Hst. destruct (Hs Hst) as [E1 E2]. destruct Hs' as [E3 E4]; [by destruct Hst|]. split; [done|]. intros h. by rewrite E4.
Qed.

Lemma since_no_frame l0 l g : since l0 l -> no_frame l g <-> no_frame l0 g.
Proof.
  intros (_ & Hq & Hs). split; intros [Hst Hn].
  - destruct Hst as [Hr E]. destruct (Hq E) as [E1 E2]. split; [done|]. intros f. rewrite <- E2. apply Hn.
  - destruct (Hs Hst) as [E1 E2]. split; [by destruct Hst|]. intros f. rewrite E2. apply Hn.
Qed.

(** The bytes of [mem] are those of the process. *)
Definition holds (mem : Z -> option Z) (l : lst) : Prop := forall a b, mem a = Some b -> lmem l a = Some b.

Lemma holds_kept mem l l' : holds mem l -> mem_kept l l' -> holds mem l'.
Proof. intros Hh Hm a b Hb. by eapply lmem_kept, Hh. Qed.

Lemma holds_put mem l a b : holds mem l -> lmem l a = Some b -> holds (put mem a b) l.
Proof. intros Hh Hb x b'. unfold put. case_decide as E; [intros [= <-]; by subst|apply Hh]. Qed.

Lemma holds_stored mem l l' a v : holds mem l -> stored a v l l' -> holds (put mem a v) l'.
Proof. intros Hh [Ha Hk']. intros x b. unfold put. case_decide as E; [intros [= <-]; by subst|]. intros Hb. by apply Hk', Hh. Qed.

Let addr : access -> Z := access_addr m0.

(** One access, on the reference and by its program. *)
Lemma run_access l0 l mem a :
  since l0 l -> (0 < l_token l)%nat -> holds mem l -> access_ok m0 a ->
  Runs (access_prog c a) l (fun r l' => left_by l l' /\ exists mem1, holds mem1 l' /\
    forall la rs mem', alone addr (fun x => no_frame l0 (x / PAGING64_PAGESZ)) mem1 la rs mem' ->
                       alone addr (fun x => no_frame l0 (x / PAGING64_PAGESZ)) mem (a :: la) (r :: rs) mem').
Proof.
  intros Hs Ht Hh [[rg Hin] Hv]. pose proof Hs as [Hidle _]. assert (Hnf := fun g => since_no_frame l0 l g Hs).
  assert (Haddr : addr a = rg_start rg + (access_at a).2) by (unfold addr, access_addr; by destruct Hin as (_ & -> & _)).
  destruct a as [rgid off|rgid off v|rgid off|rgid off v]; cbn [access_prog access_at fst snd] in *.
  - eapply runs_mono; [by eapply run_read_p|]. intros r l' (Hl & Hm & Hres). rewrite !Hnf, <- !Haddr in Hres. split; [done|]. exists mem.
    split; [by eapply holds_kept|]. intros la rs mem' Hal. by destruct Hres as [[-> Hn]|[-> Hn]]; constructor.
  - eapply run_bind; [by eapply run_write_p|]. intros r l' (Hl & Hres). rewrite !Hnf, <- !Haddr in Hres. apply run_done. split; [done|].
    destruct Hres as [(-> & Hst & Hn)|(-> & Hn & Hm)].
    + exists (put mem (addr (A_write rgid off v)) v). split; [by eapply holds_stored|]. by constructor.
    + exists mem. split; [by eapply holds_kept|]. by constructor.
  - eapply runs_mono; [by eapply run_read_user_mem|]. intros r l' (Hl & Hm & Hres). rewrite !Hnf, <- !Haddr in Hres. split; [done|].
    pose proof (holds_kept _ _ _ Hh Hm) as Hh'. destruct Hres as [[(b & -> & Hb) Hn]|[-> Hn]].
    + exists (put mem (addr (A_fetch rgid off)) b). split; [by apply holds_put|]. constructor; [done| |done].
      intros b' Hb'. apply Hh' in Hb'. congruence.
    + exists mem. split; [done|]. by constructor.
  - eapply run_bind; [by eapply run_write_user_mem|]. intros r l' (Hl & Hres). rewrite !Hnf, <- !Haddr in Hres. apply run_done. split; [done|].
    destruct Hres as [(-> & Hst & Hn)|(-> & Hn & Hm)].
    + exists (put mem (addr (A_store rgid off v)) v). split; [by eapply holds_stored|]. by constructor.
    + exists mem. split; [by eapply holds_kept|]. by constructor.
Qed.

Lemma run_accesses l0 la : forall l mem,
  since l0 l -> (length la <= l_token l)%nat -> holds mem l -> Forall (access_ok m0) la ->
  Runs (accesses_prog c la) l (fun rs l' => idle l' /\ exists mem', holds mem' l' /\
    alone addr (fun x => no_frame l0 (x / PAGING64_PAGESZ)) mem la rs mem').
Proof.
  induction la as [|a la IH]; intros l mem Hs Ht Hh Hok; cbn [accesses_prog length] in *.
  - apply run_done. split; [apply Hs|]. exists mem. split; [done|constructor].
  - apply Forall_cons in Hok as [Ha Hok]. eapply run_bind; [apply (run_access l0 l mem a); [done|lia|done..]|].
    intros r l1 (Hl & mem1 & Hh1 & Hstep). pose proof (lf_token _ _ Hl).
    eapply run_bind; [apply (IH l1 mem1); [by eapply since_left|lia|done..]|].
    intros rs l2 (Hi & mem' & Hh2 & Hal). apply run_done. split; [done|]. exists mem'. auto.
Qed.
End Thread.
End World.

(** ** The threads together *)

(** A process and the accesses it makes, one after the other. *)
Record job := mk_job { j_proc : pcb_t; j_accesses : list access }.

Definition space (j : job) : Z := p_mm (j_proc j).
Definition job_prog (j : job) : prog sys (list (Z * option Z)) := accesses_prog (j_proc j) (j_accesses j).
Definition job_ok (s : sys) (j : job) : Prop :=
  exists m, caller_ok (j_proc j) s m /\ registered (j_proc j) s /\ Forall (access_ok m) (j_accesses j).
Definition all_accesses (jobs : list job) : nat := sum_list_with (fun j => length (j_accesses j)) jobs.

(** The same accesses by the functions of [LibMem], not interrupted. *)
Definition do_access (c : pcb_t) (a : access) : M sys (Z * option Z) :=
  match a with
  | A_read rgid off => __read (Some c) 0 rgid off
  | A_write rgid off v => let* r := __write (Some c) 0 rgid off v in ret (r, None)
  | A_fetch rgid off => __read_user_mem (Some c) 0 rgid off
  | A_store rgid off v => let* r := __write_user_mem (Some c) 0 rgid off v in ret (r, None)
  end.
Fixpoint do_accesses (c : pcb_t) (l : list access) : M sys (list (Z * option Z)) :=
  match l with [] => ret [] | a :: l => let* r := do_access c a in let* rs := do_accesses c l in ret (r :: rs) end.
Fixpoint do_jobs (jobs : list job) : M sys (list (list (Z * option Z))) :=
  match jobs with
  | [] => ret []
  | j :: jobs => let* r := do_accesses (j_proc j) (j_accesses j) in let* rs := do_jobs jobs in ret (r :: rs)
  end.

Lemma whole_access c a s : whole (access_prog c a) s = do_access c a s.
Proof.
  destruct a; cbn [access_prog do_access]; [apply whole_read| |apply whole_read_user_mem|];
    apply whole_seq; try done; intros; [apply whole_write|apply whole_write_user_mem].
Qed.

Lemma whole_accesses c l s : whole (accesses_prog c l) s = do_accesses c l s.
Proof.
  revert s. induction l as [|a l IH]; intros s; [done|]. cbn [accesses_prog do_accesses].
  apply whole_seq; [apply whole_access|]. intros r s1. by apply whole_seq.
Qed.

(** Among the interleavings is the one that runs a job after the other. *)
Lemma serial_from jobs : forall ds s rs s', do_jobs jobs s = Ok (rs, s') ->
  exists sched, pool_exec sched (ds ++ (job_prog <$> jobs), s) = Some (Ok (ds ++ (Done <$> rs), s')).
Proof.
  induction jobs as [|j jobs IH]; intros ds s rs s' Hj; cbn [do_jobs] in Hj.
  - injection Hj as <- <-. by exists [].
  - unfold bind in Hj. destruct (do_accesses _ _ s) as [[r s1]| |] eqn:Hr; try done.
    destruct (do_jobs jobs s1) as [[rs1 s2]| |] eqn:Hrs; try done. injection Hj as <- <-.
    destruct (pool_exec_whole (job_prog j) (length ds) (ds ++ (job_prog <$> j :: jobs)) s r s1) as [n Hn].
    + by rewrite lookup_app_r, Nat.sub_diag by lia.
    + by rewrite <- Hr, <- whole_accesses.
    + destruct (IH (ds ++ [Done r]) s1 rs1 s2 Hrs) as [sched Hs]. exists (replicate n (length ds) ++ sched).
      rewrite pool_exec_app, Hn. rewrite insert_app_r_alt, Nat.sub_diag by lia. simpl. by rewrite <- !app_assoc in Hs.
Qed.

Lemma serial_schedule jobs s rs s' : do_jobs jobs s = Ok (rs, s') ->
  exists sched, pool_exec sched (job_prog <$> jobs, s) = Some (Ok (Done <$> rs, s')).
Proof. by apply (serial_from jobs []). Qed.

Section Jobs.
Context (s : sys) (rd sd : memphy_struct) (jobs : list job) (roomy : bool).
Hypothesis Hinv : mem_inv s rd sd.
Hypothesis Hrd : all_fit rd.
Hypothesis Hsd : all_fit sd.
Hypothesis Hjobs : Forall (job_ok s) jobs.
Hypothesis Hnd : NoDup (space <$> jobs).
Hypothesis Hroom : if roomy then (all_accesses jobs <= length (free_fp_list rd))%nat
                   else free_fp_list rd = [] /\ (all_accesses jobs <= length (free_fp_list sd))%nat.

(** An address space that does not exist. *)
Let H : Z := fresh (dom (mms s)).
Let ps : list Z := space <$> jobs.
(** A token for each access. *)
Definition tokens0 (q : Z) : nat :=
  default 0%nat ((list_to_map ((fun j => (space j, length (j_accesses j))) <$> jobs) : gmap Z nat) !! q).
Let w0 : world := mk_world s (view_of s) (fun _ => None) rd sd tokens0.
Let P (w : world) : Prop := shared_ok (os s) H ps roomy w0 w.

Lemma no_space : mms s !! H = None.
Proof. apply not_elem_of_dom, is_fresh. Qed.

Lemma no_view s' h : mms s' !! H = None -> view_of s' H h = Absent.
Proof. intros HH. unfold view_of, pte_of, pte_slot. by rewrite HH. Qed.

Lemma tokens0_job j : j ∈ jobs -> tokens0 (space j) = length (j_accesses j).
Proof.
  intros Hj. unfold tokens0. erewrite elem_of_list_to_map_1; [done| |by apply list_elem_of_fmap; exists j].
  rewrite <- list_fmap_compose. exact Hnd.
Qed.

Lemma tokens0_all : sum_list_with tokens0 ps = all_accesses jobs.
Proof.
  unfold ps, all_accesses. assert (Hin : forall j, j ∈ jobs -> tokens0 (space j) = length (j_accesses j)) by apply tokens0_job.
  revert Hin. generalize jobs as l. induction l as [|j l IH]; intros Hin; [done|]. cbn [fmap list_fmap sum_list_with].
  rewrite Hin by (by left). f_equal. apply IH. intros j' Hj'. apply Hin. by right.
Qed.

Lemma start_shared : P w0.
Proof.
  split; [|done|intros q _ _; reflexivity|done]. destruct Hinv. split; try done; [apply no_space|..].
  - intros h Hh. destruct Hh. apply no_view, no_space.
  - unfold enough, tokens. cbn [w_token w0]. rewrite tokens0_all. exact Hroom.
Qed.

(** What the thread of a job knows at the start. *)
Definition l0 (j : job) : lst :=
  mk_lst (pv H (view_of s) (space j)) (fun a o => bytes w0 (pv H (view_of s) (space j) a) o) None
         (default [] (fifo_of s (space j))) (length (j_accesses j)).

Lemma start_knows j : j ∈ jobs -> job_ok s j -> knows H (j_proc j) (l0 j) w0.
Proof.
  intros Hj (m & Hc & Hr & _). split; try done.
  - unfold l0; cbn [queue w_sys w0]. unfold space, fifo_of. by rewrite (co_desc _ _ _ Hc).
  - by apply tokens0_job.
Qed.

Lemma start_idle j : idle (l0 j).
Proof. split_and!; [done|apply no_view, no_space..]. Qed.

(** An access of process [p] to address [a] fails: RAM is full, the process
    has no page to evict, and the page is not in RAM. *)
Definition must_fail (p a : Z) : Prop :=
  free_fp_list rd = [] /\ fifo_of s p = Some [] /\ forall f, view_of s p (a / PAGING64_PAGESZ) <> Resident f.

Definition as_alone (j : job) (rs : list (Z * option Z)) (mem' : Z -> option Z) : Prop :=
  exists m, mms s !! space j = Some m /\
    alone (access_addr m) (must_fail (space j)) (ubyte s rd sd (space j)) (j_accesses j) rs mem'.

Definition job_post (j : job) (rs : list (Z * option Z)) (l : lst) : Prop :=
  idle l /\ exists mem', holds mem' l /\ as_alone j rs mem'.

Lemma some_access j a : j ∈ jobs -> a ∈ j_accesses j -> (0 < all_accesses jobs)%nat.
Proof.
  clear. intros Hj Ha. unfold all_accesses. apply list_elem_of_split in Hj as (l1 & l2 & ->). rewrite sum_list_with_app. simpl.
  destruct (j_accesses j); [by apply not_elem_of_nil in Ha|]. simpl. lia.
Qed.

Lemma job_runs j : j ∈ jobs -> job_ok s j ->
  runs w_sys P (kept_for H (space j)) (kept_others H (space j)) (knows H (j_proc j)) (job_prog j) (l0 j) (job_post j).
Proof.
  intros Hj (m & Hc & Hr & Ha). pose proof Hc as [Hk Hp Hm].
  assert (Hps : p_mm (j_proc j) ∈ ps) by (apply list_elem_of_fmap; by exists j).
  eapply runs_mono; [apply (run_accesses (os s) H ps roomy w0 (j_proc j) Hk Hp Hps m Hc (l0 j) (j_accesses j) (l0 j) (ubyte s rd sd (space j)))|].
  - split; [apply start_idle|]. by split; [|intros [_ ?]].
  - done.
  - intros a b Hb. exact Hb.
  - exact Ha.
  - intros rs l (Hi & mem' & Hh & Hal). split; [done|]. exists mem'. split; [done|]. exists m. split; [done|].
    eapply alone_iff; [|exact Hal]. intros a Hin. cbv beta. split.
    + intros [[Hro Hq] Hn]. split; [rewrite Hro in Hroom; apply Hroom|]. split; [|exact Hn].
      unfold l0 in Hq; cbn [queue] in Hq. unfold space, fifo_of in *. by rewrite Hm in *; simpl in *; rewrite Hq.
    + intros (Hfr & Hq & Hn). split; [|exact Hn]. split.
      * destruct roomy; [|done]. pose proof (some_access j a Hj Hin). rewrite Hfr in Hroom. simpl in Hroom. lia.
      * unfold l0; cbn [queue]. by rewrite Hq.
Qed.

Definition space_of (i : nat) : Z := from_option space 0 (jobs !! i).

Lemma space_of_in i : (i < length jobs)%nat -> exists j, jobs !! i = Some j /\ space_of i = space j.
Proof.
  intros Hi. destruct (lookup_lt_is_Some_2 jobs i Hi) as [j Hj]. exists j. split; [done|]. unfold space_of. by rewrite Hj.
Qed.

Lemma job_at i j : jobs !! i = Some j -> j ∈ jobs /\ job_ok s j.
Proof. intros Hi. split; [by eapply list_elem_of_lookup_2|]. rewrite Forall_lookup in Hjobs. by eapply Hjobs. Qed.

Lemma space_not_fresh i : (i < length jobs)%nat -> space_of i <> H.
Proof.
  intros Hi Heq. destruct (space_of_in i Hi) as (j & Hj & Hs). destruct (job_at i j Hj) as [_ (m & Hc & _)].
  pose proof (co_desc _ _ _ Hc) as Hm. fold (space j) in Hm. rewrite <- Hs, Heq, no_space in Hm. done.
Qed.

(** The result of thread [i]. *)
Definition thread_post (i : nat) (r : list (Z * option Z)) (w : world) : Prop :=
  forall j, jobs !! i = Some j -> exists l, knows H (j_proc j) l w /\ job_post j r l.

Definition threads_ok : list (prog sys (list (Z * option Z))) -> world -> Prop :=
  pool_ok w_sys P (length jobs) (fun i => kept_for H (space_of i)) (fun i => kept_others H (space_of i)) thread_post.

Lemma start_threads : threads_ok (job_prog <$> jobs) w0.
Proof.
  split; [by rewrite length_fmap|]. split; [apply start_shared|]. intros i p Hp.
  rewrite list_lookup_fmap in Hp. destruct (jobs !! i) as [j|] eqn:Hj; [|done]. injection Hp as <-.
  destruct (job_at i j Hj) as [Hin Hok]. unfold space_of. rewrite Hj. simpl. eapply rg_mono.
  - apply (job_runs j Hin Hok); [apply start_shared|by apply start_knows].
  - intros r w' _ (l & Hkn & Hpost) j' Hj'. rewrite Hj in Hj'. injection Hj' as <-. by exists l.
Qed.

Lemma threads_apart i j w w' :
  (i < length jobs)%nat -> (j < length jobs)%nat -> i <> j ->
  kept_others H (space_of i) w w' -> kept_for H (space_of j) w w'.
Proof.
  intros Hi Hj Hij Hk. apply Hk; [|by apply space_not_fresh].
  destruct (space_of_in i Hi) as (a & Ha & ->), (space_of_in j Hj) as (b & Hb & ->). intros Heq. apply Hij.
  eapply (NoDup_lookup (space <$> jobs)); [done|by rewrite list_lookup_fmap, Ha|by rewrite list_lookup_fmap, Hb; simpl; rewrite Heq].
Qed.

(** When all threads have returned, the views are those of the entries. *)
Section End_.
Context (w : world) (rs : list (list (Z * option Z))).
Hypothesis Hok : threads_ok (Done <$> rs) w.

Lemma end_thread_post i j : jobs !! i = Some j -> exists r l, rs !! i = Some r /\ knows H (j_proc j) l w /\ job_post j r l.
Proof.
  intros Hj. destruct (lookup_lt_is_Some_2 rs i) as [r Hr].
  { destruct Hok as [Hlen _]. rewrite length_fmap in Hlen. rewrite Hlen. by eapply lookup_lt_Some. }
  assert (Hpost : thread_post i r w).
  { apply (pool_ok_done w_sys P (length jobs) _ _ thread_post (fun i => kept_for_pre H (space_of i)) (Done <$> rs) w i r Hok).
    by rewrite list_lookup_fmap, Hr. }
  destruct (Hpost j Hj) as (l & Hkn & Hp). by exists r, l.
Qed.

Lemma end_shared : P w.
Proof. by destruct Hok as (_ & ? & _). Qed.

Lemma end_view q h : view_of (w_sys w) q h = w_view w q h.
Proof.
  pose proof end_shared as [Hc Ha Hs _]. destruct (decide (q = H)) as [->|HH].
  - rewrite no_view by apply Hc. destruct (w_view w H h) eqn:Hv; [done| |]; exfalso;
      (assert (Hin : h / 2 ∈ ps) by (apply (co_ghost _ _ _ _ _ Hc); congruence));
      apply list_elem_of_fmap in Hin as (j & Hq & Hj); apply list_elem_of_lookup in Hj as [i Hj];
      destruct (end_thread_post i j Hj) as (r & l & _ & Hkn & (_ & Hh & Hsl) & _);
      pose proof (kn_view _ _ _ _ Hkn Hand) as E1; pose proof (kn_view _ _ _ _ Hkn Slot) as E2;
      unfold pv in E1, E2; cbn [loc fst snd] in E1, E2; rewrite Hh in E1; rewrite Hsl in E2; fold (space j) in E1, E2;
      assert (h = 2 * space j \/ h = 2 * space j + 1) as [-> | ->] by lia; congruence.
  - apply Ha; [done|]. assert (w_lag w q = None) as ->; [|done].
    destruct (decide (q ∈ ps)) as [Hq|Hq].
    + apply list_elem_of_fmap in Hq as (j & -> & Hj). apply list_elem_of_lookup in Hj as [i Hj].
      destruct (end_thread_post i j Hj) as (r & l & _ & Hkn & (Hl & _) & _). rewrite <- Hl. apply Hkn.
    + by apply (kf_lag _ _ _ _ (Hs q Hq HH)).
Qed.

Lemma end_inv : mem_inv (w_sys w) (w_ram w) (w_swap w) /\ all_fit (w_ram w) /\ all_fit (w_swap w) /\ env_same s (w_sys w).
Proof.
  pose proof end_shared as [Hc _ _ He]. split; [|split; [apply Hc|split; [apply Hc|exact He]]]. split; [apply Hc|].
  eapply vm_inv_ext; [exact end_view|done|apply Hc].
Qed.

(** The bytes of a process with a thread are those its thread knows. *)
Lemma end_byte j l a : knows H (j_proc j) l w -> 
  ubyte (w_sys w) (w_ram w) (w_swap w) (space j) a = lmem l a.
Proof.
  intros Hkn. unfold ubyte, lmem. rewrite end_view. rewrite <- (kn_bytes _ _ _ _ Hkn) by (unfold PAGING64_PAGESZ; lia).
  by rewrite <- (kn_view _ _ _ _ Hkn).
Qed.

Lemma end_kept q a b : q ∉ ps -> ubyte s rd sd q a = Some b -> ubyte (w_sys w) (w_ram w) (w_swap w) q a = Some b.
Proof.
  intros Hq Hb. destruct (decide (q = H)) as [->|HH].
  { unfold ubyte in Hb. by rewrite (no_view s _ no_space) in Hb. }
  assert (Ho : 0 <= a mod PAGING64_PAGESZ < PAGING64_PAGESZ) by (unfold PAGING64_PAGESZ; lia).
  pose proof (so_aside _ _ _ _ _ _ end_shared q Hq HH) as Haside. unfold ubyte in *. rewrite end_view.
  pose proof (kf_view _ _ _ _ Haside (Pg (a / PAGING64_PAGESZ))) as Hv. unfold pv in Hv. simpl in Hv. rewrite Hv, <- Hb.
  by apply (kf_bytes _ _ _ _ Haside (Pg (a / PAGING64_PAGESZ))).
Qed.

End End_.
End Jobs.

(** C4 (refinement): parallel accesses are as good as private ones.  Any
    number of processes, each on a CPU of its own, run programs of [__read],
    [__write], [__read_user_mem] and [__write_user_mem] at offsets within
    regions below 2 GiB; no lock orders their steps, and [MEMPHY_get_freefp] is a test and a locked part.  On devices
    formatted for paging, any part of memory in RAM or swap, with a free frame
    of RAM for each access, or RAM full and a slot of swap for each (else
    [Race.empty_test_races] can happen): no interleaving reaches undefined
    behaviour; the steps of a thread are bounded, and from every state reached
    all can return; when all have, the paging invariant holds, each process
    has the results and the bytes it has alone on an array of bytes - an
    access fails exactly if RAM was full, the page not in it, and the process
    had no page to give up -, and all other processes have their bytes. *)
Theorem parallel_accesses s rd sd jobs sched o :
  mem_inv s rd sd -> all_fit rd -> all_fit sd -> Forall (job_ok s) jobs -> NoDup (space <$> jobs) ->
  (all_accesses jobs <= length (free_fp_list rd))%nat \/
  free_fp_list rd = [] /\ (all_accesses jobs <= length (free_fp_list sd))%nat ->
  pool_exec sched (job_prog <$> jobs, s) = Some o ->
  exists ps s', o = Ok (ps, s') /\
    (forall i j, jobs !! i = Some j ->
       (count_occ Nat.eq_dec sched i <= length (j_accesses j) * (2 * page_steps + 28))%nat) /\
    (exists sched' rs s'', pool_exec sched' (ps, s') = Some (Ok (Done <$> rs, s''))) /\
    forall rs, ps = Done <$> rs -> exists rd' sd',
      mem_inv s' rd' sd' /\ all_fit rd' /\ all_fit sd' /\ env_same s s' /\
      (forall i j, jobs !! i = Some j -> exists r mem', rs !! i = Some r /\ as_alone s rd sd j r mem' /\
         forall a b, mem' a = Some b -> ubyte s' rd' sd' (space j) a = Some b) /\
      forall q a b, q ∉ space <$> jobs -> ubyte s rd sd q a = Some b -> ubyte s' rd' sd' q a = Some b.
Proof.
  intros Hinv Hrd Hsd Hjobs Hnd Hfree Hex.
  assert (exists roomy : bool, if roomy then (all_accesses jobs <= length (free_fp_list rd))%nat
    else free_fp_list rd = [] /\ (all_accesses jobs <= length (free_fp_list sd))%nat) as [roomy Hroom].
  { destruct Hfree; [by exists true|by exists false]. }
  pose proof (start_threads s rd sd jobs roomy Hinv Hrd Hsd Hjobs Hnd Hroom) as Hst.
  pose proof (threads_apart s jobs Hjobs Hnd) as Hap. pose proof Hex as Hrun.
  change s with (w_sys (mk_world s (view_of s) (fun _ => None) rd sd (tokens0 jobs))) in Hrun.
  eapply exec_sound in Hrun as (ps & w & -> & Hok); [|intros i; apply kept_for_pre|exact Hap|exact Hst].
  exists ps, (w_sys w). split; [done|]. split_and!.
  - intros i j Hj. eapply (pool_exec_within sched _ _ _ _ i (job_prog j)) in Hex as (_ & _ & Hn & _); [exact Hn|by rewrite list_lookup_fmap, Hj|].
    apply accesses_within.
  - destruct (all_return w_sys _ _ _ _ _ (fun i => kept_for_pre _ (space_of jobs i)) Hap ps w Hok) as (sched' & ps' & w' & Hl & _ & Hd).
    apply returned_all in Hd as [rs ->]. by exists sched', rs, (w_sys w').
  - intros rs ->. exists (w_ram w), (w_swap w).
    destruct (end_inv s rd sd jobs roomy w rs Hok) as (H1 & H2 & H3 & H4). split_and!; try done.
    + intros i j Hj. destruct (end_thread_post s rd sd jobs roomy w rs Hok i j Hj) as (r & l & Hr & Hkn & _ & mem' & Hh & Hal).
      exists r, mem'. split_and!; [done..|]. intros a b Hb. rewrite (end_byte s rd sd jobs roomy w rs Hok j l _ Hkn). by apply Hh.
    + intros q a b. by apply (end_kept s rd sd jobs roomy w rs Hok).
Qed.
