(* ===== verification/Kept.v ===== *)
(** * What the memory subsystem leaves alone

    Every operation of the memory subsystem, on every state and every path,
    keeps the kernel object and, of every process, all but its registers. *)

From S2P Require Import Prelude Pte MemPhy Kernel PageTable Mm64 MmVm Syscall LibMem Kmem.

Definition forget_regs (c : pcb_t) : pcb_t := set_regs [] c.

Record kept (s s' : sys) : Prop := {
  kp_os : os s' = os s;
  kp_procs p : forget_regs <$> (procs s' !! p) = forget_regs <$> (procs s !! p);
}.

#[export] Instance kept_preorder : PreOrder kept.
Proof. split; [intros s; by split|]. intros s1 s2 s3 [] []. split; congruence. Qed.

(** A step that leaves the kernel object and the processes alone. *)
Lemma kept_same s s' : os s' = os s -> procs s' = procs s -> kept s s'.
Proof. intros Ho Hp. split; [done|]. by rewrite Hp. Qed.

Lemma kept_modify f : (forall s, os (f s) = os s) -> (forall s, procs (f s) = procs s) -> preserves kept (modify f).
Proof. intros Ho Hp. apply preserves_modify. intros s. by apply kept_same. Qed.

Lemma kept_malloc : preserves kept (malloc (S := sys)).
Proof. intros s b s' H. unfold malloc in H. destruct (host s); simplify_eq; [reflexivity|by apply kept_same]. Qed.
#[export] Hint Resolve kept_malloc : preserves.

Lemma kept_malloc_unchecked : preserves kept (malloc_unchecked (S := sys)).
Proof. unfold malloc_unchecked. solve_preserves. Qed.

Lemma kept_upd_mm p f : preserves kept (upd_mm p f).
Proof. unfold upd_mm, get_mm. solve_preserves. by apply kept_modify. Qed.

Lemma kept_on_dev {A} p (m : M memphy_struct A) : preserves kept (on_dev p m).
Proof.
  intros s a s' H. unfold on_dev, zoom in H. destruct (devs s !! p) as [d|]; [|done].
  destruct (m d) as [[x d']| |]; simplify_eq. by apply kept_same.
Qed.
#[export] Hint Resolve kept_malloc_unchecked kept_upd_mm kept_on_dev : preserves.

Lemma kept_calloc_table : preserves kept calloc_table.
Proof. unfold calloc_table. solve_preserves. by apply kept_modify. Qed.
Lemma kept_get_mm p : preserves kept (get_mm p).
Proof. unfold get_mm. solve_preserves. Qed.
Lemma kept_get_pcb p : preserves kept (get_pcb p).
Proof. unfold get_pcb. solve_preserves. Qed.
Lemma kept_tbl_get a i : preserves kept (tbl_get a i).
Proof. unfold tbl_get. solve_preserves. Qed.
Lemma kept_tbl_put a i v : preserves kept (tbl_put a i v).
Proof. unfold tbl_put. solve_preserves. by apply kept_modify. Qed.
#[export] Hint Resolve kept_calloc_table kept_get_mm kept_get_pcb kept_tbl_get kept_tbl_put : preserves.

(** ** Page tables and mappings *)
Lemma kept_count mm f : preserves kept (count mm f).
Proof. unfold count. solve_preserves. Qed.
Lemma kept_krnl_of c : preserves kept (krnl_of c).
Proof. unfold krnl_of. solve_preserves. Qed.
Lemma kept_MEMPHY_read mp a : preserves kept (MEMPHY_read mp a).
Proof. unfold MEMPHY_read. solve_preserves. Qed.
Lemma kept_MEMPHY_write mp a v : preserves kept (MEMPHY_write mp a v).
Proof. unfold MEMPHY_write. solve_preserves. Qed.
Lemma kept_MEMPHY_get_freefp mp : preserves kept (MEMPHY_get_freefp mp).
Proof. unfold MEMPHY_get_freefp. solve_preserves. Qed.
Lemma kept_MEMPHY_put_freefp mp f : preserves kept (MEMPHY_put_freefp mp f).
Proof. unfold MEMPHY_put_freefp. solve_preserves. Qed.
Lemma kept_pte_load x : preserves kept (pte_load x).
Proof. unfold pte_load. solve_preserves. Qed.
Lemma kept_pte_store x v : preserves kept (pte_store x v).
Proof. unfold pte_store. solve_preserves. Qed.
Lemma kept_init_vm_rg a b : preserves kept (init_vm_rg a b).
Proof. unfold init_vm_rg. solve_preserves. Qed.
#[export] Hint Resolve kept_count kept_krnl_of kept_MEMPHY_read kept_MEMPHY_write kept_MEMPHY_get_freefp kept_MEMPHY_put_freefp kept_pte_load kept_pte_store kept_init_vm_rg : preserves.

Lemma kept_alloc_pgtbl_level mm : preserves kept (alloc_pgtbl_level mm).
Proof. unfold alloc_pgtbl_level. solve_preserves. Qed.
#[export] Hint Resolve kept_alloc_pgtbl_level : preserves.

Lemma kept_pte_level mm t i al : preserves kept (pte_level mm t i al).
Proof. unfold pte_level. solve_preserves. Qed.
#[export] Hint Resolve kept_pte_level : preserves.

Lemma kept_get_pte_ptr c g al : preserves kept (get_pte_ptr c g al).
Proof. unfold get_pte_ptr. solve_preserves. Qed.
#[export] Hint Resolve kept_get_pte_ptr : preserves.

Lemma kept_pte_set_swap c g t o : preserves kept (pte_set_swap c g t o).
Proof. unfold pte_set_swap. solve_preserves. Qed.
Lemma kept_pte_set_fpn c g f : preserves kept (pte_set_fpn c g f).
Proof. unfold pte_set_fpn. solve_preserves. Qed.
Lemma kept_pte_get_entry c g : preserves kept (pte_get_entry c g).
Proof. unfold pte_get_entry. solve_preserves. Qed.
Lemma kept_enlist_pgn_node mm g : preserves kept (enlist_pgn_node mm g).
Proof. unfold enlist_pgn_node. solve_preserves. Qed.
Lemma kept_pgd_memset_loop c a n : preserves kept (pgd_memset_loop c a n).
Proof. revert a. induction n as [|n IH]; intros; cbn [pgd_memset_loop]; solve_preserves. Qed.
Lemma kept_cp_page_loop a b c d i n : preserves kept (cp_page_loop a b c d i n).
Proof. revert i. induction n as [|n IH]; intros; cbn [cp_page_loop]; solve_preserves. Qed.
Lemma kept_put_frames r l : preserves kept (put_frames r l).
Proof. revert r. induction l as [|x l IH]; intros; cbn [put_frames]; solve_preserves. Qed.
Lemma kept_get_frames r n l : preserves kept (get_frames r n l).
Proof. revert l. induction n as [|n IH]; intros; cbn [get_frames]; solve_preserves. Qed.
#[export] Hint Resolve kept_pte_set_swap kept_pte_set_fpn kept_pte_get_entry kept_enlist_pgn_node kept_pgd_memset_loop kept_cp_page_loop kept_put_frames kept_get_frames : preserves.

Lemma kept_vmap_pgd_memset c a n : preserves kept (vmap_pgd_memset c a n).
Proof. unfold vmap_pgd_memset. solve_preserves. Qed.
Lemma kept_swap_cp_page a b c d : preserves kept (__swap_cp_page a b c d).
Proof. unfold __swap_cp_page. solve_preserves. Qed.
Lemma kept_map_pages c a i n l : preserves kept (map_pages c a i n l).
Proof. revert i l. induction n as [|n IH]; intros; cbn [map_pages]; solve_preserves. Qed.
Lemma kept_alloc_pages_range c n l : preserves kept (alloc_pages_range c n l).
Proof. unfold alloc_pages_range. solve_preserves. Qed.
#[export] Hint Resolve kept_vmap_pgd_memset kept_swap_cp_page kept_map_pages kept_alloc_pages_range : preserves.

Lemma kept_vmap_page_range c a n l r : preserves kept (vmap_page_range c a n l r).
Proof. unfold vmap_page_range. solve_preserves. Qed.
#[export] Hint Resolve kept_vmap_page_range : preserves.

Lemma kept_vm_map_ram c a b x n r : preserves kept (vm_map_ram c a b x n r).
Proof. unfold vm_map_ram. solve_preserves. Qed.
#[export] Hint Resolve kept_vm_map_ram : preserves.

(** ** Areas, system calls and regions *)

Lemma kept_get_vma_by_num mm i : preserves kept (get_vma_by_num mm i).
Proof. unfold get_vma_by_num. solve_preserves. Qed.
Lemma kept_get_vma mm i : preserves kept (get_vma mm i).
Proof. unfold get_vma. solve_preserves. Qed.
Lemma kept_upd_vma mm i f : preserves kept (upd_vma mm i f).
Proof. unfold upd_vma. solve_preserves. Qed.
Lemma kept_mm_swap_page c a b : preserves kept (__mm_swap_page c a b).
Proof. unfold __mm_swap_page. solve_preserves. Qed.
Lemma kept_validate_overlap_vm_area c i a b : preserves kept (validate_overlap_vm_area c i a b).
Proof. unfold validate_overlap_vm_area. solve_preserves. Qed.
Lemma kept_deref_krnl k : preserves kept (deref_krnl k).
Proof. unfold deref_krnl. solve_preserves. Qed.
#[export] Hint Resolve kept_get_vma_by_num kept_get_vma kept_upd_vma kept_mm_swap_page kept_validate_overlap_vm_area kept_deref_krnl : preserves.

Lemma kept_inc_vma_limit c i z : preserves kept (inc_vma_limit c i z).
Proof. unfold inc_vma_limit. solve_preserves. Qed.
Lemma kept_get_proc_from_PID k p : preserves kept (get_proc_from_PID k p).
Proof. unfold get_proc_from_PID. solve_preserves. Qed.
#[export] Hint Resolve kept_inc_vma_limit kept_get_proc_from_PID : preserves.

Lemma kept_memmap_op k c r : preserves kept (memmap_op k c r).
Proof. unfold memmap_op. solve_preserves. Qed.
#[export] Hint Resolve kept_memmap_op : preserves.

Lemma kept_syscall k p n r : preserves kept (_syscall k p n r).
Proof. unfold _syscall, __sys_memmap, __sys_listsyscall, __sys_ni_syscall. solve_preserves. Qed.
#[export] Hint Resolve kept_syscall : preserves.

Lemma kept_libsyscall c n x y z : preserves kept (libsyscall c n x y z).
Proof. unfold libsyscall. solve_preserves. Qed.
Lemma kept_get_symrg mm i : preserves kept (get_symrg mm i).
Proof. unfold get_symrg. solve_preserves. Qed.
Lemma kept_upd_symrg mm i f : preserves kept (upd_symrg mm i f).
Proof. unfold upd_symrg. solve_preserves. Qed.
Lemma kept_enlist_vm_freerg_list mm rg : preserves kept (enlist_vm_freerg_list mm rg).
Proof. unfold enlist_vm_freerg_list. solve_preserves. Qed.
Lemma kept_opt_pcb p : preserves kept (opt_pcb p).
Proof. unfold opt_pcb. solve_preserves. Qed.
Lemma kept_get_free_vmrg_area c i z : preserves kept (get_free_vmrg_area c i z).
Proof. unfold get_free_vmrg_area. solve_preserves. Qed.
Lemma kept_find_victim_page mm : preserves kept (find_victim_page mm).
Proof. unfold find_victim_page. solve_preserves. Qed.
#[export] Hint Resolve kept_libsyscall kept_get_symrg kept_upd_symrg kept_enlist_vm_freerg_list kept_opt_pcb kept_get_free_vmrg_area kept_find_victim_page : preserves.

Lemma kept_alloc_at_brk c v r z i : preserves kept (alloc_at_brk c v r z i).
Proof. unfold alloc_at_brk. solve_preserves. Qed.
Lemma kept_evict_page c : preserves kept (evict_page c).
Proof. unfold evict_page. solve_preserves. Qed.
Lemma kept_page_in c g e f : preserves kept (page_in c g e f).
Proof. unfold page_in. solve_preserves. Qed.
Lemma kept_phyaddr_of f o : preserves kept (phyaddr_of f o).
Proof. unfold phyaddr_of. solve_preserves. Qed.
Lemma kept_region_addr mm r o : preserves kept (region_addr mm r o).
Proof. unfold region_addr. solve_preserves. Qed.
#[export] Hint Resolve kept_alloc_at_brk kept_evict_page kept_page_in kept_phyaddr_of kept_region_addr : preserves.

Lemma kept_alloc c v r z : preserves kept (__alloc c v r z).
Proof. unfold __alloc. solve_preserves. Qed.
Lemma kept_free c v r : preserves kept (__free c v r).
Proof. unfold __free. solve_preserves. Qed.
Lemma kept_pg_getpage g c : preserves kept (pg_getpage g c).
Proof. unfold pg_getpage. solve_preserves. Qed.
#[export] Hint Resolve kept_alloc kept_free kept_pg_getpage : preserves.

Lemma kept_pg_getval a c : preserves kept (pg_getval a c).
Proof. unfold pg_getval. solve_preserves. Qed.
Lemma kept_pg_setval a v c : preserves kept (pg_setval a v c).
Proof. unfold pg_setval. solve_preserves. Qed.
Lemma kept_user_phyaddr c r o : preserves kept (user_phyaddr c r o).
Proof. unfold user_phyaddr. solve_preserves. Qed.
#[export] Hint Resolve kept_pg_getval kept_pg_setval kept_user_phyaddr : preserves.

Lemma kept_read c v r o : preserves kept (__read c v r o).
Proof. unfold __read. solve_preserves. Qed.
Lemma kept_write c v r o x : preserves kept (__write c v r o x).
Proof. unfold __write. solve_preserves. Qed.
Lemma kept_read_user_mem c v r o : preserves kept (__read_user_mem c v r o).
Proof. unfold __read_user_mem. solve_preserves. Qed.
Lemma kept_write_user_mem c v r o x : preserves kept (__write_user_mem c v r o x).
Proof. unfold __write_user_mem. solve_preserves. Qed.
#[export] Hint Resolve kept_read kept_write kept_read_user_mem kept_write_user_mem : preserves.

(** Writing a register is the one change to a process. *)
Lemma kept_set_reg p i v : preserves kept (set_reg p i v).
Proof.
  intros s x s' H. unfold set_reg, get_pcb, bind, gets, from_opt, modify in H.
  destruct (procs s !! p) as [c|] eqn:Hc; [|done]. simpl in H. destruct (arr_set (regs c) i v) as [r|]; [|done].
  simpl in H. simplify_eq. split; [done|]. intros q. simpl. rewrite lookup_insert.
  case_decide; [subst; by rewrite Hc|done].
Qed.
#[export] Hint Resolve kept_set_reg : preserves.

Lemma kept_first_table t : preserves kept (first_table t).
Proof. unfold first_table. solve_preserves. Qed.
#[export] Hint Resolve kept_first_table : preserves.
Lemma kept_print_pgtbl c : preserves kept (print_pgtbl c).
Proof. unfold print_pgtbl. solve_preserves. Qed.
#[export] Hint Resolve kept_print_pgtbl : preserves.

Lemma kept_liballoc p z r : preserves kept (liballoc p z r).
Proof. unfold liballoc. solve_preserves. Qed.
Lemma kept_libfree p r : preserves kept (libfree p r).
Proof. unfold libfree. solve_preserves. Qed.
Lemma kept_libread p r o : preserves kept (libread p r o).
Proof. unfold libread. solve_preserves. Qed.
Lemma kept_libwrite p x r o : preserves kept (libwrite p x r o).
Proof. unfold libwrite. solve_preserves. Qed.
#[export] Hint Resolve kept_liballoc kept_libfree kept_libread kept_libwrite : preserves.

(** ** Kernel memory *)

Lemma kept_kmalloc_pages c a i n : preserves kept (kmalloc_pages c a i n).
Proof. revert i. induction n as [|n IH]; intros; cbn [kmalloc_pages]; solve_preserves. Qed.
Lemma kept_get_pool mm i : preserves kept (get_pool mm i).
Proof. unfold get_pool. solve_preserves. Qed.
Lemma kept_put_pool mm i p : preserves kept (put_pool mm i p).
Proof. unfold put_pool. solve_preserves. Qed.
Lemma kept_kernel_phyaddr c r o : preserves kept (kernel_phyaddr c r o).
Proof. unfold kernel_phyaddr. solve_preserves. Qed.
#[export] Hint Resolve kept_kmalloc_pages kept_get_pool kept_put_pool kept_kernel_phyaddr : preserves.

Lemma kept_kmalloc c v r z : preserves kept (__kmalloc c v r z).
Proof. unfold __kmalloc. solve_preserves. Qed.
Lemma kept_kmem_cache_alloc c v r i : preserves kept (__kmem_cache_alloc c v r i).
Proof. unfold __kmem_cache_alloc. solve_preserves. Qed.
Lemma kept_read_kernel_mem c v r o : preserves kept (__read_kernel_mem c v r o).
Proof. unfold __read_kernel_mem. solve_preserves. Qed.
Lemma kept_write_kernel_mem c v r o x : preserves kept (__write_kernel_mem c v r o x).
Proof. unfold __write_kernel_mem. solve_preserves. Qed.
#[export] Hint Resolve kept_kmalloc kept_kmem_cache_alloc kept_read_kernel_mem kept_write_kernel_mem : preserves.

Lemma kept_copy_loop c a b o i n : preserves kept (copy_loop c a b o i n).
Proof. revert i. induction n as [|n IH]; intros; cbn [copy_loop]; solve_preserves. Qed.
#[export] Hint Resolve kept_copy_loop : preserves.

Lemma kept_libkmem_malloc p z r : preserves kept (libkmem_malloc p z r).
Proof. unfold libkmem_malloc. solve_preserves. Qed.
Lemma kept_libkmem_cache_pool_create p z a i : preserves kept (libkmem_cache_pool_create p z a i).
Proof. unfold libkmem_cache_pool_create. solve_preserves. Qed.
Lemma kept_libkmem_cache_alloc p i r : preserves kept (libkmem_cache_alloc p i r).
Proof. unfold libkmem_cache_alloc. solve_preserves. Qed.
Lemma kept_libkmem_copy_to_user p a b o z : preserves kept (libkmem_copy_to_user p a b o z).
Proof. unfold libkmem_copy_to_user. solve_preserves. Qed.
Lemma kept_libkmem_copy_from_user p a b o z : preserves kept (libkmem_copy_from_user p a b o z).
Proof. unfold libkmem_copy_from_user. solve_preserves. Qed.
#[export] Hint Resolve kept_libkmem_malloc kept_libkmem_cache_pool_create kept_libkmem_cache_alloc kept_libkmem_copy_to_user kept_libkmem_copy_from_user : preserves.

