(* ===== verification/Cpu.v ===== *)
(** * Instruction execution: [src/cpu.c] *)

From S2P Require Import Prelude Pte MemPhy Kernel PageTable Mm64 MmVm Syscall LibMem Kmem Kept.

(** [((unsigned long)proc & 0UL)] *)
Definition calc (proc : Z) : Z := i32 (Z.land proc 0).

(** [proc->pc++] on a [uint32_t]. *)
Definition inc_pc (proc : Z) : M sys unit :=
  let* c := get_pcb proc in
  modify (fun s => set_procs (<[proc := set_pc (u32 (pc c + 1)) c]> (procs s)) s).

(** The [switch] of [run].  Arguments are [arg_t], 64 bits, and converted to
    the parameter types; the result of [libread] goes to [ins.arg_2] of the
    local copy of the instruction, which nobody reads. *)
Definition execute (proc : Z) (ins : inst_t) : M sys Z :=
  match opcode ins with
  | CALC => ret (calc proc)
  | ALLOC => liballoc proc (arg_0 ins) (u32 (arg_1 ins))
  | KMALLOC => libkmem_malloc proc (u32 (arg_0 ins)) (u32 (arg_1 ins))
  | KMEM_CACHE_CREATE =>
      libkmem_cache_pool_create proc (u32 (arg_0 ins)) (u32 (arg_1 ins)) (u32 (arg_2 ins))
  | KMEM_CACHE_ALLOC => libkmem_cache_alloc proc (u32 (arg_0 ins)) (u32 (arg_1 ins))
  | COPY_FROM_USER =>
      libkmem_copy_from_user proc (u32 (arg_0 ins)) (u32 (arg_1 ins)) (u32 (arg_2 ins)) (u32 (arg_3 ins))
  | COPY_TO_USER =>
      libkmem_copy_to_user proc (u32 (arg_0 ins)) (u32 (arg_1 ins)) (u32 (arg_2 ins)) (u32 (arg_3 ins))
  | FREE => libfree proc (u32 (arg_0 ins))
  | READ => let* (stat, _) := libread proc (u32 (arg_0 ins)) (arg_1 ins) in ret stat
  | WRITE => libwrite proc (i8 (arg_0 ins)) (u32 (arg_1 ins)) (arg_2 ins)
  | SYSCALL => libsyscall proc (u32 (arg_0 ins)) (arg_1 ins) (arg_2 ins) (arg_3 ins)
  end.

Definition run (proc : Z) : M sys Z :=
  let* c := get_pcb proc in
  if code_size (code c) <=? pc c then ret 1
  else
    let* ins := from_opt (arr_get (text (code c)) (pc c)) in
    inc_pc proc ;;;
    execute proc ins.

