(* ===== verification/Program.v ===== *)
(** * User programs: composing [run] of [src/cpu.c] with the memory subsystem

    The instructions of a user program ([CALC], [ALLOC], [FREE], [READ],
    [WRITE], [KMALLOC], [KMEM_CACHE_CREATE] and [SYSCALL] of a number other
    than 17) keep the invariants of paging and allocation, for the process
    that runs and for all others; so any interleaving of such processes runs
    without undefined behaviour. *)

From S2P Require Import Prelude Pte MemPhy Kernel PageTable Mm64 MmVm Syscall LibMem VMem UserMem Alloc Kmem KmemVm Kept Cpu.

(** ** The invariant of a process *)

(** Process [p] with descriptor [m], whose one area [v] is [e] pages long. *)
Record space_ok (p : Z) (c : pcb_t) (m : mm_struct) (v : vm_area_struct) (e : Z) (s : sys) : Prop := {
  so_ptr : p <> NULL;
  so_pcb : procs s !! p = Some c;
  so_pid : 0 <= pid c < PID_MAX;
  so_table : arr_get (proc_table (os s)) (pid c) = Some p;
  so_nregs : length (regs c) = 10%nat;
  so_caller : caller_ok c s m;
  so_regions : reg_inv m v e;
  so_absent g : e <= g -> view_of s (p_mm c) g = Absent;
  so_kernel : k_mm (os s) <> NULL /\ p_mm c <> k_mm (os s);
}.

(** The paging invariant on devices all of whose frames are backed. *)
Definition mem_ok (s : sys) : Prop :=
  exists rd sd, mem_inv s rd sd /\ all_fit rd /\ all_fit sd.

Lemma so_registered p c m v e s : space_ok p c m v e s -> registered c s.
Proof. intros []. split; [done|]. by exists p. Qed.

(** The byte at address [x] of space [q], in RAM or in swap. *)
Definition byte_of (s : sys) (q x : Z) : option Z :=
  rd ← devs s !! k_mram (os s); sd ← devs s !! k_active_mswp (os s); ubyte s rd sd q x.

Lemma byte_of_inv s rd sd q x : mem_inv s rd sd -> byte_of s q x = ubyte s rd sd q x.
Proof. intros [Hm _]. unfold byte_of. by rewrite (mi_ram _ _ _ Hm), (mi_swap _ _ _ Hm). Qed.

(** What a step of process [p] in space [a] leaves to the other processes;
    the kernel's space may grow. *)
Record apart (p a : Z) (s s' : sys) : Prop := {
  ap_os : os s' = os s;
  ap_procs q : q <> p -> procs s' !! q = procs s !! q;
  ap_mms q : q <> a -> q <> k_mm (os s) -> forget_vm <$> (mms s' !! q) = forget_vm <$> (mms s !! q);
  ap_views q g : q <> a -> q <> k_mm (os s) -> view_of s' q g = view_of s q g;
  ap_bytes q x b : q <> a -> q <> k_mm (os s) -> byte_of s q x = Some b -> byte_of s' q x = Some b;
  ap_kernel : kernel_ok s -> kernel_ok s';
}.

#[export] Instance apart_preorder p a : PreOrder (apart p a).
Proof.
  split; [by split|]. intros s1 s2 s3 H1 H2. pose proof (ap_os _ _ _ _ H1) as Ho. split.
  - by rewrite (ap_os _ _ _ _ H2).
  - intros q Hq. by rewrite (ap_procs _ _ _ _ H2), (ap_procs _ _ _ _ H1).
  - intros q Hq Hk. by rewrite (ap_mms _ _ _ _ H2), (ap_mms _ _ _ _ H1) by (by rewrite ?Ho).
  - intros q g Hq Hk. by rewrite (ap_views _ _ _ _ H2), (ap_views _ _ _ _ H1) by (by rewrite ?Ho).
  - intros q x b Hq Hk Hb. apply (ap_bytes _ _ _ _ H2); [done|by rewrite Ho|]. by apply (ap_bytes _ _ _ _ H1).
  - intros Hk. by apply H2, H1.
Qed.

Lemma space_ok_desc p c m m' v e s s' :
  mms s' !! p_mm c = Some m' -> forget_vm m' = forget_vm m -> os s' = os s -> procs s' !! p = procs s !! p ->
  (forall g, e <= g -> view_of s' (p_mm c) g = Absent) ->
  space_ok p c m v e s -> space_ok p c m' v e s'.
Proof.
  intros Hm' Hf Hos Hp Hab Hs. destruct Hs. split; try done.
  - by rewrite Hp.
  - by rewrite Hos.
  - destruct so_caller0. by split.
  - eapply reg_inv_ext; [| |done]; by injection Hf.
  - by rewrite Hos.
Qed.

(** The other processes stay as they are. *)
Lemma space_ok_apart p a s s' q c m v e :
  apart p a s s' -> q <> p -> p_mm c <> a -> space_ok q c m v e s -> exists m', space_ok q c m' v e s'.
Proof.
  intros Ha Hq Hc Hs. destruct (so_kernel _ _ _ _ _ _ Hs) as [_ Hk]. pose proof (ap_mms _ _ _ _ Ha (p_mm c) Hc Hk) as Hm.
  rewrite (co_desc _ _ _ (so_caller _ _ _ _ _ _ Hs)) in Hm. destruct (mms s' !! p_mm c) as [m'|] eqn:Hm'; [|done].
  exists m'. simpl in Hm. apply (inj Some) in Hm. apply (space_ok_desc q c m m' v e s s'); try done; try by apply Ha.
  intros g Hg. rewrite (ap_views _ _ _ _ Ha) by done. by apply Hs.
Qed.

(** ** The accesses of one process *)

Section Ops.
Context (p : Z) (c : pcb_t) (m : mm_struct) (v : vm_area_struct) (e : Z) (s : sys).
Hypothesis Hs : space_ok p c m v e s.
Hypothesis Hmem : mem_ok s.

(** The state after an operation that grew the area to [e'] pages. *)
Definition op_done (e' : Z) (s' : sys) : Prop :=
  mem_ok s' /\ apart p (p_mm c) s s' /\ procs s' !! p = procs s !! p /\
  exists m' v', space_ok p c m' v' e' s'.

(** Paging leaves the process as it is when it touches a page below its
    break. *)
Lemma settled_done a s' rd sd rd' sd' :
  mem_inv s rd sd -> all_fit rd -> all_fit sd -> mem_inv s' rd' sd' -> env_same s s' ->
  settled c s rd sd a s' rd' sd' -> a / PAGING64_PAGESZ < e ->
  (forall q x b, q <> p_mm c -> ubyte s rd sd q x = Some b -> ubyte s' rd' sd' q x = Some b) -> op_done e s'.
Proof.
  intros Hi Hrf Hsf Hi' He (Hv1 & Hp1 & Hp2 & Hab) Ha Hby. split_and!.
  - exists rd', sd'. split_and!; [done|by eapply all_fit_pool..].
  - split; [apply He|intros; by rewrite (es_procs _ _ He)|intros; apply He|intros; by apply Hv1| |].
    + intros q x b Hq _. rewrite (byte_of_inv _ _ _ _ _ Hi), (byte_of_inv _ _ _ _ _ Hi'). by apply Hby.
    + apply kernel_ok_same; apply He.
  - by rewrite (es_procs _ _ He).
  - destruct (env_same_caller _ _ _ _ He (so_caller _ _ _ _ _ _ Hs)) as (m' & [_ _ Hm'] & Hf). exists m', v.
    apply (space_ok_desc p c m m' v e s s'); try done; [apply He|by rewrite (es_procs _ _ He)|].
    intros g Hg. apply Hab; [lia|]. by apply Hs.
Qed.

(** [region_addr] of any symbol and any offset answers an address below the
    break, or refuses. *)
Lemma region_addr_any rgid off (Q : option Z -> sys -> Prop) :
  0 <= rgid < PAGING_MAX_SYMTBL_SZ -> Q None s ->
  (forall a, 0 <= a < e * PAGING64_PAGESZ -> Q (Some a) s) -> wp (region_addr (p_mm c) rgid off) Q s.
Proof.
  intros Hid HN HS. pose proof (so_caller _ _ _ _ _ _ Hs) as Hc. pose proof (so_regions _ _ _ _ _ _ Hs) as Hr.
  destruct (symrg_lookup _ _ _ Hr rgid Hid) as (rg & Hrg & [Hb1 Hb2]). rewrite (ri_brk _ _ _ Hr) in Hb2.
  unfold region_addr, get_symrg_byid. replace ((rgid <? 0) || (PAGING_MAX_SYMTBL_SZ <? rgid)) with false
    by (unfold PAGING_MAX_SYMTBL_SZ in *; lia).
  wp_step. eapply get_symrg_spec; [done..|]. destruct (_ && _); [by wp_steps|].
  destruct (Z.leb_spec (rg_end rg) (u64 (rg_start rg + off))) as [|Hlt]; wp_steps; [done|].
  apply HS. pose proof (u64_range (rg_start rg + off)). lia.
Qed.

Lemma fault_fits_all a rd sd : all_fit rd -> all_fit sd -> fault_fits c s rd sd a.
Proof. intros H1 H2 _. split; by apply all_fit_next. Qed.

Lemma brk_bound a : 0 <= a < e * PAGING64_PAGESZ -> 0 <= a < 2 ^ 31 /\ a / PAGING64_PAGESZ < e.
Proof.
  intros Ha. pose proof (ri_size _ _ _ (so_regions _ _ _ _ _ _ Hs)). unfold PAGING64_PAGESZ in *. lia.
Qed.

Lemma __write_done rgid off x :
  0 <= rgid < PAGING_MAX_SYMTBL_SZ -> - 2 ^ 7 <= x < 2 ^ 7 ->
  wp (__write (Some c) 0 rgid off x) (fun r s' => (r = 0 \/ r = -1) /\ op_done e s') s.
Proof.
  intros Hid Hx. destruct Hmem as (rd & sd & Hi & Hrf & Hsf). pose proof (so_caller _ _ _ _ _ _ Hs) as Hc.
  unfold __write. rewrite (caller_ok_krnl _ _ _ Hc), <- orb_assoc, (rgid_guard _ Hid). wp_simpl. wp_step.
  apply region_addr_any; [done| |].
  - wp_steps. split; [by right|]. split_and!; [by exists rd, sd|reflexivity|done|by exists m, v].
  - intros a Ha. destruct (brk_bound a Ha) as [Ha31 Hae]. rewrite i32_small by lia.
    eapply wp_mono; [apply (pg_setval_spec c m s rd sd); try done; [by eapply so_registered|by apply fault_fits_all]|].
    intros r s' (rd' & sd' & [(-> & H1 & H2 & (_ & _ & H3) & H4)|(-> & H1 & H2 & (_ & _ & H3 & _) & H4)]).
    + split; [by left|]. eapply (settled_done a); try done. intros q x' b Hq. apply H4. congruence.
    + split; [by right|]. eapply (settled_done a); try done. intros q x' b Hq. apply H4.
Qed.

Lemma __read_done rgid off :
  0 <= rgid < PAGING_MAX_SYMTBL_SZ ->
  wp (__read (Some c) 0 rgid off) (fun r s' => (r.1 = 0 \/ r.1 = -1) /\ op_done e s') s.
Proof.
  intros Hid. destruct Hmem as (rd & sd & Hi & Hrf & Hsf). pose proof (so_caller _ _ _ _ _ _ Hs) as Hc.
  unfold __read. rewrite (caller_ok_krnl _ _ _ Hc), <- orb_assoc, (rgid_guard _ Hid). wp_simpl. wp_step.
  apply region_addr_any; [done| |].
  - wp_steps. split; [by right|]. split_and!; [by exists rd, sd|reflexivity|done|by exists m, v].
  - intros a Ha. destruct (brk_bound a Ha) as [Ha31 Hae]. rewrite i32_small by lia.
    eapply wp_mono; [apply (pg_getval_spec c m s rd sd); try done; [by eapply so_registered|by apply fault_fits_all]|].
    intros r s' (_ & rd' & sd' & (H1 & H2 & H3 & H4) & Hr). split; [tauto|].
    eapply (settled_done a); try done. intros q x b _. apply H4.
Qed.

(** An operation of the allocator. *)
Lemma others_done m' v' e' s' :
  others_same (p_mm c) s s' -> (forall q g, q <> p_mm c -> view_of s' q g = view_of s q g) -> mem_ok s' ->
  (forall q x b, byte_of s q x = Some b -> byte_of s' q x = Some b) ->
  mms s' !! p_mm c = Some m' -> reg_inv m' v' e' -> (forall g, e' <= g -> view_of s' (p_mm c) g = Absent) ->
  op_done e' s'.
Proof.
  intros Ho Hv Hm Hby Hm' Hr Hab. split_and!; [done| |by rewrite (os_procs _ _ _ Ho)|].
  - split; [apply Ho|intros; by rewrite (os_procs _ _ _ Ho)|intros; by apply Ho|intros; by apply Hv|auto|].
    apply kernel_ok_same; apply Ho. by apply not_eq_sym, Hs.
  - exists m', v'. destruct Hs. split; try done.
    + by rewrite (os_procs _ _ _ Ho).
    + by rewrite (os_os _ _ _ Ho).
    + destruct so_caller0. by split.
    + by rewrite (os_os _ _ _ Ho).
Qed.

Lemma __alloc_done rgid size :
  0 <= rgid < PAGING_MAX_SYMTBL_SZ -> 0 < size -> e + (size + 4095) / 4096 < 2 ^ 19 ->
  wp (__alloc (Some c) 0 rgid size) (fun r s' => exists a n, r = (0, Some a) /\
        (n = 0 \/ n = (size + 4095) / 4096) /\ op_done (e + n) s') s.
Proof.
  intros Hid Hsz Hlim. destruct Hmem as (rd & sd & Hi & Hrf & Hsf).
  eapply wp_mono; [apply (__alloc_memory c m v e rgid size s rd sd); try done; try apply Hs; [by eapply so_registered|]|].
  - apply Forall_take. unfold all_fit, frames_of in Hrf. by apply Forall_app in Hrf as [Hrf _].
  - intros r s' (a & n & m' & v' & rd' & -> & Hn & H1 & H2 & H3 & Hk & H4 & H5 & _ & H6 & H7).
    exists a, n. split_and!; [done|done|]. apply (others_done m' v'); try done.
    + exists rd', sd. split_and!; [done|by eapply all_fit_pool|done].
    + intros q x b. rewrite (byte_of_inv _ _ _ _ _ Hi), (byte_of_inv _ _ _ _ _ H3). by apply bytes_kept_ubyte.
Qed.

Lemma mem_same_ok a s' :
  others_same a s s' -> mem_same s s' ->
  mem_ok s' /\ (forall q g, view_of s' q g = view_of s q g) /\ forall q x, byte_of s' q x = byte_of s q x.
Proof.
  intros Ho (Hd & Hpt & Hff). destruct Hmem as (rd & sd & [Hm Hv] & Hrf & Hsf).
  assert (HV : forall q g, view_of s' q g = view_of s q g) by (intros; unfold view_of; by rewrite Hpt).
  split_and!; [|done|intros q x; unfold byte_of, ubyte; by rewrite (os_os _ _ _ Ho), Hd, HV].
  exists rd, sd. split_and!; [|done|done]. split; [|by eapply vm_inv_ext].
  eapply (machine_others a s); [done|done| |done]. rewrite Hd. symmetry. apply insert_id. apply Hm.
Qed.

Lemma __free_done rgid :
  0 <= rgid < PAGING_MAX_SYMTBL_SZ ->
  wp (__free (Some c) 0 rgid) (fun r s' => (r = 0 \/ r = -1) /\ op_done e s') s.
Proof.
  intros Hid. destruct Hmem as (rd & sd & Hi & Hrf & Hsf). pose proof (so_regions _ _ _ _ _ _ Hs) as Hr.
  destruct (symrg_lookup _ _ _ Hr rgid Hid) as (rg & Hrg & [Hb _]).
  eapply wp_mono; [apply (__free_spec c m v e rd rgid rg s); try done; [by eapply mem_inv_kstate|apply Hs]|].
  intros r s'. destruct ((rg_start rg =? 0) && (rg_end rg =? 0)) eqn:Hz.
  { intros [-> ->]. split; [by right|]. split_and!; [done|reflexivity|done|by exists m, v]. }
  intros (-> & Hms & Ho & Hm'). set (m' := freed rgid rg v m) in Hm'. split; [by left|].
  destruct (mem_same_ok _ s' Ho Hms) as (Hok & HV & Hby).
  destruct (free_region_inv m v e rgid rg Hr Hrg) as (v' & Hr' & _). fold m' in Hr'.
  apply (others_done m' v'); try done; [intros q x b; by rewrite Hby|]. intros g Hg. rewrite HV. by apply Hs.
Qed.

(** An operation in the kernel's space. *)
Lemma kernel_done m' s' :
  os s' = os s -> procs s' = procs s -> mem_ok s' -> kernel_ok s' ->
  (forall q, q <> k_mm (os s) -> forget_vm <$> (mms s' !! q) = forget_vm <$> (mms s !! q)) ->
  (forall q g, q <> k_mm (os s) -> view_of s' q g = view_of s q g) ->
  (forall q x b, q <> k_mm (os s) -> byte_of s q x = Some b -> byte_of s' q x = Some b) ->
  mms s' !! p_mm c = Some m' -> op_done e s'.
Proof.
  intros Ho Hp Hm Hk Hmm Hv Hby Hm'. destruct (so_kernel _ _ _ _ _ _ Hs) as [_ Hne].
  split_and!; [done|by split; auto; intros; rewrite Hp|by rewrite Hp|].
  exists m', v. apply (space_ok_desc p c m m' v e s s'); try done.
  - specialize (Hmm _ Hne). rewrite Hm', (co_desc _ _ _ (so_caller _ _ _ _ _ _ Hs)) in Hmm. exact (inj Some _ _ Hmm).
  - by rewrite Hp.
  - intros g Hg. rewrite Hv by done. by apply Hs.
Qed.

Lemma kmapped_done g0 k rd sd s' :
  mem_inv s rd sd -> all_fit rd -> all_fit sd -> kernel_ok s ->
  kmapped (k_mm (os s)) g0 k rd s s' -> op_done e s'.
Proof.
  intros Hi Hrf Hsf Hk Hkm. destruct (kmapped_inv _ _ _ _ _ _ _ Hi Hrf Hkm) as (Hi' & Hrf' & HV & Hby).
  assert (Hmm : forall q, forget_vm <$> (mms s' !! q) = forget_vm <$> (mms s !! q)).
  { intros q. pose proof (km_mms _ _ _ _ _ _ Hkm q) as Hq. apply (f_equal (fmap (set_fifo []))) in Hq.
    by rewrite <- !option_fmap_compose in Hq. }
  pose proof (Hmm (p_mm c)) as Hpm. rewrite (co_desc _ _ _ (so_caller _ _ _ _ _ _ Hs)) in Hpm.
  destruct (mms s' !! p_mm c) as [m'|] eqn:Hm'; [|done]. apply (kernel_done m'); [apply Hkm|apply Hkm| | |intros; apply Hmm|intros; by apply HV| |done].
  - by exists (Kmem.taken k rd), sd.
  - eapply kernel_ok_same; [apply Hkm|apply Hmm|done].
  - intros q x b Hq. rewrite (byte_of_inv _ _ _ _ _ Hi), (byte_of_inv _ _ _ _ _ Hi'). by apply Hby.
Qed.

(** A change of the kernel's table of pools. *)
Lemma pools_done km t :
  mms s !! k_mm (os s) = Some km -> Z.of_nat (length t) = PAGING_MAX_KCACHE_POOLS ->
  op_done e (with_mm (k_mm (os s)) (set_kcpooltbl (Some t) km) s).
Proof.
  intros Hkm Ht. destruct Hmem as (rd & sd & [Hm Hv] & _). destruct (so_kernel _ _ _ _ _ _ Hs) as [_ Hne].
  destruct (set_mm_same (k_mm (os s)) km (set_kcpooltbl (Some t) km) s) as [Hms Ho]; [apply Hm|done|done|done|apply Hm|].
  destruct (mem_same_ok _ _ Ho Hms) as (Hok & HV & Hby).
  apply (kernel_done m); [apply Ho|apply Ho|done| |apply Ho|intros; apply HV| |].
  - intros _. eexists. split; [apply with_mm_lookup|]. by intros ? [= <-].
  - intros q x b _. by rewrite Hby.
  - simpl. rewrite lookup_insert_ne by done. apply (so_caller _ _ _ _ _ _ Hs).
Qed.
End Ops.

Lemma op_done_trans p c s s1 s2 e1 e2 : op_done p c s e1 s1 -> op_done p c s1 e2 s2 -> op_done p c s e2 s2.
Proof. intros (_ & H1 & H2 & _) (H3 & H4 & H5 & H6). split_and!; [done|by etransitivity|congruence|done]. Qed.

(** ** Instructions *)

(** The PCB changes in registers and program counter only. *)
Definition forget_run (c : pcb_t) : pcb_t := set_pc 0 (forget_regs c).

Lemma forget_run_same c c' :
  forget_run c' = forget_run c -> pid c' = pid c /\ p_mm c' = p_mm c /\ p_krnl c' = p_krnl c /\ code c' = code c /\ prio c' = prio c.
Proof. by intros [= ? ? ? ? ? ? ?]. Qed.

(** Process [p] has gone from [c] to a state with program counter [i] and [e']
    pages. *)
Definition moved (p : Z) (c : pcb_t) (i e' : Z) (s s' : sys) : Prop :=
  mem_ok s' /\ apart p (p_mm c) s s' /\
  exists c' m' v', space_ok p c' m' v' e' s' /\ forget_run c' = forget_run c /\ pc c' = i.

Lemma moved_trans p c1 s1 s2 s3 c2 i e :
  apart p (p_mm c1) s1 s2 -> forget_run c2 = forget_run c1 -> moved p c2 i e s2 s3 -> moved p c1 i e s1 s3.
Proof.
  intros Ha Hf (Hm & Ha' & c3 & m3 & v3 & H1 & H2 & H3). destruct (forget_run_same _ _ Hf) as (_ & Hmm & _).
  rewrite Hmm in Ha'. split_and!; [done|by etransitivity|]. exists c3, m3, v3. split_and!; [done|congruence|done].
Qed.

Lemma mem_inv_procs x s rd sd : mem_inv s rd sd -> mem_inv (set_procs x s) rd sd.
Proof.
  intros [Hm Hv]. split; [|done]. destruct Hm. split; try done. destruct mi_wf as [ow Hwf].
  exists ow. split; simpl; pt_wf_same Hwf.
Qed.

(** A change of the PCB alone. *)
Lemma moved_pcb p c m v e s c' :
  space_ok p c m v e s -> mem_ok s -> forget_run c' = forget_run c -> length (regs c') = 10%nat ->
  moved p c (pc c') e s (set_procs (<[p := c']> (procs s)) s).
Proof.
  intros Hs (rd & sd & Hi & Hrf & Hsf) Hf Hl.
  destruct (forget_run_same _ _ Hf) as (Hpid & Hmm & Hk & _). split_and!.
  - exists rd, sd. split_and!; [by apply mem_inv_procs|done|done].
  - split; try done. intros q Hq. simpl. by rewrite lookup_insert_ne.
  - exists c', m, v. split_and!; [|done|done]. destruct Hs. split; try done.
    + simpl. by rewrite lookup_insert_eq.
    + by rewrite Hpid.
    + by rewrite Hpid.
    + destruct so_caller0. by split; rewrite ?Hk, ?Hmm.
    + by rewrite Hmm.
    + by rewrite Hmm.
Qed.

Lemma op_done_moved p c m v e s e' s' :
  space_ok p c m v e s -> op_done p c s e' s' -> moved p c (pc c) e' s s'.
Proof. intros Hs (Hm & Ha & _ & m' & v' & Hs'). split_and!; [done|done|]. by exists c, m', v'. Qed.

Section Inst.
Context (p : Z) (c : pcb_t) (m : mm_struct) (v : vm_area_struct) (e : Z) (s : sys).
Hypothesis Hs : space_ok p c m v e s.
Hypothesis Hmem : mem_ok s.
Hypothesis Hker : kernel_ok s.

Lemma wp_opt_pcb (Q : option pcb_t -> sys -> Prop) : Q (Some c) s -> wp (opt_pcb p) Q s.
Proof.
  intros HQ. unfold opt_pcb. rewrite (proj2 (Z.eqb_neq p NULL)) by apply Hs. unfold get_pcb. wp_steps.
  eapply wp_from_opt; [apply Hs|]. by wp_steps.
Qed.

(** After an operation, register [i] is written. *)
Lemma set_reg_moved e' i x s' (Q : unit -> sys -> Prop) :
  op_done p c s e' s' -> 0 <= i < 10 -> (forall s2, moved p c (pc c) e' s s2 -> Q tt s2) -> wp (set_reg p i x) Q s'.
Proof.
  intros (Hm & Ha & Hp & m' & v' & Hs') Hi HQ. pose proof (so_nregs _ _ _ _ _ _ Hs') as Hl.
  unfold set_reg, get_pcb. wp_steps. eapply wp_from_opt; [apply Hs'|]. wp_step.
  eapply wp_from_opt; [apply arr_set_Some; lia|]. wp_step. apply HQ.
  eapply moved_trans; [exact Ha|reflexivity|]. apply (moved_pcb p c m' v' e' s' (set_regs _ c)); [done|done|done|].
  simpl. by rewrite length_insert.
Qed.

(** The page table is printed: nothing changes. *)
Lemma print_done s' (Q : Z * list Z -> sys -> Prop) :
  mem_ok s' -> (exists m, caller_ok c s' m) -> (forall r, Q r s') -> wp (print_pgtbl (Some c)) Q s'.
Proof.
  intros (rd & sd & [Hm _] & _) [m' Hc] HQ. eapply wp_mono; [apply (print_pgtbl_spec c m' s'); [apply Hm|done]|].
  intros r s2 [-> _]. apply HQ.
Qed.

Lemma op_done_caller e' s' : op_done p c s e' s' -> mem_ok s' /\ exists m', caller_ok c s' m'.
Proof. intros (Hm & _ & _ & m' & v' & Hs'). split; [done|]. exists m'. apply Hs'. Qed.

Lemma moved_caller i e' s' : moved p c i e' s s' -> mem_ok s' /\ exists m', caller_ok c s' m'.
Proof.
  intros (Hm & _ & c' & m' & v' & Hs' & Hf & _). split; [done|]. exists m'. destruct (forget_run_same _ _ Hf) as (_ & Hmm & Hk & _).
  destruct (so_caller _ _ _ _ _ _ Hs'). by split; rewrite <- ?Hk, <- ?Hmm.
Qed.

Lemma liballoc_moved size i :
  0 <= i < 10 -> 0 < size -> e + (size + 4095) / 4096 < 2 ^ 19 ->
  wp (liballoc p size i) (fun r s' => r = 0 /\ exists n, (n = 0 \/ n = (size + 4095) / 4096) /\ moved p c (pc c) (e + n) s s') s.
Proof.
  intros Hi Hsz Hlim. unfold liballoc. wp_step. apply wp_opt_pcb. rewrite i32_small by lia. wp_step.
  eapply wp_mono; [apply (__alloc_done p c m v e s Hs Hmem i size); try done; unfold PAGING_MAX_SYMTBL_SZ; lia|].
  intros r s' (a & n & -> & Hn & Hd). cbn [Z.eqb]. wp_steps. apply (set_reg_moved (e + n)); [done|done|].
  intros s2 H2. wp_step. destruct (moved_caller _ _ _ H2). apply print_done; [done|done|]. intros _. wp_step.
  split; [done|]. by exists n.
Qed.

Lemma libfree_moved i :
  0 <= i < 10 -> wp (libfree p i) (fun r s' => (r = 0 \/ r = -1) /\ moved p c (pc c) e s s') s.
Proof.
  intros Hi. unfold libfree. wp_step. apply wp_opt_pcb. rewrite i32_small by lia. wp_step.
  eapply wp_mono; [apply (__free_done p c m v e s Hs Hmem i); unfold PAGING_MAX_SYMTBL_SZ; lia|].
  intros r s' [[-> | ->] Hd]; cbn [Z.eqb Pos.eqb].
  - wp_step. apply (set_reg_moved e); [done|done|]. intros s2 H2. wp_step. destruct (moved_caller _ _ _ H2).
    apply print_done; [done|done|]. intros _. wp_step. split; [by left|done].
  - wp_steps. split; [by right|]. by eapply op_done_moved.
Qed.

Lemma libread_moved i off :
  0 <= i < PAGING_MAX_SYMTBL_SZ ->
  wp (libread p i off) (fun r s' => (r.1 = 0 \/ r.1 = -1) /\ moved p c (pc c) e s s') s.
Proof.
  intros Hi. unfold libread. wp_step. apply wp_opt_pcb.
  rewrite i32_small by (unfold PAGING_MAX_SYMTBL_SZ in *; lia). wp_step.
  eapply wp_mono; [by apply (__read_done p c m v e s Hs Hmem)|]. intros r s' [Hr Hd]. wp_step.
  destruct (op_done_caller _ _ Hd). apply print_done; [done|done|]. intros _. wp_step. split; [done|]. by eapply op_done_moved.
Qed.

Lemma libwrite_moved x i off :
  0 <= i < PAGING_MAX_SYMTBL_SZ -> - 2 ^ 7 <= x < 2 ^ 7 ->
  wp (libwrite p x i off) (fun r s' => (r = 0 \/ r = -1) /\ moved p c (pc c) e s s') s.
Proof.
  intros Hi Hx. unfold libwrite. wp_step. apply wp_opt_pcb. wp_step.
  rewrite i32_small by (unfold PAGING_MAX_SYMTBL_SZ in *; lia).
  eapply wp_mono; [by apply (__write_done p c m v e s Hs Hmem)|].
  intros r s' [[-> | ->] Hd]; cbn [Z.eqb Pos.eqb]; wp_step; [|split; [auto|by eapply op_done_moved]].
  destruct (op_done_caller _ _ Hd). apply print_done; [done|done|]. intros _. wp_step. split; [auto|by eapply op_done_moved].
Qed.

(** [__kmalloc] for this process, on a machine in a state [s1] with the same
    kernel and PCB. *)
Lemma kmalloc_done s1 m1 v1 rgid size (Q : Z * option Z -> sys -> Prop) :
  space_ok p c m1 v1 e s1 -> mem_ok s1 -> kernel_ok s1 -> 0 <= rgid < 2 ^ 31 -> 0 < size < 2 ^ 31 - 4096 ->
  (forall r s', r = (u64 (-1), None) \/ r.1 = 0 /\ is_Some r.2 -> op_done p c s1 e s' ->
     forget_stats <$> (mms s' !! k_mm (os s1)) = forget_stats <$> (mms s1 !! k_mm (os s1)) -> Q r s') ->
  wp (__kmalloc c (-1) rgid size) Q s1.
Proof.
  intros Hs1 (rd & sd & Hi & Hrf & Hsf) Hk Hid Hsz HQ. pose proof Hi as [Hm _].
  destruct (so_kernel _ _ _ _ _ _ Hs1) as [Hn _]. destruct (Hk Hn) as (km & Hkm & _).
  eapply (__kmalloc_spec c km rgid size rd s1); try apply Hm; [|done|done|].
  - split; [apply (so_caller _ _ _ _ _ _ Hs1)|done|done].
  - intros s' Hd. apply HQ; [case_bool_decide; [right; split; [done|by eexists]|by left]| |apply Hd]. by eapply kmapped_done.
Qed.

Lemma libkmem_malloc_moved size i :
  0 <= i < 2 ^ 31 -> 0 <= size < 2 ^ 31 - 4096 ->
  wp (libkmem_malloc p size i) (fun r s' => (r = 0 \/ r = -1) /\ moved p c (pc c) e s s') s.
Proof.
  intros Hi Hsz. unfold libkmem_malloc. wp_step. apply wp_opt_pcb. destruct (Z.eqb_spec size 0) as [->|Hne].
  - wp_steps. split; [by right|]. eapply op_done_moved; [exact Hs|]. split_and!; [done|reflexivity|done|by exists m, v].
  - rewrite i32_small by lia. wp_step. eapply (kmalloc_done s m v); [done..|lia|].
    intros [r a] s' Hr Hd _. destruct Hr as [[= -> ->]|[Hr _]]; [|simpl in Hr; subst r]; wp_steps;
      (split; [auto|by eapply op_done_moved]).
Qed.

(** The kernel's table of pools, allocated or not, is there afterwards. *)
Lemma kernel_table km (Q : bool -> sys -> Prop) :
  mms s !! k_mm (os s) = Some km -> s_host s = [] ->
  (forall s', op_done p c s e s' -> os s' = os s -> (exists km' t, mms s' !! k_mm (os s) = Some km' /\ kcpooltbl km' = Some t /\
       Z.of_nat (length t) = PAGING_MAX_KCACHE_POOLS) -> Q true s') ->
  wp (match kcpooltbl km with
      | Some _ => ret true
      | None => let* ok := malloc in
                if ok then upd_mm (k_mm (os s)) (set_kcpooltbl (Some empty_pools)) ;;; ret true else ret false
      end) Q s.
Proof.
  intros Hkm Hh HQ. destruct (kcpooltbl km) as [t|] eqn:Ht; wp_step.
  - apply HQ; [split_and!; [done|reflexivity|done|by exists m, v]|done|]. exists km, t. split_and!; [done|done|].
    destruct (so_kernel _ _ _ _ _ _ Hs) as [Hn _]. destruct (Hker Hn) as (km' & Hkm' & Hlen). rewrite Hkm in Hkm'. injection Hkm' as <-. auto.
  - apply wp_malloc_ok; [done|]. wp_step. eapply wp_upd_mm; [done|]. wp_step.
    apply HQ; [apply (pools_done p c m v e s Hs Hmem km empty_pools); [done|reflexivity]|done|].
    eexists _, _. split; [simpl; by rewrite lookup_insert_eq|]. done.
Qed.

Lemma libkmem_cache_pool_create_moved size align i :
  0 <= size < 2 ^ 31 - 4096 -> 0 <= i ->
  wp (libkmem_cache_pool_create p size align i) (fun r s' => (r = 0 \/ r = -1) /\ moved p c (pc c) e s s') s.
Proof.
  intros Hsz Hi. pose proof Hmem as (rd & sd & [Hm _] & _).
  destruct (so_kernel _ _ _ _ _ _ Hs) as [Hn _]. destruct (Hker Hn) as (km & Hkm & _).
  assert (Hstay : op_done p c s e s) by (split_and!; [done|reflexivity|done|by exists m, v]).
  assert (Hend : forall (r : Z) s', r = 0 \/ r = -1 -> op_done p c s e s' -> (r = 0 \/ r = -1) /\ moved p c (pc c) e s s')
    by (intros; split; [done|by eapply op_done_moved]).
  unfold libkmem_cache_pool_create. wp_step. apply wp_opt_pcb.
  rewrite (proj2 (Z.eqb_neq (p_krnl c) _)) by apply (so_caller _ _ _ _ _ _ Hs). wp_steps.
  rewrite (proj2 (Z.eqb_neq (k_mm (os s)) _)) by done.
  destruct ((size =? 0) || (align =? 0) || (size <? align)) eqn:Hargs; [wp_steps; by apply Hend; [right|]|].
  wp_step. eapply wp_get_mm; [done|]. wp_step. eapply kernel_table; [done|apply Hm|].
  intros s1 Hd1 Ho1 (km1 & t1 & Hkm1 & Ht1 & Hlen). cbn [negb].
  destruct (Z.leb_spec PAGING_MAX_KCACHE_POOLS i) as [|Hlt]; [wp_steps; by apply Hend; [right|]|].
  unfold PAGING_MAX_KCACHE_POOLS in *. rewrite (i32_small i) by lia.
  pose proof Hd1 as (Hmem1 & Ha1 & Hp1 & m1 & v1 & Hs1). wp_step.
  eapply (kmalloc_done s1 m1 v1); [done|done|by apply (ap_kernel _ _ _ _ Ha1)|lia|lia|].
  intros [r a] s2 Hr Hd2 Hkm2. rewrite Ho1, Hkm1 in Hkm2. destruct (mms s2 !! k_mm (os s)) as [km2|] eqn:Hm2; [|done].
  apply (inj Some) in Hkm2. assert (Ht2 : kcpooltbl km2 = Some t1) by (rewrite <- Ht1; by injection Hkm2).
  pose proof (op_done_trans _ _ _ _ _ _ _ Hd1 Hd2) as Hd. destruct Hr as [[= -> ->]|[Hr [a' Ha']]]; [wp_steps; by apply Hend; [right|]|].
  simpl in Hr, Ha'. subst r a. wp_steps. destruct (arr_get_is_Some t1 i) as [pool Hpool]; [lia|].
  change (negb (i32 0 =? 0)) with false. wp_steps. eapply wp_put_pool; [done|done|done|]. wp_steps. apply Hend; [by left|]. eapply op_done_trans; [exact Hd|].
  destruct Hd2 as (Hmem2 & Ha2 & _ & m2 & v2 & Hs2). replace (k_mm (os s)) with (k_mm (os s2)) in *
    by (by rewrite (ap_os _ _ _ _ Ha2), Ho1).
  eapply (pools_done p c m2 v2 e s2); [done|done|done|]. by rewrite length_insert.
Qed.

Lemma libsyscall_moved n a b d :
  n <> 17 -> wp (libsyscall p n a b d) (fun r s' => r = 0 /\ moved p c (pc c) e s s') s.
Proof.
  intros Hn. unfold libsyscall, get_pcb. wp_step. wp_step. eapply wp_from_opt; [apply Hs|]. unfold _syscall.
  rewrite (proj2 (Z.eqb_neq n 17)) by done. destruct (n =? 0); wp_steps;
    (split; [done|]; eapply op_done_moved; [exact Hs|]; split_and!; [done|reflexivity|done|by exists m, v]).
Qed.

(** The instructions a user program may use, and the pages one may add. *)
Definition user_inst (ins : inst_t) : Prop :=
  match opcode ins with
  | CALC => True
  | ALLOC => 0 < arg_0 ins /\ 0 <= arg_1 ins < 10
  | FREE => 0 <= arg_0 ins < 10
  | READ => 0 <= arg_0 ins < PAGING_MAX_SYMTBL_SZ
  | WRITE => 0 <= arg_1 ins < PAGING_MAX_SYMTBL_SZ
  | KMALLOC => 0 <= arg_0 ins < 2 ^ 31 - 4096 /\ 0 <= arg_1 ins < 2 ^ 31
  | KMEM_CACHE_CREATE => 0 <= arg_0 ins < 2 ^ 31 - 4096
  | SYSCALL => u32 (arg_0 ins) <> 17
  | _ => False
  end.
Definition cost (ins : inst_t) : Z :=
  match opcode ins with ALLOC => (arg_0 ins + 4095) / 4096 | _ => 0 end.

Lemma execute_moved ins :
  user_inst ins -> e + cost ins < 2 ^ 19 ->
  wp (execute p ins) (fun r s' => (r = 0 \/ r = -1) /\ exists n, 0 <= n <= cost ins /\ moved p c (pc c) (e + n) s s') s.
Proof.
  intros Hu Hlim. unfold execute, user_inst, cost in *.
  assert (H0 : forall s' r x, 0 <= x -> (r = 0 \/ r = -1) /\ moved p c (pc c) e s s' ->
     (r = 0 \/ r = -1) /\ exists n, 0 <= n <= x /\ moved p c (pc c) (e + n) s s').
  { intros s' r x Hx [Hr Hm]. split; [done|]. exists 0. split; [lia|]. by rewrite Z.add_0_r. }
  destruct (opcode ins); try done.
  - wp_steps. unfold calc. rewrite Z.land_0_r. apply H0; [done|]. split; [by left|].
    eapply op_done_moved; [exact Hs|]. split_and!; [done|reflexivity|done|by exists m, v].
  - destruct Hu as [Hsz Hi]. rewrite u32_small by lia. eapply wp_mono; [by apply liballoc_moved|].
    intros r s' (-> & n & Hn & Hm). split; [by left|]. exists n. split; [lia|done].
  - rewrite u32_small by lia. eapply wp_mono; [by apply libfree_moved|]. intros r s' H. by apply H0.
  - unfold PAGING_MAX_SYMTBL_SZ in Hu. rewrite u32_small by lia. wp_step. eapply wp_mono; [by apply libread_moved|].
    intros [st d] s' H. wp_steps. by apply H0.
  - unfold PAGING_MAX_SYMTBL_SZ in Hu. rewrite u32_small by lia.
    eapply wp_mono; [apply libwrite_moved; [done|apply i8_range]|]. intros r s' H. by apply H0.
  - destruct Hu as [Hsz Hi]. rewrite !u32_small by lia. eapply wp_mono; [by apply libkmem_malloc_moved|].
    intros r s' H. by apply H0.
  - rewrite (u32_small (arg_0 ins)) by lia. eapply wp_mono; [apply libkmem_cache_pool_create_moved; [done|apply u32_range]|].
    intros r s' H. by apply H0.
  - eapply wp_mono; [by apply libsyscall_moved|]. intros r s' [-> H]. apply H0; [done|]. by split; [left|].
Qed.
End Inst.

(** ** [run] *)

Fixpoint total_cost (l : list inst_t) : Z := match l with [] => 0 | ins :: l => cost ins + total_cost l end.

(** The rest of the program from [i] is a user program whose allocations
    leave the area below 2 GiB. *)
Record program_ok (cd : code_seg_t) (i e : Z) : Prop := {
  pr_size : code_size cd = Z.of_nat (length (text cd));
  pr_bound : code_size cd < 2 ^ 32;
  pr_pc : 0 <= i <= code_size cd;
  pr_insts : Forall user_inst (drop (Z.to_nat i) (text cd));
  pr_cost : e + total_cost (drop (Z.to_nat i) (text cd)) < 2 ^ 19;
}.

Lemma cost_nonneg ins : 0 <= cost ins \/ ~ user_inst ins.
Proof. unfold cost, user_inst. destruct (opcode ins); try (left; lia). destruct (decide (0 < arg_0 ins)); [left|right]; lia. Qed.

Lemma program_next cd i e n ins :
  program_ok cd i e -> text cd !! Z.to_nat i = Some ins -> n <= cost ins -> program_ok cd (i + 1) (e + n).
Proof.
  intros [H1 H2 H3 H4 H5] Hi Hn. apply lookup_lt_Some in Hi as Hlt. rewrite (drop_S _ _ _ Hi) in H4, H5.
  inversion_clear H4. simpl in H5. replace (S (Z.to_nat i)) with (Z.to_nat (i + 1)) in * by lia.
  split; try done; lia.
Qed.

(** A process in a state to run. *)
Definition ready (p : Z) (s : sys) : Prop :=
  exists c m v e, space_ok p c m v e s /\ program_ok (code c) (pc c) e.

(** [p] has run one instruction, if it had one left. *)
Record ran (p : Z) (c : pcb_t) (s s' : sys) : Prop := {
  rn_mem : mem_ok s';
  rn_apart : apart p (p_mm c) s s';
  rn_ready : ready p s';
  rn_pcb : exists c', procs s' !! p = Some c' /\ forget_run c' = forget_run c /\
                      pc c' = Z.min (pc c + 1) (code_size (code c));
}.

Lemma run_spec p c s :
  mem_ok s -> kernel_ok s -> ready p s -> procs s !! p = Some c ->
  wp (run p) (fun r s' => (r = 1 <-> pc c = code_size (code c)) /\ ran p c s s') s.
Proof.
  intros Hmem Hker (c0 & m & v & e & Hs & Hpr) Hc.
  assert (c0 = c) as -> by (pose proof (so_pcb _ _ _ _ _ _ Hs); congruence).
  pose proof Hpr as [H1 H2 H3 H4 H5]. unfold run, get_pcb. wp_steps. destruct (Z.leb_spec (code_size (code c)) (pc c)) as [Hge|Hlt].
  - wp_steps. split; [lia|]. split; [done|reflexivity|by exists c, m, v, e|].
    exists c. split_and!; [done|done|lia].
  - destruct (arr_get_is_Some (text (code c)) (pc c)) as [ins Hins]; [lia|].
    wp_step. eapply wp_from_opt; [done|]. apply arr_get_Some in Hins as [_ Hins].
    wp_step. unfold inc_pc, get_pcb. wp_steps. rewrite u32_small by lia.
    destruct (moved_pcb p c m v e s (set_pc (pc c + 1) c) Hs Hmem) as (Hm1 & Ha1 & c1 & m1 & v1 & Hs1 & Hf1 & Hp1); [done|apply Hs|].
    assert (Hc1 : c1 = set_pc (pc c + 1) c).
    { pose proof (so_pcb _ _ _ _ _ _ Hs1) as Hp. simpl in Hp. rewrite lookup_insert_eq in Hp. by simplify_eq. }
    rewrite (drop_S _ _ _ Hins) in H4, H5. inversion_clear H4 as [|? ? Hu Hus]. simpl in H5.
    assert (Hrest : 0 <= total_cost (drop (S (Z.to_nat (pc c))) (text (code c)))).
    { clear - Hus. induction Hus as [|i l Hi Hus IH]; simpl; [done|]. destruct (cost_nonneg i); [lia|done]. }
    eapply wp_mono; [apply (execute_moved p c1 m1 v1 e _ Hs1 Hm1 (ap_kernel _ _ _ _ Ha1 Hker) ins); [done|lia]|].
    intros r s' (Hr & n & Hn & Hmv). split; [lia|]. rewrite Hc1 in Hmv.
    assert (Hmv' : moved p c (pc c + 1) (e + n) s s') by (eapply moved_trans; [exact Ha1|reflexivity|exact Hmv]).
    destruct Hmv' as (Hm' & Ha' & c' & m' & v' & Hs' & Hf' & Hpc'). split; [done|done| |].
    + exists c', m', v', (e + n). split; [done|]. destruct (forget_run_same _ _ Hf') as (_ & _ & _ & -> & _). rewrite Hpc'.
      eapply program_next; [done|done|lia].
    + exists c'. split_and!; [apply Hs'|done|lia].
Qed.

(** ** Schedules *)

(** Processes in spaces of their own, all ready to run. *)
Record world_ok (l : list Z) (s : sys) : Prop := {
  wo_mem : mem_ok s;
  wo_kernel : kernel_ok s;
  wo_ready p : p ∈ l -> ready p s;
  wo_apart p q c d : p ∈ l -> q ∈ l -> p <> q -> procs s !! p = Some c -> procs s !! q = Some d -> p_mm c <> p_mm d;
}.

(** The turns of a schedule, with the results of [run]. *)
Fixpoint run_all (ps : list Z) : M sys (list Z) :=
  match ps with
  | [] => ret []
  | p :: ps => let* r := run p in let* rs := run_all ps in ret (r :: rs)
  end.

Definition turns (p : Z) (ps : list Z) : Z := Z.of_nat (length (filter (fun q => q = p) ps)).

Lemma ready_pcb p s : ready p s -> exists c, procs s !! p = Some c /\ 0 <= pc c <= code_size (code c).
Proof. intros (c & m & v & e & Hs & Hp). exists c. split; [apply Hs|apply Hp]. Qed.

Lemma ready_not_kernel p s c : ready p s -> procs s !! p = Some c -> p_mm c <> k_mm (os s).
Proof.
  intros (d & m & v & e & Hs & _) Hc. assert (d = c) as -> by (pose proof (so_pcb _ _ _ _ _ _ Hs); congruence).
  apply (so_kernel _ _ _ _ _ _ Hs).
Qed.

Lemma ready_apart p a s s' q d :
  apart p a s s' -> q <> p -> procs s !! q = Some d -> p_mm d <> a -> ready q s -> ready q s'.
Proof.
  intros Ha Hq Hd Hne (c & m & v & e & Hs & Hp).
  assert (c = d) as -> by (pose proof (so_pcb _ _ _ _ _ _ Hs); congruence).
  destruct (space_ok_apart p a s s' q d m v e Ha Hq Hne Hs) as [m' Hs']. by exists d, m', v, e.
Qed.

Lemma world_ok_ran l p c s s' :
  world_ok l s -> p ∈ l -> procs s !! p = Some c -> ran p c s s' -> world_ok l s'.
Proof.
  intros Hw Hp Hc Hr. destruct Hr as [Hm Ha Hrd (c' & Hc' & Hf & _)].
  destruct (forget_run_same _ _ Hf) as (_ & Hmm & _). split; [done|apply Ha, Hw| |].
  - intros q Hq. destruct (decide (q = p)) as [->|Hne]; [done|].
    destruct (ready_pcb q s (wo_ready _ _ Hw q Hq)) as (d & Hd & _).
    eapply ready_apart; [exact Ha|done|exact Hd| |by apply (wo_ready _ _ Hw)].
    by eapply (wo_apart _ _ Hw q p).
  - intros q1 q2 d1 d2 Hq1 Hq2 Hne Hd1 Hd2.
    assert (Hold : forall q d, procs s' !! q = Some d -> exists d0, procs s !! q = Some d0 /\ p_mm d0 = p_mm d).
    { intros q d Hd. destruct (decide (q = p)) as [->|Hqp]; [exists c; split; [done|congruence]|].
      exists d. split; [|done]. by rewrite <- (ap_procs _ _ _ _ Ha). }
    destruct (Hold _ _ Hd1) as (e1 & He1 & <-), (Hold _ _ Hd2) as (e2 & He2 & <-). by eapply (wo_apart _ _ Hw q1 q2).
Qed.

(** The answers of the turns: 1 exactly when the process of the turn had
    nothing left to execute. *)
Definition answers_ok (ps rs : list Z) (s : sys) : Prop :=
  length rs = length ps /\
  forall i p c r, ps !! i = Some p -> procs s !! p = Some c -> rs !! i = Some r ->
    (r = 1 <-> code_size (code c) <= pc c + turns p (take i ps)).

Lemma turns_cons p q ps : turns p (q :: ps) = (if decide (q = p) then 1 else 0) + turns p ps.
Proof. unfold turns. rewrite filter_cons. repeat case_decide; try congruence; cbn [length]; lia. Qed.

Lemma answers_cons q d r ps rs s s1 :
  procs s !! q = Some d -> 0 <= pc d <= code_size (code d) -> (r = 1 <-> pc d = code_size (code d)) ->
  ran q d s s1 -> answers_ok ps rs s1 -> answers_ok (q :: ps) (r :: rs) s.
Proof.
  intros Hd Hdb Hr Hran [Hlen Hrs]. destruct (rn_pcb _ _ _ _ Hran) as (d1 & Hd1 & Hf1 & Hpc1).
  destruct (forget_run_same _ _ Hf1) as (_ & _ & _ & Hcode & _). split; [simpl; by rewrite Hlen|].
  intros [|i] p c r' Hp Hc Hr'; simplify_eq/=; [unfold turns; simpl; lia|]. rewrite turns_cons. case_decide as Hq.
  - simplify_eq. rewrite (Hrs i p d1 r' Hp Hd1 Hr'), Hcode, Hpc1.
    assert (0 <= turns p (take i ps)) by (unfold turns; lia). lia.
  - rewrite Z.add_0_l. apply (Hrs i p c r'); [done| |done].
    by rewrite (ap_procs _ _ _ _ (rn_apart _ _ _ _ Hran)).
Qed.

(** C8 (liveness): every schedule of user programs runs.  The machine has the
    paging invariant and devices all of whose frames lie inside them, as
    [MEMPHY_format] with 4096-byte frames gives (not main's [init_memphy]);
    RAM and swap may be full; the host's memory is not exhausted.  The
    processes, in any number, have address spaces of their own and user
    programs: ALLOC and FREE of ids 0 to 9 (the size of [regs]), READ and WRITE of
    the symbol ids 0 to 29 at any offset, kernel allocations and cache pools
    with sizes up to 4096 below 2^31, user areas that stay below 2 GiB, and
    any system call but 17; no cache
    allocation and no copy, which [load] cannot read.  Then every sequence of turns, a turn being one
    whole call of [run], ends without undefined behaviour and keeps all this;
    each process has executed as many instructions as it had turns, or all
    of its program; a turn answers 1 exactly when the process had executed
    its whole program before it; and a process that has no turn keeps every byte. *)
Theorem every_schedule_runs l ps s :
  world_ok l s -> Forall (fun p => p ∈ l) ps ->
  wp (run_all ps) (fun rs s' => world_ok l s' /\ answers_ok ps rs s /\
    forall p c, p ∈ l -> procs s !! p = Some c ->
      (exists c', procs s' !! p = Some c' /\ forget_run c' = forget_run c /\
         pc c' = Z.min (pc c + turns p ps) (code_size (code c))) /\
      (p ∉ ps -> forall x b, byte_of s (p_mm c) x = Some b -> byte_of s' (p_mm c) x = Some b)) s.
Proof.
  intros Hw Hps. revert s Hw. induction Hps as [|q ps Hq Hps IH]; intros s Hw; cbn [run_all].
  { wp_steps. split_and!; [done|by split|]. intros p c Hp Hc. split; [|done]. exists c. split_and!; [done|done|].
    destruct (ready_pcb p s (wo_ready _ _ Hw p Hp)) as (d & Hd & ?). simplify_eq. unfold turns. simpl. lia. }
  destruct (ready_pcb q s (wo_ready _ _ Hw q Hq)) as (d & Hd & Hdb). wp_step.
  eapply wp_mono; [by apply (run_spec q d); [apply Hw|apply Hw|apply (wo_ready _ _ Hw)|]|]. intros r s1 [Hr Hran].
  pose proof (world_ok_ran _ _ _ _ _ Hw Hq Hd Hran) as Hw1. wp_step.
  eapply wp_mono; [by apply IH|]. intros rs s' (Hw' & Hans & Hall). wp_steps. split_and!; [done|by eapply answers_cons|].
  intros p c Hp Hc. destruct (rn_pcb _ _ _ _ Hran) as (d1 & Hd1 & Hf1 & Hpc1). pose proof (rn_apart _ _ _ _ Hran) as Ha.
  destruct (decide (p = q)) as [->|Hne].
  - assert (c = d) as -> by (rewrite Hd in Hc; by injection Hc). destruct (Hall q d1 Hp Hd1) as ((c' & Hc' & Hf' & Hpc') & _). split; [|intros Hn; destruct Hn; apply list_elem_of_here].
    exists c'. split_and!; [done|by rewrite Hf'|]. destruct (forget_run_same _ _ Hf1) as (_ & _ & _ & Hcode & _).
    rewrite Hpc', Hpc1, Hcode. unfold turns. simpl. rewrite filter_cons_True by done. simpl. lia.
  - assert (Hc1 : procs s1 !! p = Some c) by (by rewrite (ap_procs _ _ _ _ Ha)).
    destruct (Hall p c Hp Hc1) as ((c' & Hc' & Hf' & Hpc') & Hby). split.
    + exists c'. split_and!; [done|done|]. rewrite Hpc'. unfold turns. rewrite filter_cons_False by congruence. done.
    + intros Hn x b Hb. apply not_elem_of_cons in Hn as [_ Hn]. apply Hby; [done|]. apply (ap_bytes _ _ _ _ Ha); [|by eapply ready_not_kernel; [apply Hw|]|done].
      by apply (wo_apart _ _ Hw p q).
Qed.
