(* ===== verification/Loader.v ===== *)
(** * The program loader: [src/loader.c]

    [load] reads a process description with [fscanf], [fgets] and [sscanf].
    A file is the string of the characters still to be read; the formats the
    loader uses are modelled below. *)

From Stdlib Require Import Ascii.
From S2P Require Import Prelude Pte MemPhy Kernel.

#[local] Arguments String.append !_ _ /.

(** ** Formatted input *)

Definition code_of (c : ascii) : Z := Z.of_N (N_of_ascii c).

(** [isspace] *)
Definition is_space (c : ascii) : bool :=
  let n := code_of c in (n =? 32) || ((9 <=? n) && (n <=? 13)).
Definition digit_of (c : ascii) : option Z :=
  let d := code_of c - 48 in if (0 <=? d) && (d <? 10) then Some d else None.

(** A directive of white space, also skipped by [%s], [%u] and [%lu]. *)
Fixpoint skip_space (s : string) : string :=
  match s with
  | String c s' => if is_space c then skip_space s' else s
  | EmptyString => EmptyString
  end.

(** The characters up to the next white space, and the rest. *)
Fixpoint take_word (s : string) : string * string :=
  match s with
  | String c s' => if is_space c then (EmptyString, s) else
      let (w, rest) := take_word s' in (String c w, rest)
  | EmptyString => (EmptyString, EmptyString)
  end.

(** [%s]: [None] at the end of the file. *)
Definition scan_s (s : string) : option string * string :=
  let (w, rest) := take_word (skip_space s) in
  (match w with EmptyString => None | _ => Some w end, rest).

(** The value of a run of digits after [acc], whether there were any, and
    the rest. *)
Fixpoint take_digits (acc : Z) (s : string) : Z * string :=
  match s with
  | String c s' =>
      match digit_of c with Some d => take_digits (acc * 10 + d) s' | None => (acc, s) end
  | EmptyString => (acc, s)
  end.
Definition starts_with_digit (s : string) : bool :=
  match s with String c _ => from_option (fun _ => true) false (digit_of c) | EmptyString => false end.

(** [strtoul]: a sign, then digits; too large a value gives [ULONG_MAX]. *)
Definition ULONG_MAX : Z := 2 ^ 64 - 1.
Definition scan_digits (neg : bool) (s : string) : option Z * string :=
  if starts_with_digit s then
    let (v, rest) := take_digits 0 s in
    (Some (if ULONG_MAX <? v then ULONG_MAX else if neg then u64 (- v) else v), rest)
  else (None, s).
Definition scan_lu (s : string) : option Z * string :=
  match skip_space s with
  | String c s' =>
      if code_of c =? 45 then scan_digits true s'
      else if code_of c =? 43 then scan_digits false s'
      else scan_digits false (String c s')
  | EmptyString => (None, EmptyString)
  end.
Definition scan_u (s : string) : option Z * string :=
  let (v, rest) := scan_lu s in (u32 <$> v, rest).

(** Up to [n] conversions [%lu]; the first that fails ends the call. *)
Fixpoint scan_lus (n : nat) (s : string) : list Z * string :=
  match n with
  | O => ([], s)
  | S n =>
      match scan_lu s with
      | (Some v, rest) => let (l, rest) := scan_lus n rest in (v :: l, rest)
      | (None, rest) => ([], rest)
      end
  end.

(** [fgets(buf, n + 1, file)]: at most [n] characters, through a newline. *)
Fixpoint fgets (n : nat) (s : string) : string * string :=
  match n, s with
  | S n, String c s' =>
      if code_of c =? 10 then (String c EmptyString, s')
      else let (l, rest) := fgets n s' in (String c l, rest)
  | _, _ => (EmptyString, s)
  end.

(** ** [get_opcode] *)

Definition get_opcode (opt : string) : outcome ins_opcode_t :=
  if String.eqb opt "calc" then Ok CALC
  else if String.eqb opt "alloc" then Ok ALLOC
  else if String.eqb opt "free" then Ok FREE
  else if String.eqb opt "read" then Ok READ
  else if String.eqb opt "write" then Ok WRITE
  else if String.eqb opt "kmalloc" then Ok KMALLOC
  else if String.eqb opt "kmem_cache_create" then Ok KMEM_CACHE_CREATE
  else if String.eqb opt "kmem_cache_alloc" then Ok KMEM_CACHE_ALLOC
  else if String.eqb opt "copy_from_user" then Ok COPY_FROM_USER
  else if String.eqb opt "copy_to_user" then Ok COPY_TO_USER
  else if String.eqb opt "syscall" then Ok SYSCALL
  else Exit 1.

(** ** [load] *)

(** The state of the reading loop: the file, the buffer [opcode] of 10
    characters and the buffer [buf] of 200, [None] while nothing has been
    stored in them. *)
Record reader := mk_reader { file : string; opcode_buf : option string; buf : option string }.

(** [fscanf(file, "%s", opcode)]: a word of 10 characters or more runs over
    the end of the buffer. *)
Definition OPCODE_BUF_SZ : nat := 10.
Definition read_opcode : M reader ins_opcode_t :=
  let* r := gets (fun r => r) in
  let (w, rest) := scan_s (file r) in
  let* w := match w with
            | Some w => if (String.length w <? OPCODE_BUF_SZ)%nat then ret (Some w) else undef
            | None => ret (opcode_buf r)
            end in
  modify (fun r => mk_reader rest w (buf r)) ;;;
  let* w := from_opt w in
  fun r => match get_opcode w with Ok op => Ok (op, r) | Undef => Undef | Exit c => Exit c end.

(** The values read are stored in the first arguments; the others keep what
    the block of [malloc] holds. *)
Definition store_args (l : list Z) (ins : inst_t) : inst_t :=
  mk_inst (opcode ins) (default (arg_0 ins) (l !! 0%nat)) (default (arg_1 ins) (l !! 1%nat))
          (default (arg_2 ins) (l !! 2%nat)) (default (arg_3 ins) (l !! 3%nat)).

(** [fscanf] of [n] arguments and a newline directive, which is reached only
    when all conversions succeed. *)
Definition read_args (n : nat) : M reader (list Z) :=
  let* r := gets (fun r => r) in
  let (l, rest) := scan_lus n (file r) in
  let rest := if (length l =? n)%nat then skip_space rest else rest in
  modify (fun r => mk_reader rest (opcode_buf r) (buf r)) ;;;
  ret l.

(** [fgets] of a line into [buf], which keeps its contents at the end of the
    file, and [sscanf] of four arguments. *)
Definition BUF_SZ : nat := 200.
Definition read_line_args : M reader (list Z) :=
  let* r := gets (fun r => r) in
  let (l, rest) := fgets (BUF_SZ - 1) (file r) in
  let line := match file r with EmptyString => buf r | _ => Some l end in
  modify (fun r => mk_reader rest (opcode_buf r) line) ;;;
  let* line := from_opt line in
  ret (scan_lus 4 line).1.

Definition set_opcode (op : ins_opcode_t) (ins : inst_t) : inst_t :=
  mk_inst op (arg_0 ins) (arg_1 ins) (arg_2 ins) (arg_3 ins).

(** One turn of the loop, on the contents [ins] of [text[i]]. *)
Definition read_inst (ins : inst_t) : M reader inst_t :=
  let* op := read_opcode in
  let ins := set_opcode op ins in
  match op with
  | CALC => ret ins
  | KMEM_CACHE_ALLOC | KMALLOC | ALLOC => let* l := read_args 2 in ret (store_args l ins)
  | FREE => let* l := read_args 1 in ret (store_args l ins)
  | KMEM_CACHE_CREATE | READ | WRITE => let* l := read_args 3 in ret (store_args l ins)
  | COPY_FROM_USER | COPY_TO_USER | SYSCALL => let* l := read_line_args in ret (store_args l ins)
  end.

Fixpoint read_text (l : list inst_t) : M reader (list inst_t) :=
  match l with
  | [] => ret []
  | ins :: l =>
      let* ins := read_inst ins in
      let* l := read_text l in
      ret (ins :: l)
  end.

Definition PAGE_SIZE : Z := Z.shiftl 1 10.

(** [load]: [proc] is the block of [malloc] for the PCB and [text] gives the
    contents of a block of [n] instructions; [contents] is the file, [None]
    when it cannot be opened.  The result is the PCB and the new
    [avail_pid]. *)
Definition load (avail_pid : Z) (proc : pcb_t) (text : nat -> list inst_t) (contents : option string)
    : outcome (pcb_t * Z) :=
  match contents with
  | None => Exit 1
  | Some contents =>
      let (pr, rest) := scan_u contents in
      let (sz, rest) := match pr with Some _ => scan_u rest | None => (None, rest) end in
      match sz with
      | None => Undef (* the loop runs to an indeterminate size *)
      | Some n =>
          match read_text (text (Z.to_nat n)) (mk_reader rest None None) with
          | Ok (l, _) =>
              Ok (mk_pcb avail_pid (default (priority proc) pr) (mk_code l n) (regs proc) 0 (prio proc)
                         (p_krnl proc) PAGE_SIZE (p_mm proc), u32 (avail_pid + 1))
          | Undef => Undef
          | Exit c => Exit c
          end
      end
  end.

(** ** Printing a program *)

Definition digit (d : Z) : ascii := ascii_of_N (Z.to_N (d + 48)).
Fixpoint dec_go (f : nat) (n : Z) (s : string) : string :=
  match f with
  | O => s
  | S f => let s := String (digit (n mod 10)) s in if n <? 10 then s else dec_go f (n / 10) s
  end.
(** [n] in decimal, before [s]; 20 digits are enough below 2^64. *)
Definition dec (n : Z) (s : string) : string := dec_go 20 n s.

Definition opcode_name (op : ins_opcode_t) : string :=
  match op with
  | CALC => "calc" | ALLOC => "alloc" | FREE => "free" | READ => "read" | WRITE => "write"
  | KMALLOC => "kmalloc" | KMEM_CACHE_CREATE => "kmem_cache_create"
  | KMEM_CACHE_ALLOC => "kmem_cache_alloc" | COPY_FROM_USER => "copy_from_user"
  | COPY_TO_USER => "copy_to_user" | SYSCALL => "syscall"
  end.
Definition arity (op : ins_opcode_t) : nat :=
  match op with
  | CALC => 0 | FREE => 1 | ALLOC | KMALLOC | KMEM_CACHE_ALLOC => 2
  | READ | WRITE | KMEM_CACHE_CREATE => 3 | COPY_FROM_USER | COPY_TO_USER | SYSCALL => 4
  end.
(** The arguments an instruction has. *)
Definition args (ins : inst_t) : list Z := take (arity (opcode ins)) [arg_0 ins; arg_1 ins; arg_2 ins; arg_3 ins].

Definition newline : ascii := ascii_of_N 10.
Fixpoint print_args (l : list Z) (s : string) : string :=
  match l with [] => String newline s | a :: l => String " "%char (dec a (print_args l s)) end.
Definition print_inst (ins : inst_t) (s : string) : string :=
  String.append (opcode_name (opcode ins)) (print_args (args ins) s).
Fixpoint print_text (l : list inst_t) : string :=
  match l with [] => EmptyString | ins :: l => print_inst ins (print_text l) end.
Definition print_program (prio : Z) (l : list inst_t) : string :=
  dec prio (String " "%char (dec (Z.of_nat (length l)) (String newline (print_text l)))).

(** ** Reading back what is printed *)

Lemma digit_of_digit d : 0 <= d < 10 -> digit_of (digit d) = Some d.
Proof.
  intros H. unfold digit_of, code_of, digit. rewrite N_ascii_embedding by lia.
  rewrite Z2N.id by lia. replace (d + 48 - 48) with d by lia.
  by replace ((0 <=? d) && (d <? 10)) with true by lia.
Qed.

Lemma digit_not_space d : 0 <= d < 10 -> is_space (digit d) = false.
Proof. intros H. unfold is_space, code_of, digit. rewrite N_ascii_embedding by lia. rewrite Z2N.id; lia. Qed.

Lemma digit_no_sign d : 0 <= d < 10 -> (code_of (digit d) =? 45) = false /\ (code_of (digit d) =? 43) = false.
Proof. intros H. unfold code_of, digit. rewrite N_ascii_embedding by lia. rewrite Z2N.id; lia. Qed.

Lemma take_digits_dec_go f : forall n s a,
  0 <= n < 10 ^ Z.of_nat f -> exists k, take_digits a (dec_go f n s) = take_digits (a * k + n) s.
Proof.
  induction f as [|f IH]; intros n s a Hn; [exists 1; simpl in *; f_equal; lia|].
  cbn [dec_go]. assert (Hd : 0 <= n mod 10 < 10) by lia. destruct (Z.ltb_spec n 10).
  - exists 10. simpl. rewrite digit_of_digit by done. rewrite Z.mod_small by lia. done.
  - destruct (IH (n / 10) (String (digit (n mod 10)) s) a) as [k ->].
    { rewrite Nat2Z.inj_succ, Z.pow_succ_r in Hn by lia. lia. }
    exists (k * 10). simpl. rewrite digit_of_digit by done. f_equal. lia.
Qed.

(** A printed number starts with a digit. *)
Lemma dec_go_head f n s : 0 <= n -> exists d t, 0 <= d < 10 /\ dec_go (S f) n s = String (digit d) t.
Proof.
  revert n s. induction f as [|f IH]; intros n s Hn.
  - cbn [dec_go]. exists (n mod 10), s. split; [lia|]. by destruct (n <? 10).
  - cbn [dec_go]. destruct (n <? 10); [exists (n mod 10), s; split; [lia|done]|]. apply IH. lia.
Qed.

(** The rest of the line after a number. *)
Definition ends_number (s : string) : Prop := starts_with_digit s = false.

Lemma take_digits_end a s : ends_number s -> take_digits a s = (a, s).
Proof. destruct s as [|c s]; [done|]. unfold ends_number; simpl. by destruct (digit_of c). Qed.

Lemma scan_lu_dec n s : 0 <= n < 2 ^ 64 -> ends_number s -> scan_lu (dec n s) = (Some n, s).
Proof.
  intros Hn Hs. unfold dec. destruct (take_digits_dec_go 20 n s 0) as [k Hk]; [lia|].
  destruct (dec_go_head 19 n s) as (d & t & Hd & Ht); [lia|]. rewrite Ht in *.
  unfold scan_lu. simpl. rewrite digit_not_space by done. destruct (digit_no_sign d Hd) as [-> ->].
  unfold scan_digits, starts_with_digit. rewrite digit_of_digit by done. simpl from_option. cbn iota.
  rewrite Hk, take_digits_end by done. unfold ULONG_MAX. replace (0 * k + n) with n by lia.
  by replace (2 ^ 64 - 1 <? n) with false by lia.
Qed.

Lemma scan_lu_space c s : is_space c = true -> scan_lu (String c s) = scan_lu s.
Proof. intros H. unfold scan_lu. simpl. by rewrite H. Qed.

Lemma print_args_ends l s : ends_number (print_args l s).
Proof. by destruct l. Qed.

Definition arg_ok (a : Z) : Prop := 0 <= a < 2 ^ 64.

Lemma scan_lus_print l : forall n s, Forall arg_ok l -> n = length l ->
  scan_lus n (print_args l s) = (l, String newline s).
Proof.
  induction l as [|a l IH]; intros n s Hl ->; [done|]. inversion_clear Hl. cbn [scan_lus print_args length].
  rewrite scan_lu_space by done. rewrite scan_lu_dec by (done || apply print_args_ends). by rewrite IH.
Qed.

Lemma args_length ins : length (args ins) = arity (opcode ins).
Proof. unfold args. by destruct (opcode ins). Qed.

(** ** Lines *)

Fixpoint no_newline (s : string) : Prop :=
  match s with String c s => code_of c <> 10 /\ no_newline s | EmptyString => True end.

Lemma fgets_line w : forall n s, no_newline w -> (String.length w < n)%nat ->
  fgets n (String.append w (String newline s)) = (String.append w (String newline EmptyString), s).
Proof.
  induction w as [|c w IH]; intros [|n] s Hw Hn; simpl in *; try lia; [done|].
  destruct Hw as [Hc Hw]. rewrite (proj2 (Z.eqb_neq _ _) Hc), IH; [done|done|lia].
Qed.

Lemma dec_go_app f : forall n a s, dec_go f n (String.append a s) = String.append (dec_go f n a) s.
Proof.
  induction f as [|f IH]; intros n a s; [done|]. cbn [dec_go].
  destruct (n <? 10); [done|]. by rewrite <- (IH _ (String _ a)).
Qed.

Lemma dec_go_length f : forall n s, (String.length (dec_go f n s) <= f + String.length s)%nat.
Proof.
  induction f as [|f IH]; intros n s; [done|]. cbn [dec_go]. destruct (n <? 10); [simpl; lia|].
  etransitivity; [apply IH|]. simpl. lia.
Qed.

Lemma digit_no_newline d : 0 <= d < 10 -> code_of (digit d) <> 10.
Proof. intros H. unfold code_of, digit. rewrite N_ascii_embedding by lia. rewrite Z2N.id; lia. Qed.

Lemma dec_go_no_newline f : forall n s, no_newline s -> no_newline (dec_go f n s).
Proof.
  induction f as [|f IH]; intros n s Hs; [done|]. cbn [dec_go].
  assert (Hd : no_newline (String (digit (n mod 10)) s)) by (split; [apply digit_no_newline; lia|done]).
  destruct (n <? 10); [done|by apply IH].
Qed.

Lemma length_append a b : String.length (String.append a b) = (String.length a + String.length b)%nat.
Proof. induction a; simpl; auto. Qed.

Lemma append_assoc a b c : String.append (String.append a b) c = String.append a (String.append b c).
Proof. induction a as [|x a IH]; simpl; [done|]. by rewrite IH. Qed.

Lemma no_newline_append a b : no_newline a -> no_newline b -> no_newline (String.append a b).
Proof. intros Ha Hb. induction a; simpl in *; tauto. Qed.

(** The arguments of a printed line before its newline. *)
Fixpoint args_body (l : list Z) : string :=
  match l with [] => EmptyString | a :: l => String " "%char (String.append (dec a EmptyString) (args_body l)) end.

Lemma print_args_body l s : print_args l s = String.append (args_body l) (String newline s).
Proof.
  induction l as [|a l IH]; [done|]. cbn [print_args args_body]. rewrite IH. cbn [String.append]. f_equal. rewrite append_assoc. unfold dec.
  by rewrite <- dec_go_app.
Qed.

Lemma args_body_line l : no_newline (args_body l) /\ (String.length (args_body l) <= 21 * length l)%nat.
Proof.
  induction l as [|a l [IH1 IH2]]; [done|]. simpl. split.
  - split; [done|]. apply no_newline_append; [|done]. by apply dec_go_no_newline.
  - rewrite length_append. pose proof (dec_go_length 20 a EmptyString) as Hd. fold (dec a EmptyString) in Hd.
    change (String.length EmptyString) with O in Hd. lia.
Qed.

(** ** Words *)

Fixpoint no_space (s : string) : Prop :=
  match s with String c s => is_space c = false /\ no_space s | EmptyString => True end.
Definition ends_word (s : string) : Prop := match s with String c _ => is_space c = true | EmptyString => True end.

Lemma take_word_append w s : no_space w -> ends_word s -> take_word (String.append w s) = (w, s).
Proof.
  intros Hw Hs. induction w as [|c w IH]; simpl in *.
  - destruct s as [|c s]; [done|]. simpl in *. by rewrite Hs.
  - destruct Hw as [-> Hw]. by rewrite IH.
Qed.

Lemma opcode_name_word op : no_space (opcode_name op) /\ opcode_name op <> EmptyString.
Proof. destruct op; vm_compute; split; try done; tauto. Qed.

Lemma get_opcode_name op : get_opcode (opcode_name op) = Ok op.
Proof. by destruct op. Qed.

Lemma skip_space_word w s : no_space w -> w <> EmptyString -> skip_space (String.append w s) = String.append w s.
Proof. destruct w as [|c w]; [done|]. intros [Hc _] _. simpl. by rewrite Hc. Qed.

Lemma print_args_ends_word l s : ends_word (print_args l s).
Proof. by destruct l. Qed.

(** ** Reading a printed instruction *)

(** Opcode names the buffer can hold. *)
Definition short_opcode (op : ins_opcode_t) : bool := (String.length (opcode_name op) <? OPCODE_BUF_SZ)%nat.

Lemma wp_read_opcode op s r (Q : ins_opcode_t -> reader -> Prop) :
  skip_space (file r) = String.append (opcode_name op) s -> ends_word s -> short_opcode op = true ->
  Q op (mk_reader s (Some (opcode_name op)) (buf r)) -> wp read_opcode Q r.
Proof.
  intros Hf Hs Hop HQ. destruct (opcode_name_word op) as [Hw Hne]. unfold read_opcode. wp_steps.
  unfold scan_s. rewrite Hf, take_word_append by done. unfold short_opcode in Hop.
  destruct (opcode_name op) as [|c w] eqn:Hn; [done|]. rewrite Hop. rewrite <- Hn in *. wp_steps.
  eapply wp_intro; [by rewrite get_opcode_name|]. done.
Qed.

Lemma wp_read_args l s r (Q : list Z -> reader -> Prop) :
  file r = print_args l s -> Forall arg_ok l ->
  Q l (mk_reader (skip_space s) (opcode_buf r) (buf r)) -> wp (read_args (length l)) Q r.
Proof.
  intros Hf Hl HQ. unfold read_args. wp_steps. rewrite Hf, scan_lus_print by done. rewrite Nat.eqb_refl.
  wp_steps. done.
Qed.

Lemma wp_read_line_args l s r (Q : list Z -> reader -> Prop) :
  file r = print_args l s -> Forall arg_ok l -> length l = 4%nat ->
  (forall b, Q l (mk_reader s (opcode_buf r) (Some b))) -> wp read_line_args Q r.
Proof.
  intros Hf Hl Hlen HQ. destruct (args_body_line l) as [Hb1 Hb2]. unfold read_line_args. wp_steps.
  rewrite Hf, print_args_body, fgets_line by (done || (unfold BUF_SZ; lia)).
  destruct (String.append (args_body l) (String newline s)) eqn:Hne; [by destruct (args_body l)|].
  wp_steps. rewrite <- print_args_body, scan_lus_print by (done || lia). apply HQ.
Qed.

(** Equal up to the arguments the instruction does not have. *)
Definition same_inst (i j : inst_t) : Prop := opcode i = opcode j /\ args i = args j.

Lemma store_args_same ins junk : same_inst ins (store_args (args ins) (set_opcode (opcode ins) junk)).
Proof. split; [done|]. unfold args, store_args, set_opcode. simpl. by destruct (opcode ins). Qed.

Definition inst_ok (ins : inst_t) : Prop := Forall arg_ok (args ins).

Lemma wp_read_inst ins l junk r (Q : inst_t -> reader -> Prop) :
  skip_space (file r) = print_inst ins (print_text l) -> inst_ok ins -> short_opcode (opcode ins) = true ->
  (forall i r', same_inst ins i -> skip_space (file r') = print_text l -> Q i r') ->
  wp (read_inst junk) Q r.
Proof.
  intros Hf Hok Hop HQ.
  assert (Hskip : skip_space (print_text l) = print_text l).
  { destruct l as [|i l]; [done|]. simpl. unfold print_inst. destruct (opcode_name_word (opcode i)).
    by apply skip_space_word. }
  unfold read_inst. wp_step. eapply wp_read_opcode; [exact Hf|apply print_args_ends_word|done|].
  pose proof (args_length ins) as Hlen. pose proof (store_args_same ins junk) as Hsame.
  destruct (opcode ins) eqn:Ho; try done; simpl in Hlen.
  - wp_steps. apply HQ; [split; [done|unfold args; by rewrite Ho]|].
    unfold args. rewrite Ho. simpl. exact Hskip.
  - wp_step. rewrite <- Hlen. eapply wp_read_args; [done|done|]. wp_steps. apply HQ; [done|]. simpl. by rewrite !Hskip.
  - wp_step. rewrite <- Hlen. eapply wp_read_args; [done|done|]. wp_steps. apply HQ; [done|]. simpl. by rewrite !Hskip.
  - wp_step. rewrite <- Hlen. eapply wp_read_args; [done|done|]. wp_steps. apply HQ; [done|]. simpl. by rewrite !Hskip.
  - wp_step. rewrite <- Hlen. eapply wp_read_args; [done|done|]. wp_steps. apply HQ; [done|]. simpl. by rewrite !Hskip.
  - wp_step. rewrite <- Hlen. eapply wp_read_args; [done|done|]. wp_steps. apply HQ; [done|]. simpl. by rewrite !Hskip.
  - wp_step. eapply wp_read_line_args; [done|done|done|]. intros b. wp_steps. apply HQ; [done|]. done.
Qed.

Lemma wp_read_text l : forall junk r (Q : list inst_t -> reader -> Prop),
  skip_space (file r) = print_text l -> Forall inst_ok l ->
  Forall (fun i => short_opcode (opcode i) = true) l -> length junk = length l ->
  (forall l' r', Forall2 same_inst l l' -> Q l' r') -> wp (read_text junk) Q r.
Proof.
  induction l as [|ins l IH]; intros [|j junk] r Q Hf Hok Hs Hlen HQ; try done.
  { wp_steps. by apply HQ. }
  inversion_clear Hok. inversion_clear Hs. cbn [read_text]. wp_step.
  eapply wp_read_inst; [exact Hf|done..|]. intros i r1 Hi Hr1. wp_step.
  eapply IH; [exact Hr1|done|done|by injection Hlen|]. intros l' r2 Hl'. wp_steps. apply HQ. by constructor.
Qed.

(** The head of a printed file. *)
Lemma scan_header prio n s :
  0 <= prio < 2 ^ 32 -> 0 <= n < 2 ^ 32 ->
  exists rest, scan_u (dec prio (String " "%char (dec n (String newline s)))) = (Some prio, rest) /\
               scan_u rest = (Some n, String newline s).
Proof.
  intros Hp Hn. eexists. unfold scan_u. rewrite scan_lu_dec by (done || lia). split; [simpl; by rewrite u32_small|].
  rewrite scan_lu_space by done. rewrite scan_lu_dec by (done || lia). simpl. by rewrite u32_small.
Qed.

Lemma skip_newline s : skip_space (String newline s) = skip_space s.
Proof. done. Qed.

Lemma skip_print_text l : skip_space (print_text l) = print_text l.
Proof.
  destruct l as [|i l]; [done|]. simpl. unfold print_inst. destruct (opcode_name_word (opcode i)).
  by apply skip_space_word.
Qed.

(** The whole file. *)
Lemma load_printed avail_pid proc text prio l :
  0 <= prio < 2 ^ 32 -> Z.of_nat (length l) < 2 ^ 32 -> length (text (length l)) = length l ->
  Forall inst_ok l -> Forall (fun i => short_opcode (opcode i) = true) l ->
  exists l', Forall2 same_inst l l' /\
    load avail_pid proc text (Some (print_program prio l)) =
    Ok (mk_pcb avail_pid prio (mk_code l' (Z.of_nat (length l))) (regs proc) 0 (Kernel.prio proc)
          (p_krnl proc) PAGE_SIZE (p_mm proc), u32 (avail_pid + 1)).
Proof.
  intros Hp Hn Hlen Hok Hs. destruct (scan_header prio (Z.of_nat (length l)) (print_text l)) as (rest & H1 & H2); [done|lia|].
  destruct (wp_elim (read_text (text (length l))) (fun l' _ => Forall2 same_inst l l')
              (mk_reader (String newline (print_text l)) None None)) as (l' & r' & Hrun & Hsame).
  { eapply wp_read_text; [exact (skip_print_text l)|done..]. }
  exists l'. split; [done|]. unfold load, print_program. rewrite H1, H2, Nat2Z.id, Hrun. done.
Qed.

(** Reading stops at the first instruction whose name is too long. *)
Lemma read_text_overflow l1 ins l2 : forall junk r,
  skip_space (file r) = print_text (l1 ++ ins :: l2) -> Forall inst_ok l1 ->
  Forall (fun i => short_opcode (opcode i) = true) l1 -> short_opcode (opcode ins) = false ->
  length junk = length (l1 ++ ins :: l2) -> read_text junk r = Undef.
Proof.
  induction l1 as [|i l1 IH]; intros [|j junk] r Hf Hok Hs Hop Hlen; try done; cbn [read_text app] in *.
  - destruct (opcode_name_word (opcode ins)) as [Hw Hne].
    unfold read_inst, read_opcode, bind at 1 2 3, gets, scan_s. rewrite Hf. unfold print_text, print_inst.
    rewrite take_word_append by (done || apply print_args_ends_word). unfold short_opcode in Hop.
    destruct (opcode_name (opcode ins)) as [|c w]; [done|]. unfold bind. by rewrite Hop.
  - inversion_clear Hok. inversion_clear Hs.
    destruct (wp_elim (read_inst j) (fun i' r' => skip_space (file r') = print_text (l1 ++ ins :: l2)) r) as (i' & r1 & Hi' & Hr1).
    { eapply (wp_read_inst i (l1 ++ ins :: l2)); [done..|]. auto. }
    unfold bind at 1. rewrite Hi'. unfold bind. rewrite (IH junk r1); [done..|]. by injection Hlen.
Qed.

(** ** Properties *)

(** C19 (roundtrip): a printed program is loaded as it was.  For every program
    whose opcodes fit the loader's buffer and whose arguments are 64-bit
    numbers, [load] of its text gives a process with that code - opcode and
    arguments of each instruction, whatever the fresh memory held -, the
    priority of the file, the program counter 0 and the next free PID. *)
Theorem load_print avail_pid proc text prio l :
  0 <= prio < 2 ^ 32 -> Z.of_nat (length l) < 2 ^ 32 -> length (text (length l)) = length l ->
  Forall inst_ok l -> Forall (fun i => short_opcode (opcode i) = true) l ->
  exists l', Forall2 same_inst l l' /\
    load avail_pid proc text (Some (print_program prio l)) =
    Ok (mk_pcb avail_pid prio (mk_code l' (Z.of_nat (length l))) (regs proc) 0 (Kernel.prio proc)
          (p_krnl proc) PAGE_SIZE (p_mm proc), u32 (avail_pid + 1)).
Proof. apply load_printed. Qed.

(** Long opcodes overflow the loader's buffer.  The names
    [kmem_cache_create], [kmem_cache_alloc], [copy_from_user] and
    [copy_to_user] do not fit [char opcode[10]]: loading any well-formed
    program that contains one of them is undefined behaviour. *)
Theorem load_long_opcode avail_pid proc text prio l1 ins l2 :
  0 <= prio < 2 ^ 32 -> Z.of_nat (length (l1 ++ ins :: l2)) < 2 ^ 32 ->
  (forall n, length (text n) = n) -> Forall inst_ok l1 ->
  opcode ins ∈ [KMEM_CACHE_CREATE; KMEM_CACHE_ALLOC; COPY_FROM_USER; COPY_TO_USER] ->
  load avail_pid proc text (Some (print_program prio (l1 ++ ins :: l2))) = Undef.
Proof.
  intros Hp Hn Hlen Hok Hop. set (l := l1 ++ ins :: l2) in *.
  destruct (scan_header prio (Z.of_nat (length l)) (print_text l)) as (rest & H1 & H2); [done|lia|].
  unfold load, print_program. rewrite H1, H2, Nat2Z.id.
  assert (Hfirst : exists a i b, l = a ++ i :: b /\ Forall inst_ok a /\
            Forall (fun i => short_opcode (opcode i) = true) a /\ short_opcode (opcode i) = false).
  { assert (Hi : short_opcode (opcode ins) = false) by (repeat (apply elem_of_cons in Hop as [->|Hop]; [done|]); by apply not_elem_of_nil in Hop).
    unfold l. clear -Hok Hi. induction Hok as [|i l1 Hi1 Hok IH]; [by exists [], ins, l2|].
    destruct (short_opcode (opcode i)) eqn:Hs; [|by exists [], i, (l1 ++ ins :: l2)].
    destruct IH as (a & j & b & Heq & Ha & Hsa & Hj). exists (i :: a), j, b. split_and!; [by rewrite <- app_comm_cons, Heq|..|done].
    - by constructor.
    - by constructor. }
  destruct Hfirst as (a & i & b & Heq & Ha & Hs & Hi).
  rewrite (read_text_overflow a i b); try done.
  - simpl. by rewrite skip_print_text, Heq.
  - by rewrite Hlen, Heq.
Qed.

Definition prog : list inst_t :=
  [mk_inst CALC 0 0 0 0; mk_inst ALLOC 300 0 0 0; mk_inst WRITE 100 0 20 0; mk_inst READ 0 20 1 0;
   mk_inst FREE 0 0 0 0; mk_inst SYSCALL 17 18446744073709551615 2 3].
Definition junk_pcb : pcb_t := mk_pcb 9 9 (mk_code [] 0) (replicate 10 5) 9 9 0 9 0.
Definition junk_text (n : nat) : list inst_t := replicate n (mk_inst FREE 7 7 7 7).

Lemma load_print_witness : exists l', Forall2 same_inst prog l' /\
  load 1 junk_pcb junk_text (Some (print_program 12 prog)) =
  Ok (mk_pcb 1 12 (mk_code l' 6) (replicate 10 5) 0 9 0 1024 0, 2).
Proof.
  apply (load_print 1 junk_pcb junk_text 12 prog); [done|done|done| |by repeat constructor].
  unfold prog. repeat apply Forall_cons_2; try apply Forall_nil_2; unfold inst_ok; simpl;
    repeat apply Forall_cons_2; try apply Forall_nil_2; unfold arg_ok; lia.
Defined.

Lemma load_long_opcode_witness :
  load 1 junk_pcb junk_text (Some (print_program 12 ([mk_inst CALC 0 0 0 0] ++ mk_inst COPY_TO_USER 0 1 2 3 :: []))) = Undef.
Proof.
  apply load_long_opcode; [done|done| | |set_solver].
  - intros n. apply length_replicate.
  - repeat constructor.
Defined.

(** The text of a program, as in the input files. *)
Example print_prog : print_program 12 [mk_inst CALC 0 0 0 0; mk_inst ALLOC 300 0 0 0] =
  String.append "12 2" (String newline (String.append "calc" (String newline (String.append "alloc 300 0" (String newline EmptyString))))).
Proof. vm_compute. reflexivity. Qed.
