(* ===== verification/Boot.v ===== *)
(** * A new address space: [init_mm] of [src/mm64.c]

    [init_mm] extends the invariants of paging and of the region allocator to
    a new memory descriptor. *)

From S2P Require Import Prelude Pte MemPhy Kernel PageTable Mm64 MmVm Syscall LibMem VMem Alloc.

(** The descriptor [init_mm] leaves at a fresh address, with root table
    [root]. *)
Definition fresh_vma : vm_area_struct := mk_vma 0 0 0 0 [mk_rg None 0 0].
Definition fresh_mm (root : Z) : mm_struct :=
  mk_mm root [fresh_vma] (replicate (Z.to_nat PAGING_MAX_SYMTBL_SZ) (mk_rg None 0 0)) [] None
        (mk_stats 0 0 0 1 PGTBL_TABLE_BYTES).
Definition with_space (p : Z) (s : sys) : sys :=
  set_mms (<[p := fresh_mm (next_table (heap s))]> (mms s)) (with_fresh s).

Lemma walk_empty_root tb a path : tb !! a = Some ∅ -> path <> [] -> walk tb a path = None.
Proof. intros Ha. destruct path as [|i path]; [done|]. intros _. simpl. by rewrite Ha. Qed.

Lemma dirs_of_ne pgn : dirs_of pgn <> [].
Proof. intros H. pose proof (dirs_of_length pgn) as Hl. by rewrite H in Hl. Qed.

(** The new root is owned by the new space. *)
Lemma with_space_wf ow s p :
  pt_wf_by ow s -> mms s !! p = None ->
  pt_wf_by (<[next_table (heap s) := (p, [])]> ow) (with_space p s).
Proof.
  intros Hwf Hp. destruct (fresh_step ow s Hwf) as [Hwf1 _]. set (new := next_table (heap s)).
  assert (Hnew : ow !! new = None).
  { destruct (ow !! new) eqn:Ho; [|done]. pose proof (owned_pos _ _ _ _ Hwf Ho). unfold new in *. lia. }
  split.
  - intros a. rewrite lookup_insert. case_decide as Ha; [subst a; intros _; simpl; rewrite lookup_insert_eq; eauto|].
    apply (ow_dom _ _ Hwf1).
  - apply (ow_addr _ _ Hwf1).
  - apply (ow_next _ _ Hwf1).
  - intros q m Hm. simpl in Hm. rewrite lookup_insert in Hm. case_decide; simplify_eq.
    + simpl. by rewrite lookup_insert_eq.
    + pose proof (ow_root _ _ Hwf _ _ Hm) as Ho. rewrite lookup_insert_ne; [done|]. intros Heq.
      rewrite <- Heq in Ho. congruence.
  - intros a q path i e t Ha Hl Ht He Hne. rewrite lookup_insert in Ha. case_decide as Hd; simplify_eq.
    + simpl in Ht. rewrite lookup_insert_eq in Ht. by simplify_eq.
    + pose proof (ow_child _ _ Hwf1 _ _ _ _ _ _ Ha Hl Ht He Hne) as Ho.
      rewrite lookup_insert_ne; [done|]. intros <-. congruence.
Qed.

(** No entry of any page changes: the new space has none. *)
Lemma with_space_ptes ow s p q g :
  pt_wf_by ow s -> mms s !! p = None -> pte_of (with_space p s) q g = pte_of s q g.
Proof.
  intros Hwf Hp. destruct (fresh_step ow s Hwf) as [_ Hst]. destruct (decide (q = p)) as [->|Hne].
  - unfold pte_of, pte_slot. simpl mms. rewrite lookup_insert_eq, Hp. simpl.
    rewrite walk_empty_root; [done| |apply dirs_of_ne]. by rewrite lookup_insert_eq.
  - rewrite <- (ps_ptes _ _ Hst q g). unfold pte_of, pte_slot. simpl mms. by rewrite lookup_insert_ne.
Qed.

Lemma fresh_reg_inv root : reg_inv (fresh_mm root) fresh_vma 0.
Proof.
  assert (Hc : forall n x, cover (replicate n (mk_rg None 0 0)) x = 0).
  { induction n as [|n IH]; intros x; simpl; [done|]. by rewrite IH, cnt_empty. }
  split; try done.
  - unfold regions. apply Forall_app. split; [|by repeat constructor].
    apply Forall_replicate. by split.
  - intros x. unfold regions. rewrite cover_app. cbn [symrgtbl fresh_mm]. rewrite Hc. cbn [vm_freerg_list fresh_vma cover].
    rewrite cnt_empty. lia.
Qed.

(** [init_mm] on a host with memory. *)
Lemma init_mm_spec p c s :
  p <> NULL -> p_krnl c <> NULL -> s_host s = [] -> 0 < next_table (heap s) ->
  init_mm p (Some c) s = Ok (0, with_space p s).
Proof.
  intros Hp Hk Hh Hn. change (host s = []) in Hh.
  unfold init_mm, no_krnl, init_vm_rg, calloc_table, malloc, bind, gets, modify, ret.
  rewrite (proj2 (Z.eqb_neq p _)), (proj2 (Z.eqb_neq (p_krnl c) _)) by done. cbn [orb].
  rewrite Hh. cbn [negb]. rewrite Hh. cbn iota beta. rewrite (proj2 (Z.eqb_neq (next_table (heap s)) NULL)) by (unfold NULL; lia).
  change (host (set_heap _ s)) with (host s). by rewrite Hh.
Qed.

(** The paging invariant with the device pointers written out: before the
    first process is loaded the kernel object does not hold them. *)
Record machine_at (ram swp : Z) (s : sys) (rd sd : memphy_struct) : Prop := {
  ma_wf : pt_wf s;
  ma_host : s_host s = [];
  ma_ramp : ram <> NULL;
  ma_ram : devs s !! ram = Some rd;
  ma_swapp : swp <> NULL;
  ma_swap : devs s !! swp = Some sd;
  ma_ne : ram <> swp;
  ma_rok : dev_ok rd /\ storage_len rd <= 2 ^ 25;
  ma_sok : dev_ok sd;
  ma_vm : vm_inv (view_of s) (fifo_of s) rd sd;
}.

Lemma machine_at_mem_inv ram swp s rd sd :
  k_mram (os s) = ram -> k_active_mswp (os s) = swp -> machine_at ram swp s rd sd <-> mem_inv s rd sd.
Proof.
  intros <- <-. split.
  - intros []. split; [by split|done].
  - intros [[] Hv]. by split.
Qed.

(** A space with no pages and no queue. *)
Lemma vm_inv_fresh V F rd sd p : vm_inv V F rd sd -> F p = None -> vm_inv V (updf F p []) rd sd.
Proof.
  intros Hv Hp. destruct Hv. split; try done.
  - intros q l g Hq Hg. unfold updf in Hq. case_decide; simplify_eq; [by apply not_elem_of_nil in Hg|by eapply vi_fifo].
  - intros q l Hq. unfold updf in Hq. case_decide; simplify_eq; [by constructor|by eapply vi_nodup].
Qed.

Lemma with_space_machine ram swp s rd sd p :
  machine_at ram swp s rd sd -> mms s !! p = None -> machine_at ram swp (with_space p s) rd sd.
Proof.
  intros Hma Hp. destruct Hma. destruct ma_wf0 as [ow Hwf]. split; try done.
  - eexists. by apply with_space_wf.
  - eapply vm_inv_ext; [| |apply (vm_inv_fresh (view_of s) (fifo_of s) rd sd p); [done|]].
    + intros q g. unfold view_of. by erewrite with_space_ptes.
    + intros q. unfold fifo_of, updf. simpl. rewrite lookup_insert.
      destruct (decide (p = q)) as [->|]; [by rewrite decide_True|by rewrite decide_False by congruence].
    + unfold fifo_of. by rewrite Hp.
Qed.

Lemma machine_next ram swp s rd sd : machine_at ram swp s rd sd -> 0 < next_table (heap s).
Proof. intros Hma. destruct (ma_wf _ _ _ _ _ Hma) as [ow Hwf]. apply (ow_next _ _ Hwf). Qed.

(** ** Properties *)

(** C28 (type): a new address space is well formed.  On a machine with the
    paging invariant, [init_mm] of a fresh descriptor returns 0 and leaves a
    descriptor with the region invariant, an area of no pages and an empty
    page queue; all its pages are absent, no page of another space changes,
    and the paging invariant holds of the extended machine.  When the host
    has no memory for one of the three allocations, the call returns -1 and
    no descriptor or table is left behind. *)
Theorem init_mm_well_formed p c ram swp s rd sd :
  machine_at ram swp s rd sd -> p <> NULL -> p_krnl c <> NULL -> mms s !! p = None ->
  wp (init_mm p (Some c)) (fun r s' => r = 0 /\ machine_at ram swp s' rd sd /\
    (exists m v, mms s' !! p = Some m /\ reg_inv m v 0 /\ fifo_pgn m = []) /\
    (forall q, q <> p -> mms s' !! q = mms s !! q) /\
    (forall g, view_of s' p g = Absent) /\ (forall q g, view_of s' q g = view_of s q g) /\
    procs s' = procs s /\ os s' = os s /\ devs s' = devs s) s /\
  forall k l, (k < 3)%nat ->
  wp (init_mm p (Some c)) (fun r s' => r = -1 /\ mms s' = mms s /\ tables (heap s') = tables (heap s))
     (set_host (replicate k false ++ true :: l) s).
Proof.
  intros Hma Hp Hk Hm. pose proof (machine_next _ _ _ _ _ Hma) as Hn. pose proof Hma as [Hwf Hh _ _ _ _ _ _ _ _].
  destruct Hwf as [ow Hwf]. split.
  - eapply wp_intro; [by apply init_mm_spec|]. split; [done|]. split; [by apply with_space_machine|].
    split_and!; try done.
    + eexists _, _. split; [simpl; by rewrite lookup_insert_eq|]. split; [apply fresh_reg_inv|done].
    + intros q Hq. simpl. by rewrite lookup_insert_ne.
    + intros g. unfold view_of. erewrite with_space_ptes by done. unfold pte_of, pte_slot. by rewrite Hm.
    + intros q g. unfold view_of. by erewrite with_space_ptes.
  - intros k l Hl. unfold wp, init_mm, no_krnl, init_vm_rg, calloc_table, malloc, bind, gets, modify, ret, host, set_host, sys_host.
    rewrite (proj2 (Z.eqb_neq p _)), (proj2 (Z.eqb_neq (p_krnl c) _)) by done.
    destruct k as [|[|[|k]]]; [done|done| |lia]. simpl.
    rewrite (proj2 (Z.eqb_neq (next_table (heap s)) NULL)) by (unfold NULL; lia). simpl.
    split_and!; [done|done|]. apply delete_insert_id. by eapply next_fresh.
Qed.
