(* ===== verification/Timer.v ===== *)
(** * The timer: [src/timer.c]

    Time slots are a barrier between the timer thread and the device threads
    (the CPUs and the loader).  A device is attached before the timer starts;
    [next_slot] reports that the work of the slot is over and blocks until the
    timer has heard from all devices.  The threads interleave: one step of the
    relation below is one section of code under [event_lock] or [timer_lock]
    (the flags of a device are written under the two locks its waiter holds,
    so a [pthread_cond_wait] loop is a step enabled by its condition). *)

From S2P Require Import Prelude.

(** The thread that owns a device: outside [timer.c], between the two halves
    of [next_slot], past [detach_event], or ended without detaching. *)
Inductive thread := Working | InNextSlot | Detached | Lost.

(** [struct timer_id_t]: the two flags, and of its thread the position and
    the number of calls of [next_slot] that have returned. *)
Record timer_id_t := mk_id { t_done : bool; t_fsh : bool; t_thread : thread; t_slots : Z }.

(** The position of [timer_routine]: at the loop test, in the first loop at
    device [i], in the second loop at device [i], or ended. *)
Inductive timer_pc :=
| T_test
| T_wait (i : nat) (fsh event : Z)
| T_release (i : nat) (fsh event : Z)
| T_exit.

Record timer_st := mk_timer {
  dev_list : list timer_id_t; _time : Z; timer_stop : bool; timer_at : timer_pc;
}.

Definition set_at (p : timer_pc) (s : timer_st) : timer_st :=
  mk_timer (dev_list s) (_time s) (timer_stop s) p.
Definition set_dev (i : nat) (d : timer_id_t) (s : timer_st) : timer_st :=
  mk_timer (<[i := d]> (dev_list s)) (_time s) (timer_stop s) (timer_at s).

(** [attach_event]: a device with both flags clear is put first; after
    [start_timer] none is attached ([None] is NULL). *)
Definition attach_event (timer_started : bool) (l : list timer_id_t) : option (list timer_id_t) :=
  if timer_started then None else Some (mk_id false false Working 0 :: l).

(** [n] devices attached, then [start_timer]. *)
Fixpoint attached (n : nat) : list timer_id_t :=
  match n with
  | O => []
  | S n => from_option id [] (attach_event false (attached n))
  end.
Definition start_timer (n : nat) : timer_st := mk_timer (attached n) 0 false T_test.

Definition current_time (s : timer_st) : Z := _time s.

(** One section of [timer_routine]; [None] when it waits or has ended. *)
Definition timer_routine (s : timer_st) : option timer_st :=
  match timer_at s with
  | T_test => Some (set_at (if timer_stop s then T_exit else T_wait 0 0 0) s)
  | T_wait i fsh event =>
      match dev_list s !! i with
      | Some d =>
          if t_done d || t_fsh d then
            Some (set_at (T_wait (S i) (if t_fsh d then fsh + 1 else fsh) (event + 1)) s)
          else None
      | None =>
          Some (mk_timer (dev_list s) (u64 (_time s + 1)) (timer_stop s) (T_release 0 fsh event))
      end
  | T_release i fsh event =>
      match dev_list s !! i with
      | Some d =>
          Some (set_at (T_release (S i) fsh event)
                  (set_dev i (mk_id false (t_fsh d) (t_thread d) (t_slots d)) s))
      | None => Some (set_at (if fsh =? event then T_exit else T_test) s)
      end
  | T_exit => None
  end.

(** The two halves of [next_slot], [detach_event], and the end of a thread
    that does not call it. *)
Definition next_slot_done (d : timer_id_t) : option timer_id_t :=
  match t_thread d with
  | Working => Some (mk_id true (t_fsh d) InNextSlot (t_slots d))
  | _ => None
  end.
Definition next_slot_wait (d : timer_id_t) : option timer_id_t :=
  match t_thread d with
  | InNextSlot => if t_done d then None else Some (mk_id (t_done d) (t_fsh d) Working (t_slots d + 1))
  | _ => None
  end.
Definition detach_event (d : timer_id_t) : option timer_id_t :=
  match t_thread d with
  | Working => Some (mk_id (t_done d) true Detached (t_slots d))
  | _ => None
  end.
Definition end_thread (d : timer_id_t) : option timer_id_t :=
  match t_thread d with
  | Working => Some (mk_id (t_done d) (t_fsh d) Lost (t_slots d))
  | _ => None
  end.

Definition ended (d : timer_id_t) : bool :=
  match t_thread d with Detached | Lost => true | _ => false end.

(** [stop_timer] is called when all threads have been joined; it sets the
    flag, waits for the timer thread and frees the list. *)
Inductive stop_timer : timer_st -> timer_st -> Prop :=
| stop_flag s :
    Forall (fun d => ended d = true) (dev_list s) ->
    stop_timer s (mk_timer (dev_list s) (_time s) true (timer_at s))
| stop_free s :
    timer_stop s = true -> timer_at s = T_exit ->
    stop_timer s (mk_timer [] (_time s) true T_exit).

Inductive device_step (act : timer_id_t -> option timer_id_t) : timer_st -> timer_st -> Prop :=
| device_acts s i d d' :
    dev_list s !! i = Some d -> act d = Some d' -> device_step act s (set_dev i d' s).

(** The steps the timer and the woken devices make by themselves, and all
    steps. *)
Inductive wakes : timer_st -> timer_st -> Prop :=
| wakes_timer s s' : timer_routine s = Some s' -> wakes s s'
| wakes_device s s' : device_step next_slot_wait s s' -> wakes s s'.

Inductive tstep : timer_st -> timer_st -> Prop :=
| ts_wakes s s' : wakes s s' -> tstep s s'
| ts_done s s' : device_step next_slot_done s s' -> tstep s s'
| ts_detach s s' : device_step detach_event s s' -> tstep s s'
| ts_end s s' : device_step end_thread s s' -> tstep s s'
| ts_stop s s' : stop_timer s s' -> tstep s s'.

(** ** The barrier invariant

    [k] ticks have happened.  A device the timer still has to release in the
    second loop is pending. *)

Definition pending (p : timer_pc) (i : nat) : Prop :=
  match p with T_release j _ _ => (j <= i)%nat | _ => False end.

Definition dev_ok (k : Z) (p : timer_pc) (i : nat) (d : timer_id_t) : Prop :=
  match t_thread d with
  | Working | Lost => t_done d = false /\ t_fsh d = false /\ t_slots d = k /\ ~ pending p i
  | Detached => t_done d = false /\ t_fsh d = true /\ t_slots d <= k
  | InNextSlot =>
      t_fsh d = false /\
      if t_done d then (pending p i /\ t_slots d + 1 = k \/ ~ pending p i /\ t_slots d = k)
      else ~ pending p i /\ t_slots d + 1 = k
  end.

Definition heard (d : timer_id_t) : Prop := t_done d = true \/ t_fsh d = true.

(** What the timer knows at its position: in the first loop the devices
    passed have reported; the counters agree exactly when all the devices
    counted are detached. *)
Definition pc_ok (l : list timer_id_t) (p : timer_pc) : Prop :=
  match p with
  | T_test => True
  | T_wait i fsh event =>
      (i <= length l)%nat /\ fsh <= event /\
      (forall j d, (j < i)%nat -> l !! j = Some d -> heard d) /\
      (fsh = event -> forall j d, (j < i)%nat -> l !! j = Some d -> t_thread d = Detached) /\
      (fsh < event -> exists j d, (j < i)%nat /\ l !! j = Some d /\ t_thread d = InNextSlot /\ t_done d = true)
  | T_release i fsh event =>
      (i <= length l)%nat /\ fsh <= event /\
      (fsh = event -> forall j d, l !! j = Some d -> t_thread d = Detached)
  | T_exit => forall j d, l !! j = Some d -> ended d = true
  end.

Record tinv (k : Z) (s : timer_st) : Prop := {
  ti_k : 0 <= k;
  ti_time : _time s = u64 k;
  ti_dev i d : dev_list s !! i = Some d -> dev_ok k (timer_at s) i d;
  ti_pc : pc_ok (dev_list s) (timer_at s);
  ti_stop : timer_stop s = true -> Forall (fun d => ended d = true) (dev_list s);
}.

Lemma attached_lookup n i d : attached n !! i = Some d -> d = mk_id false false Working 0.
Proof.
  revert i. induction n as [|n IH]; intros i H; [done|]. simpl in H. destruct i as [|i]; simplify_eq/=; [done|eauto].
Qed.

Lemma attached_length n : length (attached n) = n.
Proof. induction n as [|n IH]; [done|]. simpl. by rewrite IH. Qed.

Lemma tinv_start n : tinv 0 (start_timer n).
Proof.
  split; [done|done| |done|done]. intros i d ->%attached_lookup. split_and!; simpl; auto.
Qed.

Ltac insert_cases H := apply list_lookup_insert_Some in H as [(<- & <- & _)|[_ H]].

(** An action of device [i]: the others keep what is known of them. *)
Lemma tinv_device k s i d d' :
  tinv k s -> dev_list s !! i = Some d -> dev_ok k (timer_at s) i d' ->
  (heard d -> heard d') -> (t_thread d = Detached -> t_thread d' = Detached) ->
  (t_thread d = InNextSlot -> t_done d = true -> t_thread d' = InNextSlot /\ t_done d' = true) ->
  (ended d = true -> ended d' = true) -> tinv k (set_dev i d' s).
Proof.
  intros [Hk Ht Hd Hp Hs] Hi Hd' Hh Hdet Hin Hen. split; try done; simpl.
  - intros j dj Hj. insert_cases Hj; eauto.
  - destruct (timer_at s) as [|a f e|a f e|]; simpl in *; [done| | |].
    + destruct Hp as (H1 & H2 & H3 & H4 & H5). rewrite length_insert. split_and!; [done|done| | |].
      * intros j x Hj Hx. insert_cases Hx; eauto.
      * intros Hf j x Hj Hx. insert_cases Hx; eauto.
      * intros Hf. destruct (H5 Hf) as (j & x & Hj & Hx & Hx1 & Hx2). exists j.
        destruct (decide (j = i)) as [->|Hne].
        -- simplify_eq. exists d'. rewrite list_lookup_insert_eq by (by eapply lookup_lt_Some). by destruct Hin.
        -- exists x. by rewrite list_lookup_insert_ne.
    + destruct Hp as (H1 & H2 & H3). rewrite length_insert. split_and!; [done|done|].
      intros Hf j x Hj. insert_cases Hj; eauto.
    + intros j x Hj. insert_cases Hj; eauto.
  - intros Hst. apply Forall_insert; [by apply Hs|]. apply Hen. specialize (Hs Hst).
    rewrite Forall_forall in Hs. apply Hs. by eapply list_elem_of_lookup_2.
Qed.

Lemma dev_ok_pc k p p' i d : (pending p' i <-> pending p i) -> dev_ok k p i d -> dev_ok k p' i d.
Proof. unfold dev_ok. intros Hp. destruct (t_thread d); [|destruct (t_done d)|done|]; tauto. Qed.

Lemma dev_ok_heard_fsh k p i d : dev_ok k p i d -> t_fsh d = true <-> t_thread d = Detached.
Proof. unfold dev_ok. destruct (t_thread d); intros (H1 & H2); try (destruct H2 as (H2 & _)); split; intros; congruence. Qed.

(** [heard] by the timer in its first loop: detached, or waiting. *)
Lemma dev_ok_heard k p i d :
  dev_ok k p i d -> heard d ->
  t_thread d = Detached \/ t_thread d = InNextSlot /\ t_done d = true /\ t_fsh d = false.
Proof.
  unfold dev_ok, heard. destruct (t_thread d); [|destruct (t_done d)|..]; intuition congruence.
Qed.

Lemma tinv_wait k s i fsh event d :
  tinv k s -> timer_at s = T_wait i fsh event -> dev_list s !! i = Some d -> heard d ->
  tinv k (set_at (T_wait (S i) (if t_fsh d then fsh + 1 else fsh) (event + 1)) s).
Proof.
  intros [Hk Ht Hd Hp Hs] Hpc Hi Hh. rewrite Hpc in *. destruct Hp as (H1 & H2 & H3 & H4 & H5).
  pose proof (dev_ok_heard_fsh _ _ _ _ (Hd _ _ Hi)) as Hfsh.
  pose proof (dev_ok_heard _ _ _ _ (Hd _ _ Hi) Hh) as Hth.
  apply lookup_lt_Some in Hi as Hlt. split; try done; simpl. split_and!; [lia|case_match; lia| | |].
  - intros j x Hj Hx. destruct (decide (j = i)) as [->|]; [by simplify_eq|]. eapply H3; [|done]. lia.
  - intros Hf j x Hj Hx. destruct (t_fsh d) eqn:Hfd; [|lia].
    destruct (decide (j = i)) as [->|]; [simplify_eq; by apply Hfsh|]. eapply H4; [lia| |done]. lia.
  - intros Hf. destruct (t_fsh d) eqn:Hfd.
    + destruct H5 as (j & x & Hj & Hx); [lia|]. exists j, x. split; [lia|done].
    + exists i, d. destruct Hth as [Hth|(? & ? & _)]; [by apply Hfsh in Hth|].
      split_and!; [lia|done..].
Qed.

Lemma tinv_tick k s i fsh event :
  tinv k s -> timer_at s = T_wait i fsh event -> dev_list s !! i = None ->
  tinv (k + 1) (mk_timer (dev_list s) (u64 (_time s + 1)) (timer_stop s) (T_release 0 fsh event)).
Proof.
  intros [Hk Ht Hd Hp Hs] Hpc Hi. rewrite Hpc in *. destruct Hp as (H1 & H2 & H3 & H4 & H5).
  apply lookup_ge_None in Hi. split; try done; simpl.
  - lia.
  - rewrite Ht. unfold u64, wrapU. by rewrite Zplus_mod_idemp_l.
  - intros j d Hj. specialize (Hd _ _ Hj). apply lookup_lt_Some in Hj as Hlt.
    assert (Hh : heard d) by (eapply H3; [|done]; lia).
    destruct (dev_ok_heard _ _ _ _ Hd Hh) as [Hth|(Hth & Hdn & Hf)]; unfold dev_ok in *; rewrite Hth in *.
    + destruct Hd as (? & ? & ?). split_and!; [done|done|lia].
    + rewrite Hdn in *. destruct Hd as [_ [[[] _]|[_ <-]]]. split; [done|]. left. split; [simpl; lia|done].
  - split_and!; [lia|done|]. intros Hf j d Hj. eapply H4; [done| |done]. apply lookup_lt_Some in Hj. lia.
Qed.

Lemma tinv_release k s i fsh event d :
  tinv k s -> timer_at s = T_release i fsh event -> dev_list s !! i = Some d ->
  tinv k (set_at (T_release (S i) fsh event) (set_dev i (mk_id false (t_fsh d) (t_thread d) (t_slots d)) s)).
Proof.
  intros [Hk Ht Hd Hp Hs] Hpc Hi. rewrite Hpc in *. destruct Hp as (H1 & H2 & H3).
  apply lookup_lt_Some in Hi as Hlt. split; try done; simpl.
  - intros j x Hj. destruct (decide (j = i)) as [->|Hne].
    + rewrite list_lookup_insert_eq in Hj by done. simplify_eq. specialize (Hd _ _ Hi).
      unfold dev_ok in *. simpl in *. assert (~ (S i <= i)%nat) by lia. assert ((i <= i)%nat) by lia.
      destruct (t_thread d); [naive_solver| |naive_solver..]. destruct Hd as [Hf Hd]. split; [done|].
      destruct (t_done d); [|naive_solver]. destruct Hd as [[_ Hd]|[Hn _]]; [by split|done].
    + rewrite list_lookup_insert_ne in Hj by done. eapply dev_ok_pc; [|by apply Hd]. simpl. lia.
  - rewrite length_insert. split_and!; [lia|done|]. intros Hf j x Hj. insert_cases Hj; [|eauto].
    simpl. eapply H3; [done|exact Hi].
  - intros Hst. apply Forall_insert; [by apply Hs|]. specialize (Hs Hst). rewrite Forall_forall in Hs.
    apply (Hs d). by eapply list_elem_of_lookup_2.
Qed.

Lemma ended_detached d : t_thread d = Detached -> ended d = true.
Proof. unfold ended. by intros ->. Qed.

Lemma tinv_released k s i fsh event :
  tinv k s -> timer_at s = T_release i fsh event -> dev_list s !! i = None ->
  tinv k (set_at (if fsh =? event then T_exit else T_test) s).
Proof.
  intros [Hk Ht Hd Hp Hs] Hpc Hi. rewrite Hpc in *. destruct Hp as (H1 & H2 & H3).
  apply lookup_ge_None in Hi. split; try done; simpl.
  - intros j x Hj. apply lookup_lt_Some in Hj as Hlt. eapply dev_ok_pc; [|by apply Hd].
    destruct (fsh =? event); simpl; lia.
  - destruct (Z.eqb_spec fsh event) as [Hf|Hf]; [|done]. intros j d Hj. by eapply ended_detached, H3.
Qed.

Lemma tinv_timer_routine k s s' :
  tinv k s -> timer_routine s = Some s' -> exists k', k <= k' <= k + 1 /\ tinv k' s'.
Proof.
  intros Hi H. unfold timer_routine in H. destruct (timer_at s) as [|i f e|i f e|] eqn:Hpc; [| | |done].
  - simplify_eq. exists k. split; [lia|]. destruct Hi as [Hk Ht Hd Hp Hs]. rewrite Hpc in *.
    split; try done; simpl.
    + intros j d Hj. eapply dev_ok_pc; [|by apply Hd]. by destruct (timer_stop s).
    + destruct (timer_stop s) eqn:Hst; simpl.
      * intros j d Hj. specialize (Hs eq_refl). rewrite Forall_forall in Hs. apply Hs. by eapply list_elem_of_lookup_2.
      * split_and!; [lia|done|intros; lia|intros; lia|intros; lia].
  - destruct (dev_list s !! i) as [d|] eqn:Hd.
    + destruct (t_done d || t_fsh d) eqn:Hh; simplify_eq. exists k. split; [lia|].
      apply tinv_wait; try done. by apply orb_true_iff in Hh.
    + simplify_eq. exists (k + 1). split; [lia|]. by eapply tinv_tick.
  - exists k. split; [lia|]. destruct (dev_list s !! i) as [d|] eqn:Hd; simplify_eq.
    + by eapply tinv_release.
    + by eapply tinv_released.
Qed.

(** The timer moves no device thread. *)
Lemma timer_routine_threads s s' j :
  timer_routine s = Some s' -> length (dev_list s') = length (dev_list s) /\
  forall d', dev_list s' !! j = Some d' -> exists d, dev_list s !! j = Some d /\ t_thread d' = t_thread d /\ t_slots d' = t_slots d.
Proof.
  intros H. unfold timer_routine in H. destruct (timer_at s) as [|i f e|i f e|] eqn:Hpc; [| | |done].
  1: simplify_eq; split; [done|by eauto].
  all: destruct (dev_list s !! i) as [d|] eqn:Hd; [|simplify_eq; split; [done|by eauto]].
  - destruct (_ || _); simplify_eq. split; [done|by eauto].
  - simplify_eq. simpl. rewrite length_insert. split; [done|]. intros d' Hd'. insert_cases Hd'; eauto.
Qed.

(** The actions of the device threads. *)
Lemma tinv_device_step k act s s' :
  act = next_slot_wait \/ act = next_slot_done \/ act = detach_event \/ act = end_thread ->
  tinv k s -> device_step act s s' -> tinv k s'.
Proof.
  intros Hact Hi Hs. destruct Hs as [s i d d' Hd Ha].
  pose proof (ti_dev _ _ Hi _ _ Hd) as Hok. eapply (tinv_device _ _ _ d); try done;
    destruct d as [dn fs th sl]; unfold heard, ended in *; simpl in *;
    destruct Hact as [->|[->|[->| ->]]]; unfold next_slot_wait, next_slot_done, detach_event, end_thread in Ha;
    simpl in Ha; destruct th; try done; try destruct dn; simplify_eq; simpl in *; unfold dev_ok in *; simpl in *;
    naive_solver lia.
Qed.

Lemma tinv_step k s s' : tinv k s -> tstep s s' -> exists k', k <= k' <= k + 1 /\ tinv k' s'.
Proof.
  intros Hi Hs. destruct Hs as [s s' H|s s' H|s s' H|s s' H|s s' H]; [destruct H as [s s' H|s s' H]|..].
  { by eapply tinv_timer_routine. }
  1-4: exists k; split; [lia|]; eapply tinv_device_step; [|done..]; auto.
  exists k. split; [lia|]. destruct Hi as [Hk Ht Hd Hp Hs]. destruct H as [s H|s Hst Hx]; split; simpl; auto; by intros [].
Qed.

Lemma tinv_star k s s' : tinv k s -> star tstep s s' -> exists k', k <= k' /\ tinv k' s'.
Proof.
  intros Hi Hs. revert k Hi. induction Hs as [s|s1 s2 s3 H _ IH]; intros k Hi; [exists k; by split; [lia|]|].
  destruct (tinv_step _ _ _ Hi H) as (k1 & Hk1 & Hi1). destruct (IH _ Hi1) as (k2 & Hk2 & Hi2).
  exists k2. by split; [lia|].
Qed.

(** ** The measure of the steps nobody outside the timer makes

    [will_be_heard p]: when the timer next starts its first loop, all devices
    will have reported, if no device thread acts before. *)

Definition heardb (d : timer_id_t) : bool := t_done d || t_fsh d.

Lemma heardb_spec d : heardb d = true <-> heard d.
Proof. unfold heardb, heard. by rewrite orb_true_iff. Qed.

Definition will_be_heard (s : timer_st) : bool :=
  match timer_at s with
  | T_release i _ _ => forallb heardb (take i (dev_list s)) && forallb t_fsh (drop i (dev_list s))
  | _ => forallb heardb (dev_list s)
  end.

Definition in_next_slot (d : timer_id_t) : nat :=
  match t_thread d with InNextSlot => 1%nat | _ => O end.

(** The sections left in this round of the timer, the rounds to come and the
    devices to wake. *)
Definition round_left (n : nat) (p : timer_pc) : nat :=
  match p with
  | T_exit => O
  | T_test => n + 2
  | T_wait i _ _ => n - i + 1
  | T_release i fsh event => if fsh =? event then n - i + 1 else n - i + n + 3
  end.
Definition one_more (s : timer_st) : bool :=
  match timer_at s with
  | T_exit => false
  | T_release _ fsh event => negb (fsh =? event) && will_be_heard s
  | _ => will_be_heard s
  end.
Definition work_left (s : timer_st) : nat :=
  let n := length (dev_list s) in
  (if one_more s then 3 * n + 10 else 0) + round_left n (timer_at s)
  + sum_list_with in_next_slot (dev_list s).

Lemma sum_in_next_slot_insert l i d d' :
  l !! i = Some d ->
  (sum_list_with in_next_slot (<[i := d']> l) + in_next_slot d
   = sum_list_with in_next_slot l + in_next_slot d')%nat.
Proof.
  revert i. induction l as [|x l IH]; intros [|i] H; simplify_eq/=; [lia|]. specialize (IH _ H). lia.
Qed.

Lemma forallb_insert {A} (f : A -> bool) l i y :
  (forall x, l !! i = Some x -> f y = f x) -> forallb f (<[i := y]> l) = forallb f l.
Proof.
  revert i. induction l as [|z l IH]; intros [|i] Hf; simpl in *; [done..|by rewrite (Hf z)|]. by rewrite (IH i).
Qed.

(** Replacing a device by one with the same flags. *)
Lemma will_be_heard_insert s i d d' :
  dev_list s !! i = Some d -> t_done d' = t_done d -> t_fsh d' = t_fsh d ->
  will_be_heard (set_dev i d' s) = will_be_heard s.
Proof.
  intros Hd Hdn Hfs.
  assert (Hb : forall x, dev_list s !! i = Some x -> heardb d' = heardb x /\ t_fsh d' = t_fsh x).
  { intros x Hx. simplify_eq. unfold heardb. by rewrite Hdn, Hfs. }
  unfold will_be_heard. simpl. destruct (timer_at s) as [| |j f e|]; try (apply forallb_insert; naive_solver).
  rewrite take_insert, drop_insert. f_equal; case_decide; try done; apply forallb_insert; intros x Hx.
  - apply lookup_take_Some in Hx. naive_solver.
  - rewrite lookup_drop in Hx. replace (j + (i - j))%nat with i in Hx by lia. naive_solver.
Qed.

Lemma forallb_false_at {A} (f : A -> bool) l i x : l !! i = Some x -> f x = false -> forallb f l = false.
Proof.
  revert i. induction l as [|z l IH]; intros [|i] H Hf; simplify_eq/=; [by rewrite Hf|].
  rewrite (IH i) by done. apply andb_false_r.
Qed.

Lemma forallb_lookup {A} (f : A -> bool) l :
  (forall i x, l !! i = Some x -> f x = true) -> forallb f l = true.
Proof.
  intros H. apply forallb_forall. intros x Hx%list_elem_of_In. apply list_elem_of_lookup in Hx as [i Hi]. eauto.
Qed.

(** A woken device changes no flag. *)
Lemma wake_less s s' : device_step next_slot_wait s s' -> (work_left s' < work_left s)%nat.
Proof.
  intros [s1 i d d' Hd Ha]. destruct d as [dn fs th sl]. unfold next_slot_wait in Ha. simpl in Ha.
  destruct th; try done. destruct dn; try done. simplify_eq.
  set (d := mk_id false fs InNextSlot sl) in *. set (d' := mk_id false fs Working (sl + 1)).
  assert (Hw : will_be_heard (set_dev i d' s1) = will_be_heard s1) by (by apply (will_be_heard_insert _ _ d)).
  assert (Ho : one_more (set_dev i d' s1) = one_more s1) by (unfold one_more; by rewrite Hw).
  pose proof (sum_in_next_slot_insert _ _ _ d' Hd) as Hs. unfold work_left.
  change (in_next_slot d) with 1%nat in Hs. change (in_next_slot d') with O in Hs.
  rewrite Ho. simpl. rewrite length_insert. lia.
Qed.

(** A section of the timer. *)
Lemma timer_less k s s' : tinv k s -> timer_routine s = Some s' -> (work_left s' < work_left s)%nat.
Proof.
  intros Hi H. unfold timer_routine in H. pose proof (ti_pc _ _ Hi) as Hp.
  destruct (timer_at s) as [|i f e|i f e|] eqn:Hpc; [| | |done].
  - simplify_eq. unfold work_left, one_more, will_be_heard. simpl. rewrite Hpc.
    destruct (timer_stop s), (forallb heardb (dev_list s)); simpl; lia.
  - destruct Hp as (H1 & H2 & H3 & H4 & H5). destruct (dev_list s !! i) as [d|] eqn:Hd.
    + destruct (t_done d || t_fsh d); simplify_eq. apply lookup_lt_Some in Hd.
      unfold work_left, one_more, will_be_heard. simpl. rewrite Hpc. destruct (forallb heardb (dev_list s)); simpl; lia.
    + simplify_eq. apply lookup_ge_None in Hd.
      assert (Hall : forallb heardb (dev_list s) = true).
      { apply forallb_lookup. intros j x Hx. apply heardb_spec. eapply H3; [|done]. apply lookup_lt_Some in Hx. lia. }
      unfold work_left, one_more, will_be_heard. simpl. rewrite Hpc, Hall.
      destruct (Z.eqb_spec f e) as [->|Hne]; simpl; [lia|]. destruct H5 as (j & x & Hj & Hx & Hth & Hdn); [lia|].
      rewrite (forallb_false_at _ _ j x) by (try done; pose proof (ti_dev _ _ Hi _ _ Hx) as Hok;
        unfold dev_ok in Hok; rewrite Hth in Hok; apply Hok). lia.
  - destruct (dev_list s !! i) as [d|] eqn:Hd; simplify_eq.
    + set (d' := mk_id false (t_fsh d) (t_thread d) (t_slots d)).
      apply lookup_lt_Some in Hd as Hlt. pose proof (sum_in_next_slot_insert _ _ _ d' Hd) as Hsum.
      change (in_next_slot d') with (in_next_slot d) in Hsum.
      assert (Hw : forallb heardb (take (S i) (<[i := d']> (dev_list s))) && forallb t_fsh (drop (S i) (<[i := d']> (dev_list s)))
                   = forallb heardb (take i (dev_list s)) && forallb t_fsh (drop i (dev_list s))).
      { rewrite (take_S_r _ _ d') by (by apply list_lookup_insert_eq). rewrite take_insert_ge, drop_insert_lt by lia.
        rewrite (drop_S (dev_list s) d i) by done. rewrite forallb_app. simpl. unfold heardb at 2. simpl. by rewrite andb_true_r, andb_assoc. }
      unfold work_left, one_more, will_be_heard. simpl. rewrite Hpc, length_insert, Hw.
      cbn [round_left]. destruct (f =? e); simpl; [lia|]. destruct (_ && _); lia.
    + apply lookup_ge_None in Hd. unfold work_left, one_more, will_be_heard. simpl. rewrite Hpc.
      rewrite take_ge, drop_ge by done. cbn [round_left forallb]. rewrite andb_true_r.
      destruct (f =? e); simpl; [lia|]. destruct (forallb heardb (dev_list s)); simpl; lia.
Qed.

Lemma wakes_less k s s' : tinv k s -> wakes s s' -> (work_left s' < work_left s)%nat.
Proof. intros Hi Hw. destruct Hw; [by eapply timer_less|by apply wake_less]. Qed.

Lemma wakes_acc k s : tinv k s -> Acc (flip wakes) s.
Proof.
  remember (work_left s) as n eqn:Hn. revert k s Hn.
  induction (lt_wf n) as [n _ IH]. intros k s -> Hi. constructor. intros s' Hw. unfold flip in Hw.
  destruct (tinv_step k s s' Hi) as (k' & _ & Hi'); [by constructor|].
  eapply IH; [|reflexivity|done]. by eapply wakes_less.
Qed.

(** When the timer cannot step it has ended, or waits for one device. *)
Lemma timer_blocked k s :
  tinv k s -> timer_routine s = None ->
  timer_at s = T_exit /\ (forall j d, dev_list s !! j = Some d -> ended d = true) \/
  exists i fsh event d, timer_at s = T_wait i fsh event /\ dev_list s !! i = Some d /\ t_done d = false /\
    (t_thread d = Working \/ t_thread d = Lost \/ t_thread d = InNextSlot).
Proof.
  intros Hi Hnone. pose proof (ti_pc _ _ Hi) as Hp. unfold timer_routine in Hnone.
  destruct (timer_at s) as [|i f e|i f e|] eqn:Hpc; [done| |by destruct (dev_list s !! i)|by left].
  right. destruct (dev_list s !! i) as [d|] eqn:Hd; [|done].
  destruct (t_done d || t_fsh d) eqn:Hh; [done|]. apply orb_false_iff in Hh as [Hdn Hfs].
  exists i, f, e, d. split_and!; [done|done|done|]. pose proof (ti_dev _ _ Hi _ _ Hd) as Hok. unfold dev_ok in Hok.
  destruct (t_thread d) eqn:Hth; auto. destruct Hok as (_ & Hok & _). congruence.
Qed.

(** ** Properties *)

(** The slots of a thread whose work is done: those it has left, and the one
    it reports. *)
Definition finished (d : timer_id_t) : Z :=
  t_slots d + match t_thread d with InNextSlot => 1 | _ => 0 end.

(** C11 (safety): the slots are a barrier.  In every interleaving of the timer
    and [n] device threads, while a thread works outside [next_slot] the clock
    stands at the number of slots the thread has left behind, and every
    device that is still attached has finished all those slots: no thread
    starts a slot before all others are done with the previous one, and none
    is more than one slot behind. *)
Theorem slots_are_a_barrier n s i d :
  star tstep (start_timer n) s -> dev_list s !! i = Some d -> t_thread d = Working ->
  current_time s = u64 (t_slots d) /\
  forall j d', dev_list s !! j = Some d' -> t_fsh d' = false ->
    t_slots d <= finished d' /\ t_slots d - 1 <= t_slots d' <= t_slots d.
Proof.
  intros Hs Hd Hw. destruct (tinv_star _ _ _ (tinv_start n) Hs) as (k & _ & Hi).
  pose proof (ti_dev _ _ Hi _ _ Hd) as Hok. unfold dev_ok in Hok. rewrite Hw in Hok. destruct Hok as (_ & _ & -> & _).
  split; [apply (ti_time _ _ Hi)|]. intros j d' Hj Hf. pose proof (ti_dev _ _ Hi _ _ Hj) as Hok.
  unfold dev_ok, finished in *. destruct (t_thread d'); [lia| |destruct Hok as (_ & Hok & _); congruence|lia].
  destruct (t_done d'); lia.
Qed.

(** C18 (liveness): the timer never hangs by itself.  From every reachable
    state the timer and the woken devices can make only finitely many steps
    before a device thread has to act; when they can make none, the timer has
    ended, with every thread past its device, or it waits for a thread that is
    still working or has ended without [detach_event]. *)
Theorem timer_waits_for_workers n s :
  star tstep (start_timer n) s ->
  Acc (flip wakes) s /\
  ((forall s', ~ wakes s s') ->
     timer_at s = T_exit /\ Forall (fun d => ended d = true) (dev_list s) \/
     exists i fsh event d, timer_at s = T_wait i fsh event /\ dev_list s !! i = Some d /\
       (t_thread d = Working \/ t_thread d = Lost)).
Proof.
  intros Hs. destruct (tinv_star _ _ _ (tinv_start n) Hs) as (k & _ & Hi). split; [by eapply wakes_acc|].
  intros Hstuck.
  assert (Hnone : timer_routine s = None).
  { destruct (timer_routine s) as [s'|] eqn:H; [|done]. destruct (Hstuck s'). by constructor. }
  destruct (timer_blocked _ _ Hi Hnone) as [[Hx Hall]|(i & f & e & d & Hpc & Hd & Hdn & Hth)]; [left|right].
  - split; [done|]. by apply Forall_lookup.
  - exists i, f, e, d. split_and!; [done|done|]. destruct Hth as [Hth|[Hth|Hth]]; [by left|by right|].
    destruct (Hstuck (set_dev i (mk_id (t_done d) (t_fsh d) Working (t_slots d + 1)) s)). apply wakes_device.
    econstructor; [done|]. unfold next_slot_wait. by rewrite Hth, Hdn.
Qed.

(** C36 (error): a lost thread stops the clock.  When a thread ends without
    calling [detach_event], as [ld_routine] does when [init_mm] fails, the
    timer waits for it in every execution: the time never changes again. *)
Theorem lost_thread_stops_clock n s s' i d :
  star tstep (start_timer n) s -> dev_list s !! i = Some d -> t_thread d = Lost ->
  star tstep s s' -> current_time s' = current_time s.
Proof.
  intros Hs Hd Hl Hs'. destruct (tinv_star _ _ _ (tinv_start n) Hs) as (k & _ & Hi).
  set (P := fun x => (exists k, tinv k x) /\ current_time x = current_time s /\
    (timer_at x = T_exit \/ exists d, dev_list x !! i = Some d /\ t_thread d = Lost)).
  enough (P s') by (unfold P in *; tauto).
  eapply (star_invariant _ P); [|split_and!; [by exists k|done|right; by exists d]|exact Hs'].
  clear s' Hs Hd Hl Hs' k Hi d. intros x y ([k Hi] & Ht & Hl) Hst.
  split; [destruct (tinv_step _ _ _ Hi Hst) as (k' & _ & ?); by exists k'|].
  assert (Hdev : forall act, act = next_slot_wait \/ act = next_slot_done \/ act = detach_event \/ act = end_thread ->
    device_step act x y -> current_time y = current_time s /\
      (timer_at y = T_exit \/ exists d, dev_list y !! i = Some d /\ t_thread d = Lost)).
  { intros act Hact Hdv. destruct Hdv as [x j e e' He Ha]. split; [done|]. destruct Hl as [Hl|(d & Hd & Hl)]; [by left|right].
    destruct (decide (j = i)) as [->|Hne]; [|exists d; simpl; by rewrite list_lookup_insert_ne].
    simplify_eq. unfold next_slot_wait, next_slot_done, detach_event, end_thread in *.
    destruct Hact as [->|[->|[->| ->]]]; by rewrite Hl in Ha. }
  destruct Hst as [x y H|x y H|x y H|x y H|x y H]; [destruct H as [x y H|x y H]|..]; try (eapply Hdev; [|exact H]; by auto).
  2: { destruct H as [x H|x H Hx]; [|by split; [|left]]. by split. }
  unfold timer_routine in H. destruct (timer_at x) as [|j f e|j f e|] eqn:Hpc; [| | |done].
  - destruct Hl as [?|Hl]; [done|]. simplify_eq. split; [done|by right].
  - destruct Hl as [?|(d & Hd & Hl)]; [done|]. destruct (dev_list x !! j) as [dj|] eqn:Hj.
    + destruct (_ || _); simplify_eq. split; [done|]. right. by exists d.
    + pose proof (ti_pc _ _ Hi) as Hp. rewrite Hpc in Hp. destruct Hp as (H1 & _ & H3 & _).
      apply lookup_ge_None in Hj. apply lookup_lt_Some in Hd as Hlt.
      pose proof (H3 i d ltac:(lia) Hd) as Hh. pose proof (ti_dev _ _ Hi _ _ Hd) as Hok.
      unfold dev_ok, heard in *. rewrite Hl in Hok. destruct Hok as (? & ? & _), Hh; congruence.
  - destruct Hl as [?|(d & Hd & Hl)]; [done|]. destruct (dev_list x !! j) as [dj|] eqn:Hj; simplify_eq.
    + split; [done|]. right. simpl. destruct (decide (j = i)) as [->|Hne].
      * rewrite list_lookup_insert_eq by (by eapply lookup_lt_Some). simplify_eq. by eexists.
      * exists d. by rewrite list_lookup_insert_ne.
    + split; [done|]. right. by exists d.
Qed.

(** ** Two devices, on which the theorems are applied *)

Definition two_devices (d0 d1 : timer_id_t) (p : timer_pc) : timer_st := mk_timer [d0; d1] 0 false p.

(** Device 0 has reported its slot, device 1 still works. *)
Lemma one_reported : star tstep (start_timer 2)
  (two_devices (mk_id true false InNextSlot 0) (mk_id false false Working 0) T_test).
Proof.
  eapply star_step; [|apply star_refl]. apply ts_done. eapply (device_acts _ (start_timer 2) 0); reflexivity.
Qed.

Lemma slots_are_a_barrier_witness :
  current_time (two_devices (mk_id true false InNextSlot 0) (mk_id false false Working 0) T_test) = 0 /\
  0 <= finished (mk_id true false InNextSlot 0).
Proof.
  destruct (slots_are_a_barrier 2 _ 1 (mk_id false false Working 0) one_reported) as [Ht Hb];
    [reflexivity|reflexivity|]. split; [exact Ht|]. apply (Hb 0%nat); reflexivity.
Defined.

Lemma timer_waits_for_workers_witness :
  Acc (flip wakes) (two_devices (mk_id true false InNextSlot 0) (mk_id false false Working 0) T_test).
Proof. apply (timer_waits_for_workers 2 _ one_reported). Defined.

(** Device 1 ends without detaching; the timer has passed device 0. *)
Lemma lost_thread_stops_clock_witness :
  let lost := mk_id false false Lost 0 in
  current_time (two_devices (mk_id true false InNextSlot 0) lost (T_wait 1 0 1)) = 0.
Proof.
  apply (lost_thread_stops_clock 2 (two_devices (mk_id true false InNextSlot 0) (mk_id false false Lost 0) T_test)
           _ 1 (mk_id false false Lost 0)).
  - eapply star_trans; [apply one_reported|]. eapply star_step; [|apply star_refl].
    apply ts_end. eapply (device_acts _ (two_devices _ _ T_test) 1); reflexivity.
  - reflexivity.
  - reflexivity.
  - eapply star_step; [apply ts_wakes, wakes_timer; reflexivity|].
    eapply star_step; [apply ts_wakes, wakes_timer; reflexivity|]. apply star_refl.
Defined.
