(* ===== verification/Locks.v ===== *)
(** * The locks of the program

    The threads of [os.c] share the mutexes [mmvm_lock] of [libmem.c],
    [vm_Lock] of [mm-vm.c], [mm64_lock] of [mm64.c], [memphy_lock] of
    [mm-memphy.c] and [queue_lock] of [sched.c].  Each function is written
    here as the order in which it takes and gives back these mutexes and calls
    functions that do; a condition is a choice, and so is the number of rounds
    of a loop.  [flow] follows the mutexes held through the text of a
    function; the theorem turns this into a property of every interleaving.
    The mutexes of a timer device are those of [Timer]. *)

From S2P Require Import Prelude.

(** ** Skeletons of functions *)

Inductive mutex := mmvm_lock | vm_Lock | mm64_lock | memphy_lock | queue_lock.

#[export] Instance mutex_eq_dec : EqDecision mutex.
Proof. solve_decision. Defined.

(** [timer] is a call of [timer.c], in which the thread can sleep; a [break]
    or [continue] is the end of the loop's body. *)
Inductive stmt :=
| skip
| return_
| lock (m : mutex)
| unlock (m : mutex)
| timer
| seq (a b : stmt)
| choice (a b : stmt)
| call (f : stmt)
| loop (b : stmt).

Declare Scope stmt_scope.
Delimit Scope stmt_scope with stmt.
Infix ";;" := seq (at level 100, right associativity) : stmt_scope.
Notation "'either' a 'or' b" := (choice a b) (at level 60, a at next level, b at level 60) : stmt_scope.
(** [if (...) return ...;] and [if (...) { unlock; return ...; }] *)
Notation "'may_return'" := (choice return_ skip) : stmt_scope.
Notation "'may_return_unlocking' m" := (choice (seq (unlock m) return_) skip) (at level 60) : stmt_scope.
Notation "'maybe' a" := (choice a skip) (at level 60) : stmt_scope.
Local Open Scope stmt_scope.

(** [mm-memphy.c] *)
Definition MEMPHY_seq_read_l : stmt := may_return ;; may_return ;; lock memphy_lock ;; unlock memphy_lock ;; return_.
Definition MEMPHY_read_l : stmt :=
  may_return ;; either (lock memphy_lock ;; unlock memphy_lock) or (call MEMPHY_seq_read_l ;; return_) ;; return_.
Definition MEMPHY_seq_write_l : stmt := may_return ;; may_return ;; lock memphy_lock ;; unlock memphy_lock ;; return_.
Definition MEMPHY_write_l : stmt :=
  may_return ;; either (lock memphy_lock ;; unlock memphy_lock) or (call MEMPHY_seq_write_l ;; return_) ;; return_.
Definition MEMPHY_get_freefp_l : stmt := may_return ;; lock memphy_lock ;; unlock memphy_lock ;; return_.
Definition MEMPHY_put_freefp_l : stmt :=
  may_return ;; lock memphy_lock ;; loop skip ;; may_return_unlocking memphy_lock ;; unlock memphy_lock ;; return_.

(** [mm64.c] *)
Definition init_pte_l : stmt := lock mm64_lock ;; unlock mm64_lock ;; return_.
Definition pte_set_entry_l : stmt :=
  may_return ;; lock mm64_lock ;; may_return_unlocking mm64_lock ;; unlock mm64_lock ;; return_.
Definition vmap_pgd_memset_l : stmt :=
  may_return ;; lock mm64_lock ;; loop (may_return_unlocking mm64_lock) ;; unlock mm64_lock ;; return_.
Definition enlist_pgn_node_l : stmt := lock mm64_lock ;; unlock mm64_lock ;; return_.
Definition enlist_vm_rg_node_l : stmt := lock mm64_lock ;; unlock mm64_lock ;; return_.
Definition init_vm_rg_l : stmt := lock mm64_lock ;; may_return_unlocking mm64_lock ;; unlock mm64_lock ;; return_.
Definition vmap_page_range_l : stmt :=
  may_return ;;
  loop (maybe (call enlist_pgn_node_l)) ;;
  lock mm64_lock ;; unlock mm64_lock ;; return_.
Definition alloc_pages_range_l : stmt :=
  may_return ;;
  lock mm64_lock ;; loop skip ;;
  loop (call MEMPHY_get_freefp_l ;; maybe (call MEMPHY_put_freefp_l)) ;;
  maybe (loop (call MEMPHY_put_freefp_l) ;; unlock mm64_lock ;; return_) ;;
  unlock mm64_lock ;; return_.
Definition vm_map_ram_l : stmt :=
  may_return ;;
  call alloc_pages_range_l ;; may_return ;; may_return ;;
  call vmap_page_range_l ;;
  lock mm64_lock ;; loop (maybe (call MEMPHY_put_freefp_l)) ;; unlock mm64_lock ;; return_.
Definition __swap_cp_page_l : stmt := loop (call MEMPHY_read_l ;; call MEMPHY_write_l) ;; return_.
Definition init_mm_l : stmt :=
  may_return ;; may_return ;; may_return ;; loop skip ;;
  call init_vm_rg_l ;; may_return ;; call enlist_vm_rg_node_l ;; return_.

(** [mm-vm.c] *)
Definition __mm_swap_page_l : stmt := call __swap_cp_page_l ;; return_.
Definition get_vm_area_node_at_brk_l : stmt :=
  may_return ;; may_return ;; lock vm_Lock ;; may_return_unlocking vm_Lock ;; unlock vm_Lock ;; return_.
Definition inc_vma_limit_l : stmt :=
  may_return ;; may_return ;;
  lock vm_Lock ;;
  may_return_unlocking vm_Lock ;; may_return_unlocking vm_Lock ;; may_return_unlocking vm_Lock ;;
  call vm_map_ram_l ;; may_return_unlocking vm_Lock ;;
  unlock vm_Lock ;; return_.

(** [sys_mem.c], [syscall.c], [libstd.c] *)
Definition __sys_memmap_l : stmt :=
  may_return ;;
  either call vmap_pgd_memset_l or either call inc_vma_limit_l or either call __mm_swap_page_l or
  either call MEMPHY_read_l or either call MEMPHY_write_l or skip ;;
  return_.
Definition _syscall_l : stmt := either (call __sys_memmap_l ;; return_) or return_.
Definition libsyscall_l : stmt := call _syscall_l ;; return_.

(** [libmem.c] *)
Definition __alloc_l : stmt :=
  may_return ;;
  lock mmvm_lock ;; may_return_unlocking mmvm_lock ;;
  call _syscall_l ;;
  unlock mmvm_lock ;; return_.
Definition __free_l : stmt :=
  may_return ;;
  lock mmvm_lock ;;
  may_return_unlocking mmvm_lock ;; may_return_unlocking mmvm_lock ;; may_return_unlocking mmvm_lock ;;
  unlock mmvm_lock ;; return_.
Definition liballoc_l : stmt := call __alloc_l ;; may_return ;; return_.
Definition libfree_l : stmt := call __free_l ;; may_return ;; return_.
Definition pg_getpage_l : stmt :=
  maybe (
    call MEMPHY_get_freefp_l ;;
    maybe (may_return ;; call MEMPHY_get_freefp_l ;; may_return ;; call _syscall_l) ;;
    maybe (call __swap_cp_page_l ;; call MEMPHY_put_freefp_l) ;;
    call enlist_pgn_node_l) ;;
  return_.
Definition pg_getval_l : stmt := call pg_getpage_l ;; may_return ;; call _syscall_l ;; return_.
Definition pg_setval_l : stmt := call pg_getpage_l ;; may_return ;; call _syscall_l ;; return_.
Definition __read_l : stmt :=
  may_return ;; may_return ;; may_return ;; may_return ;; call pg_getval_l ;; return_.
Definition libread_l : stmt := call __read_l ;; return_.
Definition __write_l : stmt :=
  may_return ;;
  lock mmvm_lock ;;
  may_return_unlocking mmvm_lock ;; may_return_unlocking mmvm_lock ;; may_return_unlocking mmvm_lock ;;
  call pg_setval_l ;; unlock mmvm_lock ;; return_.
Definition libwrite_l : stmt := call __write_l ;; may_return ;; return_.
Definition __kmalloc_l : stmt :=
  may_return ;; loop (call MEMPHY_get_freefp_l ;; may_return ;; either may_return or return_) ;; return_.
Definition libkmem_malloc_l : stmt := may_return ;; may_return ;; call __kmalloc_l ;; may_return ;; return_.
Definition libkmem_cache_pool_create_l : stmt :=
  may_return ;; may_return ;; maybe may_return ;; may_return ;; call __kmalloc_l ;; may_return ;; return_.
Definition libkmem_cache_alloc_l : stmt := may_return ;; may_return ;; return_.
Definition __read_kernel_mem_l : stmt :=
  may_return ;; may_return ;; may_return ;; may_return ;; may_return ;; may_return ;; may_return ;;
  call MEMPHY_read_l ;; may_return ;; return_.
Definition __read_user_mem_l : stmt :=
  may_return ;; may_return ;; may_return ;; may_return ;; may_return ;; may_return ;;
  call pg_getpage_l ;; may_return ;; call MEMPHY_read_l ;; may_return ;; return_.
Definition __write_kernel_mem_l : stmt :=
  may_return ;; may_return ;; may_return ;; may_return ;; may_return ;; may_return ;; may_return ;;
  call MEMPHY_write_l ;; may_return ;; return_.
Definition __write_user_mem_l : stmt :=
  may_return ;; may_return ;; may_return ;; may_return ;; may_return ;; may_return ;;
  call pg_getpage_l ;; may_return ;; call MEMPHY_write_l ;; may_return ;; return_.
Definition libkmem_copy_from_user_l : stmt :=
  may_return ;;
  loop (call __read_kernel_mem_l ;; may_return ;; call __write_user_mem_l ;; may_return) ;;
  return_.
Definition libkmem_copy_to_user_l : stmt :=
  may_return ;;
  loop (call __read_kernel_mem_l ;; may_return ;; call __write_user_mem_l ;; may_return) ;;
  return_.
Definition free_pcb_memph_l : stmt :=
  lock mmvm_lock ;;
  loop (either call MEMPHY_put_freefp_l or call MEMPHY_put_freefp_l) ;;
  unlock mmvm_lock ;; return_.

(** [cpu.c] *)
Definition run_l : stmt :=
  may_return ;;
  either skip or either call liballoc_l or either call libkmem_malloc_l or either call libkmem_cache_pool_create_l or
  either call libkmem_cache_alloc_l or either call libkmem_copy_from_user_l or either call libkmem_copy_to_user_l or
  either call libfree_l or either call libread_l or either call libwrite_l or call libsyscall_l ;;
  return_.

(** [sched.c] *)
Definition get_mlq_proc_l : stmt := lock queue_lock ;; loop skip ;; maybe (loop skip) ;; unlock queue_lock ;; return_.
Definition put_mlq_proc_l : stmt := lock queue_lock ;; unlock queue_lock ;; return_.
Definition add_mlq_proc_l : stmt := lock queue_lock ;; unlock queue_lock ;; return_.
Definition get_proc_l : stmt := call get_mlq_proc_l ;; return_.
Definition put_proc_l : stmt := call put_mlq_proc_l ;; return_.
Definition add_proc_l : stmt := call add_mlq_proc_l ;; return_.

(** [os.c] *)
Definition cpu_recheck_l : stmt :=
  either skip or either timer or (call run_l ;; timer).
Definition cpu_routine_l : stmt :=
  loop (
    either (call get_proc_l ;; either timer or cpu_recheck_l) or
    either (call get_proc_l ;; cpu_recheck_l) or
    either (call put_proc_l ;; call get_proc_l ;; cpu_recheck_l) or
    cpu_recheck_l) ;;
  timer.
Definition ld_routine_l : stmt :=
  loop (
    loop timer ;;
    maybe (may_return ;; call init_mm_l ;; may_return) ;;
    may_return ;; call init_mm_l ;; may_return ;;
    call add_proc_l ;; timer) ;;
  timer.

(** ** Following the mutexes held *)

(** A mutex is taken only while those held rank below it. *)
Definition rank (m : mutex) : nat :=
  match m with mmvm_lock => 0 | vm_Lock => 1 | mm64_lock => 2 | memphy_lock => 3 | queue_lock => 4 end.

(** From the mutexes [h] held before [c], the last taken first, to those held
    after it - [Some None] when [c] never completes but by [return], with the
    mutexes [h0] held; [None] when the discipline is broken: a mutex taken out
    of order, given back by a thread that does not hold it, or held across a
    call of the timer. *)
Fixpoint flow (h0 h : list mutex) (c : stmt) : option (option (list mutex)) :=
  match c with
  | skip => Some (Some h)
  | return_ => if decide (h = h0) then Some None else None
  | lock m => if forallb (fun x => rank x <? rank m)%nat h then Some (Some (m :: h)) else None
  | unlock m => match h with x :: h' => if decide (x = m) then Some (Some h') else None | [] => None end
  | timer => if decide (h = []) then Some (Some h) else None
  | seq a b => match flow h0 h a with Some (Some h') => flow h0 h' b | r => r end
  | choice a b =>
      match flow h0 h a, flow h0 h b with
      | Some (Some x), Some (Some y) => if decide (x = y) then Some (Some x) else None
      | Some None, r => r
      | Some r, Some None => Some r
      | _, _ => None
      end
  | call f =>
      match flow h h f with
      | Some (Some h') => if decide (h' = h) then Some (Some h) else None
      | Some None => Some (Some h)
      | None => None
      end
  | loop b =>
      match flow h0 h b with
      | Some (Some h') => if decide (h' = h) then Some (Some h) else None
      | Some None => Some (Some h)
      | None => None
      end
  end.

(** The text of a thread keeps the discipline. *)
Definition disciplined (c : stmt) : Prop :=
  match flow [] [] c with Some (Some []) | Some None => True | _ => False end.

Lemma cpu_routine_disciplined : disciplined cpu_routine_l.
Proof. vm_compute. exact I. Qed.
Lemma ld_routine_disciplined : disciplined ld_routine_l.
Proof. vm_compute. exact I. Qed.
(** The functions that no thread calls keep it too. *)
Lemma uncalled_disciplined :
  Forall disciplined [init_pte_l; pte_set_entry_l; get_vm_area_node_at_brk_l; free_pcb_memph_l].
Proof. repeat constructor. Qed.

(** ** Threads *)

(** What a thread does after the statement at hand. *)
Inductive frame := then_ (b : stmt) | again (b : stmt) | back.

(** A thread: the statement at hand, what follows, the mutexes held. *)
Record thread := mk_thread { t_code : stmt; t_rest : list frame; t_held : list mutex }.

Definition go (c : stmt) (k : list frame) (t : thread) : thread := mk_thread c k (t_held t).

(** One step, with [b] the outcome of a condition. *)
Definition thread_step (b : bool) (t : thread) : option thread :=
  match t_code t, t_rest t with
  | seq x y, k => Some (go x (then_ y :: k) t)
  | choice x y, k => Some (go (if b then x else y) k t)
  | call f, k => Some (go f (back :: k) t)
  | loop x, k => Some (if b then go x (again x :: k) t else go skip k t)
  | timer, k => Some (go skip k t)
  | lock m, k => Some (mk_thread skip k (m :: t_held t))
  | unlock m, k => Some (mk_thread skip k (filter (fun x => x <> m) (t_held t)))
  | skip, then_ y :: k => Some (go y k t)
  | skip, again x :: k => Some (go (loop x) k t)
  | skip, back :: k => Some (go skip k t)
  | return_, then_ _ :: k => Some (go return_ k t)
  | return_, again _ :: k => Some (go return_ k t)
  | return_, back :: k => Some (go skip k t)
  | skip, [] => None
  | return_, [] => None
  end.

(** The mutex a thread takes in its next step. *)
Definition takes (t : thread) : option mutex := match t_code t with lock m => Some m | _ => None end.
Definition ended (t : thread) : Prop := thread_step true t = None.

(** The threads, one step of which is one of a thread that need not wait. *)
Definition held_by (ts : list thread) (m : mutex) (i : nat) : Prop := exists t, ts !! i = Some t /\ m ∈ t_held t.
Definition is_free (ts : list thread) (m : mutex) : bool := forallb (fun t => bool_decide (m ∉ t_held t)) ts.

Definition system_step (i : nat) (b : bool) (ts : list thread) : option (list thread) :=
  t ← ts !! i;
  if match takes t with Some m => is_free ts m | None => true end
  then t' ← thread_step b t; Some (<[i := t']> ts) else None.

Fixpoint system_exec (l : list (nat * bool)) (ts : list thread) : option (list thread) :=
  match l with [] => Some ts | (i, b) :: l => ts' ← system_step i b ts; system_exec l ts' end.

(** The threads of [main]: [n] CPUs and the loader. *)
Definition start (c : stmt) : thread := mk_thread c [] [].
Definition os_threads (n : nat) : list thread := replicate n (start cpu_routine_l) ++ [start ld_routine_l].

(** ** The discipline along a run *)

(** [k] can take over with [h] held: by completion, or by [return] of the
    function that was called with [h0] held. *)
Fixpoint returns (h0 : list mutex) (k : list frame) : Prop :=
  match k with
  | [] => h0 = []
  | then_ _ :: k | again _ :: k => returns h0 k
  | back :: k => exists h1, returns h1 k /\ completes h1 h0 k
  end
with completes (h0 h : list mutex) (k : list frame) : Prop :=
  match k with
  | [] => h = []
  | then_ b :: k => exists r, flow h0 h b = Some r /\ forall h', r = Some h' -> completes h0 h' k
  | again b :: k => flow h0 h (loop b) = Some (Some h) /\ completes h0 h k
  | back :: k => h = h0 /\ exists h1, returns h1 k /\ completes h1 h k
  end.

(** Below the last mutex taken: the order of the mutexes of one thread. *)
Definition below (x y : mutex) : Prop := (rank y < rank x)%nat.

Record typed (t : thread) : Prop := {
  ty_flow : exists h0 r, flow h0 (t_held t) (t_code t) = Some r /\ returns h0 (t_rest t) /\
                         forall h', r = Some h' -> completes h0 h' (t_rest t);
  ty_sorted : StronglySorted below (t_held t);
}.

Lemma typed_start c : disciplined c -> typed (start c).
Proof.
  unfold disciplined. intros Hc. split; [|constructor]. exists []. simpl.
  destruct (flow [] [] c) as [[h|]|]; [| |done]; eexists; (split; [reflexivity|split; [done|]]); intros h' [= <-].
  by destruct h.
Qed.

Lemma below_forallb m h : forallb (fun x => rank x <? rank m)%nat h = true -> Forall (below m) h.
Proof.
  induction h as [|x h IH]; simpl; [constructor|]. intros [Hx Hh]%andb_prop. constructor; [|by apply IH].
  by apply Nat.ltb_lt.
Qed.

Lemma below_not_in m (h : list mutex) : Forall (below m) h -> m ∉ h.
Proof. intros Hf Hin. rewrite Forall_forall in Hf. specialize (Hf m Hin). unfold below in Hf. lia. Qed.

Lemma filter_not_in (m : mutex) (h : list mutex) : m ∉ h -> filter (fun x => x <> m) h = h.
Proof.
  induction h as [|x h IH]; intros Hn; [done|]. apply not_elem_of_cons in Hn as [Hx Hn].
  rewrite filter_cons_True by congruence. by rewrite IH.
Qed.

(** What [flow] says of a lock and of an unlock. *)
Lemma flow_lock h0 h m r : flow h0 h (lock m) = Some r -> r = Some (m :: h) /\ Forall (below m) h.
Proof. simpl. destruct (forallb _ h) eqn:Hf; [|done]. intros [= <-]. split; [done|]. by apply below_forallb. Qed.

Lemma flow_unlock h0 h m r : flow h0 h (unlock m) = Some r -> exists h', h = m :: h' /\ r = Some h'.
Proof. simpl. destruct h as [|x h']; [done|]. destruct (decide (x = m)) as [->|]; [|done]. intros [= <-]. by exists h'. Qed.

Lemma flow_return h0 h r : flow h0 h return_ = Some r -> h = h0 /\ r = None.
Proof. simpl. destruct (decide _); [|done]. intros [= <-]. done. Qed.

Lemma flow_timer h0 h r : flow h0 h timer = Some r -> h = [] /\ r = Some [].
Proof. simpl. destruct (decide _); [|done]. intros [= <-]. split; congruence. Qed.

Lemma flow_choice h0 h x y r (b : bool) :
  flow h0 h (choice x y) = Some r ->
  exists r', flow h0 h (if b then x else y) = Some r' /\ forall h', r' = Some h' -> r = Some h'.
Proof.
  simpl. destruct (flow h0 h x) as [[hx|]|] eqn:Hx, (flow h0 h y) as [[hy|]|] eqn:Hy; try done;
    try (destruct (decide (hx = hy)) as [->|]; [|done]); intros [= <-]; destruct b; eauto.
  - eexists. split; [exact Hy|]. done.
  - eexists. split; [exact Hx|]. done.
Qed.

Lemma flow_loop h0 h x r :
  flow h0 h (loop x) = Some r ->
  r = Some h /\ exists r', flow h0 h x = Some r' /\ forall h', r' = Some h' -> h' = h.
Proof.
  simpl. destruct (flow h0 h x) as [[hx|]|] eqn:Hx; [| |done].
  - destruct (decide (hx = h)) as [->|]; [|done]. intros [= <-]. split; [done|]. eexists. split; [done|]. by intros h' [= <-].
  - intros [= <-]. split; [done|]. by eexists.
Qed.

Lemma flow_call h0 h f r :
  flow h0 h (call f) = Some r -> r = Some h /\ exists r', flow h h f = Some r' /\ forall h', r' = Some h' -> h' = h.
Proof.
  simpl. destruct (flow h h f) as [[hf|]|] eqn:Hf; [| |done].
  - destruct (decide (hf = h)) as [->|]; [|done]. intros [= <-]. split; [done|]. eexists. split; [done|]. by intros h' [= <-].
  - intros [= <-]. split; [done|]. by eexists.
Qed.

Lemma typed_step b t t' : typed t -> thread_step b t = Some t' -> typed t'.
Proof.
  intros [(h0 & r & Hf & Hr & Hc) Hs] Hstep. destruct t as [c k h]. simpl in *. unfold thread_step, go in Hstep. simpl in Hstep.
  destruct c as [| |m|m| |x y|x y|f|x].
  - injection Hf as <-. specialize (Hc h eq_refl). destruct k as [|[y|x|] k]; [done| | |]; injection Hstep as <-; split; try done; simpl in *.
    + destruct Hc as (r & Hf & Hc). by exists h0, r.
    + destruct Hc as [Hf Hc]. exists h0, (Some h). split_and!; [done|done|]. by intros h' [= <-].
    + destruct Hc as (-> & h1 & Hr1 & Hc1). exists h1, (Some h0). split_and!; [done|done|]. by intros h' [= <-].
  - apply flow_return in Hf as [-> ->]. destruct k as [|[y|x|] k]; [done| | |]; injection Hstep as <-; split; try done; simpl in *.
    + exists h0, None. split_and!; [by rewrite decide_True|done|done].
    + exists h0, None. split_and!; [by rewrite decide_True|done|done].
    + destruct Hr as (h1 & Hr1 & Hc1). exists h1, (Some h0). split_and!; [done|done|]. by intros h' [= <-].
  - apply flow_lock in Hf as [-> Hb]. injection Hstep as <-. split; simpl.
    + exists h0, (Some (m :: h)). split_and!; [done|done|auto].
    + by constructor.
  - apply flow_unlock in Hf as (h' & -> & ->). injection Hstep as <-. apply StronglySorted_inv in Hs as [Hs Hb].
    rewrite filter_cons_False, filter_not_in by (auto using below_not_in). split; simpl; [|done].
    exists h0, (Some h'). split_and!; [done|done|auto].
  - apply flow_timer in Hf as [-> ->]. injection Hstep as <-. split; simpl; [|done]. exists h0, (Some []). auto.
  - injection Hstep as <-. split; [|done]. simpl in Hf |- *. destruct (flow h0 h x) as [r1|] eqn:Hx; [|done].
    exists h0, r1. split_and!; [done|done|]. intros h' ->. by exists r.
  - destruct (flow_choice _ _ _ _ _ b Hf) as (r' & Hf' & Hr'). injection Hstep as <-. split; [|done]. simpl.
    exists h0, r'. split_and!; [done|done|]. intros h' ->. apply Hc. auto.
  - apply flow_call in Hf as (-> & r' & Hf' & Hr'). injection Hstep as <-. split; [|done]. simpl. specialize (Hc h eq_refl).
    exists h, r'. split_and!; [done|by exists h0|]. intros h' ->. split; [by apply Hr'|]. rewrite (Hr' h' eq_refl). by exists h0.
  - pose proof Hf as Hl. apply flow_loop in Hf as (-> & r' & Hf' & Hr'). specialize (Hc h eq_refl).
    destruct b; injection Hstep as <-; split; try done; simpl.
    + exists h0, r'. split_and!; [done|done|]. intros h' ->. by rewrite (Hr' h' eq_refl).
    + exists h0, (Some h). split_and!; [done|done|]. by intros h' [= <-].
Qed.

Lemma thread_step_held b t t' x :
  thread_step b t = Some t' -> x ∈ t_held t' -> x ∈ t_held t \/ takes t = Some x.
Proof.
  destruct t as [c k h]. unfold thread_step, go, takes. simpl. intros Hst Hx.
  destruct c; repeat case_match; simplify_eq/=; auto.
  - apply elem_of_cons in Hx as [->|Hx]; auto.
  - apply list_elem_of_filter in Hx as [_ Hx]. by left.
Qed.

Lemma is_free_spec ts m : is_free ts m = true <-> forall i, ~ held_by ts m i.
Proof.
  unfold is_free. rewrite forallb_forall. split.
  - intros H i (t & Ht & Hm). apply list_elem_of_lookup_2, list_elem_of_In in Ht. apply H, bool_decide_eq_true in Ht. done.
  - intros H t Ht. apply list_elem_of_In, list_elem_of_lookup in Ht as [i Ht]. apply bool_decide_eq_true. intros Hm.
    apply (H i). by exists t.
Qed.

(** What every run keeps. *)
Record system_ok (ts : list thread) : Prop := {
  sy_typed i t : ts !! i = Some t -> typed t;
  sy_one m i j : held_by ts m i -> held_by ts m j -> i = j;
}.

Lemma system_ok_step i b ts ts' : system_ok ts -> system_step i b ts = Some ts' -> system_ok ts'.
Proof.
  intros [Hty Hone] Hstep. unfold system_step in Hstep. destruct (ts !! i) as [t|] eqn:Ht; [|done]. simpl in Hstep.
  destruct (match takes t with Some m => is_free ts m | None => true end) eqn:Hfree; [|done].
  destruct (thread_step b t) as [t'|] eqn:Hst; [|done]. injection Hstep as <-.
  assert (Hlt : (i < length ts)%nat) by (by eapply lookup_lt_Some).
  assert (Hold : forall m j, held_by (<[i := t']> ts) m j -> held_by ts m j \/ j = i /\ takes t = Some m).
  { intros m j (u & Hu & Hm). apply list_lookup_insert_Some in Hu as [(-> & <- & _)|[Hne Hu]].
    - destruct (thread_step_held _ _ _ _ Hst Hm) as [Hm'|Hm']; [left; by exists t|by right].
    - left. by exists u. }
  split.
  - intros j u Hu. apply list_lookup_insert_Some in Hu as [(-> & <- & _)|[_ Hu]]; [|by eapply Hty].
    eapply typed_step; [by eapply Hty|done].
  - intros m j1 j2 H1 H2. apply Hold in H1, H2.
    destruct H1 as [H1|[-> E1]], H2 as [H2|[-> E2]]; [by eapply Hone| | |done].
    + rewrite E2 in Hfree. by destruct (proj1 (is_free_spec _ _) Hfree j1).
    + rewrite E1 in Hfree. by destruct (proj1 (is_free_spec _ _) Hfree j2).
Qed.

Lemma system_ok_exec l ts ts' : system_ok ts -> system_exec l ts = Some ts' -> system_ok ts'.
Proof.
  revert ts. induction l as [|[i b] l IH]; intros ts Hok Hl; simpl in Hl; [by injection Hl as <-|].
  destruct (system_step i b ts) as [ts1|] eqn:H1; [|done]. eapply IH; [|exact Hl]. by eapply system_ok_step.
Qed.

Lemma system_ok_start n : system_ok (os_threads n).
Proof.
  assert (Hin : forall i t, os_threads n !! i = Some t -> t = start cpu_routine_l \/ t = start ld_routine_l).
  { intros i t Ht%list_elem_of_lookup_2. unfold os_threads in Ht. rewrite elem_of_app, list_elem_of_singleton in Ht.
    destruct Ht as [[-> _]%elem_of_replicate| ->]; auto. }
  split.
  - intros i t Ht. destruct (Hin i t Ht) as [-> | ->]; apply typed_start;
      [apply cpu_routine_disciplined|apply ld_routine_disciplined].
  - intros m i j (t & Ht & Hm). by destruct (Hin i t Ht) as [-> | ->]; apply not_elem_of_nil in Hm.
Qed.

(** ** Waiting *)

(** Thread [i] is about to take a mutex that [j] holds. *)
Definition waits_for (ts : list thread) (i j : nat) : Prop :=
  exists t m, ts !! i = Some t /\ takes t = Some m /\ held_by ts m j.

(** Thread [i] can make its next step, whatever the outcome of a condition. *)
Definition can_step (ts : list thread) (i : nat) : Prop := forall b, is_Some (system_step i b ts).

Lemma typed_takes t m : typed t -> takes t = Some m -> Forall (below m) (t_held t).
Proof.
  intros [(h0 & r & Hf & _) _] Hm. unfold takes in Hm. destruct (t_code t) eqn:Hc; try done. injection Hm as ->.
  by apply flow_lock in Hf as [_ Hf].
Qed.

(** A thread that has ended, or sleeps, holds nothing. *)
Lemma typed_rest t : typed t -> t_code t = timer \/ ended t -> t_held t = [].
Proof.
  intros [(h0 & r & Hf & Hr & Hc) _] [Ht|He].
  - rewrite Ht in Hf. by apply flow_timer in Hf as [-> _].
  - unfold ended, thread_step in He. destruct (t_code t) eqn:Hcode; try done; destruct (t_rest t) as [|[]] eqn:Hk; try done.
    + simpl in Hf. injection Hf as <-. exact (Hc _ eq_refl).
    + apply flow_return in Hf as [-> _]. exact Hr.
Qed.

Lemma waits_up ts i j t m :
  system_ok ts -> tc (waits_for ts) i j -> ts !! i = Some t -> takes t = Some m ->
  exists m', held_by ts m' j /\ (rank m <= rank m')%nat.
Proof.
  intros Hok Htc. revert t m. induction Htc as [i j (t' & m' & Ht' & Hm' & Hj)|i x j (t' & m' & Ht' & Hm' & Hx) Htc IH]; intros t m Ht Hm.
  - rewrite Ht in Ht'. injection Ht' as <-. rewrite Hm in Hm'. injection Hm' as <-. by exists m.
  - rewrite Ht in Ht'. injection Ht' as <-. rewrite Hm in Hm'. injection Hm' as <-. destruct Hx as (u & Hu & Hmu).
    assert (Hw : exists w, takes u = Some w) by (inversion Htc as [? ? (u' & w & Hu' & Hw & _)|? ? ? (u' & w & Hu' & Hw & _)]; subst;
      rewrite Hu in Hu'; injection Hu' as <-; by exists w).
    destruct Hw as [w Hw]. destruct (IH u w Hu Hw) as (m2 & Hm2 & Hle). exists m2. split; [done|].
    pose proof (typed_takes u w (sy_typed _ Hok _ _ Hu) Hw) as Hb. rewrite Forall_forall in Hb.
    specialize (Hb m Hmu). unfold below in Hb. lia.
Qed.

Lemma not_free ts m : is_free ts m = false -> exists j, held_by ts m j.
Proof.
  intros Hf. destruct (decide (Forall (fun t => m ∉ t_held t) ts)) as [Hall|Hex].
  - assert (is_free ts m = true) as Ht; [|by rewrite Ht in Hf]. apply is_free_spec. intros j (u & Hu & Hm).
    rewrite Forall_lookup in Hall. by apply (Hall j u).
  - apply not_Forall_Exists in Hex; [|apply _]. apply Exists_exists in Hex as (u & Hu & Hm). apply dec_stable in Hm.
    apply list_elem_of_lookup in Hu as [j Hj]. by exists j, u.
Qed.

Lemma step_or_wait ts j u :
  ts !! j = Some u -> ~ ended u -> (exists w, takes u = Some w /\ is_free ts w = false) \/ can_step ts j.
Proof.
  intros Hu He. assert (Hst : forall b, is_Some (thread_step b u)).
  { intros b. unfold ended, thread_step in *. destruct (t_code u), (t_rest u) as [|[]]; by eauto. }
  destruct (takes u) as [w|] eqn:Hw; [destruct (is_free ts w) eqn:Hf; [right|left; by exists w]|right];
    intros b; destruct (Hst b) as [u' Hu']; unfold system_step; rewrite Hu; simpl; rewrite Hw, ?Hf, Hu'; by eexists.
Qed.

(** Following the waiting leads to a thread that can go on. *)
Lemma waits_end ts i t m :
  system_ok ts -> ts !! i = Some t -> takes t = Some m -> is_free ts m = false ->
  exists j, tc (waits_for ts) i j /\ can_step ts j.
Proof.
  intros Hok. remember (5 - rank m)%nat as d eqn:Hd. revert i t m Hd. induction d as [d IH] using lt_wf_ind. intros i t m Hd Ht Hm Hfree.
  destruct (not_free _ _ Hfree) as [j Hj]. assert (Hij : waits_for ts i j) by (by exists t, m).
  destruct Hj as (u & Hu & Hmu). pose proof (sy_typed _ Hok _ _ Hu) as Hty.
  destruct (step_or_wait ts j u Hu) as [(w & Hw & Hfw)|Hgo].
  - intros He. rewrite (typed_rest u Hty) in Hmu by (by right). by apply not_elem_of_nil in Hmu.
  - pose proof (typed_takes u w Hty Hw) as Hb. rewrite Forall_forall in Hb. specialize (Hb m Hmu). unfold below in Hb.
    assert (rank w <= 4)%nat by (destruct w; simpl; lia).
    destruct (IH (5 - rank w)%nat ltac:(lia) j u w eq_refl Hu Hw Hfw) as (x & Hx & Hgo).
    exists x. split; [by eapply tc_l|done].
  - exists j. split; [by apply tc_once|done].
Qed.

(** C9 (safety): the threads never deadlock.  For any number of CPUs beside
    the loader, in every state that any interleaving of their calls reaches,
    whatever the outcomes of the conditions and the rounds of the loops: a
    mutex is held by one thread at most; no thread takes a mutex it holds, and
    none gives back a mutex it does not hold; a thread that sleeps in
    [timer.c] or has ended holds none; no thread waits, directly or through
    others, for itself; and the threads a waiting thread waits for lead to one
    that can make its next step. *)
Theorem threads_never_deadlock n l ts :
  system_exec l (os_threads n) = Some ts ->
  (forall m i j, held_by ts m i -> held_by ts m j -> i = j) /\
  (forall i, ~ tc (waits_for ts) i i) /\
  forall i t, ts !! i = Some t ->
    (t_code t = timer \/ ended t -> t_held t = []) /\
    (forall m, t_code t = unlock m -> m ∈ t_held t) /\
    (forall m, takes t = Some m -> (m ∉ t_held t) /\
       (is_free ts m = false -> exists j, tc (waits_for ts) i j /\ can_step ts j)).
Proof.
  intros Hl. pose proof (system_ok_exec _ _ _ (system_ok_start n) Hl) as Hok. split_and!; [apply Hok| |].
  - intros i Hi. assert (Hw : exists t m, ts !! i = Some t /\ takes t = Some m).
    { inversion Hi as [? ? (t & m & Ht & Hm & _)|? ? ? (t & m & Ht & Hm & _)]; by exists t, m. }
    destruct Hw as (t & m & Ht & Hm). destruct (waits_up _ _ _ _ _ Hok Hi Ht Hm) as (m' & (u & Hu & Hmu) & Hle).
    rewrite Ht in Hu. injection Hu as <-. pose proof (typed_takes t m (sy_typed _ Hok _ _ Ht) Hm) as Hb.
    rewrite Forall_forall in Hb. specialize (Hb m' Hmu). unfold below in Hb. lia.
  - intros i t Ht. pose proof (sy_typed _ Hok _ _ Ht) as Hty. split_and!.
    + by apply typed_rest.
    + intros m Hm. destruct Hty as [(h0 & r & Hf & _) _]. rewrite Hm in Hf. apply flow_unlock in Hf as (h' & -> & _).
      apply list_elem_of_here.
    + intros m Hm. split; [by apply below_not_in, typed_takes|]. by eapply waits_end.
Qed.

(** CPU 0 is choosing a process when CPU 1 asks the scheduler for one. *)
Definition contended : list (nat * bool) := replicate 9 (0%nat, true) ++ replicate 8 (1%nat, true).

Lemma threads_never_deadlock_witness :
  exists ts t, system_exec contended (os_threads 2) = Some ts /\ ts !! 1%nat = Some t /\
    takes t = Some queue_lock /\ is_free ts queue_lock = false /\
    exists j, tc (waits_for ts) 1%nat j /\ can_step ts j.
Proof.
  destruct (system_exec contended (os_threads 2)) as [ts|] eqn:Hl; [|vm_compute in Hl; discriminate].
  pose proof (threads_never_deadlock 2 contended ts Hl) as (_ & _ & H).
  vm_compute in Hl. injection Hl as <-. eexists _, _. split; [reflexivity|]. split; [reflexivity|].
  split; [reflexivity|]. split; [reflexivity|].
  destruct (H 1%nat _ eq_refl) as (_ & _ & Hm). destruct (Hm queue_lock eq_refl) as [_ Hw]. apply Hw. reflexivity.
Defined.
