(* ===== verification/Os.v ===== *)
(** * The machine: [cpu_routine] and [ld_routine] of [src/os.c]

    Every CPU and the loader is a thread.  A step of a thread is the code up
    to and including one call of the scheduler, of [run], of [load], of
    [init_mm] or of [next_slot]; the steps of the threads interleave freely,
    which includes the interleavings the timer allows. *)

From stdpp Require Import vector.
From S2P Require Import Prelude Queue Sched Pte MemPhy Kernel PageTable Mm64 MmVm Syscall LibMem VMem UserMem Alloc Kmem Kept Cpu Program Loader Boot.

(** ** State *)

(** What the threads share: the memory subsystem with the processes, the
    scheduler, [avail_pid] of the loader and [done]. *)
Record os_st := mk_os { o_sys : sys; o_sched : sched; o_pid : Z; o_done : bool }.

Definition set_sys (x : sys) (s : os_st) : os_st := mk_os x (o_sched s) (o_pid s) (o_done s).
Definition set_sched (x : sched) (s : os_st) : os_st := mk_os (o_sys s) x (o_pid s) (o_done s).
Definition on_sys {A} (m : M sys A) : M os_st A := zoom (fun s => Some (o_sys s)) set_sys m.
Definition on_sched {A} (m : M sched A) : M os_st A := zoom (fun s => Some (o_sched s)) set_sched m.

(** The static object [os], as a pointer. *)
Definition OS : Z := 1.

(** ** [cpu_routine] *)

(** The place of a CPU: the head of its loop, after [put_proc], at the
    recheck, before [run], before [next_slot], or past the loop. *)
Inductive cpu_pc := C_top | C_get | C_check | C_run | C_slot | C_stopped.
Record cpu := mk_cpu { c_at : cpu_pc; c_proc : Z; time_left : Z }.

(** [free(proc)] *)
Definition free_pcb (p : Z) : M sys unit := modify (fun s => set_procs (delete p (procs s)) s).

Definition cpu_step (time_slot : Z) (c : cpu) : M os_st cpu :=
  match c_at c with
  | C_top =>
      if c_proc c =? NULL then
        let* p := on_sched get_proc in
        ret (mk_cpu (if p =? NULL then C_slot else C_check) p (time_left c))
      else
        let* proc := on_sys (get_pcb (c_proc c)) in
        if pc proc =? code_size (code proc) then
          on_sys (free_pcb (c_proc c)) ;;;
          let* p := on_sched get_proc in
          ret (mk_cpu C_check p 0)
        else if time_left c =? 0 then
          on_sched (put_proc (c_proc c) (prio proc)) ;;;
          ret (mk_cpu C_get (c_proc c) (time_left c))
        else ret (mk_cpu C_check (c_proc c) (time_left c))
  | C_get =>
      let* p := on_sched get_proc in
      ret (mk_cpu C_check p (time_left c))
  | C_check =>
      let* s := gets (fun s => s) in
      if c_proc c =? NULL then ret (mk_cpu (if o_done s then C_stopped else C_slot) NULL (time_left c))
      else ret (mk_cpu C_run (c_proc c) (if time_left c =? 0 then time_slot else time_left c))
  | C_run =>
      let* _ := on_sys (run (c_proc c)) in
      let* t := int_arith (time_left c - 1) in
      ret (mk_cpu C_slot (c_proc c) t)
  | C_slot => ret (mk_cpu C_top (c_proc c) (time_left c))
  | C_stopped => undef
  end.

(** ** [ld_routine] *)

Definition set_prio (x : Z) (p : pcb_t) : pcb_t :=
  mk_pcb (pid p) (priority p) (code p) (regs p) (pc p) x (p_krnl p) (bp p) (p_mm p).
Definition set_krnl (x : Z) (p : pcb_t) : pcb_t :=
  mk_pcb (pid p) (priority p) (code p) (regs p) (pc p) (prio p) x (bp p) (p_mm p).

(** [load(path)], [proc->krnl = &os] and [proc->prio = prio].  [p] is the
    address of the new PCB, [junk] and [text] what its blocks contain; the
    results of [malloc] are not checked. *)
Definition ld_load (p : Z) (junk : pcb_t) (text : nat -> list inst_t) (contents : option string) (prio : Z)
    : M os_st unit :=
  on_sys malloc_unchecked ;;;
  let* _ := on_sys malloc in
  let* s := gets (fun s => s) in
  match load (o_pid s) junk text contents with
  | Ok (c, next) =>
      on_sys malloc_unchecked ;;;
      on_sys (if 0 <? code_size (code c) then malloc_unchecked else let* _ := malloc in ret tt) ;;;
      modify (fun s => mk_os (set_procs (<[p := set_prio (u32 prio) (set_krnl OS c)]> (procs (o_sys s))) (o_sys s))
                             (o_sched s) next (o_done s))
  | Undef => undef
  | Exit e => exit e
  end.

Definition upd_pcb (p : Z) (f : pcb_t -> pcb_t) : M sys unit :=
  let* c := get_pcb p in modify (fun s => set_procs (<[p := f c]> (procs s)) s).

(** A descriptor at the address [a] that [malloc] returns, if it does. *)
Definition new_mm (a : Z) : M sys Z := let* ok := malloc in ret (if ok then a else NULL).

(** [krnl->mm], made on the first turn. *)
Definition ld_krnl_mm (p k_addr : Z) : M sys bool :=
  let* k := gets os in
  if k_mm k =? NULL then
    let* a := new_mm k_addr in
    modify (fun s => set_os (mk_krnl (proc_table (os s)) a (k_mram (os s)) (k_active_mswp (os s))) s) ;;;
    if a =? NULL then ret false
    else
      let* proc := get_pcb p in
      let* r := init_mm a (Some proc) in
      ret (r =? 0)
  else ret true.

(** The MM_PAGING part: [krnl->mm], the devices, the address space of the
    process and its entry in the table.  [false] is [return NULL], which ends
    the thread. *)
Definition ld_setup (p k_addr mm_addr mram mswp : Z) : M sys bool :=
  let* ok := ld_krnl_mm p k_addr in
  if negb ok then ret false
  else
    modify (fun s => set_os (mk_krnl (proc_table (os s)) (k_mm (os s)) mram mswp) s) ;;;
    let* a := new_mm mm_addr in
    upd_pcb p (set_mm a) ;;;
    if a =? NULL then ret false
    else
      let* proc := get_pcb p in
      let* r := init_mm a (Some proc) in
      if negb (r =? 0) then ret false
      else
        let* k := gets os in
        let* t := from_opt (arr_set (proc_table k) (pid proc) p) in
        modify (fun s => set_os (mk_krnl t (k_mm (os s)) (k_mram (os s)) (k_active_mswp (os s))) s) ;;;
        ret true.

(** The place of the loader in the turn for process [l_i]. *)
Inductive ld_pc := L_load | L_wait | L_setup | L_add | L_slot | L_done | L_failed.
Record ld := mk_ld { l_at : ld_pc; l_i : nat; l_proc : Z }.

(** A process of the configuration: the contents of its file, its start time
    and priority. *)
Record proc_conf := mk_conf { cf_file : option string; start_time : Z; cf_prio : Z }.

(** What the outside gives to a step: addresses and contents of fresh blocks,
    and the clock. *)
Record ext := mk_ext {
  x_pcb : Z; x_junk : pcb_t; x_text : forall n, vec inst_t n; x_kmm : Z; x_mm : Z; x_now : Z;
}.

Definition ld_step (conf : list proc_conf) (mram mswp : Z) (x : ext) (l : ld) : M os_st ld :=
  match l_at l with
  | L_load =>
      match conf !! l_i l with
      | Some pr =>
          ld_load (x_pcb x) (x_junk x) (fun n => vec_to_list (x_text x n)) (cf_file pr) (cf_prio pr) ;;;
          ret (mk_ld L_wait (l_i l) (x_pcb x))
      | None =>
          modify (fun s => mk_os (o_sys s) (o_sched s) (o_pid s) true) ;;;
          ret (mk_ld L_done (l_i l) (l_proc l))
      end
  | L_wait =>
      let* pr := from_opt (conf !! l_i l) in
      ret (mk_ld (if x_now x <? start_time pr then L_wait else L_setup) (l_i l) (l_proc l))
  | L_setup =>
      let* ok := on_sys (ld_setup (l_proc l) (x_kmm x) (x_mm x) mram mswp) in
      ret (mk_ld (if ok then L_add else L_failed) (l_i l) (l_proc l))
  | L_add =>
      let* proc := on_sys (get_pcb (l_proc l)) in
      on_sched (add_proc (l_proc l) (prio proc)) ;;;
      ret (mk_ld L_slot (l_i l) (l_proc l))
  | L_slot => ret (mk_ld L_load (S (l_i l)) (l_proc l))
  | L_done | L_failed => undef
  end.

(** ** The machine *)

Record mach := mk_mach { m_os : os_st; m_cpus : list cpu; m_ld : ld }.

(** [malloc] returns the address of no live object; a PCB has ten registers. *)
Record fresh (x : ext) (s : os_st) : Prop := {
  fr_pcb : x_pcb x <> NULL /\ procs (o_sys s) !! x_pcb x = None;
  fr_kmm : x_kmm x <> NULL /\ mms (o_sys s) !! x_kmm x = None;
  fr_mm : x_mm x <> NULL /\ mms (o_sys s) !! x_mm x = None;
  fr_ne : x_kmm x <> x_mm x;
  fr_regs : length (regs (x_junk x)) = 10%nat;
}.

#[export] Instance fresh_dec x s : Decision (fresh x s).
Proof.
  destruct (decide ((x_pcb x <> NULL /\ procs (o_sys s) !! x_pcb x = None) /\
    (x_kmm x <> NULL /\ mms (o_sys s) !! x_kmm x = None) /\ (x_mm x <> NULL /\ mms (o_sys s) !! x_mm x = None) /\
    x_kmm x <> x_mm x /\ length (regs (x_junk x)) = 10%nat)) as [H|H]; [left|right].
  - destruct H as (? & ? & ? & ? & ?). by split.
  - intros []. by apply H.
Defined.

Inductive os_step (time_slot : Z) (conf : list proc_conf) (mram mswp : Z) : mach -> mach -> Prop :=
| os_cpu m i c c' s' :
    m_cpus m !! i = Some c -> cpu_step time_slot c (m_os m) = Ok (c', s') ->
    os_step time_slot conf mram mswp m (mk_mach s' (<[i := c']> (m_cpus m)) (m_ld m))
| os_ld m x l' s' :
    fresh x (m_os m) -> ld_step conf mram mswp x (m_ld m) (m_os m) = Ok (l', s') ->
    os_step time_slot conf mram mswp m (mk_mach s' (m_cpus m) l').

(** [main]: the scheduler initialised, no process yet. *)
Definition boot_os : krnl_t := mk_krnl (replicate (Z.to_nat PID_MAX) NULL) NULL NULL NULL.
Definition boot (num_cpus : nat) (dv : gmap Z memphy_struct) (h : list bool) : mach :=
  mk_mach (mk_os (mk_sys ∅ dv ∅ boot_os (mk_heap ∅ 4096) h) sched_init 1 false)
          (replicate num_cpus (mk_cpu C_top NULL 0)) (mk_ld L_load 0 NULL).

(** ** Where the processes are *)

(** Waiting in a level of the scheduler. *)
Definition queued (s : os_st) : list Z := mjoin (aspec.ready (sched_abs (o_sched s))).

(** In the hands of a CPU or of the loader. *)
Definition cpu_holds (c : cpu) : list Z :=
  match c_at c with
  | C_get | C_stopped => []
  | _ => if c_proc c =? NULL then [] else [c_proc c]
  end.
Definition ld_holds (l : ld) : list Z :=
  match l_at l with L_wait | L_setup | L_add | L_failed => [l_proc l] | _ => [] end.
Definition holders (m : mach) : list Z := mjoin (cpu_holds <$> m_cpus m) ++ ld_holds (m_ld m).

(** Every live process is in one place. *)
Record os_inv (m : mach) : Prop := {
  oi_sched : sched_wf (o_sched (m_os m));
  oi_once : NoDup (queued (m_os m) ++ holders m);
  oi_live p : p ∈ queued (m_os m) ++ holders m -> p <> NULL /\ is_Some (procs (o_sys (m_os m)) !! p);
}.

(** A step of one thread that held [h] before and [h'] after: the places
    [queued ++ h] are rearranged, some may be left, and new ones are fresh. *)
Definition moves (h h' : list Z) (s s' : os_st) : Prop :=
  sched_wf (o_sched s') /\
  (forall rest, NoDup (queued s ++ h ++ rest) ->
     (forall p, p ∈ queued s ++ h ++ rest -> p <> NULL /\ is_Some (procs (o_sys s) !! p)) ->
     NoDup (queued s' ++ h' ++ rest) /\
     forall p, p ∈ queued s' ++ h' ++ rest -> p <> NULL /\ is_Some (procs (o_sys s') !! p)).

Lemma holders_cpu (cs : list cpu) i c (l : list Z) :
  cs !! i = Some c -> exists rest,
    mjoin (cpu_holds <$> cs) ++ l ≡ₚ cpu_holds c ++ rest /\
    forall c', mjoin (cpu_holds <$> <[i := c']> cs) ++ l ≡ₚ cpu_holds c' ++ rest.
Proof.
  intros Hi. exists (mjoin (cpu_holds <$> delete i cs) ++ l).
  assert (H : forall d, mjoin (cpu_holds <$> <[i := d]> cs) ≡ₚ cpu_holds d ++ mjoin (cpu_holds <$> delete i cs)).
  { intros d. revert i Hi. induction cs as [|x cs IH]; intros [|i] Hi; simplify_eq/=; [done|].
    rewrite (IH i Hi). solve_Permutation. }
  split; [|intros c'; by rewrite H, app_assoc]. rewrite <- (list_insert_id cs i c Hi) at 1. by rewrite H, app_assoc.
Qed.

(** Permuting the places. *)
Lemma moves_perm s s' h h' (l1 l1' rest : list Z) :
  moves h h' s s' -> l1 ≡ₚ h ++ rest -> l1' ≡ₚ h' ++ rest -> NoDup (queued s ++ l1) ->
  (forall p, p ∈ queued s ++ l1 -> p <> NULL /\ is_Some (procs (o_sys s) !! p)) ->
  NoDup (queued s' ++ l1') /\ forall p, p ∈ queued s' ++ l1' -> p <> NULL /\ is_Some (procs (o_sys s') !! p).
Proof.
  intros [_ Hm] H1 H2 Hn Hl. setoid_rewrite H1 in Hn. destruct (Hm rest Hn) as [Hn' Hl'].
  - intros p Hp. apply Hl. by rewrite H1.
  - rewrite H2. split; [done|]. intros p Hp. apply Hl'. by rewrite <- H2.
Qed.

(** ** The scheduler's part *)

Definition waiting_procs (s : sched) : list Z := mjoin (aspec.ready (sched_abs s)).

Lemma get_proc_places s p s' :
  sched_wf s -> get_proc s = Ok (p, s') ->
  sched_wf s' /\ (p = NULL /\ waiting_procs s' = waiting_procs s \/
                  p <> NULL /\ waiting_procs s ≡ₚ p :: waiting_procs s').
Proof.
  intros Hwf H. pose proof (get_proc_refines s Hwf) as Hr. unfold wp in Hr. rewrite H in Hr.
  destruct Hr as (Hwf' & Hp & Ha). split; [done|]. unfold waiting_procs. rewrite Ha.
  unfold aspec.get in *. destruct (aspec.pick _ _) as [i|] eqn:Hpick.
  - destruct (pick_Some _ _ _ Hpick) as (q & l & k & Hq & _). rewrite Hq in *. simpl in Hp. subst p. right. split.
    + simpl in Hq. rewrite list_lookup_fmap in Hq. destruct (mlq_ready_queue s !! i) as [qq|] eqn:Hqq; [|done].
      simpl in Hq. injection Hq as Hq. pose proof (wf_procs _ Hwf) as Hn. rewrite Forall_lookup in Hn.
      specialize (Hn _ _ Hqq). rewrite Hq in Hn. intros ->. apply Hn. apply list_elem_of_here.
    + simpl. pose proof (mjoin_insert_perm _ _ _ l Hq) as Hperm. simpl in Hperm.
      apply (Permutation_app_inv_l l). rewrite <- Hperm. solve_Permutation.
  - left. by destruct (existsb _ _).
Qed.

Lemma enqueue_places ls (i : nat) p :
  mjoin (alter (spec.enqueue p) i ls) ≡ₚ mjoin ls \/ mjoin (alter (spec.enqueue p) i ls) ≡ₚ p :: mjoin ls.
Proof.
  destruct (ls !! i) as [l|] eqn:Hl.
  - destruct (decide (Z.of_nat (length l) < MAX_QUEUE_SIZE)); [right; by eapply add_level_perm|left].
    rewrite (list_alter_insert _ _ _ l Hl). unfold spec.enqueue.
    destruct (Z.ltb_spec (Z.of_nat (length l)) MAX_QUEUE_SIZE); [lia|]. by rewrite list_insert_id.
  - left. assert (alter (spec.enqueue p) i ls = ls) as ->; [|done]. apply list_eq. intros j.
    destruct (decide (i = j)) as [<-|Hne]; [by rewrite list_lookup_alter_eq, Hl|by apply list_lookup_alter_ne].
Qed.

Lemma on_level_range {A} prio (m : M queue_t A) s r s' :
  sched_wf s -> on_level prio m s = Ok (r, s') -> exists i : nat, prio = Z.of_nat i /\ (i < Z.to_nat MAX_PRIO)%nat.
Proof.
  intros Hwf H. unfold on_level, zoom in H. destruct (arr_get (mlq_ready_queue s) prio) as [q|] eqn:Hq; [|done].
  apply arr_get_Some in Hq as [H0 Hq]. exists (Z.to_nat prio). split; [lia|].
  rewrite <- (wf_nlevels _ Hwf). by eapply lookup_lt_Some.
Qed.

Lemma add_proc_places s p prio r s' :
  sched_wf s -> p <> NULL -> add_proc p prio s = Ok (r, s') ->
  sched_wf s' /\ (waiting_procs s' ≡ₚ waiting_procs s \/ waiting_procs s' ≡ₚ p :: waiting_procs s).
Proof.
  intros Hwf Hp H. destruct (on_level_range prio (enqueue p) (set_krnl_queues s) r s') as (i & -> & Hi);
    [by auto with sched|done|]. pose proof (add_proc_refines p i s Hwf Hi Hp) as Hr. unfold wp in Hr. rewrite H in Hr.
  destruct Hr as [Hwf' Ha]. split; [done|]. unfold waiting_procs. rewrite Ha. apply enqueue_places.
Qed.

Lemma put_proc_places s p prio r s' :
  sched_wf s -> p <> NULL -> put_proc p prio s = Ok (r, s') ->
  sched_wf s' /\ (waiting_procs s' ≡ₚ waiting_procs s \/ waiting_procs s' ≡ₚ p :: waiting_procs s).
Proof.
  intros Hwf Hp H. assert (Hi : exists i : nat, prio = Z.of_nat i /\ (i < Z.to_nat MAX_PRIO)%nat).
  { unfold put_proc, put_mlq_proc, bind, modify, on_running, zoom in H. simpl in H.
    destruct (purgequeue p (running_list s)) as [[x q]| |]; [|done|done].
    unfold on_level, zoom in H. simpl in H. destruct (arr_get (mlq_ready_queue s) prio) as [qq|] eqn:Hq; [|done].
    apply arr_get_Some in Hq as [H0 Hq]. exists (Z.to_nat prio). split; [lia|].
    rewrite <- (wf_nlevels _ Hwf). by eapply lookup_lt_Some. }
  destruct Hi as (i & -> & Hi). pose proof (put_proc_refines p i s Hwf Hi Hp) as Hr. unfold wp in Hr. rewrite H in Hr.
  destruct Hr as [Hwf' Ha]. split; [done|]. unfold waiting_procs. rewrite Ha. apply enqueue_places.
Qed.

(** ** The memory subsystem's part: live processes stay live *)

Definition live_same (s s' : sys) : Prop := forall p, is_Some (procs s' !! p) <-> is_Some (procs s !! p).

#[export] Instance live_same_preorder : PreOrder live_same.
Proof. split; [by intros s p|]. intros s1 s2 s3 H1 H2 p. specialize (H1 p). specialize (H2 p). tauto. Qed.

Lemma kept_live s s' : kept s s' -> live_same s s'.
Proof.
  intros H p. pose proof (kp_procs _ _ H p) as Hp.
  destruct (procs s' !! p), (procs s !! p); simpl in Hp; try done; by split; intros [? ?].
Qed.

Lemma live_insert p c c0 s : procs s !! p = Some c0 -> live_same s (set_procs (<[p := c]> (procs s)) s).
Proof.
  intros H q. simpl. rewrite lookup_insert. case_decide; [subst; rewrite H|done]. by split; eauto.
Qed.

Lemma run_live p s r s' : run p s = Ok (r, s') -> live_same s s'.
Proof.
  intros H. unfold run, inc_pc, get_pcb, bind, gets, from_opt, modify, ret in H.
  destruct (procs s !! p) as [c|] eqn:Hc; [|done].
  destruct (code_size (code c) <=? pc c); [by simplify_eq|].
  destruct (arr_get (text (code c)) (pc c)) as [ins|]; [|done].
  rewrite Hc in H. etransitivity; [by eapply live_insert|]. apply kept_live.
  assert (Hk : preserves kept (execute p ins)) by (unfold execute; destruct (opcode ins); solve_preserves).
  by eapply Hk.
Qed.

(** ** One step of a thread *)

(** The places before are those after and [l], whose processes are left. *)
Lemma moves_intro l h h' s s' :
  sched_wf (o_sched s') -> queued s ++ h ≡ₚ l ++ queued s' ++ h' ->
  (forall p, p ∉ l -> is_Some (procs (o_sys s) !! p) -> is_Some (procs (o_sys s') !! p)) -> moves h h' s s'.
Proof.
  intros Hwf Hperm Hlive. split; [done|]. intros rest Hn Hl.
  assert (Hp : queued s ++ h ++ rest ≡ₚ l ++ (queued s' ++ h' ++ rest)).
  { rewrite (app_assoc (queued s)), Hperm. by rewrite <- !app_assoc. }
  rewrite Hp in Hn. apply NoDup_app in Hn as (_ & Hd & Hn). split; [done|]. intros p Hin.
  destruct (Hl p) as [Hne Hs]; [rewrite Hp; apply elem_of_app; by right|]. split; [done|].
  apply Hlive; [|done]. intros Hpl. by apply (Hd p).
Qed.

Lemma moves_same h s s' :
  sched_wf (o_sched s) -> o_sched s' = o_sched s -> live_same (o_sys s) (o_sys s') -> moves h h s s'.
Proof.
  intros Hwf Hs Hl. apply (moves_intro []); [by rewrite Hs|unfold queued; by rewrite Hs|]. intros p _. by apply Hl.
Qed.

(** What the zooms do to the state. *)
Lemma on_sys_Ok {A} (m : M sys A) s a s' :
  on_sys m s = Ok (a, s') -> exists x, m (o_sys s) = Ok (a, x) /\ s' = set_sys x s.
Proof. unfold on_sys, zoom. destruct (m (o_sys s)) as [[b x]| |]; intros; simplify_eq. by exists x. Qed.
Lemma on_sched_Ok {A} (m : M sched A) s a s' :
  on_sched m s = Ok (a, s') -> exists x, m (o_sched s) = Ok (a, x) /\ s' = set_sched x s.
Proof. unfold on_sched, zoom. destruct (m (o_sched s)) as [[b x]| |]; intros; simplify_eq. by exists x. Qed.
Lemma bind_inv {S A B} (m : M S A) (k : A -> M S B) s b s' :
  bind m k s = Ok (b, s') -> exists a s1, m s = Ok (a, s1) /\ k a s1 = Ok (b, s').
Proof. unfold bind. destruct (m s) as [[a s1]| |]; [|done|done]. intros H. by exists a, s1. Qed.

(** Take the next operation of [H : m s = Ok _] apart. *)
Ltac ok_step H :=
  let a := fresh "a" in let s1 := fresh "s1" in let H1 := fresh "Hop" in let x := fresh "x" in
  apply bind_inv in H as (a & s1 & H1 & H);
  lazymatch type of H1 with
  | on_sys _ _ = _ => apply on_sys_Ok in H1 as (x & H1 & ->)
  | on_sched _ _ = _ => apply on_sched_Ok in H1 as (x & H1 & ->)
  | gets _ _ = _ => injection H1 as <- <-
  | _ => idtac
  end.

Lemma get_moves s p x h at' :
  sched_wf (o_sched s) -> get_proc (o_sched s) = Ok (p, x) -> (at' = C_check \/ at' = if p =? NULL then C_slot else C_check) ->
  moves h (cpu_holds (mk_cpu at' p 0) ++ h) s (set_sched x s).
Proof.
  intros Hwf H Hat. destruct (get_proc_places _ _ _ Hwf H) as [Hwf' Hq].
  change (waiting_procs x) with (queued (set_sched x s)) in Hq. change (waiting_procs (o_sched s)) with (queued s) in Hq.
  destruct Hq as [[-> Hq]|[Hp Hq]].
  - assert (cpu_holds (mk_cpu at' NULL 0) = []) as -> by (destruct Hat as [->| ->]; done).
    apply (moves_intro []); [done|by rewrite Hq|done].
  - assert (cpu_holds (mk_cpu at' p 0) = [p]) as ->.
    { apply Z.eqb_neq in Hp. destruct Hat as [->| ->]; unfold cpu_holds; simpl; by rewrite !Hp. }
    apply (moves_intro []); [done|rewrite Hq; solve_Permutation|done].
Qed.

Lemma moves_trans h1 h2 h3 s1 s2 s3 : moves h1 h2 s1 s2 -> moves h2 h3 s2 s3 -> moves h1 h3 s1 s3.
Proof. intros [_ H1] [Hw H2]. split; [done|]. intros rest Hn Hl. destruct (H1 rest Hn Hl). by apply H2. Qed.

Lemma cpu_step_moves ts c s c' s' :
  sched_wf (o_sched s) -> cpu_step ts c s = Ok (c', s') -> moves (cpu_holds c) (cpu_holds c') s s'.
Proof.
  intros Hwf H. destruct c as [at0 p left]. unfold cpu_step in H. cbn [c_at c_proc time_left] in H.
  destruct at0; [| | | | |done].
  - destruct (Z.eqb_spec p NULL) as [->|Hp]; cbn iota in H.
    + ok_step H. injection H as <- <-. change (cpu_holds (mk_cpu C_top NULL left)) with (@nil Z).
      change (cpu_holds (mk_cpu _ a left)) with (cpu_holds (mk_cpu (if a =? NULL then C_slot else C_check) a 0)).
      rewrite <- (app_nil_r (cpu_holds _)). apply get_moves; [done|done|by right].
    + assert (Hh : cpu_holds (mk_cpu C_top p left) = [p]) by (unfold cpu_holds; simpl; by rewrite (proj2 (Z.eqb_neq p _))).
      rewrite Hh. ok_step H. unfold get_pcb, bind, gets, from_opt in Hop. destruct (procs (o_sys s) !! p) as [pcb|] eqn:Hpcb; [|done].
      injection Hop as <- <-. destruct (pc pcb =? code_size (code pcb)); [|destruct (left =? 0)].
      * ok_step H. injection Hop as <- <-. ok_step H. injection H as <- <-.
        set (s1 := set_sys (set_procs (delete p (procs (o_sys s))) (o_sys s)) s).
        apply (moves_trans _ [] _ _ s1).
        -- apply (moves_intro [p]); [done|change (queued s1) with (queued s); solve_Permutation|].
           intros q Hq. simpl. rewrite lookup_delete_ne; [done|]. intros ->. apply Hq. apply list_elem_of_here.
        -- rewrite <- (app_nil_r (cpu_holds _)). apply (get_moves s1); [done|done|by left].
      * ok_step H. injection H as <- <-. destruct (put_proc_places _ _ _ _ _ Hwf Hp Hop) as [Hwf' Hq].
        change (waiting_procs x) with (queued (set_sched x s)) in Hq. change (waiting_procs (o_sched s)) with (queued s) in Hq.
        change (cpu_holds (mk_cpu C_get p left)) with (@nil Z).
        destruct Hq as [Hq|Hq]; [apply (moves_intro [p])|apply (moves_intro [])]; try done; rewrite Hq; solve_Permutation.
      * injection H as <- <-. unfold cpu_holds; simpl. rewrite (proj2 (Z.eqb_neq p _)) by done. by apply moves_same.
  - ok_step H. injection H as <- <-. change (cpu_holds (mk_cpu C_get p left)) with (@nil Z).
    change (cpu_holds (mk_cpu C_check a left)) with (cpu_holds (mk_cpu C_check a 0)).
    rewrite <- (app_nil_r (cpu_holds _)). apply get_moves; [done|done|by left].
  - ok_step H. unfold cpu_holds; simpl. destruct (Z.eqb_spec p NULL) as [->|Hp]; injection H as <- <-; simpl.
    + destruct (o_done s); by apply moves_same.
    + rewrite (proj2 (Z.eqb_neq p _)) by done. by apply moves_same.
  - ok_step H. ok_step H. injection H as <- <-. unfold int_arith in Hop0. destruct (_ && _) in Hop0; [|done].
    injection Hop0 as <- <-. unfold cpu_holds; simpl. apply moves_same; [done|done|by eapply run_live].
  - injection H as <- <-. unfold cpu_holds; simpl. by apply moves_same.
Qed.

(** ** The loader *)

Lemma preserves_live {A} (m : M sys A) : preserves kept m -> preserves live_same m.
Proof. intros H s a s' Hm. apply kept_live. by eapply H. Qed.

Lemma live_modify f : (forall s, procs (f s) = procs s) -> preserves live_same (modify f).
Proof. intros H. apply preserves_modify. intros s p. by rewrite H. Qed.

Lemma live_upd_pcb p f : preserves live_same (upd_pcb p f).
Proof.
  intros s a s' H. unfold upd_pcb, get_pcb, bind, gets, from_opt, modify in H.
  destruct (procs s !! p) as [c|] eqn:Hc; [|done]. injection H as _ <-. by eapply live_insert.
Qed.

Lemma kept_init_mm p c : preserves kept (init_mm p c).
Proof. unfold init_mm. solve_preserves. all: by apply kept_modify. Qed.

Lemma live_init_mm p c : preserves live_same (init_mm p c).
Proof. apply preserves_live, kept_init_mm. Qed.
Lemma live_new_mm a : preserves live_same (new_mm a).
Proof. apply preserves_live. unfold new_mm. solve_preserves. Qed.
Lemma live_get_pcb p : preserves live_same (get_pcb p).
Proof. apply preserves_live. auto with preserves. Qed.
#[local] Hint Resolve live_init_mm live_new_mm live_get_pcb live_upd_pcb : preserves.

Lemma live_ld_setup p ka ma mr ms : preserves live_same (ld_setup p ka ma mr ms).
Proof. unfold ld_setup, ld_krnl_mm. solve_preserves. all: by apply live_modify. Qed.

(** A new process, at an address no live process has. *)
Lemma moves_new p c s s' :
  sched_wf (o_sched s) -> o_sched s' = o_sched s -> p <> NULL -> procs (o_sys s) !! p = None ->
  procs (o_sys s') = <[p := c]> (procs (o_sys s)) -> moves [] [p] s s'.
Proof.
  intros Hwf Hsch Hp Hf Hpr. split; [by rewrite Hsch|]. intros rest Hn Hl. unfold queued. rewrite Hsch.
  change (mjoin (aspec.ready (sched_abs (o_sched s)))) with (queued s). change ([] ++ rest) with rest in *.
  assert (Hperm : queued s ++ [p] ++ rest ≡ₚ p :: queued s ++ rest) by solve_Permutation.
  rewrite Hpr. setoid_rewrite Hperm. split.
  - apply NoDup_cons. split; [|done]. intros Hin. destruct (Hl p Hin) as [_ [? Hs]]. congruence.
  - intros q [->|Hq]%elem_of_cons.
    + by rewrite lookup_insert_eq.
    + rewrite lookup_insert. case_decide; [|by apply Hl]. split; [by apply Hl|done].
Qed.

Lemma malloc_procs (s : sys) b s' : malloc s = Ok (b, s') -> procs s' = procs s.
Proof. unfold malloc. destruct (host s); intros; by simplify_eq. Qed.
Lemma malloc_unchecked_procs (s : sys) b s' : malloc_unchecked s = Ok (b, s') -> procs s' = procs s.
Proof.
  unfold malloc_unchecked. intros H. apply bind_inv in H as ([] & s1 & H1 & H); [|done].
  injection H as _ <-. by eapply malloc_procs.
Qed.

Lemma load_new_pcb a junk text contents c n :
  load a junk text contents = Ok (c, n) -> pid c = a /\ pc c = 0 /\ n = u32 (a + 1).
Proof.
  unfold load. destruct contents as [f|]; [|done]. destruct (scan_u f) as [pr rest].
  destruct (match pr with Some _ => scan_u rest | None => (None, rest) end) as [[sz|] rest']; [|done].
  destruct (read_text _ _) as [[l r]| |]; [|done|done]. by intros [= <- <-].
Qed.

Lemma ld_load_new p junk text contents pr s r s' :
  ld_load p junk text contents pr s = Ok (r, s') ->
  o_sched s' = o_sched s /\ exists c, procs (o_sys s') = <[p := c]> (procs (o_sys s)) /\
    pid c = o_pid s /\ pc c = 0 /\ o_pid s' = u32 (o_pid s + 1).
Proof.
  intros H. unfold ld_load in H. ok_step H. ok_step H. ok_step H. simpl in H.
  apply malloc_unchecked_procs in Hop. apply malloc_procs in Hop0.
  destruct (load _ _ _ _) as [[c n]| |] eqn:Hld; [|done|done]. apply load_new_pcb in Hld as (Hpid & Hpc & ->). ok_step H. ok_step H.
  assert (Hp : procs x2 = procs x1).
  { simpl in Hop2. destruct (0 <? code_size (code c)); [by eapply malloc_unchecked_procs|].
    apply bind_inv in Hop2 as (b & s2 & Hm & Hr). injection Hr as _ <-. by eapply malloc_procs. }
  apply malloc_unchecked_procs in Hop1. injection H as _ <-. simpl in *. split; [done|].
  eexists. rewrite Hp, Hop1, Hop0, Hop. split; [reflexivity|]. by split_and!.
Qed.

Lemma ld_step_moves conf mram mswp x l s l' s' :
  sched_wf (o_sched s) -> fresh x s -> (forall p, p ∈ ld_holds l -> p <> NULL) ->
  ld_step conf mram mswp x l s = Ok (l', s') -> moves (ld_holds l) (ld_holds l') s s'.
Proof.
  intros Hwf [[Hx Hf] _ _ _ _] Hnn H. destruct l as [at0 i p]. unfold ld_step in H. cbn [l_at l_i l_proc] in H.
  destruct at0; try done.
  - destruct (conf !! i) as [pr|]; ok_step H; injection H as <- <-.
    + apply ld_load_new in Hop as (Hs & c & Hc & _). by eapply moves_new.
    + injection Hop as _ <-. by apply moves_same.
  - ok_step H. injection H as <- <-. assert (s1 = s) as ->.
    { unfold from_opt in Hop. destruct (conf !! i); [by injection Hop|done]. }
    destruct (x_now x <? start_time a); by apply moves_same.
  - ok_step H. injection H as <- <-. apply live_ld_setup in Hop. destruct a; by apply moves_same.
  - ok_step H. ok_step H. injection H as <- <-.
    assert (x0 = o_sys s) as ->.
    { unfold get_pcb, bind, gets, from_opt in Hop. destruct (procs (o_sys s) !! p); [by injection Hop|done]. }
    destruct (add_proc_places _ _ _ _ _ Hwf (Hnn p (list_elem_of_here _ _)) Hop0) as [Hwf' Hq].
    change (waiting_procs x1) with (queued (set_sched x1 s)) in Hq. change (waiting_procs (o_sched s)) with (queued s) in Hq.
    change (ld_holds (mk_ld L_add i p)) with [p]. change (ld_holds (mk_ld L_slot i p)) with (@nil Z).
    destruct Hq as [Hq|Hq]; [apply (moves_intro [p])|apply (moves_intro [])]; try done; rewrite Hq.
    + solve_Permutation.
    + solve_Permutation.
  - injection H as <- <-. by apply moves_same.
Qed.

(** ** A CPU without a process *)

(** On its way out of the loop body: between [put_proc] and [get_proc], at the
    second test of [proc], or past the loop. *)
Definition leaving (c : cpu) : bool :=
  match c_at c with C_get | C_check | C_stopped => true | _ => false end.

(** It has no process, to run or in hand. *)
Definition no_process (c : cpu) : Prop := c_at c <> C_run /\ cpu_holds c = [].

(** Nothing is left to do: all processes are loaded and the loader has said
    so, none waits, and no CPU has one. *)
Definition no_work (m : mach) : Prop :=
  l_at (m_ld m) = L_done /\ o_done (m_os m) = true /\ queued (m_os m) = [] /\
  Forall no_process (m_cpus m).

Lemma get_proc_empty s :
  sched_wf s -> waiting_procs s = [] ->
  wp get_proc (fun p s' => p = NULL /\ sched_wf s' /\ waiting_procs s' = []) s.
Proof.
  intros Hwf He. pose proof (get_proc_refines s Hwf) as Hr. unfold wp in *.
  destruct (get_proc s) as [[p s']| |] eqn:Hg; [|done|done].
  destruct (get_proc_places _ _ _ Hwf Hg) as [Hwf' [[-> Hq]|[_ Hq]]].
  - split_and!; [done|done|by rewrite Hq].
  - rewrite He in Hq. by apply Permutation_nil_cons in Hq.
Qed.

(** The step of a CPU without a process when there is nothing to do. *)
Lemma idle_step ts c s :
  sched_wf (o_sched s) -> queued s = [] -> o_done s = true -> no_process c -> c_at c <> C_stopped ->
  wp (cpu_step ts c) (fun c' s' => queued s' = [] /\ o_done s' = true /\ no_process c' /\
    leaving c' = leaving c /\ (c_at c = C_check -> c_at c' = C_stopped) /\ (c_at c = C_get -> c_at c' = C_check)) s.
Proof.
  intros Hwf Hq Hd [Hr Hh] Hc. destruct c as [at0 p left]. unfold cpu_holds in Hh; simpl in *.
  assert (Hget : forall (Q : Z -> os_st -> Prop), (forall s', queued s' = [] -> o_done s' = true -> Q NULL s') ->
    wp (on_sched get_proc) Q s).
  { intros Q HQ. unfold on_sched. eapply wp_zoom; [done|].
    eapply wp_mono; [by apply get_proc_empty|]. intros a x (-> & _ & Hq'). by apply HQ. }
  destruct at0; try done; unfold cpu_step; simpl; try (destruct (p =? NULL) eqn:Hp; [|done]).
  - wp_step. apply Hget. intros s' Hq' Hd'. wp_steps. split_and!; done.
  - wp_step. apply Hget. intros s' Hq' Hd'. wp_steps. split_and!; done.
  - wp_steps. rewrite Hd. split_and!; done.
Qed.

(** ** Properties *)

(** When only level [i] has a process and its budget is used up, the policy
    refills. *)
Lemma only_exhausted p (i : nat) a a' :
  mjoin (aspec.ready a) = [] -> aspec.slots a !! i = Some 0 -> (i < length (aspec.ready a))%nat ->
  a' = aspec.put p i a ->
  aspec.get a' = (aspec.Refilled, aspec.mk (aspec.ready a') (aspec.running a') full_slots) /\
  mjoin (aspec.ready a') = [p].
Proof.
  intros He Hs Hi ->. assert (Hnil : forall j l, aspec.ready a !! j = Some l -> l = []).
  { intros j l Hl. apply elem_of_nil_inv. intros x Hx. apply (not_elem_of_nil x). rewrite <- He.
    apply list_elem_of_join. exists l. split; [done|]. by eapply list_elem_of_lookup_2. }
  destruct (lookup_lt_is_Some_2 _ _ Hi) as [l Hl]. pose proof (Hnil _ _ Hl) as ->.
  unfold aspec.put, aspec.add. cbn [aspec.ready aspec.running aspec.slots].
  assert (Hin : alter (spec.enqueue p) i (aspec.ready a) !! i = Some [p]) by (by rewrite list_lookup_alter_eq, Hl).
  split.
  - unfold aspec.get. cbn [aspec.ready aspec.running aspec.slots]. destruct (aspec.pick _ _) as [j|] eqn:Hp.
    + destruct (pick_Some _ _ _ Hp) as (x & l & k & Hx & Hk & Hpos & _). exfalso.
      destruct (decide (i = j)) as [<-|Hne]; [rewrite Hs in Hk; by simplify_eq|].
      rewrite list_lookup_alter_ne in Hx by done. by apply Hnil in Hx.
    + by rewrite (waiting_existsb _ _ _ _ Hin).
  - apply Permutation_singleton_r. rewrite (add_level_perm _ _ [] p Hl) by done. by rewrite He.
Qed.

(** ** Properties *)

Section Machine.
Context (time_slot : Z) (conf : list proc_conf) (mram mswp : Z).
Definition step : mach -> mach -> Prop := os_step time_slot conf mram mswp.

Lemma os_inv_step m m' : step m m' -> os_inv m -> os_inv m'.
Proof.
  intros Hst [Hwf Hn Hl]. destruct Hst as [m i c c' s' Hi Hc|m x l' s' Hf Hld].
  - pose proof (cpu_step_moves _ _ _ _ _ Hwf Hc) as Hm.
    destruct (holders_cpu _ i c (ld_holds (m_ld m)) Hi) as (rest & H1 & H2).
    destruct (moves_perm _ _ _ _ _ _ _ Hm H1 (H2 c') Hn Hl) as [Hn' Hl']. split; [apply Hm|done|done].
  - assert (Hnn : forall p, p ∈ ld_holds (m_ld m) -> p <> NULL).
    { intros p Hp. apply Hl. apply elem_of_app. right. apply elem_of_app. by right. }
    pose proof (ld_step_moves _ _ _ _ _ _ _ _ Hwf Hf Hnn Hld) as Hm.
    destruct (moves_perm _ _ _ _ (holders m) (holders (mk_mach s' (m_cpus m) l')) (mjoin (cpu_holds <$> m_cpus m)) Hm
                (Permutation_app_comm _ _) (Permutation_app_comm _ _) Hn Hl) as [Hn' Hl'].
    by split; [apply Hm|..].
Qed.

Lemma os_inv_boot n dv h : os_inv (boot n dv h).
Proof.
  assert (Hq : queued (m_os (boot n dv h)) ++ holders (boot n dv h) = []).
  { unfold holders. simpl m_cpus. rewrite fmap_replicate. cbn [cpu_holds]. simpl.
    rewrite app_nil_r. by induction n as [|n IH]. }
  split; [apply sched_init_wf|rewrite Hq; constructor|]. rewrite Hq. by intros p ?%not_elem_of_nil.
Qed.

Lemma os_inv_reach n dv h m : star step (boot n dv h) m -> os_inv m.
Proof. apply (star_invariant step os_inv); [intros; by eapply os_inv_step|apply os_inv_boot]. Qed.

Lemma cpu_holds_in m i c p : m_cpus m !! i = Some c -> p ∈ cpu_holds c -> p ∈ mjoin (cpu_holds <$> m_cpus m).
Proof. intros Hi Hp. apply list_elem_of_join. exists (cpu_holds c). split; [done|]. apply list_elem_of_fmap. exists c.
  split; [done|]. by eapply list_elem_of_lookup_2. Qed.

Lemma join_disjoint (ls : list (list Z)) i j l k p :
  NoDup (mjoin ls) -> ls !! i = Some l -> ls !! j = Some k -> p ∈ l -> p ∈ k -> i = j.
Proof.
  revert i j. induction ls as [|x ls IH]; intros i j Hn Hi Hj Hl Hk; [done|].
  simpl in Hn. apply NoDup_app in Hn as (_ & Hd & Hn).
  destruct i as [|i], j as [|j]; simplify_eq/=; [done| | |f_equal; by eapply IH].
  - exfalso. apply (Hd p Hl). apply list_elem_of_join. exists k. split; [done|]. by eapply list_elem_of_lookup_2.
  - exfalso. apply (Hd p Hk). apply list_elem_of_join. exists l. split; [done|]. by eapply list_elem_of_lookup_2.
Qed.

(** Where CPU [i] can be after a step of the machine with nothing to do. *)
Lemma no_work_step m m' i c :
  step m m' -> os_inv m -> no_work m -> m_cpus m !! i = Some c ->
  no_work m' /\ exists c', m_cpus m' !! i = Some c' /\ leaving c' = leaving c.
Proof.
  intros Hst [Hwf _ _] (Hld & Hdn & Hq & Hc) Hi. destruct Hst as [m j d d' s' Hj Hs|m x l' s' Hf Hs].
  2: { unfold ld_step in Hs. by rewrite Hld in Hs. }
  pose proof (Forall_lookup_1 _ _ _ _ Hc Hj) as Hidle. assert (Hne : c_at d <> C_stopped).
  { intros He. destruct d as [[] ? ?]; done. }
  pose proof (idle_step time_slot d (m_os m) Hwf Hq Hdn Hidle Hne) as Hw. unfold wp in Hw. rewrite Hs in Hw.
  destruct Hw as (Hq' & Hd' & Hh' & Hl & _). split; [split_and!; [done..|by apply Forall_insert]|]. simpl.
  destruct (decide (j = i)) as [->|Hji]; [|exists c; by rewrite list_lookup_insert_ne].
  exists d'. rewrite list_lookup_insert_eq by (by eapply lookup_lt_Some). simplify_eq. done.
Qed.

Lemma no_work_star m m' i c :
  star step m m' -> os_inv m -> no_work m -> m_cpus m !! i = Some c ->
  os_inv m' /\ no_work m' /\ exists c', m_cpus m' !! i = Some c' /\ leaving c' = leaving c.
Proof.
  intros Hs. revert c. induction Hs as [m|m m1 m2 Hst Hs IH]; intros c Hinv Hnw Hi; [by eauto|].
  destruct (no_work_step _ _ i c Hst Hinv Hnw Hi) as (Hnw1 & c1 & Hi1 & Hl1). rewrite <- Hl1.
  eapply IH; [by eapply os_inv_step|done|done].
Qed.

(** An interleaving as a list of the threads that step, executed. *)
Inductive turn := Cpu (i : nat) | Loader (x : ext).
Definition exec_turn (t : turn) (m : mach) : option mach :=
  match t with
  | Cpu i =>
      c ← m_cpus m !! i;
      match cpu_step time_slot c (m_os m) with
      | Ok (c', s') => Some (mk_mach s' (<[i := c']> (m_cpus m)) (m_ld m))
      | _ => None
      end
  | Loader x =>
      if decide (fresh x (m_os m)) then
        match ld_step conf mram mswp x (m_ld m) (m_os m) with
        | Ok (l', s') => Some (mk_mach s' (m_cpus m) l')
        | _ => None
        end
      else None
  end.
Fixpoint exec (ts : list turn) (m : mach) : option mach :=
  match ts with [] => Some m | t :: ts => m' ← exec_turn t m; exec ts m' end.

Lemma exec_turn_step t m m' : exec_turn t m = Some m' -> step m m'.
Proof.
  intros H. destruct t as [i|x]; simpl in H.
  - destruct (m_cpus m !! i) as [c|] eqn:Hc; [|done]. simpl in H.
    destruct (cpu_step time_slot c (m_os m)) as [[c' s']| |] eqn:Hs; [|done|done]. injection H as <-. by eapply os_cpu.
  - destruct (decide (fresh x (m_os m))); [|done].
    destruct (ld_step _ _ _ _ _ _) as [[l' s']| |] eqn:Hs; [|done|done]. injection H as <-. by eapply os_ld.
Qed.

Lemma exec_star ts m m' : exec ts m = Some m' -> star step m m'.
Proof.
  revert m. induction ts as [|t ts IH]; intros m H; simpl in H; [injection H as ->; apply star_refl|].
  destruct (exec_turn t m) as [m1|] eqn:Ht; [|done]. eapply star_step; [by eapply exec_turn_step|by apply IH].
Qed.

(** C10 (safety): every process is in one place.  In every state that the
    machine can reach from [main], under every interleaving of the CPUs and
    the loader and every failure of [malloc], a process that a CPU runs is
    allocated, is run by no other CPU, waits in no level of the scheduler and
    is not in the hands of the loader; a process that waits is allocated,
    waits once and is not still being loaded. *)
Theorem each_process_in_one_place n dv h m :
  star step (boot n dv h) m ->
  (forall i c p, m_cpus m !! i = Some c -> p ∈ cpu_holds c ->
     is_Some (procs (o_sys (m_os m)) !! p) /\ (p ∉ queued (m_os m)) /\ (p ∉ ld_holds (m_ld m)) /\
     forall j d, m_cpus m !! j = Some d -> p ∈ cpu_holds d -> i = j) /\
  NoDup (queued (m_os m)) /\
  forall p, p ∈ queued (m_os m) -> p <> NULL /\ is_Some (procs (o_sys (m_os m)) !! p) /\ (p ∉ ld_holds (m_ld m)).
Proof.
  intros Hr. destruct (os_inv_reach _ _ _ _ Hr) as [_ Hn Hl]. apply NoDup_app in Hn as (Hnq & Hd & Hnh).
  unfold holders in *. apply NoDup_app in Hnh as (Hnc & Hdc & _). split_and!; [|done|].
  - intros i c p Hi Hp. pose proof (cpu_holds_in m i c p Hi Hp) as Hin. split_and!.
    + apply Hl. apply elem_of_app. right. apply elem_of_app. by left.
    + intros Hq. apply (Hd p Hq). apply elem_of_app. by left.
    + by apply Hdc.
    + intros j d Hj Hpd. apply (join_disjoint (cpu_holds <$> m_cpus m) i j (cpu_holds c) (cpu_holds d) p); try done;
        by rewrite list_lookup_fmap, ?Hi, ?Hj.
  - intros p Hp. destruct (Hl p) as [Hp0 Hpl]; [apply elem_of_app; by left|]. split_and!; [done|done|].
    intros Hpl'. apply (Hd p Hp). apply elem_of_app. by right.
Qed.

(** C22 (liveness): which CPUs stop.  Once the loader is done, no process waits
    and no CPU has one, it depends on where a CPU is.  At the head of its loop
    or between two slots it never stops: with no process it goes back to
    [get_proc] without looking at [done], can always take a step, and [main]
    waits for it in [pthread_join] for ever.  A CPU inside the loop body -
    it has freed or given back its process and is at the second test, or
    about to ask for another - never goes back to the head: it asks, finds
    none, and at the test stops. *)
Theorem idle_cpu_never_stops n dv h m m' i c :
  star step (boot n dv h) m -> no_work m -> m_cpus m !! i = Some c -> star step m m' ->
  exists c', m_cpus m' !! i = Some c' /\
    if leaving c then
      leaving c' = true /\
      (c_at c' = C_get -> wp (cpu_step time_slot c') (fun d _ => c_at d = C_check) (m_os m')) /\
      (c_at c' = C_check -> wp (cpu_step time_slot c') (fun d _ => c_at d = C_stopped) (m_os m'))
    else c_at c' <> C_stopped /\ exists m'', step m' m''.
Proof.
  intros Hr Hnw Hi Hs.
  destruct (no_work_star _ _ i c Hs (os_inv_reach _ _ _ _ Hr) Hnw Hi) as (Hinv & (Hld & Hdn & Hq & Hc) & c' & Hi' & Hl).
  exists c'. split; [done|]. pose proof (Forall_lookup_1 _ _ _ _ Hc Hi') as Hh.
  assert (Hstep : c_at c' <> C_stopped -> _) by exact (idle_step time_slot c' (m_os m') (oi_sched _ Hinv) Hq Hdn Hh).
  destruct (leaving c).
  - split_and!; [done|intros Hat..]; (eapply wp_mono; [apply Hstep; congruence|]);
      intros d s' (_ & _ & _ & _ & H1 & H2); auto.
  - assert (Hne : c_at c' <> C_stopped) by (intros He; unfold leaving in Hl; by rewrite He in Hl).
    split; [done|]. specialize (Hstep Hne). unfold wp in Hstep.
    destruct (cpu_step time_slot c' (m_os m')) as [[c2 s2]| |] eqn:He; [|done|done]. eexists. by eapply os_cpu.
Qed.

(** C23 (error): a CPU can stop while a process waits.  When the last process
    of an exhausted level uses up its time slot after the loader is done,
    [put_proc] queues it, [get_proc] finds no level with budget, refills and
    returns NULL, and the CPU takes that for the end: it leaves its loop with
    the process still waiting and unfinished. *)
Theorem cpu_stops_with_waiting_process p c (i : nat) s :
  sched_wf (o_sched s) -> queued s = [] -> o_done s = true ->
  p <> NULL -> procs (o_sys s) !! p = Some c -> pc c <> code_size (code c) ->
  prio c = Z.of_nat i -> (i < Z.to_nat MAX_PRIO)%nat -> Sched.slot (o_sched s) !! i = Some 0 ->
  wp (let* a := cpu_step time_slot (mk_cpu C_top p 0) in
      let* b := cpu_step time_slot a in cpu_step time_slot b)
     (fun d s' => d = mk_cpu C_stopped NULL 0 /\ queued s' = [p] /\ procs (o_sys s') !! p = Some c) s.
Proof.
  intros Hwf He Hd Hp Hpcb Hpc Hprio Hi Hsl. pose proof (put_proc_refines p i _ Hwf Hi Hp) as Hput. unfold wp in Hput.
  destruct (put_proc p (Z.of_nat i) (o_sched s)) as [[[] x]| |] eqn:Hx; [|done|done]. destruct Hput as [Hwf1 Ha1].
  pose proof (get_proc_refines x Hwf1) as Hget. unfold wp in Hget.
  destruct (get_proc x) as [[q y]| |] eqn:Hy; [|done|done]. destruct Hget as (_ & Hq & Ha2).
  destruct (only_exhausted p i (sched_abs (o_sched s)) (sched_abs x)) as [Hr Hw]; [done|done| |done|].
  { by rewrite (proj1 (sched_abs_lens _ Hwf)). }
  rewrite Hr in Hq, Ha2. simpl in Hq, Ha2. subst q.
  unfold wp, cpu_step, on_sys, on_sched, zoom, get_pcb, bind, gets, from_opt, ret. simpl.
  rewrite (proj2 (Z.eqb_neq p NULL)), Hpcb by done. simpl.
  rewrite (proj2 (Z.eqb_neq (pc c) _)), Hprio by done. simpl. rewrite Hx. simpl. rewrite Hy. simpl. rewrite Hd.
  split_and!; [done| |done]. pose proof (f_equal aspec.ready Ha2) as Hrd.
  unfold queued. simpl in *. by rewrite Hrd.
Qed.
End Machine.
