(* ===== verification/Launch.v ===== *)
(** * From the loader to a running process

    The MM_PAGING part of [ld_routine] of [src/os.c] adds the process that
    [load] made to the processes whose schedules [Program] runs. *)

From S2P Require Import Prelude Pte MemPhy Kernel PageTable Mm64 MmVm Syscall LibMem VMem UserMem Alloc Kmem KmemVm Kept Cpu Program Loader Boot Os.

(** What [world_ok] says of the processes, the kernel's descriptor apart. *)
Record procs_ok (l : list Z) (s : sys) : Prop := {
  po_ready p : p ∈ l -> ready p s;
  po_apart p q c d : p ∈ l -> q ∈ l -> p <> q -> procs s !! p = Some c -> procs s !! q = Some d -> p_mm c <> p_mm d;
}.

Lemma world_ok_procs l s : world_ok l s <-> mem_ok s /\ kernel_ok s /\ procs_ok l s.
Proof. split; [intros []; by repeat split|intros (Hm & Hk & []); by split]. Qed.

(** ** Steps that extend the machine *)

(** A step that keeps what every process but [p] has, its entry in the table
    included. *)
Record extends (p : Z) (s s' : sys) : Prop := {
  ex_procs q : q <> p -> procs s' !! q = procs s !! q;
  ex_mms a m : mms s !! a = Some m -> mms s' !! a = Some m;
  ex_views a m g : mms s !! a = Some m -> view_of s' a g = view_of s a g;
  ex_table i q : arr_get (proc_table (os s)) i = Some q -> q <> NULL -> arr_get (proc_table (os s')) i = Some q;
  ex_kernel : k_mm (os s) <> NULL -> k_mm (os s') = k_mm (os s);
}.

#[export] Instance extends_preorder p : PreOrder (extends p).
Proof.
  split; [by intros s; split|]. intros s1 s2 s3 H1 H2. split.
  - intros q Hq. by rewrite (ex_procs _ _ _ H2), (ex_procs _ _ _ H1).
  - intros a m Hm. by apply H2, H1.
  - intros a m g Hm. rewrite (ex_views _ _ _ H2 a m g) by (by apply H1). by apply (ex_views _ _ _ H1 a m).
  - intros i q Hi Hq. apply H2; [|done]. by apply H1.
  - intros Hn. rewrite (ex_kernel _ _ _ H2); [by apply H1|]. by rewrite (ex_kernel _ _ _ H1).
Qed.

Lemma extends_space p s s' q c m v e : extends p s s' -> q <> p -> space_ok q c m v e s -> space_ok q c m v e s'.
Proof.
  intros Hx Hq Hs. destruct Hs. split; try done.
  - by rewrite (ex_procs _ _ _ Hx).
  - by apply Hx.
  - destruct so_caller. split; try done. by apply Hx.
  - intros g Hg. rewrite (ex_views _ _ _ Hx _ m) by apply so_caller. by apply so_absent.
  - rewrite (ex_kernel _ _ _ Hx); [done|apply so_kernel].
Qed.

Lemma extends_procs_ok p s s' l : extends p s s' -> p ∉ l -> procs_ok l s -> procs_ok l s'.
Proof.
  intros Hx Hp [Hr Ha]. assert (Hne : forall q, q ∈ l -> q <> p) by (intros q Hq ->; done). split.
  - intros q Hq. destruct (Hr q Hq) as (c & m & v & e & Hs & Hpr). exists c, m, v, e. split; [|done].
    by eapply extends_space; [|apply Hne|].
  - intros q r c d Hq Hr' Hqr. rewrite !(ex_procs _ _ _ Hx) by (by apply Hne). by apply Ha.
Qed.

(** The address spaces of the processes are live descriptors. *)
Lemma procs_ok_space l s q c : procs_ok l s -> q ∈ l -> procs s !! q = Some c -> is_Some (mms s !! p_mm c).
Proof.
  intros [Hr _] Hq Hc. destruct (Hr q Hq) as (d & m & v & e & Hs & _). exists m.
  pose proof (so_pcb _ _ _ _ _ _ Hs) as Hd. rewrite Hc in Hd. injection Hd as ->. apply (so_caller _ _ _ _ _ _ Hs).
Qed.

(** ** The steps of [ld_setup] *)

Section Setup.
Context (ram swp : Z) (rd sd : memphy_struct) (p : Z) (l : list Z).

(** What every step of [ld_setup] keeps, with [c] the process in the making. *)
Record loading (c : pcb_t) (s : sys) : Prop := {
  lo_machine : machine_at ram swp s rd sd;
  lo_procs : procs_ok l s;
  lo_pcb : procs s !! p = Some c;
  lo_table : length (proc_table (os s)) = Z.to_nat PID_MAX;
}.

Lemma machine_os s k : machine_at ram swp s rd sd -> machine_at ram swp (set_os k s) rd sd.
Proof. intros []. destruct ma_wf as [ow Hwf]. split; try done. exists ow. split; simpl; pt_wf_same Hwf. Qed.

Lemma machine_procs s x : machine_at ram swp s rd sd -> machine_at ram swp (set_procs x s) rd sd.
Proof. intros []. destruct ma_wf as [ow Hwf]. split; try done. exists ow. split; simpl; pt_wf_same Hwf. Qed.

Lemma extends_os s k :
  proc_table k = proc_table (os s) -> (k_mm (os s) <> NULL -> k_mm k = k_mm (os s)) -> extends p s (set_os k s).
Proof. intros H ?. split; try done. simpl. by rewrite H. Qed.

Lemma extends_with_space a s :
  machine_at ram swp s rd sd -> mms s !! a = None -> extends p s (with_space a s).
Proof.
  intros Hma Ha. destruct (ma_wf _ _ _ _ _ Hma) as [ow Hwf]. split; try done.
  - intros b m Hb. simpl. rewrite lookup_insert_ne; [done|]. intros ->. by rewrite Ha in Hb.
  - intros b m g Hb. unfold view_of. by erewrite with_space_ptes.
Qed.

Lemma extends_procs c s : extends p s (set_procs (<[p := c]> (procs s)) s).
Proof. split; try done. intros q Hq. simpl. by rewrite lookup_insert_ne. Qed.

(** A descriptor that [init_mm] makes for [c]. *)
Lemma wp_init_mm a c s (Q : Z -> sys -> Prop) :
  machine_at ram swp s rd sd -> a <> NULL -> p_krnl c <> NULL -> Q 0 (with_space a s) -> wp (init_mm a (Some c)) Q s.
Proof.
  intros Hma Ha Hk HQ. eapply wp_intro; [|exact HQ]. apply init_mm_spec; [done|done|apply Hma|by eapply machine_next].
Qed.

Lemma wp_new_mm a s (Q : Z -> sys -> Prop) : machine_at ram swp s rd sd -> Q a s -> wp (new_mm a) Q s.
Proof. intros Hma HQ. unfold new_mm. wp_step. apply wp_malloc_ok; [apply Hma|]. by wp_steps. Qed.

Hypothesis Hp : p ∉ l.

Lemma loading_os c s k :
  loading c s -> proc_table k = proc_table (os s) -> (k_mm (os s) <> NULL -> k_mm k = k_mm (os s)) ->
  loading c (set_os k s).
Proof.
  intros [Hma Hpo Hc Ht] Hk Hkm. split; [by apply machine_os| |done|simpl; by rewrite Hk].
  eapply extends_procs_ok; [by apply (extends_os s k)|done|done].
Qed.

Lemma loading_with_space c s a : loading c s -> mms s !! a = None -> loading c (with_space a s).
Proof.
  intros [Hma Hpo Hc Ht] Ha. split; [by apply with_space_machine| |done|done].
  eapply extends_procs_ok; [by apply extends_with_space|done|done].
Qed.

Lemma loading_pcb c c' s : loading c s -> loading c' (set_procs (<[p := c']> (procs s)) s).
Proof.
  intros [Hma Hpo Hc Ht]. split; [by apply machine_procs| |simpl; by rewrite lookup_insert_eq|done].
  eapply extends_procs_ok; [by apply (extends_procs c' s)|done|done].
Qed.

Lemma kernel_ok_with_space a s : mms s !! a = None -> kernel_ok s -> kernel_ok (with_space a s).
Proof.
  intros Ha Hk Hn. destruct (Hk Hn) as (km & Hkm & Ht). exists km. split; [|done].
  simpl. rewrite lookup_insert_ne; [done|]. change (os (with_space a s)) with (os s). intros ->. by rewrite Ha in Hkm.
Qed.

(** The kernel's own descriptor, on the first turn. *)
Lemma wp_kernel_mm c s ka (Q : bool -> sys -> Prop) :
  loading c s -> kernel_ok s -> p_krnl c <> NULL -> ka <> NULL -> mms s !! ka = None ->
  (forall s', loading c s' -> kernel_ok s' -> k_mm (os s') <> NULL -> procs s' = procs s -> (forall a, a <> ka -> mms s' !! a = mms s !! a) -> Q true s') ->
  wp (ld_krnl_mm p ka) Q s.
Proof.
  intros Hl Hok Hk Hka Hf HQ. unfold ld_krnl_mm. wp_step. wp_step. destruct (Z.eqb_spec (k_mm (os s)) NULL) as [Hn|Hn].
  - wp_step. eapply wp_new_mm; [apply Hl|]. wp_step. wp_step.
    set (s1 := set_os _ s). assert (Hl1 : loading c s1) by (by apply loading_os).
    rewrite (proj2 (Z.eqb_neq ka NULL)) by done. unfold get_pcb. wp_step. wp_step. eapply wp_from_opt; [apply Hl1|].
    wp_step. eapply wp_init_mm; [apply Hl1|done|done|]. wp_steps. apply HQ; [by apply loading_with_space| |done|done|].
    { intros _. eexists. split; [simpl; by rewrite lookup_insert_eq|done]. }
    intros a Ha. simpl. by rewrite lookup_insert_ne.
  - wp_step. by apply HQ.
Qed.

Lemma space_ok_os q c m v e s k :
  k_mm k = k_mm (os s) -> arr_get (proc_table k) (pid c) = arr_get (proc_table (os s)) (pid c) ->
  space_ok q c m v e s -> space_ok q c m v e (set_os k s).
Proof. intros Hk Ht Hs. destruct Hs. split; try done; [simpl; by rewrite Ht|by destruct so_caller; split|simpl; by rewrite Hk]. Qed.

(** The last step: with its entry in the table the new process is ready. *)
Lemma joins_world c s root :
  loading c s -> all_fit rd -> all_fit sd -> k_mram (os s) = ram -> k_active_mswp (os s) = swp ->
  p <> NULL -> p_krnl c <> NULL -> p_mm c <> NULL -> 0 <= pid c < PID_MAX -> length (regs c) = 10%nat ->
  program_ok (code c) (pc c) 0 -> mms s !! p_mm c = Some (fresh_mm root) -> (forall g, view_of s (p_mm c) g = Absent) ->
  (forall q d, q ∈ l -> procs s !! q = Some d -> pid d <> pid c /\ p_mm d <> p_mm c) ->
  kernel_ok s -> k_mm (os s) <> NULL -> p_mm c <> k_mm (os s) ->
  let k := mk_krnl (<[Z.to_nat (pid c) := p]> (proc_table (os s))) (k_mm (os s)) (k_mram (os s)) (k_active_mswp (os s)) in
  world_ok (p :: l) (set_os k s) /\ arr_get (proc_table k) (pid c) = Some p.
Proof.
  intros [Hma [Hr Ha] Hc Ht] Hrf Hsf Hram Hswp Hp0 Hk Hmm Hpid Hregs Hpr Hm Hab Hd Hkok Hkn Hkm k.
  assert (Hget : arr_get (proc_table k) (pid c) = Some p) by (apply arr_get_insert; rewrite Ht; lia).
  split; [|done]. apply world_ok_procs. split; [|split; [done|split]].
  - exists rd, sd. split_and!; [|done|done]. apply (machine_at_mem_inv ram swp); [done|done|]. by apply machine_os.
  - intros q [->|Hq]%elem_of_cons.
    + exists c, (fresh_mm root), fresh_vma, 0. split; [|done]. split; try done; [by eapply fresh_reg_inv|].
      intros g _. apply Hab.
    + destruct (Hr q Hq) as (d & m & v & e & Hs & Hpd). exists d, m, v, e. split; [|done].
      apply space_ok_os; [done| |done]. apply arr_get_insert_ne; [lia|].
      destruct (Hd q d Hq (so_pcb _ _ _ _ _ _ Hs)) as [Hne _]. done.
  - intros q r d1 d2 [->|Hq]%elem_of_cons [->|Hr']%elem_of_cons Hne H1 H2; [done| | |by apply (Ha q r)].
    + assert (d1 = c) as -> by (simpl in H1; rewrite Hc in H1; by injection H1).
      destruct (Hd r d2 Hr' H2) as [_ Hn]. by apply not_eq_sym.
    + assert (d2 = c) as -> by (simpl in H2; rewrite Hc in H2; by injection H2).
      by apply (Hd q d1 Hq H1).
Qed.
End Setup.

(** A loaded process joins the running ones: on a machine whose processes
    [l] are ready to run, for a process with a user program, a PID of its own
    and an entry in the table, the MM_PAGING part of [ld_routine] - with the
    kernel's descriptor made on the first turn or before - succeeds, gives the
    process an address space of its own, enters it in [proc_table], and leaves
    it and all of [l] ready to run. *)
Lemma ld_setup_ready p ka ma ram swp l c s rd sd :
  loading ram swp rd sd p l c s -> kernel_ok s -> all_fit rd -> all_fit sd ->
  p ∉ l -> p <> NULL -> ka <> NULL -> ma <> NULL -> ka <> ma -> mms s !! ka = None -> mms s !! ma = None ->
  p_krnl c <> NULL -> 0 <= pid c < PID_MAX -> length (regs c) = 10%nat -> program_ok (code c) (pc c) 0 ->
  (forall q d, q ∈ l -> procs s !! q = Some d -> pid d <> pid c) ->
  wp (ld_setup p ka ma ram swp) (fun ok s' => ok = true /\ world_ok (p :: l) s' /\
     procs s' = <[p := set_mm ma c]> (procs s) /\ arr_get (proc_table (os s')) (pid c) = Some p /\
     length (proc_table (os s')) = Z.to_nat PID_MAX /\ k_mram (os s') = ram /\ k_active_mswp (os s') = swp) s.
Proof.
  intros Hl Hkok Hrf Hsf Hpl Hp Hka Hma Hne Hfk Hfm Hk Hpid Hregs Hpr Hpids. unfold ld_setup. wp_step.
  eapply wp_kernel_mm; [done..|]. intros s1 Hl1 Hkok1 Hkn1 Hps1 Hm1. wp_steps.
  set (s2 := set_os _ s1). assert (Hl2 : loading ram swp rd sd p l c s2) by (by apply loading_os).
  eapply wp_new_mm; [apply Hl2|]. unfold upd_pcb, get_pcb. wp_steps. eapply wp_from_opt; [apply Hl2|].
  wp_steps. set (s3 := set_procs _ s2). assert (Hl3 : loading ram swp rd sd p l (set_mm ma c) s3) by (by eapply loading_pcb).
  rewrite (proj2 (Z.eqb_neq ma NULL)) by done. wp_steps. eapply wp_from_opt; [apply Hl3|]. wp_steps.
  eapply wp_init_mm; [apply Hl3|done|done|]. wp_steps.
  assert (Hfree : mms s3 !! ma = None) by (simpl; by rewrite Hm1).
  assert (Hl4 : loading ram swp rd sd p l (set_mm ma c) (with_space ma s3)) by (by apply loading_with_space).
  change (0 =? 0) with true. wp_steps.
  rewrite arr_set_Some by (change (pid (set_mm ma c)) with (pid c); rewrite (lo_table _ _ _ _ _ _ _ _ Hl4); lia).
  wp_steps. destruct (joins_world ram swp rd sd p l (set_mm ma c) (with_space ma s3) (next_table (heap s3))) as [Hw Hg];
    try done.
  - simpl. by rewrite lookup_insert_eq.
  - intros g. unfold view_of. destruct (ma_wf _ _ _ _ _ (lo_machine _ _ _ _ _ _ _ _ Hl3)) as [ow Hwf].
    erewrite with_space_ptes by done. unfold pte_of, pte_slot. change (p_mm (set_mm ma c)) with ma. by rewrite Hfree.
  - intros q d Hq Hd. assert (Hqd : procs s !! q = Some d).
    { simpl in Hd. rewrite lookup_insert_ne in Hd by (by intros ->). by rewrite <- Hps1. }
    split; [by apply (Hpids q)|]. destruct (procs_ok_space l s q d) as [m Hm]; [apply Hl|done|done|].
    change (p_mm (set_mm ma c)) with ma. intros Heq. by rewrite Heq, Hfm in Hm.
  - by apply kernel_ok_with_space.
  - change (p_mm (set_mm ma c)) with ma. change (k_mm (os (with_space ma s3))) with (k_mm (os s1)). intros Heq.
    destruct (Hkok1 Hkn1) as (km & Hkm & _). rewrite <- Heq, Hm1, Hfm in Hkm by congruence. done.
  - split_and!; [done|done|simpl; by rewrite Hps1|done| |done|done].
    simpl. rewrite length_insert. apply (lo_table _ _ _ _ _ _ _ _ Hl1).
Qed.
