(* ===== verification/Safe.v ===== *)
(** * The whole machine: no run reaches undefined behaviour

    The CPUs, the loader, the scheduler, paging and the region allocator
    together.  On devices formatted with the frame size of paging and a host
    with memory, for a configuration of user programs, every interleaving of
    the threads of [os.c] runs without undefined behaviour. *)

From stdpp Require Import vector.
From S2P Require Import Prelude Queue Sched Pte MemPhy Kernel PageTable Mm64 MmVm Syscall LibMem VMem UserMem Alloc Kmem KmemVm Kept Cpu Program Loader Boot Os Launch.

(** ** The processes of a machine *)

Section World.
Context (ram swp : Z).

(** The processes [l] are ready to run, and their PIDs are below [n]. *)
Record safe_world (l : list Z) (n : Z) (s : sys) : Prop := {
  sw_machine : exists rd sd, machine_at ram swp s rd sd /\ all_fit rd /\ all_fit sd;
  sw_procs : procs_ok l s;
  sw_devs : l <> [] -> k_mram (os s) = ram /\ k_active_mswp (os s) = swp;
  sw_table : length (proc_table (os s)) = Z.to_nat PID_MAX;
  sw_pcb p c : p ∈ l -> procs s !! p = Some c -> 0 <= prio c < MAX_PRIO /\ pid c < n;
  sw_kernel : kernel_ok s;
}.

(** The loader's process, with PID [n], between [load] and [add_proc]. *)
Record made (p n : Z) (s : sys) (c : pcb_t) : Prop := {
  md_pcb : procs s !! p = Some c;
  md_krnl : p_krnl c <> NULL;
  md_pid : pid c = n;
  md_regs : length (regs c) = 10%nat;
  md_prog : program_ok (code c) (pc c) 0;
  md_prio : 0 <= prio c < MAX_PRIO;
}.

Lemma procs_ok_sub l l' s : l' ⊆ l -> procs_ok l s -> procs_ok l' s.
Proof. intros Hsub [Hr Ha]. split; [by auto|]. intros p q c d Hp Hq. apply Ha; by apply Hsub. Qed.

Lemma safe_world_sub l l' n s : l' ⊆ l -> safe_world l n s -> safe_world l' n s.
Proof.
  intros Hsub [Hm Hp Hd Ht Hc Hk]. split; [done|by eapply procs_ok_sub| |done| |done].
  - intros Hl. apply Hd. intros ->. destruct l' as [|x l']; [done|]. specialize (Hsub x (list_elem_of_here _ _)).
    by apply not_elem_of_nil in Hsub.
  - intros p c Hin. apply Hc. by apply Hsub.
Qed.

Lemma safe_world_ok l n s : safe_world l n s -> l <> [] -> world_ok l s.
Proof.
  intros [(rd & sd & Hm & Hr & Hs) Hp Hd _ _ Hk] Hl. apply world_ok_procs. split; [|done].
  exists rd, sd. split_and!; [|done|done]. destruct (Hd Hl). by apply (machine_at_mem_inv ram swp).
Qed.

Lemma safe_world_pcb l n s p : safe_world l n s -> p ∈ l -> exists c, procs s !! p = Some c.
Proof. intros Hw Hp. destruct (ready_pcb p s) as (c & Hc & _); [by apply Hw|]. by exists c. Qed.

(** A change of a process that is not one of [l]. *)
Lemma safe_world_other l n s p s' :
  p ∉ l -> extends p s s' -> os s' = os s ->
  (forall rd sd, machine_at ram swp s rd sd -> machine_at ram swp s' rd sd) ->
  safe_world l n s -> safe_world l n s'.
Proof.
  intros Hp Hx Hos Hma [(rd & sd & Hm & Hf) Hpr Hd Ht Hc Hk]. split.
  - exists rd, sd. split; [by apply Hma|done].
  - by eapply extends_procs_ok.
  - by rewrite Hos.
  - by rewrite Hos.
  - intros q c Hq. rewrite (ex_procs _ _ _ Hx) by (by intros ->). by apply Hc.
  - intros Hn. rewrite Hos in Hn |- *. destruct (Hk Hn) as (km & Hkm & Hlen). exists km. split; [by apply Hx|done].
Qed.

Lemma extends_set_procs p s x : (forall q, q <> p -> x !! q = procs s !! q) -> extends p s (set_procs x s).
Proof. intros H. by split. Qed.

Lemma safe_world_free l n s p : p ∉ l -> safe_world l n s -> safe_world l n (set_procs (delete p (procs s)) s).
Proof.
  intros Hp. apply (safe_world_other l n s p); [done| |done|intros rd sd; apply machine_procs].
  apply extends_set_procs. intros q Hq. by rewrite lookup_delete_ne.
Qed.

Lemma safe_world_new l n s p c : p ∉ l -> safe_world l n s -> safe_world l n (set_procs (<[p := c]> (procs s)) s).
Proof.
  intros Hp. apply (safe_world_other l n s p); [done| |done|intros rd sd; apply machine_procs].
  apply extends_set_procs. intros q Hq. by rewrite lookup_insert_ne.
Qed.

(** [run] of a process. *)
Lemma safe_world_run l n s p :
  safe_world l n s -> p ∈ l ->
  wp (run p) (fun _ s' => safe_world l n s' /\ os s' = os s /\ forall q, q <> p -> procs s' !! q = procs s !! q) s.
Proof.
  intros Hw Hp. assert (Hl : l <> []) by (intros ->; by apply not_elem_of_nil in Hp).
  pose proof (safe_world_ok _ _ _ Hw Hl) as Hwo. destruct (safe_world_pcb _ _ _ _ Hw Hp) as [c Hc].
  eapply wp_mono; [apply (run_spec p c); [apply Hwo|apply Hwo|by apply Hwo|done]|]. intros r s' [_ Hran].
  pose proof (world_ok_ran _ _ _ _ _ Hwo Hp Hc Hran) as Hwo'. pose proof (rn_apart _ _ _ _ Hran) as Ha.
  pose proof (ap_os _ _ _ _ Ha) as Hos. split; [|split; [done|by apply Ha]].
  destruct Hw as [_ _ Hd Ht Hpc _]. destruct (Hd Hl) as [Hr1 Hs1]. split.
  - destruct (wo_mem _ _ Hwo') as (rd & sd & Hm & Hf). exists rd, sd. split; [|done].
    apply machine_at_mem_inv; [by rewrite Hos..|done].
  - by apply world_ok_procs.
  - by rewrite Hos.
  - by rewrite Hos.
  - intros q d Hq Hd'. destruct (decide (q = p)) as [->|Hne].
    + destruct (rn_pcb _ _ _ _ Hran) as (c' & Hc' & Hfr & _). assert (d = c') as -> by (rewrite Hc' in Hd'; by injection Hd').
      destruct (Hpc p c Hp Hc). assert (prio c' = prio c /\ pid c' = pid c) as [-> ->]; [|done].
      destruct (forget_run_same _ _ Hfr) as (Hpid & _). split; [|done]. by injection Hfr.
    + apply (Hpc q d Hq). by rewrite <- (ap_procs _ _ _ _ Ha).
  - apply Hwo'.
Qed.

(** The MM_PAGING part of [ld_routine]. *)
Lemma safe_world_setup l n s p c ka ma :
  safe_world l n s -> made p n s c -> 0 <= n < PID_MAX -> p ∉ l -> p <> NULL ->
  ka <> NULL -> ma <> NULL -> ka <> ma -> mms s !! ka = None -> mms s !! ma = None ->
  wp (ld_setup p ka ma ram swp) (fun ok s' => ok = true /\ safe_world (p :: l) (n + 1) s') s.
Proof.
  intros [(rd & sd & Hm & Hr & Hs) Hp _ Ht Hc Hkok] [Hpc Hk Hpid Hregs Hpr Hprio] Hn Hpl Hp0 Hka Hma Hne Hfk Hfm.
  eapply wp_mono; [eapply (ld_setup_ready p ka ma ram swp l c s rd sd); try done; [by rewrite Hpid|]|].
  { intros q d Hq Hd. destruct (Hc q d Hq Hd). lia. }
  intros ok s' (-> & (Hmem & Hkok' & Hpo)%world_ok_procs & Hps & _ & Ht' & Hr' & Hs'). split; [done|]. split; [|done|done|done| |done].
  - destruct Hmem as (rd' & sd' & Hi & Hf). exists rd', sd'. split; [by apply machine_at_mem_inv|done].
  - intros q d Hq Hd. rewrite Hps, lookup_insert in Hd. case_decide as Hqp; [injection Hd as <-; simpl; lia|].
    apply elem_of_cons in Hq as [->|Hq]; [done|]. destruct (Hc q d Hq Hd). lia.
Qed.
End World.

(** ** The scheduler *)

Definition taken (p : Z) : list Z := if p =? NULL then [] else [p].

Lemma get_safe s (Q : Z -> os_st -> Prop) :
  sched_wf (o_sched s) ->
  (forall p x, queued (set_sched x s) ++ taken p ⊆ queued s -> Q p (set_sched x s)) -> wp (on_sched get_proc) Q s.
Proof.
  intros Hwf HQ. unfold on_sched. eapply wp_zoom; [done|]. pose proof (get_proc_refines _ Hwf) as Hr. unfold wp in *.
  destruct (get_proc (o_sched s)) as [[p x]| |] eqn:Hg; [|done|done]. apply HQ.
  destruct (get_proc_places _ _ _ Hwf Hg) as [_ [[-> Hq]|[Hp Hq]]].
  - change (queued (set_sched x s)) with (waiting_procs x). by rewrite Hq, app_nil_r.
  - unfold taken. rewrite (proj2 (Z.eqb_neq p _)) by done. change (queued s) with (waiting_procs (o_sched s)). rewrite Hq.
    intros y [Hy|Hy]%elem_of_app; apply elem_of_cons; [by right|left]. by apply list_elem_of_singleton in Hy.
Qed.

(** [put_proc] and [add_proc]. *)
Lemma queue_safe (m : M sched unit) p s (R Q : unit -> _ -> Prop) :
  wp m R (o_sched s) ->
  (forall r x, m (o_sched s) = Ok (r, x) ->
     sched_wf x /\ (waiting_procs x ≡ₚ waiting_procs (o_sched s) \/ waiting_procs x ≡ₚ p :: waiting_procs (o_sched s))) ->
  (forall x, sched_wf x -> queued (set_sched x s) ⊆ p :: queued s -> Q tt (set_sched x s)) -> wp (on_sched m) Q s.
Proof.
  intros Hm Hpl HQ. unfold on_sched. eapply wp_zoom; [done|]. unfold wp in *.
  destruct (m (o_sched s)) as [[[] x]| |]; [|done|done]. destruct (Hpl tt x eq_refl) as [Hwf Hq]. apply HQ; [done|].
  change (queued (set_sched x s)) with (waiting_procs x). change (queued s) with (waiting_procs (o_sched s)).
  destruct Hq as [->| ->]; [|done]. intros y. rewrite elem_of_cons. by right.
Qed.

Lemma put_safe s p prio (Q : unit -> os_st -> Prop) :
  sched_wf (o_sched s) -> p <> NULL -> 0 <= prio < MAX_PRIO ->
  (forall x, sched_wf x -> queued (set_sched x s) ⊆ p :: queued s -> Q tt (set_sched x s)) -> wp (on_sched (put_proc p prio)) Q s.
Proof.
  intros Hwf Hp Hprio. rewrite <- (Z2Nat.id prio) by lia. eapply queue_safe; [apply put_proc_refines; [done|lia|done]|].
  intros r x. by apply put_proc_places.
Qed.

Lemma add_safe s p prio (Q : unit -> os_st -> Prop) :
  sched_wf (o_sched s) -> p <> NULL -> 0 <= prio < MAX_PRIO ->
  (forall x, sched_wf x -> queued (set_sched x s) ⊆ p :: queued s -> Q tt (set_sched x s)) -> wp (on_sched (add_proc p prio)) Q s.
Proof.
  intros Hwf Hp Hprio. rewrite <- (Z2Nat.id prio) by lia. eapply queue_safe; [apply add_proc_refines; [done|lia|done]|].
  intros r x. by apply add_proc_places.
Qed.

(** ** A step of a CPU *)

Definition cpu_ok (ts : Z) (c : cpu) : Prop :=
  0 <= time_left c <= ts /\ (c_at c = C_run -> 0 < time_left c /\ c_proc c <> NULL).

(** What a step keeps of the rest of the machine: the processes not in [l]. *)
Definition others_same (l : list Z) (s s' : os_st) : Prop :=
  o_pid s' = o_pid s /\ forall q, q ∉ l -> procs (o_sys s') !! q = procs (o_sys s) !! q.

Section Cpu.
Context (ram swp ts n : Z) (rest : list Z).
Hypothesis Hts : 0 < ts < 2 ^ 31.

Definition cpu_post (l : list Z) (s : os_st) (c' : cpu) (s' : os_st) : Prop :=
  safe_world ram swp (queued s' ++ cpu_holds c' ++ rest) n (o_sys s') /\ cpu_ok ts c' /\ others_same l s s'.

(** [proc = get_proc()], then what follows. *)
Lemma get_step l s s0 at' left :
  sched_wf (o_sched s) -> safe_world ram swp (queued s ++ rest) n (o_sys s) -> others_same l s0 s -> 0 <= left <= ts ->
  (forall p, at' p = C_check \/ at' p = if p =? NULL then C_slot else C_check) ->
  wp (let* p := on_sched get_proc in ret (mk_cpu (at' p) p left)) (cpu_post l s0) s.
Proof.
  intros Hwf Hw Hsame Hleft Hat. wp_step. apply get_safe; [done|]. intros p x Hsub. wp_step. split_and!; [| |done].
  - eapply safe_world_sub; [|exact Hw]. assert (cpu_holds (mk_cpu (at' p) p left) = taken p) as ->.
    { unfold cpu_holds, taken. simpl. destruct (Hat p) as [->| ->]; [done|]. by destruct (p =? NULL). }
    rewrite app_assoc. intros y. rewrite !(elem_of_app _ rest). intros [Hy|Hy]; [left; by apply Hsub|by right].
  - split; [done|]. simpl. intros Hc. by destruct (Hat p) as [He|He]; rewrite He in Hc; [|destruct (p =? NULL)].
Qed.

Lemma wp_get_pcb_safe l s p (Q : pcb_t -> os_st -> Prop) :
  safe_world ram swp l n (o_sys s) -> p ∈ l ->
  (forall c, procs (o_sys s) !! p = Some c -> Q c s) -> wp (on_sys (get_pcb p)) Q s.
Proof.
  intros Hw Hp HQ. destruct (safe_world_pcb _ _ _ _ _ _ Hw Hp) as [c Hc]. unfold on_sys. eapply wp_zoom; [done|].
  unfold get_pcb. wp_steps. replace (set_sys (o_sys s) s) with s by (by destruct s). by apply HQ.
Qed.

(** A process that has finished or used up its slot. *)
Lemma top_step p left s :
  sched_wf (o_sched s) -> safe_world ram swp (queued s ++ [p] ++ rest) n (o_sys s) ->
  NoDup (queued s ++ [p] ++ rest) -> 0 <= left <= ts -> p <> NULL ->
  wp (cpu_step ts (mk_cpu C_top p left)) (cpu_post (queued s ++ [p] ++ rest) s) s.
Proof.
  intros Hwf Hw Hnd Hleft Hp. set (l := queued s ++ [p] ++ rest) in *.
  assert (Hpl : p ∈ l) by (unfold l; rewrite !elem_of_app; right; left; apply list_elem_of_here).
  assert (Hsub : queued s ++ rest ⊆ l) by (intros y; unfold l; rewrite !elem_of_app; tauto).
  assert (Hout : p ∉ queued s ++ rest).
  { unfold l in Hnd. rewrite app_assoc, (Permutation_app_comm (queued s)), <- app_assoc in Hnd.
    by apply NoDup_app in Hnd as (_ & Hd & _); apply Hd, list_elem_of_here. }
  unfold cpu_step. cbn [c_at c_proc time_left]. rewrite (proj2 (Z.eqb_neq p _)) by done.
  wp_step. eapply wp_get_pcb_safe; [exact Hw|done|]. intros c Hc. destruct (sw_pcb _ _ _ _ _ Hw p c Hpl Hc) as [Hprio _].
  destruct (pc c =? code_size (code c)); [|destruct (left =? 0)].
  - wp_step. unfold on_sys. eapply wp_zoom; [done|]. unfold free_pcb. wp_step.
    apply (get_step l _ s (fun _ => C_check) 0); [done| |split; [done|]|lia|by left].
    + apply safe_world_free; [done|]. by eapply safe_world_sub.
    + intros q Hq. simpl. rewrite lookup_delete_ne; [done|]. by intros ->.
  - wp_step. apply put_safe; [done|done|done|]. intros x Hx Hqx. wp_step. split_and!; [|by split|done].
    eapply safe_world_sub; [|exact Hw]. change (cpu_holds (mk_cpu C_get p left)) with (@nil Z).
    intros y. unfold l. rewrite !elem_of_app. intros [Hy|[Hy|Hy]]; [|by apply not_elem_of_nil in Hy|by right; right].
    apply Hqx in Hy. apply elem_of_cons in Hy as [->|Hy]; [right; left; apply list_elem_of_here|by left].
  - wp_step. split_and!; [|by split|done]. unfold cpu_holds. simpl. by rewrite (proj2 (Z.eqb_neq p _)).
Qed.

Lemma cpu_step_safe c s :
  sched_wf (o_sched s) -> safe_world ram swp (queued s ++ cpu_holds c ++ rest) n (o_sys s) ->
  NoDup (queued s ++ cpu_holds c ++ rest) -> cpu_ok ts c -> c_at c <> C_stopped ->
  wp (cpu_step ts c) (cpu_post (queued s ++ cpu_holds c ++ rest) s) s.
Proof.
  intros Hwf Hw Hnd [Hleft Hrun] Hst. destruct c as [at0 p left]. simpl in Hleft, Hrun, Hst.
  assert (Hholds : at0 = C_run \/ at0 = C_top -> p <> NULL -> cpu_holds (mk_cpu at0 p left) = [p]).
  { intros Ha Hp. unfold cpu_holds. simpl. rewrite (proj2 (Z.eqb_neq p _)) by done. by destruct Ha as [->| ->]. }
  destruct at0; [| | | | |done].
  - destruct (Z.eqb_spec p NULL) as [->|Hp].
    + change (cpu_holds (mk_cpu C_top NULL left)) with (@nil Z) in *.
      by apply (get_step _ s s (fun p => if p =? NULL then C_slot else C_check)); [..|intros; right].
    + rewrite (Hholds (or_intror eq_refl) Hp) in *. by apply top_step.
  - change (cpu_holds (mk_cpu C_get p left)) with (@nil Z) in *. by apply (get_step _ s s (fun _ => C_check)); [..|left].
  - unfold cpu_step. cbn [c_at c_proc time_left]. wp_steps. unfold cpu_holds in *. simpl in Hw.
    destruct (Z.eqb_spec p NULL) as [->|Hp]; wp_steps; (split_and!; [| |done]).
    + by destruct (o_done s).
    + by destruct (o_done s); split.
    + unfold cpu_holds. simpl. by rewrite (proj2 (Z.eqb_neq p _)).
    + split; simpl; destruct (Z.eqb_spec left 0); (lia || by split; [lia|]).
  - destruct (Hrun eq_refl) as [Hl Hp]. rewrite (Hholds (or_introl eq_refl) Hp) in *.
    unfold cpu_step. cbn [c_at c_proc time_left]. wp_step. unfold on_sys. eapply wp_zoom; [done|].
    eapply wp_mono; [apply (safe_world_run ram swp _ n (o_sys s) p Hw); rewrite !elem_of_app; right; left; apply list_elem_of_here|].
    intros r x (Hw' & _ & Hpr). wp_step. unfold int_arith. replace (_ && _) with true by lia. wp_steps. split_and!.
    + unfold cpu_holds. simpl. by rewrite (proj2 (Z.eqb_neq p _)).
    + split; simpl; [lia|done].
    + split; [done|]. intros q Hq. simpl. apply Hpr. intros ->. apply Hq. rewrite !elem_of_app. right; left; apply list_elem_of_here.
  - unfold cpu_step. cbn [c_at c_proc time_left]. wp_steps. split_and!; [done|by split|done].
Qed.
End Cpu.

(** ** A step of the loader *)

(** The word of the opcode fits [read_opcode]'s buffer: the loader can read
    the instruction. *)
Definition loadable (ins : inst_t) : Prop := short_opcode (opcode ins) = true.

(** A configured process: a printed user program and a level. *)
Record conf_ok (pr : proc_conf) : Prop := {
  cf_text : exists k l, cf_file pr = Some (print_program k l) /\ 0 <= k < 2 ^ 32 /\ Z.of_nat (length l) < 2 ^ 32 /\
    Forall inst_ok l /\ Forall loadable l /\ Forall user_inst l /\ total_cost l < 2 ^ 19;
  cf_level : 0 <= cf_prio pr < MAX_PRIO;
}.

(** A user instruction is printed and read as it is. *)
Lemma same_inst_user i j : same_inst i j -> user_inst i -> user_inst j /\ cost j = cost i.
Proof.
  destruct i as [op a0 a1 a2 a3], j as [op' b0 b1 b2 b3]. intros [Ho Ha] Hu. simpl in Ho. subst op'.
  unfold user_inst, cost, args in *. simpl in *. destruct op; try done; injection Ha; intros; subst; done.
Qed.

Lemma same_program l l' :
  Forall2 same_inst l l' -> Forall user_inst l -> Forall user_inst l' /\ total_cost l' = total_cost l.
Proof.
  induction 1 as [|i j l l' Hi _ IH]; intros Hu; [done|]. inversion_clear Hu. destruct IH as [Hl Hc]; [done|].
  destruct (same_inst_user i j Hi) as [Hj Hcj]; [done|]. split; [by constructor|]. simpl. by rewrite Hc, Hcj.
Qed.

(** What [load] returns for a configured process. *)
Lemma load_conf pr pid junk text :
  conf_ok pr -> (forall n, length (text n) = n) -> length (regs junk) = 10%nat ->
  exists c, load pid junk text (cf_file pr) = Ok (c, u32 (pid + 1)) /\ Kernel.pid c = pid /\ length (regs c) = 10%nat /\
    program_ok (code c) (pc c) 0.
Proof.
  intros [(k & l & -> & Hk & Hn & Hok & Hld & Hu & Hcost) _] Ht Hregs.
  destruct (load_printed pid junk text k l) as (l' & Hsame & ->); [done|done|by rewrite Ht|done|done|].
  eexists. split; [reflexivity|]. destruct (same_program _ _ Hsame Hu) as [Hu' Hc'].
  apply Forall2_length in Hsame. split_and!; [done|done|]. split; simpl; [by rewrite Hsame|done|lia|done|]. rewrite drop_0, Hc'. lia.
Qed.

Section Loading.
Context (ram swp : Z) (conf : list proc_conf) (rest : list Z).
Hypothesis Hconf : Forall conf_ok conf.
Hypothesis Hcount : Z.of_nat (length conf) < PID_MAX.

(** The process the loader is about to add. *)
Definition ld_ready (l : ld) : list Z := match l_at l with L_add => [l_proc l] | _ => [] end.

(** PIDs in use are below this one. *)
Definition ld_bound (l : ld) (s : os_st) : Z := match l_at l with L_wait | L_setup => o_pid s - 1 | _ => o_pid s end.

Definition ld_ok (l : ld) (s : os_st) : Prop :=
  match l_at l with
  | L_load => o_pid s = Z.of_nat (l_i l) + 1 /\ (l_i l <= length conf)%nat
  | L_wait | L_setup =>
      o_pid s = Z.of_nat (l_i l) + 2 /\ (l_i l < length conf)%nat /\ exists c, made (l_proc l) (o_pid s - 1) (o_sys s) c
  | L_add | L_slot => o_pid s = Z.of_nat (l_i l) + 2 /\ (l_i l < length conf)%nat
  | L_done => True
  | L_failed => False
  end.

Definition ld_post (l' : ld) (s' : os_st) : Prop :=
  safe_world ram swp (queued s' ++ rest ++ ld_ready l') (ld_bound l' s') (o_sys s') /\ ld_ok l' s'.

(** An operation of the memory subsystem that leaves the state alone. *)
Lemma wp_on_sys_same {A} (m : M sys A) s a (Q : A -> os_st -> Prop) :
  m (o_sys s) = Ok (a, o_sys s) -> Q a s -> wp (on_sys m) Q s.
Proof.
  intros Hm HQ. unfold on_sys. eapply wp_zoom; [done|]. eapply wp_intro; [exact Hm|].
  replace (set_sys (o_sys s) s) with s by (by destruct s). done.
Qed.

Lemma malloc_host (s : sys) : s_host s = [] -> malloc s = Ok (true, s) /\ malloc_unchecked s = Ok (tt, s).
Proof. intros Hh. unfold malloc_unchecked, malloc, bind. change (host s) with (s_host s). by rewrite Hh. Qed.

Lemma ld_load_safe l p junk text pr n s :
  safe_world ram swp l n (o_sys s) -> p ∉ l -> conf_ok pr -> (forall n, length (text n) = n) ->
  length (regs junk) = 10%nat -> 0 <= o_pid s < 2 ^ 32 - 1 ->
  wp (ld_load p junk text (cf_file pr) (cf_prio pr)) (fun _ s' =>
    safe_world ram swp l n (o_sys s') /\ o_sched s' = o_sched s /\ o_pid s' = o_pid s + 1 /\
    exists c, made p (o_pid s) (o_sys s') c) s.
Proof.
  intros Hw Hp Hpr Ht Hregs Hpid. destruct (sw_machine _ _ _ _ _ Hw) as (rd & sd & Hm & _).
  destruct (malloc_host (o_sys s) (ma_host _ _ _ _ _ Hm)) as [Hm1 Hm2].
  destruct (load_conf pr (o_pid s) junk text) as (c & Hl & Hcp & Hcr & Hpo); [done..|].
  unfold ld_load. wp_step. eapply wp_on_sys_same; [done|]. wp_step. eapply wp_on_sys_same; [done|]. wp_steps. rewrite Hl.
  wp_step. eapply wp_on_sys_same; [done|]. wp_step. apply (wp_on_sys_same _ _ tt).
  { destruct (0 <? code_size (code c)); [done|]. unfold bind. by rewrite Hm1. }
  wp_steps. split_and!; [by apply safe_world_new|done|apply u32_small; lia|]. eexists. destruct Hpr as [_ Hlv].
  split; [apply lookup_insert_eq|done|done|done|done|]. simpl. rewrite u32_small; unfold MAX_PRIO in *; lia.
Qed.

Lemma ld_step_safe x l s :
  sched_wf (o_sched s) -> fresh x s -> ld_ok l s -> l_at l <> L_done ->
  safe_world ram swp (queued s ++ rest ++ ld_ready l) (ld_bound l s) (o_sys s) ->
  NoDup (queued s ++ rest ++ ld_holds l) -> (forall p, p ∈ ld_holds l -> p <> NULL) ->
  wp (ld_step conf ram swp x l) ld_post s.
Proof.
  intros Hwf Hf Hok Hat Hw Hnd Hnn. destruct l as [at0 i p]. unfold ld_step, ld_post. cbn [l_at l_i l_proc] in *.
  destruct at0; try done; unfold ld_ok, ld_bound, ld_ready, ld_holds in *; cbn [l_at l_i l_proc] in *.
  - destruct Hok as [Hpid Hi]. destruct (conf !! i) as [pr|] eqn:Hpr; [|wp_steps; done].
    apply lookup_lt_Some in Hpr as Hlt. wp_step. destruct Hf as [[_ Hfp] _ _ _ Hr]. unfold PID_MAX in Hcount.
    eapply wp_mono; [eapply (ld_load_safe _ (x_pcb x) _ _ pr); [exact Hw| | | |exact Hr|lia]|].
    + intros Hin. destruct (safe_world_pcb _ _ _ _ _ _ Hw Hin) as [c Hc]. by rewrite Hfp in Hc.
    + by eapply Forall_lookup_1.
    + intros n. apply length_vec_to_list.
    + intros r s' (Hw' & Hsch & Hpid' & c & Hmade). wp_steps. cbn [l_at l_i l_proc]. rewrite Hpid'.
      replace (o_pid s + 1 - 1) with (o_pid s) by lia. unfold queued in *. rewrite Hsch. split_and!; [done|lia|done|by exists c].
  - destruct Hok as (Hpid & Hi & Hmade). destruct (lookup_lt_is_Some_2 conf i Hi) as [pr Hpr]. rewrite Hpr. wp_steps.
    by destruct (x_now x <? start_time pr).
  - destruct Hok as (Hpid & Hi & c & Hmade). destruct Hf as [_ [Hk Hfk] [Hm Hfm] Hne _]. wp_step. unfold on_sys.
    eapply wp_zoom; [done|]. rewrite app_nil_r in Hw.
    eapply wp_mono; [eapply (safe_world_setup ram swp _ _ _ p c (x_kmm x) (x_mm x) Hw Hmade); try done; [unfold PID_MAX in *; lia| |]|].
    + intros Hin. rewrite app_assoc in Hnd. apply NoDup_app in Hnd as (_ & Hd & _). apply (Hd p Hin). apply list_elem_of_here.
    + apply Hnn. apply list_elem_of_here.
    + intros ok s' (-> & Hw'). wp_steps. cbn [l_at l_i l_proc o_pid set_sys]. split; [|done].
      eapply safe_world_sub; [|replace (o_pid s) with (o_pid s - 1 + 1) by lia; exact Hw'].
      intros y [Hy|[Hy|Hy]%elem_of_app]%elem_of_app; apply elem_of_cons; rewrite elem_of_app; [by auto..|left].
      by apply list_elem_of_singleton in Hy.
  - wp_step. assert (Hp : p ∈ queued s ++ rest ++ [p]) by (rewrite !elem_of_app; right; right; apply list_elem_of_here).
    eapply wp_get_pcb_safe; [exact Hw|exact Hp|]. intros c Hc. destruct (sw_pcb _ _ _ _ _ Hw p c Hp Hc) as [Hprio _].
    wp_step. apply add_safe; [done|apply Hnn, list_elem_of_here|done|]. intros y Hy Hq. wp_step. split; [|done].
    eapply safe_world_sub; [|exact Hw]. intros z. rewrite !elem_of_app. intros [Hz|[Hz|Hz]]; [|by auto|by apply not_elem_of_nil in Hz].
    apply Hq in Hz. apply elem_of_cons in Hz as [->|Hz]; [right; right; apply list_elem_of_here|by left].
  - wp_steps. cbn [l_at l_i l_proc]. split; [done|]. lia.
Qed.
End Loading.

(** ** The machine *)

Section Run.
Context (ts : Z) (conf : list proc_conf) (ram swp : Z).

(** The processes that are ready to run, wherever they are. *)
Definition running (m : mach) : list Z := queued (m_os m) ++ mjoin (cpu_holds <$> m_cpus m) ++ ld_ready (m_ld m).

Record mach_ok (m : mach) : Prop := {
  mo_inv : os_inv m;
  mo_world : safe_world ram swp (running m) (ld_bound (m_ld m) (m_os m)) (o_sys (m_os m));
  mo_ld : ld_ok conf (m_ld m) (m_os m);
  mo_cpus : Forall (cpu_ok ts) (m_cpus m);
}.

(** Devices formatted for paging, as the kernel object will name them. *)
Record devices_ok (dv : gmap Z memphy_struct) (rd sd : memphy_struct) : Prop := {
  dvo_ram : ram <> NULL /\ dv !! ram = Some rd;
  dvo_swp : swp <> NULL /\ dv !! swp = Some sd;
  dvo_ne : ram <> swp;
  dvo_rok : dev_ok rd /\ storage_len rd <= 2 ^ 25;
  dvo_sok : dev_ok sd;
  dvo_frames : frames_wf rd /\ frames_wf sd;
  dvo_fit : all_fit rd /\ all_fit sd;
}.

Lemma boot_machine n dv rd sd : devices_ok dv rd sd -> machine_at ram swp (o_sys (m_os (boot n dv []))) rd sd.
Proof.
  intros [[] [] ? ? ? [] _]. split; try done.
  - exists ∅. split; simpl; try done.
    + intros a. by rewrite !lookup_empty.
    + by intros a [? ?].
Qed.

Lemma ld_ready_holds l p : p ∈ ld_ready l -> ld_holds l = [p].
Proof. unfold ld_ready, ld_holds. destruct (l_at l); try by intros ?%not_elem_of_nil. by intros ->%list_elem_of_singleton. Qed.

Lemma running_nodup m : os_inv m -> NoDup (running m).
Proof.
  intros [_ Hn _]. unfold running, holders in *. unfold ld_ready. destruct (l_at (m_ld m)) eqn:Hat.
  4: { unfold ld_holds in Hn. by rewrite Hat in Hn. }
  all: rewrite app_nil_r; rewrite app_assoc in Hn; by apply NoDup_app in Hn as [? _].
Qed.

Lemma loaded_not_running m : os_inv m -> l_at (m_ld m) = L_wait \/ l_at (m_ld m) = L_setup -> l_proc (m_ld m) ∉ running m.
Proof.
  intros [_ Hn _] Hat. unfold running, holders in *. rewrite app_assoc in Hn. apply NoDup_app in Hn as (_ & Hd & _).
  assert (ld_ready (m_ld m) = []) as -> by (unfold ld_ready; by destruct Hat as [-> | ->]).
  rewrite app_nil_r. intros Hin. apply (Hd _ Hin). unfold ld_holds. destruct Hat as [-> | ->]; apply list_elem_of_here.
Qed.

Lemma boot_ok n dv rd sd : 0 < ts -> devices_ok dv rd sd -> mach_ok (boot n dv []).
Proof.
  intros Hts Hd. split.
  - apply os_inv_boot.
  - assert (Hr : running (boot n dv []) = []).
    { unfold running. simpl m_cpus. rewrite fmap_replicate. cbn [cpu_holds]. simpl. rewrite app_nil_r. by induction n. }
    rewrite Hr. split; [exists rd, sd; split; [by apply boot_machine|apply Hd]|split|done|done| |by intros []];
      by intros p *; intros ?%not_elem_of_nil.
  - split; simpl; lia.
  - apply Forall_replicate. split; simpl; [lia|done].
Qed.

Hypothesis Hts : 0 < ts < 2 ^ 31.
Hypothesis Hconf : Forall conf_ok conf.
Hypothesis Hcount : Z.of_nat (length conf) < PID_MAX.

(** A step of a CPU, the rest of the machine apart. *)
Lemma cpu_ok_step m i c :
  mach_ok m -> m_cpus m !! i = Some c -> c_at c <> C_stopped -> exists rest,
    mjoin (cpu_holds <$> m_cpus m) ++ ld_ready (m_ld m) ≡ₚ cpu_holds c ++ rest /\
    (forall c', mjoin (cpu_holds <$> <[i := c']> (m_cpus m)) ++ ld_ready (m_ld m) ≡ₚ cpu_holds c' ++ rest) /\
    wp (cpu_step ts c) (cpu_post ram swp ts (ld_bound (m_ld m) (m_os m)) rest (queued (m_os m) ++ cpu_holds c ++ rest) (m_os m)) (m_os m).
Proof.
  intros [Hinv Hw _ Hc] Hi Hne. destruct (holders_cpu _ i c (ld_ready (m_ld m)) Hi) as (rest & H1 & H2).
  exists rest. split_and!; [done|done|]. apply cpu_step_safe; [done|apply Hinv| | |by eapply Forall_lookup_1|done].
  - eapply safe_world_sub; [|exact Hw]. unfold running. by rewrite H1.
  - pose proof (running_nodup _ Hinv) as Hn. unfold running in Hn. by rewrite H1 in Hn.
Qed.

Lemma ld_ok_step m x :
  mach_ok m -> fresh x (m_os m) -> l_at (m_ld m) <> L_done ->
  wp (ld_step conf ram swp x (m_ld m)) (ld_post ram swp conf (mjoin (cpu_holds <$> m_cpus m))) (m_os m).
Proof.
  intros [[Hwf Hn Hl] Hw Hld _] Hf Hat. apply ld_step_safe; try done.
  intros p Hp. apply Hl. unfold holders. rewrite !elem_of_app. auto.
Qed.

Lemma mach_ok_step m m' : step ts conf ram swp m m' -> mach_ok m -> mach_ok m'.
Proof.
  intros Hst Hok. pose proof (os_inv_step _ _ _ _ _ _ Hst (mo_inv _ Hok)) as Hinv'.
  destruct Hst as [m i c c' s' Hi Hc|m x l' s' Hf Hl].
  - assert (Hne : c_at c <> C_stopped) by (destruct c as [[] ? ?]; done).
    destruct (cpu_ok_step m i c Hok Hi Hne) as (rest & H1 & H2 & Hw). unfold wp in Hw. rewrite Hc in Hw.
    destruct Hw as (Hw & Hco & Hpid & Hpr). destruct Hok as [Hinv _ Hld Hcs].
    split; [done| | |by apply Forall_insert].
    + unfold running, ld_bound. simpl. rewrite Hpid. eapply safe_world_sub; [|exact Hw]. by rewrite H2.
    + revert Hld. unfold ld_ok. simpl. rewrite Hpid.
      assert (Hmade : forall d, l_at (m_ld m) = L_wait \/ l_at (m_ld m) = L_setup ->
                made (l_proc (m_ld m)) (o_pid (m_os m) - 1) (o_sys (m_os m)) d ->
                made (l_proc (m_ld m)) (o_pid (m_os m) - 1) (o_sys s') d).
      { intros d Hat []. split; try done. rewrite Hpr; [done|]. rewrite <- H1. by apply loaded_not_running. }
      destruct (l_at (m_ld m)) eqn:Hat; try done; intros (Hp & Hlt & d & Hd); (split_and!; [done|done|]); exists d;
        apply Hmade; auto.
  - assert (Hat : l_at (m_ld m) <> L_done) by (destruct (m_ld m) as [[] ? ?]; done).
    pose proof (ld_ok_step m x Hok Hf Hat) as Hw. unfold wp in Hw. rewrite Hl in Hw. destruct Hw as [Hw Hlo].
    destruct Hok. by split.
Qed.

Lemma mach_ok_reach n dv rd sd m :
  devices_ok dv rd sd -> star (step ts conf ram swp) (boot n dv []) m -> mach_ok m.
Proof.
  intros Hd. apply (star_invariant (step ts conf ram swp) mach_ok); [intros x y Hx Hs; by eapply mach_ok_step|].
  eapply boot_ok; [lia|done].
Qed.

(** ** Properties *)

(** C1 (safety): no step of the machine is undefined.  A step of [os.c]'s
    threads is one whole call of [run], [load], [init_mm] or the scheduler,
    not interrupted by another thread: races inside the calls are outside
    this theorem - two [run]s in [MEMPHY_get_freefp] can dereference a NULL
    list head ([Race.empty_test_races]).  In every state that such steps
    reach from [main] in any order, every CPU that has not stopped and the
    loader, unless it is done, can make their next step - no NULL or freed
    object, no array left, no [int] overflow - and [ld_routine] never gives
    up.  Hypotheses: a positive time slot; no host allocation fails; RAM and
    swap with all their frames inside them (4096-byte frames, not main's
    [init_memphy]), RAM up to 32 MiB; fewer than [PID_MAX] printed programs
    of priority 0 to 139 with ALLOC and FREE of ids 0 to 9, READ and WRITE of
    ids 0 to 29 at any offset, ALLOCs below 2 GiB in total, KMALLOC up to
    2^31 - 4096, no system call 17. *)
Theorem every_run_is_defined n dv rd sd m :
  devices_ok dv rd sd -> star (step ts conf ram swp) (boot n dv []) m ->
  (forall i c, m_cpus m !! i = Some c -> c_at c <> C_stopped ->
     exists c' s', cpu_step ts c (m_os m) = Ok (c', s')) /\
  l_at (m_ld m) <> L_failed /\
  forall x, fresh x (m_os m) -> l_at (m_ld m) <> L_done ->
     exists l' s', ld_step conf ram swp x (m_ld m) (m_os m) = Ok (l', s').
Proof.
  intros Hd Hst. pose proof (mach_ok_reach _ _ _ _ _ Hd Hst) as Hok. split_and!.
  - intros i c Hi Hc. destruct (cpu_ok_step m i c Hok Hi Hc) as (rest & _ & _ & Hw).
    destruct (wp_elim _ _ _ Hw) as (c' & s' & H & _). by exists c', s'.
  - intros Hat. pose proof (mo_ld _ Hok) as Hl. unfold ld_ok in Hl. by rewrite Hat in Hl.
  - intros x Hf Hat. destruct (wp_elim _ _ _ (ld_ok_step m x Hok Hf Hat)) as (l' & s' & H & _). by exists l', s'.
Qed.
End Run.
