(* ===== verification/Timed.v ===== *)
(** * The machine on its timer: [src/os.c] with [src/timer.c]

    [Os] lets the CPUs and the loader interleave freely; [Timer] lets device
    threads do anything between two slots.  Here they are one system: each
    CPU and the loader own the device that [main] attached for them, make
    their steps between two calls of [next_slot], block in it until the timer
    releases them, and the loader reads the clock that the timer keeps. *)

From stdpp Require Import vector.
From S2P Require Import Prelude Queue Sched Pte MemPhy Kernel PageTable Mm64 MmVm Syscall LibMem VMem UserMem Alloc Kmem KmemVm Kept Cpu Program Loader Boot Timer Os Launch Safe.

(** ** State and steps *)

Record timed := mk_timed { tm_mach : mach; tm_timer : timer_st }.

(** [main] attaches a device for each CPU and then one for the loader;
    [attach_event] puts it first. *)
Definition ld_dev : nat := 0.
Definition cpu_dev (n i : nat) : nat := (n - i)%nat.

(** [main] with [n] CPUs, up to the creation of the threads. *)
Definition timed_boot (n : nat) (dv : gmap Z memphy_struct) (h : list bool) : timed :=
  mk_timed (boot n dv h) (start_timer (S n)).

(** A call on the device [j] of a thread. *)
Definition dev_acts (act : timer_id_t -> option timer_id_t) (j : nat) (t : timer_st) : option timer_st :=
  d ← dev_list t !! j; d' ← act d; Some (set_dev j d' t).

Definition thread_at (j : nat) (t : timer_st) : option thread := t_thread <$> (dev_list t !! j).

(** What the loader does next in its slot: before [start_time] it sleeps in
    [next_slot]; when it gives up it ends without [detach_event]. *)
Inductive ld_does := Works | Sleeps | Detaches | GivesUp.
Definition ld_next (conf : list proc_conf) (now : Z) (l : ld) : ld_does :=
  match l_at l with
  | L_wait => match conf !! l_i l with Some pr => if now <? start_time pr then Sleeps else Works | None => Works end
  | L_slot => Sleeps
  | L_done => Detaches
  | L_failed => GivesUp
  | _ => Works
  end.

Section Steps.
Context (time_slot : Z) (conf : list proc_conf) (mram mswp : Z).
Definition os_turn : turn -> mach -> option mach := exec_turn time_slot conf mram mswp.

(** A section of [cpu_routine] of CPU [i]: the two halves of [next_slot], or
    [detach_event] past the loop, or the code before. *)
Definition cpu_turn (i : nat) (s : timed) : option timed :=
  let m := tm_mach s in
  let t := tm_timer s in
  let j := cpu_dev (length (m_cpus m)) i in
  c ← m_cpus m !! i;
  th ← thread_at j t;
  match c_at c, th with
  | C_slot, Working => t' ← dev_acts next_slot_done j t; Some (mk_timed m t')
  | C_slot, InNextSlot => t' ← dev_acts next_slot_wait j t; m' ← os_turn (Cpu i) m; Some (mk_timed m' t')
  | C_stopped, Working => t' ← dev_acts detach_event j t; Some (mk_timed m t')
  | _, Working => m' ← os_turn (Cpu i) m; Some (mk_timed m' t)
  | _, _ => None
  end.

(** A section of [ld_routine]; [x] is what the outside gives to it, the clock
    as the timer keeps it. *)
Definition ld_turn (x : ext) (s : timed) : option timed :=
  let m := tm_mach s in
  let t := tm_timer s in
  th ← thread_at ld_dev t;
  match th with
  | Working =>
      match ld_next conf (current_time t) (m_ld m) with
      | Works =>
          if x_now x =? current_time t then m' ← os_turn (Loader x) m; Some (mk_timed m' t) else None
      | Sleeps => t' ← dev_acts next_slot_done ld_dev t; Some (mk_timed m t')
      | Detaches => t' ← dev_acts detach_event ld_dev t; Some (mk_timed m t')
      | GivesUp => t' ← dev_acts end_thread ld_dev t; Some (mk_timed m t')
      end
  | InNextSlot =>
      t' ← dev_acts next_slot_wait ld_dev t;
      match l_at (m_ld m) with
      | L_slot => m' ← os_turn (Loader x) m; Some (mk_timed m' t')
      | _ => Some (mk_timed m t')
      end
  | _ => None
  end.

(** The steps: of the timer, of a CPU, of the loader, and of [main] when all
    threads have been joined. *)
Inductive timed_step : timed -> timed -> Prop :=
| td_timer s t' : timer_routine (tm_timer s) = Some t' -> timed_step s (mk_timed (tm_mach s) t')
| td_cpu i s s' : cpu_turn i s = Some s' -> timed_step s s'
| td_ld x s s' : ld_turn x s = Some s' -> timed_step s s'
| td_main s t' : stop_timer (tm_timer s) t' -> t' <> tm_timer s -> timed_step s (mk_timed (tm_mach s) t').

(** ** The steps of a thread, by case *)

Lemma dev_acts_Some act j t t' :
  dev_acts act j t = Some t' -> exists d d', dev_list t !! j = Some d /\ act d = Some d' /\ t' = set_dev j d' t.
Proof.
  unfold dev_acts. destruct (dev_list t !! j) as [d|]; [|done]. simpl.
  destruct (act d) as [d'|] eqn:Ha; [|done]. simpl. intros [= <-]. by exists d, d'.
Qed.

Lemma os_turn_cpu i m m' :
  os_turn (Cpu i) m = Some m' -> exists c c' s', m_cpus m !! i = Some c /\ cpu_step time_slot c (m_os m) = Ok (c', s') /\
    m' = mk_mach s' (<[i := c']> (m_cpus m)) (m_ld m).
Proof.
  unfold os_turn. simpl. destruct (m_cpus m !! i) as [c|]; [|done]. simpl.
  destruct (cpu_step time_slot c (m_os m)) as [[c' s']| |] eqn:Hs; [|done|done]. intros [= <-]. by exists c, c', s'.
Qed.

Lemma os_turn_ld x m m' :
  os_turn (Loader x) m = Some m' -> fresh x (m_os m) /\ exists l' s', ld_step conf mram mswp x (m_ld m) (m_os m) = Ok (l', s') /\
    m' = mk_mach s' (m_cpus m) l'.
Proof.
  unfold os_turn. simpl. destruct (decide (fresh x (m_os m))); [|done].
  destruct (ld_step _ _ _ _ _ _) as [[l' s']| |] eqn:Hs; [|done|done]. intros [= <-]. split; [done|]. by exists l', s'.
Qed.

(** What a CPU and its device do in one step: begin or leave [next_slot],
    detach, or step as in [Os]. *)
Inductive cpu_moves (c : cpu) (d : timer_id_t) (o : os_st) : cpu -> timer_id_t -> os_st -> Prop :=
| cm_done d' : c_at c = C_slot -> next_slot_done d = Some d' -> cpu_moves c d o c d' o
| cm_wake d' c' : c_at c = C_slot -> next_slot_wait d = Some d' -> cpu_step time_slot c o = Ok (c', o) ->
    c' = mk_cpu C_top (c_proc c) (time_left c) -> cpu_moves c d o c' d' o
| cm_detach d' : c_at c = C_stopped -> detach_event d = Some d' -> cpu_moves c d o c d' o
| cm_work c' o' : c_at c <> C_slot -> t_thread d = Working -> cpu_step time_slot c o = Ok (c', o') -> cpu_moves c d o c' d o'.

Lemma set_dev_id j d t : dev_list t !! j = Some d -> set_dev j d t = t.
Proof. intros H. destruct t. unfold set_dev. simpl in *. by rewrite list_insert_id. Qed.

Lemma cpu_turn_moves i s s' :
  cpu_turn i s = Some s' -> let m := tm_mach s in let j := cpu_dev (length (m_cpus m)) i in
  exists c d c' d' os', m_cpus m !! i = Some c /\ dev_list (tm_timer s) !! j = Some d /\
    cpu_moves c d (m_os m) c' d' os' /\
    s' = mk_timed (mk_mach os' (<[i := c']> (m_cpus m)) (m_ld m)) (set_dev j d' (tm_timer s)).
Proof.
  intros H m j. unfold cpu_turn, thread_at in H. fold m in H. destruct (m_cpus m !! i) as [c|] eqn:Hi; [|done].
  cbn [mbind option_bind] in H. fold j in H. destruct (dev_list (tm_timer s) !! j) as [d|] eqn:Hd; [|done].
  cbn [fmap option_fmap option_map mbind option_bind] in H. exists c, d.
  assert (Hm : mk_mach (m_os m) (<[i := c]> (m_cpus m)) (m_ld m) = m) by (rewrite list_insert_id by done; by destruct m).
  destruct (c_at c) eqn:Hc, (t_thread d) eqn:Hth; try done.
  all: try (destruct (os_turn (Cpu i) m) as [m'|] eqn:Ht; [|done]; injection H as <-;
    apply os_turn_cpu in Ht as (c0 & c' & os' & Hi' & Hst & ->); rewrite Hi in Hi'; injection Hi' as <-;
    exists c', d, os'; rewrite set_dev_id by done; split_and!; [done|done|apply cm_work; by rewrite ?Hc|done]).
  all: destruct (dev_acts _ j (tm_timer s)) as [t'|] eqn:Ht; [|done]; cbn [mbind option_bind] in H;
    apply dev_acts_Some in Ht as (d0 & d' & Hd0 & Ha & ->); rewrite Hd in Hd0; injection Hd0 as <-.
  - injection H as <-. exists c, d', (m_os m). rewrite Hm. split_and!; [done|done|by apply cm_done|done].
  - destruct (os_turn (Cpu i) m) as [m'|] eqn:Ht; [|done]. injection H as <-.
    apply os_turn_cpu in Ht as (c0 & c' & os' & Hi' & Hst & ->). rewrite Hi in Hi'. injection Hi' as <-.
    pose proof Hst as Hst'. unfold cpu_step in Hst'. rewrite Hc in Hst'. injection Hst' as <- <-.
    eexists _, d', _. split_and!; [done|done|by apply cm_wake|done].
  - injection H as <-. exists c, d', (m_os m). rewrite Hm. split_and!; [done|done|by apply cm_detach|done].
Qed.

(** The same of the loader; waking before [start_time] is no step of [Os]. *)
Inductive ld_moves (x : ext) (now : Z) (l : ld) (d : timer_id_t) (o : os_st) : ld -> timer_id_t -> os_st -> Prop :=
| lm_done d' : ld_next conf now l = Sleeps -> next_slot_done d = Some d' -> ld_moves x now l d o l d' o
| lm_sleep d' : l_at l <> L_slot -> next_slot_wait d = Some d' -> ld_moves x now l d o l d' o
| lm_wake d' l' : l_at l = L_slot -> next_slot_wait d = Some d' -> fresh x o -> ld_step conf mram mswp x l o = Ok (l', o) ->
    l' = mk_ld L_load (S (l_i l)) (l_proc l) -> ld_moves x now l d o l' d' o
| lm_detach d' : l_at l = L_done -> detach_event d = Some d' -> ld_moves x now l d o l d' o
| lm_end d' : l_at l = L_failed -> end_thread d = Some d' -> ld_moves x now l d o l d' o
| lm_work l' o' : ld_next conf now l = Works -> t_thread d = Working -> x_now x = now -> fresh x o ->
    ld_step conf mram mswp x l o = Ok (l', o') -> ld_moves x now l d o l' d o'.

Lemma ld_next_at now l :
  (ld_next conf now l = Detaches -> l_at l = L_done) /\ (ld_next conf now l = GivesUp -> l_at l = L_failed).
Proof.
  unfold ld_next. destruct (l_at l); try done. destruct (conf !! l_i l) as [pr|]; [|done]. by destruct (now <? start_time pr).
Qed.

Lemma ld_turn_moves x s s' :
  ld_turn x s = Some s' -> let m := tm_mach s in
  exists d l' d' os', dev_list (tm_timer s) !! ld_dev = Some d /\
    ld_moves x (current_time (tm_timer s)) (m_ld m) d (m_os m) l' d' os' /\
    s' = mk_timed (mk_mach os' (m_cpus m) l') (set_dev ld_dev d' (tm_timer s)).
Proof.
  intros H m. unfold ld_turn, thread_at in H. fold m in H. destruct (dev_list (tm_timer s) !! ld_dev) as [d|] eqn:Hd; [|done].
  cbn [fmap option_fmap option_map mbind option_bind] in H. exists d.
  assert (Hm : mk_mach (m_os m) (m_cpus m) (m_ld m) = m) by (by destruct m).
  destruct (ld_next_at (current_time (tm_timer s)) (m_ld m)) as [Hdet Hgive].
  destruct (t_thread d) eqn:Hth; try done.
  1: destruct (ld_next _ _ _) eqn:Hn.
  1: { destruct (Z.eqb_spec (x_now x) (current_time (tm_timer s))); [|done].
       destruct (os_turn (Loader x) m) as [m'|] eqn:Ht; [|done]. injection H as <-.
       apply os_turn_ld in Ht as (Hf & l' & os' & Hst & ->). exists l', d, os'. rewrite set_dev_id by done.
       split_and!; [done|by apply lm_work|done]. }
  all: destruct (dev_acts _ ld_dev (tm_timer s)) as [t'|] eqn:Ht; [|done]; cbn [mbind option_bind] in H;
    apply dev_acts_Some in Ht as (d0 & d' & Hd0 & Ha & ->); rewrite Hd in Hd0; injection Hd0 as <-.
  - injection H as <-. exists (m_ld m), d', (m_os m). rewrite Hm. split_and!; [done|by apply lm_done|done].
  - injection H as <-. exists (m_ld m), d', (m_os m). rewrite Hm. split_and!; [done|apply lm_detach; auto|done].
  - injection H as <-. exists (m_ld m), d', (m_os m). rewrite Hm. split_and!; [done|apply lm_end; auto|done].
  - destruct (l_at (m_ld m)) eqn:Hat.
    5: { destruct (os_turn (Loader x) m) as [m'|] eqn:Ht; [|done]. injection H as <-.
         apply os_turn_ld in Ht as (Hf & l' & os' & Hst & ->). pose proof Hst as Hst'. unfold ld_step in Hst'.
         rewrite Hat in Hst'. injection Hst' as <- <-. eexists _, d', _. split_and!; [done|by apply lm_wake|done]. }
    all: injection H as <-; exists (m_ld m), d', (m_os m); rewrite Hm; split_and!; [done|apply lm_sleep; by rewrite ?Hat|done].
Qed.

(** ** The two views of a run *)

Lemma dev_acts_step act j d d' t : dev_list t !! j = Some d -> act d = Some d' -> device_step act t (set_dev j d' t).
Proof. by econstructor. Qed.

Lemma timed_step_views s s' :
  timed_step s s' ->
  star (step time_slot conf mram mswp) (tm_mach s) (tm_mach s') /\ star tstep (tm_timer s) (tm_timer s').
Proof.
  assert (Hos : forall m m', step time_slot conf mram mswp m m' -> star (step time_slot conf mram mswp) m m').
  { intros m m' H. eapply star_step; [exact H|apply star_refl]. }
  assert (Hd : forall act d j d' t, dev_list t !! j = Some d -> act d = Some d' ->
      act = next_slot_done \/ act = next_slot_wait \/ act = detach_event \/ act = end_thread -> star tstep t (set_dev j d' t)).
  { intros act d j d' t Hj Ha Hact. eapply star_step; [|apply star_refl]. pose proof (dev_acts_step act j d d' t Hj Ha) as H.
    destruct Hact as [->|[->|[->| ->]]]; [by apply ts_done|by apply ts_wakes, wakes_device|by apply ts_detach|by apply ts_end]. }
  assert (Hid : forall m, mk_mach (m_os m) (m_cpus m) (m_ld m) = m) by (by intros []).
  intros [s0 t' H|i s0 s1 H|x s0 s1 H|s0 t' H _]; simpl.
  - split; [apply star_refl|]. eapply star_step; [by apply ts_wakes, wakes_timer|apply star_refl].
  - apply cpu_turn_moves in H as (c & d & c' & d' & os' & Hi & Hj & Hmv & ->). simpl.
    destruct Hmv as [d' Hc Ha|d' c' Hc Ha Hst _|d' Hc Ha|c' os' Hc Hth Hst]; split; eauto 7; try (apply Hos; by eapply os_cpu).
    1,2: rewrite list_insert_id, Hid by done; apply star_refl.
    rewrite set_dev_id by done. apply star_refl.
  - apply ld_turn_moves in H as (d & l' & d' & os' & Hj & Hmv & ->). simpl.
    destruct Hmv as [d' Hc Ha|d' Hc Ha|d' l' Hc Ha Hf Hst _|d' Hc Ha|d' Hc Ha|l' os' Hc Hth Hx Hf Hst];
      split; eauto 7; try (apply Hos; by eapply os_ld).
    1-4: rewrite Hid; apply star_refl.
    rewrite set_dev_id by done. apply star_refl.
  - split; [apply star_refl|]. eapply star_step; [by apply ts_stop|apply star_refl].
Qed.

Lemma timed_star_views s s' :
  star timed_step s s' ->
  star (step time_slot conf mram mswp) (tm_mach s) (tm_mach s') /\ star tstep (tm_timer s) (tm_timer s').
Proof.
  induction 1 as [s|s1 s2 s3 H _ [IH1 IH2]]; [split; apply star_refl|]. destruct (timed_step_views _ _ H).
  split; by eapply star_trans.
Qed.
(** ** Threads and their devices

    A thread that the timer holds is at a call of [next_slot]; one that is
    past its device has left its loop. *)

Definition cpu_sync (c : cpu) (d : timer_id_t) : Prop :=
  match t_thread d with
  | Working => True | InNextSlot => c_at c = C_slot | Detached => c_at c = C_stopped | Lost => False
  end.
Definition ld_sync (l : ld) (d : timer_id_t) : Prop :=
  match t_thread d with
  | Working => True | InNextSlot => l_at l = L_slot \/ l_at l = L_wait
  | Detached => l_at l = L_done | Lost => l_at l = L_failed
  end.

(** [main] has returned from [stop_timer]. *)
Definition returned (s : timed) : Prop :=
  dev_list (tm_timer s) = [] /\ Forall (fun c => c_at c = C_stopped) (m_cpus (tm_mach s)) /\
  (l_at (m_ld (tm_mach s)) = L_done \/ l_at (m_ld (tm_mach s)) = L_failed).

Record sync (s : timed) : Prop := {
  sy_cpu i c d :
    m_cpus (tm_mach s) !! i = Some c -> dev_list (tm_timer s) !! cpu_dev (length (m_cpus (tm_mach s))) i = Some d -> cpu_sync c d;
  sy_ld d : dev_list (tm_timer s) !! ld_dev = Some d -> ld_sync (m_ld (tm_mach s)) d;
  sy_len : length (dev_list (tm_timer s)) = S (length (m_cpus (tm_mach s))) \/ returned s;
}.

Lemma cpu_dev_lt n i : (i < n)%nat -> (0 < cpu_dev n i <= n)%nat /\ (n - cpu_dev n i = i)%nat.
Proof. unfold cpu_dev. lia. Qed.
Lemma cpu_dev_inj n i j : (i < n)%nat -> (j < n)%nat -> cpu_dev n i = cpu_dev n j -> i = j.
Proof. unfold cpu_dev. lia. Qed.

(** The devices are there while a thread steps. *)
Lemma sync_devices s j d : sync s -> dev_list (tm_timer s) !! j = Some d ->
  length (dev_list (tm_timer s)) = S (length (m_cpus (tm_mach s))).
Proof. intros Hs Hd. destruct (sy_len _ Hs) as [H|(H & _)]; [done|]. by rewrite H in Hd. Qed.

(** A CPU and its device move, the others stay. *)
Lemma sync_cpu s i c d c' d' os' :
  let n := length (m_cpus (tm_mach s)) in
  sync s -> m_cpus (tm_mach s) !! i = Some c -> dev_list (tm_timer s) !! cpu_dev n i = Some d -> cpu_sync c' d' ->
  sync (mk_timed (mk_mach os' (<[i := c']> (m_cpus (tm_mach s))) (m_ld (tm_mach s))) (set_dev (cpu_dev n i) d' (tm_timer s))).
Proof.
  intros n Hs Hi Hd Hc. pose proof (sync_devices _ _ _ Hs Hd) as Hlen. destruct Hs as [Hcpu Hld _].
  pose proof (lookup_lt_Some _ _ _ Hi) as Hlt. destruct (cpu_dev_lt n i Hlt) as [Hj _].
  split; simpl; rewrite ?length_insert; fold n.
  - intros k x e Hk He. pose proof (lookup_lt_Some _ _ _ Hk) as Hlk. rewrite length_insert in Hlk. fold n in Hlk.
    destruct (decide (k = i)) as [->|Hne].
    + rewrite list_lookup_insert_eq in Hk by lia. rewrite list_lookup_insert_eq in He by (rewrite Hlen; fold n; lia). by injection Hk as <-; injection He as <-.
    + rewrite list_lookup_insert_ne in Hk by done. rewrite list_lookup_insert_ne in He by (intros Heq; by apply cpu_dev_inj in Heq).
      by apply (Hcpu k).
  - intros e He. rewrite list_lookup_insert_ne in He by (unfold ld_dev; lia). by apply Hld.
  - by left.
Qed.

Lemma sync_ld s d l' d' os' :
  sync s -> dev_list (tm_timer s) !! ld_dev = Some d -> ld_sync l' d' ->
  sync (mk_timed (mk_mach os' (m_cpus (tm_mach s)) l') (set_dev ld_dev d' (tm_timer s))).
Proof.
  intros Hs Hd Hl. pose proof (sync_devices _ _ _ Hs Hd) as Hlen. destruct Hs as [Hcpu Hld _].
  split; simpl; rewrite ?length_insert.
  - intros k x e Hk He. pose proof (lookup_lt_Some _ _ _ Hk) as Hlk. destruct (cpu_dev_lt _ k Hlk) as [Hj _].
    rewrite list_lookup_insert_ne in He by (unfold ld_dev; lia). by apply (Hcpu k).
  - intros e He. rewrite list_lookup_insert_eq in He by (unfold ld_dev; lia). by injection He as <-.
  - by left.
Qed.

Lemma sync_step k s s' : tinv k (tm_timer s) -> timed_step s s' -> sync s -> sync s'.
Proof.
  intros Hti Hst Hs. destruct Hst as [s t' H|i s s' H|x s s' H|s t' H _].
  - pose proof (fun j => timer_routine_threads _ _ j H) as Hth. destruct Hs as [Hcpu Hld Hlen]. split; simpl.
    + intros i c d Hi Hd. apply Hth in Hd as (d0 & Hd0 & Ht & _). unfold cpu_sync. rewrite Ht. by apply (Hcpu i).
    + intros d Hd. apply Hth in Hd as (d0 & Hd0 & Ht & _). unfold ld_sync. rewrite Ht. by apply Hld.
    + destruct (Hth 0%nat) as [Hl _]. destruct Hlen as [Hlen|(He & Hr)]; [left; by rewrite Hl|right].
      split; [|done]. apply nil_length_inv. simpl. by rewrite Hl, He.
  - apply cpu_turn_moves in H as (c & d & c' & d' & os' & Hc & Hd & Hmv & ->). eapply sync_cpu; [done|done|done|].
    unfold cpu_sync. destruct Hmv as [d' Hat Ha|d' c' Hat Ha _ _|d' Hat Ha|c' os' Hat Hth _]; [..|by rewrite Hth];
      unfold next_slot_done, next_slot_wait, detach_event in Ha; destruct (t_thread d); try destruct (t_done d); try done; by injection Ha as <-.
  - apply ld_turn_moves in H as (d & l' & d' & os' & Hd & Hmv & ->). eapply sync_ld; [done|done|].
    unfold ld_sync. destruct Hmv as [d' Hat Ha|d' Hat Ha|d' l' Hat Ha _ _ _|d' Hat Ha|d' Hat Ha|l' os' Hat Hth _ _ _]; [..|by rewrite Hth];
      unfold next_slot_done, next_slot_wait, detach_event, end_thread in Ha; destruct (t_thread d); try destruct (t_done d); try done;
      injection Ha as <-; try done.
    all: simpl; unfold ld_next in Hat; destruct (l_at (m_ld (tm_mach s))); try done; auto.
  - destruct Hs as [Hcpu Hld Hlen]. inversion_clear H as [? He|? Hst Hx]; [by split|]. split; simpl; [done|done|right].
    destruct Hlen as [Hlen|(_ & Hr)]; [|done]. pose proof (ti_stop _ _ Hti Hst) as Hend. rewrite Forall_lookup in Hend.
    assert (Hat : forall j, (j <= length (m_cpus (tm_mach s)))%nat -> exists d, dev_list (tm_timer s) !! j = Some d /\ ended d = true).
    { intros j Hj. destruct (lookup_lt_is_Some_2 (dev_list (tm_timer s)) j) as [d Hd]; [lia|]. eauto. }
    unfold ended in Hat. split; [done|]. split.
    + apply Forall_lookup. intros i c Hi. pose proof (lookup_lt_Some _ _ _ Hi) as Hlt.
      destruct (Hat (cpu_dev (length (m_cpus (tm_mach s))) i)) as (d & Hd & He); [unfold cpu_dev; lia|].
      specialize (Hcpu i c d Hi Hd). unfold cpu_sync in Hcpu. by destruct (t_thread d).
    + destruct (Hat 0%nat) as (d & Hd & He); [lia|]. specialize (Hld d Hd). unfold ld_sync in Hld. destruct (t_thread d); auto; done.
Qed.

Lemma sync_boot n dv h : sync (timed_boot n dv h).
Proof.
  assert (Hw : forall j d, dev_list (tm_timer (timed_boot n dv h)) !! j = Some d -> t_thread d = Working).
  { intros j d ->%attached_lookup. done. }
  split.
  - intros i c d _ Hd%Hw. unfold cpu_sync. by rewrite Hd.
  - intros d Hd%Hw. unfold ld_sync. by rewrite Hd.
  - left. change (length (attached (S n)) = S (length (replicate n (mk_cpu C_top NULL 0)))).
    by rewrite attached_length, length_replicate.
Qed.

Lemma sync_reach n dv h s :
  star timed_step (timed_boot n dv h) s -> sync s /\ exists k, tinv k (tm_timer s).
Proof.
  apply (star_invariant timed_step (fun s => sync s /\ exists k, tinv k (tm_timer s))).
  - intros x y [Hs [k Hk]] Hxy. split; [by eapply sync_step|]. destruct (timed_step_views _ _ Hxy) as [_ Ht].
    destruct (tinv_star _ _ _ Hk Ht) as (k' & _ & Hk'). by exists k'.
  - split; [apply sync_boot|]. exists 0. apply tinv_start.
Qed.

(** ** Executed interleavings *)

Inductive timed_act := ByTimer | ByCpu (i : nat) | ByLoader (x : ext).
Definition timed_turn (a : timed_act) (s : timed) : option timed :=
  match a with
  | ByTimer => t' ← timer_routine (tm_timer s); Some (mk_timed (tm_mach s) t')
  | ByCpu i => cpu_turn i s
  | ByLoader x => ld_turn x s
  end.
Fixpoint timed_exec (l : list timed_act) (s : timed) : option timed :=
  match l with [] => Some s | a :: l => s' ← timed_turn a s; timed_exec l s' end.

Lemma timed_exec_steps l s s' : timed_exec l s = Some s' -> nsteps timed_step (length l) s s'.
Proof.
  revert s. induction l as [|a l IH]; intros s H; simpl in H; [injection H as ->; constructor|].
  destruct (timed_turn a s) as [s1|] eqn:Ha; [|done]. simpl in H. econstructor; [|by apply IH].
  destruct a as [|i|x]; simpl in Ha; [|by eapply td_cpu|by eapply td_ld].
  destruct (timer_routine (tm_timer s)) as [t'|] eqn:Ht; [|done]. injection Ha as <-. by apply td_timer.
Qed.

Lemma nsteps_star n s s' : nsteps timed_step n s s' -> star timed_step s s'.
Proof. induction 1; [apply star_refl|by eapply star_step]. Qed.
End Steps.
