(* ===== verification/TimedLive.v ===== *)
(** * Every time slot ends

    The machine on its timer never stops in the middle of a slot: while
    [main] has not returned some thread can step, and only finitely many
    steps fit between two ticks of the clock. *)

From stdpp Require Import vector.
From S2P Require Import Prelude Queue Sched Pte MemPhy Kernel PageTable Mm64 MmVm Syscall LibMem VMem UserMem Alloc Kmem KmemVm Kept Cpu Program Loader Boot Timer Os Launch Safe Timed.

(** ** The steps left in a slot *)

(** Of a thread, up to its next call of [next_slot] or its end. *)
Definition cpu_rank (c : cpu) : nat :=
  match c_at c with C_top => 5 | C_get => 4 | C_check => 3 | C_run => 2 | C_slot | C_stopped => 1 end.
Definition ld_rank (l : ld) : nat :=
  match l_at l with L_load => 5 | L_wait => 4 | L_setup => 3 | L_add => 2 | L_slot | L_done | L_failed => 1 end.
Definition rank_of (m : mach) (j : nat) : nat :=
  match j with
  | O => ld_rank (m_ld m)
  | S _ => match m_cpus m !! (length (m_cpus m) - j)%nat with Some c => cpu_rank c | None => O end
  end.

(** A thread in [next_slot] that the timer has released, or will without a
    tick, works once more. *)
Definition pendingb (p : timer_pc) (j : nat) : bool := match p with T_release i _ _ => (i <=? j)%nat | _ => false end.
Definition left_of (p : timer_pc) (j : nat) (d : timer_id_t) (r : nat) : nat :=
  match t_thread d with
  | Working => r | InNextSlot => if t_done d && negb (pendingb p j) then 0 else 7 | Detached | Lost => 0
  end.
Definition left_at (s : timed) (j : nat) : nat :=
  match dev_list (tm_timer s) !! j with
  | Some d => left_of (timer_at (tm_timer s)) j d (rank_of (tm_mach s) j) | None => O
  end.

(** Of the timer, up to the tick, and of [main]. *)
Definition timer_rank (n : nat) (p : timer_pc) : nat :=
  match p with T_exit => 0 | T_wait i _ _ => n - i | T_test => n + 1 | T_release i _ _ => n - i + n + 2 end.
Definition slot_left (s : timed) : nat :=
  let t := tm_timer s in
  timer_rank (length (dev_list t)) (timer_at t) + (if timer_stop t then 0 else 1) + length (dev_list t)
  + sum_list_with (left_at s) (seq 0 (S (length (m_cpus (tm_mach s))))).

Lemma sum_with_le (f g : nat -> nat) l : (forall j, j ∈ l -> (f j <= g j)%nat) -> (sum_list_with f l <= sum_list_with g l)%nat.
Proof.
  induction l as [|x l IH]; intros H; simpl; [done|]. pose proof (H x (list_elem_of_here _ _)).
  assert (sum_list_with f l <= sum_list_with g l)%nat by (apply IH; intros j Hj; apply H; by apply elem_of_cons; right). lia.
Qed.

Lemma sum_with_lt (f g : nat -> nat) l i :
  (forall j, j ∈ l -> (f j <= g j)%nat) -> i ∈ l -> (f i < g i)%nat -> (sum_list_with f l < sum_list_with g l)%nat.
Proof.
  intros H Hi Hlt. induction l as [|x l IH]; [by apply not_elem_of_nil in Hi|]. simpl.
  assert (Hle : forall j, j ∈ l -> (f j <= g j)%nat) by (intros j Hj; apply H; by apply elem_of_cons; right).
  pose proof (sum_with_le f g l Hle). pose proof (H x (list_elem_of_here _ _)).
  apply elem_of_cons in Hi as [->|Hi]; [lia|]. specialize (IH Hle Hi). lia.
Qed.

(** ** The timer moves on *)

Lemma pending_pendingb p j : pendingb p j = true <-> pending p j.
Proof. unfold pendingb, pending. destruct p; try done. apply Nat.leb_le. Qed.

Lemma timer_slot_left s t' :
  timer_routine (tm_timer s) = Some t' -> current_time t' = current_time (tm_timer s) ->
  0 <= current_time (tm_timer s) < 2 ^ 64 -> (slot_left (mk_timed (tm_mach s) t') < slot_left s)%nat.
Proof.
  intros H Ht Hr. unfold slot_left. cbn [tm_timer tm_mach]. set (n := length (m_cpus (tm_mach s))). set (t := tm_timer s) in *.
  assert (Hleft : forall j, (left_at (mk_timed (tm_mach s) t') j <= left_at s j)%nat /\
    length (dev_list t') = length (dev_list t) /\ timer_stop t' = timer_stop t /\
    (timer_rank (length (dev_list t)) (timer_at t') < timer_rank (length (dev_list t)) (timer_at t))%nat).
  { intros j. unfold left_at. fold t. simpl. unfold timer_routine in H. destruct (timer_at t) as [|i f e|i f e|] eqn:Hat; [| | |done].
    - injection H as <-. simpl. split; [|split; [done|split; [done|destruct (timer_stop t); simpl; lia]]].
      destruct (dev_list t !! j); [|done]. unfold left_of. by destruct (timer_stop t).
    - destruct (dev_list t !! i) as [d|] eqn:Hd.
      + destruct (t_done d || t_fsh d); [|done]. injection H as <-. simpl. apply lookup_lt_Some in Hd. split_and!; try done. lia.
      + injection H as <-. unfold current_time in *. simpl in Ht. unfold u64, wrapU in Ht.
        destruct (decide (_time t + 1 = 2 ^ 64)) as [He|]; [rewrite He, Z.mod_same in Ht; lia|rewrite Z.mod_small in Ht; lia].
    - destruct (dev_list t !! i) as [d|] eqn:Hd; injection H as <-; simpl.
      + rewrite length_insert. apply lookup_lt_Some in Hd as Hlt. split_and!; [|done|done|lia].
        destruct (decide (i = j)) as [<-|Hne].
        * rewrite list_lookup_insert_eq, Hd by done. unfold left_of. simpl. destruct (t_thread d); try done.
          rewrite (proj2 (Nat.leb_le i i)) by lia. by rewrite andb_false_r.
        * rewrite list_lookup_insert_ne by done. destruct (dev_list t !! j) as [dj|]; [|done].
          assert (Hp : pendingb (T_release (S i) f e) j = pendingb (T_release i f e) j)
            by (unfold pendingb; apply eq_true_iff_eq; rewrite !Nat.leb_le; lia). unfold left_of. by rewrite Hp.
      + apply lookup_ge_None in Hd. split; [|split; [done|split; [done|destruct (f =? e); simpl; lia]]].
        destruct (dev_list t !! j) as [dj|] eqn:Hj; [|done]. apply lookup_lt_Some in Hj. unfold left_of. simpl.
        assert (Nat.leb i j = false) as -> by (apply Nat.leb_gt; lia). by destruct (f =? e). }
  destruct (Hleft 0%nat) as (_ & -> & -> & Hrk).
  assert (sum_list_with (left_at (mk_timed (tm_mach s) t')) (seq 0 (S n)) <= sum_list_with (left_at s) (seq 0 (S n)))%nat
    by (apply sum_with_le; intros j _; apply Hleft). lia.
Qed.

(** The device [j] moves, with the thread that owns it. *)
Lemma thread_slot_left s m' j d d' :
  let t := tm_timer s in let n := length (m_cpus (tm_mach s)) in
  dev_list t !! j = Some d -> (j < S n)%nat -> length (m_cpus m') = n ->
  (forall k, k <> j -> (k < S n)%nat -> rank_of m' k = rank_of (tm_mach s) k) ->
  (left_of (timer_at t) j d' (rank_of m' j) < left_of (timer_at t) j d (rank_of (tm_mach s) j))%nat ->
  (slot_left (mk_timed m' (set_dev j d' t)) < slot_left s)%nat.
Proof.
  intros t n Hd Hj Hlen Hoth Hlt. unfold slot_left. cbn [tm_timer tm_mach dev_list set_dev timer_at timer_stop]. rewrite Hlen, length_insert. fold t n.
  enough (sum_list_with (left_at (mk_timed m' (set_dev j d' t))) (seq 0 (S n)) < sum_list_with (left_at s) (seq 0 (S n)))%nat by lia.
  assert (Hj' : left_at (mk_timed m' (set_dev j d' t)) j = left_of (timer_at t) j d' (rank_of m' j)).
  { unfold left_at. simpl. by rewrite list_lookup_insert_eq by (by eapply lookup_lt_Some). }
  assert (Hs : left_at s j = left_of (timer_at t) j d (rank_of (tm_mach s) j)) by (unfold left_at; fold t; by rewrite Hd).
  apply (sum_with_lt _ _ _ j); [|apply elem_of_seq; lia|by rewrite Hj', Hs].
  intros k Hk%elem_of_seq. destruct (decide (k = j)) as [->|Hne]; [rewrite Hj', Hs; lia|].
  unfold left_at. simpl. fold t. rewrite list_lookup_insert_ne, Hoth by (done || lia). done.
Qed.

(** ** The threads move on *)

Lemma cpu_step_rank ts c s c' s' : cpu_step ts c s = Ok (c', s') -> c_at c <> C_slot -> (cpu_rank c' < cpu_rank c)%nat.
Proof.
  intros H Hat. destruct c as [at0 p left]. unfold cpu_step in H. cbn [c_at c_proc time_left] in *.
  destruct at0; try done; cbn iota in H.
  - destruct (p =? NULL).
    + ok_step H. injection H as <- _. unfold cpu_rank. simpl. destruct (a =? NULL); lia.
    + ok_step H. destruct (pc a =? code_size (code a)); [|destruct (left =? 0)].
      * ok_step H. ok_step H. injection H as <- _. unfold cpu_rank. simpl. lia.
      * ok_step H. injection H as <- _. unfold cpu_rank. simpl. lia.
      * injection H as <- _. unfold cpu_rank. simpl. lia.
  - ok_step H. injection H as <- _. unfold cpu_rank. simpl. lia.
  - ok_step H. destruct (p =? NULL); injection H as <- _; unfold cpu_rank; simpl; [destruct (o_done _)|]; lia.
  - ok_step H. ok_step H. injection H as <- _. unfold cpu_rank. simpl. lia.
Qed.

Lemma ld_step_rank conf mram mswp x l s l' s' :
  ld_step conf mram mswp x l s = Ok (l', s') -> ld_next conf (x_now x) l = Works -> (ld_rank l' < ld_rank l)%nat.
Proof.
  intros H Hn. destruct l as [at0 i p]. unfold ld_step, ld_next in *. cbn [l_at l_i l_proc] in *. destruct at0; try done.
  - destruct (conf !! i) as [pr|]; ok_step H; injection H as <- _; unfold ld_rank; simpl; lia.
  - destruct (conf !! i) as [pr|]; [|done]. ok_step H. injection Hop as <- <-. injection H as <- _.
    destruct (x_now x <? start_time pr); [done|]. unfold ld_rank. simpl. lia.
  - ok_step H. injection H as <- _. unfold ld_rank. destruct a; simpl; lia.
  - ok_step H. ok_step H. injection H as <- _. unfold ld_rank. simpl. lia.
Qed.

Lemma rank_of_cpu m i c k os' c' :
  m_cpus m !! i = Some c -> k <> cpu_dev (length (m_cpus m)) i -> (k < S (length (m_cpus m)))%nat ->
  rank_of (mk_mach os' (<[i := c']> (m_cpus m)) (m_ld m)) k = rank_of m k.
Proof.
  intros Hi Hk Hlt. apply lookup_lt_Some in Hi. destruct k as [|k]; [done|]. unfold rank_of. cbn [m_cpus].
  rewrite length_insert, list_lookup_insert_ne; [done|]. unfold cpu_dev in Hk. lia.
Qed.

Lemma rank_of_at m i c os' c' :
  m_cpus m !! i = Some c -> let j := cpu_dev (length (m_cpus m)) i in
  rank_of m j = cpu_rank c /\ rank_of (mk_mach os' (<[i := c']> (m_cpus m)) (m_ld m)) j = cpu_rank c'.
Proof.
  intros Hi j. pose proof (lookup_lt_Some _ _ _ Hi) as Hlt. destruct (cpu_dev_lt _ _ Hlt) as [Hj Hij]. fold j in Hj, Hij.
  destruct j as [|j]; [lia|]. unfold rank_of. cbn [m_cpus]. rewrite length_insert, Hij, Hi.
  by rewrite list_lookup_insert_eq.
Qed.

Section Live.
Context (time_slot : Z) (conf : list proc_conf) (mram mswp : Z).
Definition tdstep : timed -> timed -> Prop := timed_step time_slot conf mram mswp.

(** A thread that works has been released. *)
Lemma working_not_pending k t j d :
  tinv k t -> dev_list t !! j = Some d -> t_thread d = Working -> pendingb (timer_at t) j = false.
Proof.
  intros Hi Hd Hw. pose proof (ti_dev _ _ Hi _ _ Hd) as Hok. unfold dev_ok in Hok. rewrite Hw in Hok.
  destruct Hok as (_ & _ & _ & Hp). apply not_true_iff_false. by rewrite pending_pendingb.
Qed.

Lemma cpu_moves_left k s i c d c' d' o' :
  let j := cpu_dev (length (m_cpus (tm_mach s))) i in
  tinv k (tm_timer s) -> dev_list (tm_timer s) !! j = Some d -> cpu_moves time_slot c d (m_os (tm_mach s)) c' d' o' ->
  (left_of (timer_at (tm_timer s)) j d' (cpu_rank c') < left_of (timer_at (tm_timer s)) j d (cpu_rank c))%nat.
Proof.
  intros j Hi Hd Hmv. pose proof (working_not_pending _ _ _ _ Hi Hd) as Hw. unfold left_of.
  destruct Hmv as [d' Hat Ha|d' c' Hat Ha _ ->|d' Hat Ha|c' o' Hat Hth Hst].
  4: { rewrite Hth. by eapply cpu_step_rank. }
  all: unfold next_slot_done, next_slot_wait, detach_event in Ha; destruct (t_thread d); try done; try destruct (t_done d); try done;
    injection Ha as <-; simpl; unfold cpu_rank; rewrite ?Hat, ?Hw by done; simpl; lia.
Qed.

Lemma ld_moves_left k s x d l' d' o' :
  tinv k (tm_timer s) -> dev_list (tm_timer s) !! ld_dev = Some d ->
  ld_moves conf mram mswp x (current_time (tm_timer s)) (m_ld (tm_mach s)) d (m_os (tm_mach s)) l' d' o' ->
  (left_of (timer_at (tm_timer s)) ld_dev d' (ld_rank l') < left_of (timer_at (tm_timer s)) ld_dev d (ld_rank (m_ld (tm_mach s))))%nat.
Proof.
  intros Hi Hd Hmv. pose proof (working_not_pending _ _ _ _ Hi Hd) as Hw. unfold left_of.
  assert (Hr : (1 <= ld_rank (m_ld (tm_mach s)) <= 5)%nat) by (unfold ld_rank; destruct (l_at _); lia).
  destruct Hmv as [d' Hat Ha|d' Hat Ha|d' l' Hat Ha _ _ ->|d' Hat Ha|d' Hat Ha|l' o' Hat Hth Hx _ Hst].
  6: { rewrite Hth. rewrite <- Hx in Hat. by eapply ld_step_rank. }
  all: unfold next_slot_done, next_slot_wait, detach_event, end_thread in Ha; destruct (t_thread d); try done; try destruct (t_done d); try done;
    injection Ha as <-; simpl; rewrite ?Hw by done; simpl; try lia.
  unfold ld_rank at 1. simpl. lia.
Qed.

(** A step without a tick. *)
Definition in_slot (s s' : timed) : Prop := tdstep s s' /\ current_time (tm_timer s') = current_time (tm_timer s).

Lemma in_slot_left k s s' : tinv k (tm_timer s) -> sync s -> in_slot s s' -> (slot_left s' < slot_left s)%nat.
Proof.
  intros Hi Hs [Hst Ht]. destruct Hst as [s t' H|i s s' H|x s s' H|s t' H Hne].
  - apply timer_slot_left; [done|done|]. unfold current_time. rewrite (ti_time _ _ Hi). apply u64_range.
  - apply cpu_turn_moves in H as (c & d & c' & d' & os' & Hc & Hd & Hmv & ->).
    pose proof (lookup_lt_Some _ _ _ Hc) as Hlt. destruct (cpu_dev_lt _ _ Hlt) as [Hj _].
    destruct (rank_of_at _ _ _ os' c' Hc) as [H1 H2].
    apply thread_slot_left with d; [done|lia|simpl; by rewrite length_insert| |].
    + intros k' Hk' Hlk. by eapply rank_of_cpu.
    + rewrite H1, H2. by eapply cpu_moves_left.
  - apply ld_turn_moves in H as (d & l' & d' & os' & Hd & Hmv & ->).
    apply thread_slot_left with d; [done|unfold ld_dev; lia|done| |by eapply ld_moves_left].
    intros [|k'] Hk' _; [by unfold ld_dev in Hk'|done].
  - unfold slot_left. cbn [tm_timer tm_mach]. inversion H as [t He Heq Heq'|t Hstop Hx Heq Heq']; subst t.
    + assert (Hle : forall j, left_at (mk_timed (tm_mach s) t') j = left_at s j) by (intros j; by subst t').
      pose proof (sum_with_le (left_at (mk_timed (tm_mach s) t')) (left_at s) (seq 0 (S (length (m_cpus (tm_mach s)))))
        (fun j _ => Nat.eq_le_incl _ _ (Hle j))).
      destruct (timer_stop (tm_timer s)) eqn:Hst; [|subst t'; cbn [dev_list timer_at timer_stop] in *; lia].
      destruct Hne. subst t'. destruct (tm_timer s). simpl in *. by subst.
    + assert (Hle : forall j, (left_at (mk_timed (tm_mach s) t') j <= left_at s j)%nat).
      { intros j. subst t'. unfold left_at at 1. simpl. lia. }
      pose proof (sum_with_le (left_at (mk_timed (tm_mach s) t')) (left_at s) (seq 0 (S (length (m_cpus (tm_mach s))))) (fun j _ => Hle j)).
      destruct (dev_list (tm_timer s)) as [|d0 l0] eqn:Hl.
      * destruct Hne. subst t'. destruct (tm_timer s). simpl in *. by subst.
      * subst t'. rewrite Hx, Hstop. cbn [dev_list timer_at timer_stop timer_rank length] in *. lia.
Qed.

Lemma in_slot_acc k s : tinv k (tm_timer s) -> sync s -> Acc (flip in_slot) s.
Proof.
  remember (slot_left s) as n eqn:Hn. revert k s Hn. induction (lt_wf n) as [n _ IH]. intros k s -> Hi Hs.
  constructor. intros s' Hst. unfold flip in Hst. pose proof (in_slot_left _ _ _ Hi Hs Hst) as Hlt. destruct Hst as [Hst _].
  destruct (timed_step_views _ _ _ _ _ _ Hst) as [_ Ht]. destruct (tinv_star _ _ _ Hi Ht) as (k' & _ & Hi').
  eapply IH; [exact Hlt|reflexivity|exact Hi'|]. exact (sync_step _ _ _ _ _ _ _ Hi Hst Hs).
Qed.
End Live.

(** ** Some thread can step *)

(** The outside can always give fresh addresses. *)
Lemma ext_exists s now : exists x, fresh x s /\ x_now x = now.
Proof.
  set (used := {[NULL]} ∪ dom (procs (o_sys s)) ∪ dom (mms (o_sys s)) : gset Z).
  set (a := base.fresh used). set (b := base.fresh ({[a]} ∪ used)).
  assert (Ha : a ∉ used) by apply is_fresh. assert (Hb : b ∉ {[a]} ∪ used) by apply is_fresh.
  apply not_elem_of_union in Hb as [Hab Hb]. rewrite not_elem_of_singleton in Hab.
  assert (Hused : forall y, y ∉ used -> y <> NULL /\ procs (o_sys s) !! y = None /\ mms (o_sys s) !! y = None).
  { intros y Hy. unfold used in Hy. apply not_elem_of_union in Hy as [[H1 H2]%not_elem_of_union H3].
    rewrite not_elem_of_singleton in H1. apply not_elem_of_dom in H2. by apply not_elem_of_dom in H3. }
  destruct (Hused a Ha) as (? & ? & ?), (Hused b Hb) as (? & ? & ?).
  exists (mk_ext a (mk_pcb 0 0 (mk_code [] 0) (replicate 10 0) 0 0 0 0 0) (fun n => vreplicate n (mk_inst CALC 0 0 0 0)) a b now).
  split; [|done]. by split.
Qed.

Lemma dev_acts_intro act j d d' t : dev_list t !! j = Some d -> act d = Some d' -> dev_acts act j t = Some (set_dev j d' t).
Proof. intros Hd Ha. unfold dev_acts. by rewrite Hd; simpl; rewrite Ha. Qed.

Section Progress.
Context (ts : Z) (conf : list proc_conf) (ram swp : Z).
Hypothesis Hts : 0 < ts < 2 ^ 31.
Hypothesis Hconf : Forall conf_ok conf.
Hypothesis Hcount : Z.of_nat (length conf) < PID_MAX.
Definition turn_defined (t : turn) (m : mach) : Prop := exists m', os_turn ts conf ram swp t m = Some m'.

Lemma cpu_turn_defined m i c :
  mach_ok ts conf ram swp m -> m_cpus m !! i = Some c -> c_at c <> C_stopped -> turn_defined (Cpu i) m.
Proof.
  intros Hok Hi Hc. destruct (cpu_ok_step ts conf ram swp Hts m i c Hok Hi Hc) as (rest & _ & _ & Hw).
  destruct (wp_elim _ _ _ Hw) as (c' & s' & H & _). eexists. unfold os_turn. simpl. rewrite Hi. simpl. by rewrite H.
Qed.

Lemma ld_turn_defined m x :
  mach_ok ts conf ram swp m -> fresh x (m_os m) -> l_at (m_ld m) <> L_done -> turn_defined (Loader x) m.
Proof.
  intros Hok Hf Hat. destruct (wp_elim _ _ _ (ld_ok_step ts conf ram swp Hconf Hcount m x Hok Hf Hat)) as (l' & s' & H & _).
  eexists. unfold os_turn. simpl. rewrite decide_True by done. by rewrite H.
Qed.

(** The loader, when the timer waits for it. *)
Lemma waited_ld s d :
  mach_ok ts conf ram swp (tm_mach s) -> sync s -> dev_list (tm_timer s) !! ld_dev = Some d -> t_done d = false ->
  t_thread d = Working \/ t_thread d = Lost \/ t_thread d = InNextSlot ->
  exists x s', ld_turn ts conf ram swp x s = Some s'.
Proof.
  intros Hok Hs Hd Hdn Hth. destruct (ext_exists (m_os (tm_mach s)) (current_time (tm_timer s))) as (x & Hf & Hx).
  pose proof (mo_ld _ _ _ _ _ Hok) as Hld. exists x. unfold ld_turn, thread_at. rewrite Hd.
  cbn [fmap option_fmap option_map mbind option_bind]. destruct Hth as [Hth|[Hth|Hth]]; rewrite Hth.
  - destruct (ld_next conf _ _) eqn:Hn.
    + rewrite Hx, Z.eqb_refl. destruct (ld_turn_defined (tm_mach s) x Hok Hf) as [m' Hm]; [|rewrite Hm; by eexists].
      intros Hat. unfold ld_next in Hn. by rewrite Hat in Hn.
    + erewrite dev_acts_intro; [by eexists|done|unfold next_slot_done; by rewrite Hth].
    + erewrite dev_acts_intro; [by eexists|done|unfold detach_event; by rewrite Hth].
    + erewrite dev_acts_intro; [by eexists|done|unfold end_thread; by rewrite Hth].
  - pose proof (sy_ld _ Hs d Hd) as Hl. unfold ld_sync in Hl. rewrite Hth in Hl. unfold ld_ok in Hld. by rewrite Hl in Hld.
  - erewrite dev_acts_intro; [|done|unfold next_slot_wait; by rewrite Hth, Hdn]. cbn [mbind option_bind].
    destruct (l_at (m_ld (tm_mach s))) eqn:Hat; try by eexists.
    destruct (ld_turn_defined (tm_mach s) x Hok Hf) as [m' Hm]; [by rewrite Hat|rewrite Hm; by eexists].
Qed.

(** A CPU, when the timer waits for it. *)
Lemma waited_cpu s i c d :
  mach_ok ts conf ram swp (tm_mach s) -> sync s -> m_cpus (tm_mach s) !! i = Some c ->
  dev_list (tm_timer s) !! cpu_dev (length (m_cpus (tm_mach s))) i = Some d -> t_done d = false ->
  t_thread d = Working \/ t_thread d = Lost \/ t_thread d = InNextSlot ->
  exists s', cpu_turn ts conf ram swp i s = Some s'.
Proof.
  intros Hok Hs Hi Hd Hdn Hth. pose proof (sy_cpu _ Hs i c d Hi Hd) as Hsy. unfold cpu_sync in Hsy.
  assert (Hturn : c_at c <> C_stopped -> turn_defined (Cpu i) (tm_mach s)) by (by apply cpu_turn_defined).
  unfold cpu_turn, thread_at. rewrite Hi. cbn [mbind option_bind]. rewrite Hd. cbn [fmap option_fmap option_map mbind option_bind].
  destruct Hth as [Hth|[Hth|Hth]]; rewrite Hth in *; [|done|].
  - destruct (c_at c) eqn:Hat.
    5: erewrite dev_acts_intro; [by eexists|done|unfold next_slot_done; by rewrite Hth].
    5: erewrite dev_acts_intro; [by eexists|done|unfold detach_event; by rewrite Hth].
    all: destruct Hturn as [m' Hm]; [done|rewrite Hm; by eexists].
  - rewrite Hsy in *. erewrite dev_acts_intro; [|done|unfold next_slot_wait; by rewrite Hth, Hdn]. cbn [mbind option_bind].
    destruct Hturn as [m' Hm]; [done|rewrite Hm; by eexists].
Qed.

Lemma timed_progress k s :
  mach_ok ts conf ram swp (tm_mach s) -> tinv k (tm_timer s) -> sync s -> returned s \/ exists s', tdstep ts conf ram swp s s'.
Proof.
  intros Hok Hi Hs. destruct (sy_len _ Hs) as [Hlen|Hr]; [right|by left].
  destruct (timer_routine (tm_timer s)) as [t'|] eqn:Ht; [eexists; by apply td_timer|].
  destruct (timer_blocked _ _ Hi Ht) as [[Hx Hall]|([|j] & f & e & d & _ & Hd & Hdn & Hth)].
  - destruct (timer_stop (tm_timer s)) eqn:Hst; eexists; apply td_main.
    + by apply stop_free.
    + intros Heq. apply (f_equal dev_list) in Heq. simpl in Heq. by rewrite <- Heq in Hlen.
    + apply stop_flag. by apply Forall_lookup.
    + intros Heq. apply (f_equal timer_stop) in Heq. simpl in Heq. congruence.
  - destruct (waited_ld s d Hok Hs Hd Hdn Hth) as (x & s' & H). exists s'. by eapply td_ld.
  - pose proof (lookup_lt_Some _ _ _ Hd) as Hlt. set (n := length (m_cpus (tm_mach s))) in *.
    destruct (lookup_lt_is_Some_2 (m_cpus (tm_mach s)) (n - S j)) as [c Hc]; [fold n; lia|].
    assert (Hj : cpu_dev n (n - S j) = S j) by (unfold cpu_dev; lia).
    destruct (waited_cpu s (n - S j) c d Hok Hs Hc) as (s' & H); [by fold n; rewrite Hj|done|done|].
    exists s'. by eapply td_cpu.
Qed.

(** ** Properties *)

(** C3 (termination): every time slot ends.  A step of [os.c]'s threads is one
    whole call of [run], [load], [init_mm] or the scheduler, not interrupted
    by another thread - races inside the calls ([Race.empty_test_races]) are
    outside this theorem -, and a section of [timer.c] under a lock is one.
    The hypotheses are those of the safety of the machine: a positive time
    slot, no host allocation fails, devices with all their frames inside them
    (not main's [init_memphy]), RAM up to 32 MiB, fewer than [PID_MAX]
    printed user programs (ALLOC and FREE of ids 0 to 9, READ and WRITE of
    ids 0 to 29, ALLOCs below 2 GiB in total, KMALLOC up to 2^31 - 4096, no
    system call 17).  Then in every state that these steps reach on the
    timer: unless all threads have ended and [main] has returned, some thread
    can step - no deadlock, and no step that is undefined - and only finitely
    many steps follow before the clock ticks, in whatever order they come. *)
Theorem every_slot_ends n dv rd sd s :
  devices_ok ram swp dv rd sd -> star (timed_step ts conf ram swp) (timed_boot n dv []) s ->
  (returned s \/ exists s', timed_step ts conf ram swp s s') /\ Acc (flip (in_slot ts conf ram swp)) s.
Proof.
  intros Hd Hst. destruct (sync_reach _ _ _ _ _ _ _ _ Hst) as (Hs & k & Hk).
  destruct (timed_star_views _ _ _ _ _ _ Hst) as [Hos _].
  pose proof (mach_ok_reach ts conf ram swp Hts Hconf Hcount _ _ _ _ _ Hd Hos) as Hok.
  split; [by eapply timed_progress|by eapply in_slot_acc].
Qed.
End Progress.
