(* ===== verification/OnTime.v ===== *)
(** * The schedule is kept

    On its timer the machine loads each configured process in the slot its
    [start_time] asks for, one process per slot, and no process gets ahead of
    the clock. *)

From stdpp Require Import vector.
From S2P Require Import Prelude Queue Sched Pte MemPhy Kernel PageTable Mm64 MmVm Syscall LibMem VMem UserMem Alloc Kmem KmemVm Kept Cpu Program Loader Boot Timer Os Launch Safe Timed.

(** ** The slot of each process *)

Definition start_of (conf : list proc_conf) (i : nat) : Z := from_option start_time 0 (conf !! i).

(** The slot in which the loader comes to process [i], and the slot in which
    it adds it: the first one from then on that is not before its start. *)
Fixpoint opens (conf : list proc_conf) (i : nat) : Z :=
  match i with O => 0 | S j => Z.max (start_of conf j) (opens conf j) + 1 end.
Definition arrival (conf : list proc_conf) (i : nat) : Z := Z.max (start_of conf i) (opens conf i).

(** Process [c] of the configuration, of which at most [b] slots have passed
    since its arrival, [e] more counting the one it has used. *)
Definition on_time (conf : list proc_conf) (e b : Z) (c : pcb_t) : Prop :=
  exists i : nat, (i < length conf)%nat /\ pid c = Z.of_nat i + 1 /\ arrival conf i <= b /\ 0 <= pc c <= b + e - arrival conf i.

Lemma on_time_mono conf e b e' b' c : on_time conf e b c -> b <= b' -> b + e <= b' + e' -> on_time conf e' b' c.
Proof. intros (i & Hi & Hp & Ha & Hpc) Hb He. exists i. split_and!; (done || lia). Qed.

(** ** What a step does to the processes and their places *)

(** Of every process [s'] has, [s] has the record, with the same PID and, but
    for [q], program counter. *)
Definition same_progress (q : Z -> Prop) (s s' : os_st) : Prop :=
  forall p c', procs (o_sys s') !! p = Some c' -> exists c, procs (o_sys s) !! p = Some c /\ pid c' = pid c /\
    (pc c' = pc c \/ q p /\ pc c' = u32 (pc c + 1)).

Lemma same_progress_refl q s s' : procs (o_sys s') = procs (o_sys s) -> same_progress q s s'.
Proof. intros H p c Hc. rewrite H in Hc. exists c. auto. Qed.

Lemma run_progress p s r s' :
  run p s = Ok (r, s') -> forall q c', procs s' !! q = Some c' -> exists c, procs s !! q = Some c /\ pid c' = pid c /\
    (pc c' = pc c \/ q = p /\ pc c' = u32 (pc c + 1)).
Proof.
  intros H q c' Hq. unfold run, inc_pc, get_pcb, bind, gets, from_opt, modify, ret in H.
  destruct (procs s !! p) as [c|] eqn:Hc; [|done].
  destruct (code_size (code c) <=? pc c); [injection H as _ <-; exists c'; auto|].
  destruct (arr_get (text (code c)) (pc c)) as [ins|]; [|done]. rewrite Hc in H.
  assert (Hk : preserves kept (execute p ins)) by (unfold execute; destruct (opcode ins); solve_preserves).
  pose proof (kp_procs _ _ (Hk _ _ _ H) q) as Hp. rewrite Hq in Hp. simpl in Hp. rewrite lookup_insert in Hp.
  case_decide as Hd.
  - subst q. exists c. split; [done|]. injection Hp as Hpid _ _ Hpc _ _ _ _. rewrite Hpid, Hpc. simpl. auto.
  - destruct (procs s !! q) as [d|]; [|done]. exists d. split; [done|]. injection Hp as Hpid _ _ Hpc _ _ _ _. auto.
Qed.

Lemma get_places s p x :
  sched_wf (o_sched s) -> get_proc (o_sched s) = Ok (p, x) -> queued (set_sched x s) ++ taken p ⊆ queued s.
Proof.
  intros Hwf H. destruct (get_proc_places _ _ _ Hwf H) as [_ Hq].
  change (waiting_procs x) with (queued (set_sched x s)) in Hq. change (waiting_procs (o_sched s)) with (queued s) in Hq.
  unfold taken. destruct Hq as [[-> Hq]|[Hp Hq]]; [by rewrite Hq, app_nil_r|].
  rewrite (proj2 (Z.eqb_neq p _)), Hq by done. cbn iota. intros y. rewrite elem_of_app, !elem_of_cons, elem_of_nil. tauto.
Qed.

Lemma holds_taken at' p left : cpu_holds (mk_cpu at' p left) ⊆ taken p.
Proof. unfold cpu_holds, taken. simpl. destruct at'; try done; apply list_subseteq_nil. Qed.

Lemma holds_taken_run at' p left : at' <> C_get -> at' <> C_stopped -> cpu_holds (mk_cpu at' p left) = taken p.
Proof. by destruct at'. Qed.

(** The places and processes after a step of a CPU. *)
Definition cpu_effect (c : cpu) (s : os_st) (c' : cpu) (s' : os_st) : Prop :=
  queued s' ++ cpu_holds c' ⊆ queued s ++ cpu_holds c /\ o_pid s' = o_pid s /\
  same_progress (fun p => c_at c = C_run /\ p = c_proc c) s s'.

(** [get_proc] after a step that leaves the scheduler. *)
Lemma get_effect c s s1 at' p x left :
  sched_wf (o_sched s) -> o_sched s1 = o_sched s -> o_pid s1 = o_pid s -> get_proc (o_sched s1) = Ok (p, x) ->
  same_progress (fun p => c_at c = C_run /\ p = c_proc c) s s1 ->
  cpu_effect c s (mk_cpu at' p left) (set_sched x s1).
Proof.
  intros Hwf Hs Hpid H Hpr. split; [|by split]. assert (Hq : queued s1 = queued s) by (unfold queued; by rewrite Hs).
  pose proof (get_places s1 p x) as Hg. rewrite Hs, <- Hq in *. specialize (Hg Hwf H).
  intros y [Hy|Hy]%elem_of_app; apply elem_of_app; left; apply Hg, elem_of_app; [by left|right]. by eapply holds_taken.
Qed.

Lemma cpu_step_effect ts c s c' s' :
  sched_wf (o_sched s) -> cpu_step ts c s = Ok (c', s') -> cpu_effect c s c' s'.
Proof.
  intros Hwf H. pose proof H as H0. destruct c as [at0 p left]. unfold cpu_step in H. cbn [c_at c_proc time_left] in H.
  assert (Hsame : forall at', at0 <> C_get -> at0 <> C_stopped -> queued s ++ cpu_holds (mk_cpu at' p left) ⊆ queued s ++ cpu_holds (mk_cpu at0 p left)).
  { intros at' H1 H2 y. rewrite !elem_of_app. intros [Hy|Hy]; [by left|right]. rewrite holds_taken_run by done. by eapply holds_taken. }
  destruct at0; [| | | | |done].
  - destruct (Z.eqb_spec p NULL) as [->|Hp]; cbn iota in H.
    + ok_step H. injection H as <- <-. apply get_effect; try done. by apply same_progress_refl.
    + ok_step H. unfold get_pcb, bind, gets, from_opt in Hop. destruct (procs (o_sys s) !! p) as [pcb|] eqn:Hpcb; [|done].
      injection Hop as <- <-. destruct (pc pcb =? code_size (code pcb)); [|destruct (left =? 0)].
      * ok_step H. injection Hop as <- <-. ok_step H. injection H as <- <-. apply get_effect; try done.
        intros q d Hq. simpl in Hq. apply lookup_delete_Some in Hq as [_ Hq]. exists d. auto.
      * ok_step H. injection H as <- <-. destruct (put_proc_places _ _ _ _ _ Hwf Hp Hop) as [_ Hq].
        split; [|split; [done|by apply same_progress_refl]]. change (waiting_procs x) with (queued (set_sched x s)) in Hq.
        change (waiting_procs (o_sched s)) with (queued s) in Hq. rewrite (holds_taken_run C_top) by done. unfold taken.
        rewrite (proj2 (Z.eqb_neq p _)) by done. cbn iota. change (cpu_holds (mk_cpu C_get p left)) with (@nil Z).
        rewrite app_nil_r. intros y. rewrite elem_of_app, list_elem_of_singleton. destruct Hq as [->| ->]; [by left|].
        rewrite elem_of_cons. tauto.
      * injection H as <- <-. split; [by apply Hsame|split; [done|by apply same_progress_refl]].
  - ok_step H. injection H as <- <-. apply get_effect; try done. by apply same_progress_refl.
  - ok_step H. destruct (Z.eqb_spec p NULL) as [->|Hp]; injection H as <- <-.
    + split; [by apply (Hsame (if o_done s then C_stopped else C_slot))|split; [done|by apply same_progress_refl]].
    + split; [by apply (Hsame C_run)|split; [done|by apply same_progress_refl]].
  - ok_step H. ok_step H. injection H as <- <-. unfold int_arith in Hop0. destruct (_ && _) in Hop0; [|done].
    injection Hop0 as <- <-. split; [by apply (Hsame C_slot)|split; [done|]]. intros q d Hq. simpl in Hq.
    destruct (run_progress _ _ _ _ Hop q d Hq) as (e & He & Hpid & Hpc). exists e. split_and!; [done|done|]. simpl. tauto.
  - injection H as <- <-. split; [by apply Hsame|split; [done|by apply same_progress_refl]].
Qed.

(** ** What a step of the loader does to the processes *)

(** PIDs and program counters stay. *)
Definition same_pcs (s s' : sys) : Prop :=
  forall p, (fun c => (pid c, pc c)) <$> (procs s' !! p) = (fun c => (pid c, pc c)) <$> (procs s !! p).

#[export] Instance same_pcs_preorder : PreOrder same_pcs.
Proof. split; [by intros s p|]. intros s1 s2 s3 H1 H2 p. by rewrite H2, H1. Qed.

Lemma kept_pcs s s' : kept s s' -> same_pcs s s'.
Proof.
  intros H p. pose proof (kp_procs _ _ H p) as Hp. destruct (procs s' !! p), (procs s !! p); simpl in *; try done.
  by injection Hp as -> _ _ -> _ _ _ _.
Qed.

Lemma pcs_kept {A} (m : M sys A) : preserves kept m -> preserves same_pcs m.
Proof. intros H s a s' Hm. apply kept_pcs. by eapply H. Qed.
Lemma pcs_modify f : (forall s, procs (f s) = procs s) -> preserves same_pcs (modify f).
Proof. intros H. apply preserves_modify. intros s p. by rewrite H. Qed.
Lemma pcs_set_mm p a : preserves same_pcs (upd_pcb p (set_mm a)).
Proof.
  intros s r s' H q. unfold upd_pcb, get_pcb, bind, gets, from_opt, modify in H.
  destruct (procs s !! p) as [c|] eqn:Hc; [|done]. injection H as _ <-. simpl. rewrite lookup_insert.
  case_decide; [subst; by rewrite Hc|done].
Qed.
Lemma pcs_init_mm p c : preserves same_pcs (init_mm p c).
Proof. apply pcs_kept, kept_init_mm. Qed.
Lemma pcs_new_mm a : preserves same_pcs (new_mm a).
Proof. apply pcs_kept. unfold new_mm. solve_preserves. Qed.
Lemma pcs_get_pcb p : preserves same_pcs (get_pcb p).
Proof. apply pcs_kept. auto with preserves. Qed.
#[local] Hint Resolve pcs_init_mm pcs_new_mm pcs_get_pcb pcs_set_mm : preserves.

Lemma pcs_ld_setup p ka ma mr ms : preserves same_pcs (ld_setup p ka ma mr ms).
Proof. unfold ld_setup, ld_krnl_mm. solve_preserves. all: by apply pcs_modify. Qed.

Lemma same_pcs_progress q s s' : same_pcs (o_sys s) (o_sys s') -> same_progress q s s'.
Proof.
  intros H p c' Hc. specialize (H p). rewrite Hc in H. destruct (procs (o_sys s) !! p) as [c|]; [|done].
  injection H as H1 H2. exists c. rewrite H1, H2. auto.
Qed.

(** ** The invariant *)

Definition slack (c : cpu) : Z := match c_at c with C_slot => 1 | _ => 0 end.

(** The loader in its turn for process [i], [n] the next PID. *)
Definition fresh_pcb (l : ld) (o : os_st) : Prop :=
  forall c, procs (o_sys o) !! l_proc l = Some c -> pid c = Z.of_nat (l_i l) + 1 /\ pc c = 0.
Definition ld_time (conf : list proc_conf) (l : ld) (o : os_st) (d : timer_id_t) : Prop :=
  let i := l_i l in
  match l_at l with
  | L_load => o_pid o = Z.of_nat i + 1 /\ (i <= length conf)%nat /\ t_slots d = opens conf i
  | L_wait =>
      o_pid o = Z.of_nat i + 2 /\ (i < length conf)%nat /\ fresh_pcb l o /\ opens conf i <= t_slots d /\
      t_slots d + (match t_thread d with InNextSlot => 1 | _ => 0 end) <= arrival conf i
  | L_setup | L_add => o_pid o = Z.of_nat i + 2 /\ (i < length conf)%nat /\ fresh_pcb l o /\ t_slots d = arrival conf i
  | L_slot => o_pid o = Z.of_nat i + 2 /\ (i < length conf)%nat /\ t_slots d = arrival conf i
  | L_done | L_failed => True
  end.

Record punctual (conf : list proc_conf) (k : Z) (s : timed) : Prop := {
  pu_queued p c :
    p ∈ queued (m_os (tm_mach s)) -> procs (o_sys (m_os (tm_mach s))) !! p = Some c -> on_time conf 0 k c;
  pu_cpu i x d p c :
    m_cpus (tm_mach s) !! i = Some x -> dev_list (tm_timer s) !! cpu_dev (length (m_cpus (tm_mach s))) i = Some d ->
    p ∈ cpu_holds x -> procs (o_sys (m_os (tm_mach s))) !! p = Some c -> on_time conf (slack x) (t_slots d) c;
  pu_ld d : dev_list (tm_timer s) !! ld_dev = Some d -> ld_time conf (m_ld (tm_mach s)) (m_os (tm_mach s)) d;
}.

(** Processes that keep PID and program counter stay on time. *)
Lemma on_time_same conf e b c c' : pid c' = pid c -> pc c' = pc c -> on_time conf e b c -> on_time conf e b c'.
Proof. intros Hp Hc (i & H). exists i. by rewrite Hp, Hc. Qed.

Lemma ld_time_same conf l o o' d d' :
  o_pid o' = o_pid o -> t_slots d' = t_slots d -> t_thread d' = t_thread d ->
  (forall p c', p ∈ ld_holds l -> procs (o_sys o') !! p = Some c' ->
     exists c, procs (o_sys o) !! p = Some c /\ pid c' = pid c /\ pc c' = pc c) ->
  ld_time conf l o d -> ld_time conf l o' d'.
Proof.
  intros Hpid Hsl Hth Hpr. unfold ld_time. rewrite Hpid, Hsl, Hth.
  assert (Hf : l_at l = L_wait \/ l_at l = L_setup \/ l_at l = L_add -> fresh_pcb l o -> fresh_pcb l o').
  { intros Hat Hf c' Hc'. destruct (Hpr (l_proc l) c') as (c & Hc & -> & ->); [|done|by apply Hf].
    unfold ld_holds. destruct Hat as [->|[->| ->]]; apply list_elem_of_here. }
  destruct (l_at l); naive_solver.
Qed.

(** Steps of the timer and of [main]. *)
Lemma punctual_timer conf k k' s t' :
  punctual conf k s -> k <= k' ->
  (forall j d', dev_list t' !! j = Some d' -> exists d, dev_list (tm_timer s) !! j = Some d /\ t_thread d' = t_thread d /\ t_slots d' = t_slots d) ->
  punctual conf k' (mk_timed (tm_mach s) t').
Proof.
  intros [Hq Hc Hl] Hk Hth. split; cbn [tm_mach tm_timer].
  - intros p c Hp Hpc. eapply on_time_mono; [by eapply Hq|lia..].
  - intros i x d' p c Hi Hd Hp Hpc. destruct (Hth _ _ Hd) as (d & Hd0 & _ & ->). by eapply Hc.
  - intros d' Hd. destruct (Hth _ _ Hd) as (d & Hd0 & Ht & Hsl). by eapply ld_time_same; [..|by apply Hl]; eauto.
Qed.

(** A step of a CPU. *)
Lemma punctual_cpu conf k s i c d c' d' o' :
  let m := tm_mach s in let j := cpu_dev (length (m_cpus m)) i in
  sync s -> punctual conf k s -> m_cpus m !! i = Some c -> dev_list (tm_timer s) !! j = Some d -> o_pid o' = o_pid (m_os m) ->
  (forall p x, p ∈ queued o' -> procs (o_sys o') !! p = Some x -> on_time conf 0 k x) ->
  (forall p x, p ∈ cpu_holds c' -> procs (o_sys o') !! p = Some x -> on_time conf (slack c') (t_slots d') x) ->
  (forall p x', (p ∈ ld_holds (m_ld m)) \/ (exists i' y, i' <> i /\ m_cpus m !! i' = Some y /\ p ∈ cpu_holds y) ->
     procs (o_sys o') !! p = Some x' -> exists x, procs (o_sys (m_os m)) !! p = Some x /\ pid x' = pid x /\ pc x' = pc x) ->
  punctual conf k (mk_timed (mk_mach o' (<[i := c']> (m_cpus m)) (m_ld m)) (set_dev j d' (tm_timer s))).
Proof.
  intros m j Hs [Hq Hc Hl] Hi Hd Hpid Hq' Hc' Hoth. pose proof (sync_devices _ _ _ Hs Hd) as Hlen. fold m in Hlen.
  pose proof (lookup_lt_Some _ _ _ Hi) as Hlt. destruct (cpu_dev_lt _ i Hlt) as [Hj _]. fold j in Hj.
  split; cbn [tm_mach tm_timer m_os m_cpus m_ld]; [done| |].
  - intros i' x e p y Hx He Hp Hy. rewrite length_insert in He. simpl in He. destruct (decide (i' = i)) as [->|Hne].
    + rewrite list_lookup_insert_eq in Hx by done. fold j in He. rewrite list_lookup_insert_eq in He by lia.
      injection Hx as <-. injection He as <-. by apply (Hc' p).
    + rewrite list_lookup_insert_ne in Hx by done. pose proof (lookup_lt_Some _ _ _ Hx) as Hlx.
      rewrite list_lookup_insert_ne in He by (intros Heq; apply cpu_dev_inj in Heq; [by subst|done|done]).
      destruct (Hoth p y) as (y0 & Hy0 & H1 & H2); [right; by exists i', x|done|]. eapply on_time_same; [done|done|].
      by apply (Hc i' x e p).
  - intros e He. simpl in He. rewrite list_lookup_insert_ne in He by (unfold ld_dev; lia).
    eapply ld_time_same; [done|done|done| |by apply Hl]. intros p x' Hp. apply Hoth. by left.
Qed.

(** ** The steps *)

Section Steps.
Context (time_slot : Z) (conf : list proc_conf) (mram mswp : Z).
Hypothesis Hcount : Z.of_nat (length conf) < 2 ^ 31.

(** The places of a process, of one thread apart from the rest. *)
Lemma holders_apart m i c p :
  os_inv m -> m_cpus m !! i = Some c -> p ∈ cpu_holds c ->
  (p ∉ queued (m_os m)) /\ (p ∉ ld_holds (m_ld m)) /\ forall i' y, i' <> i -> m_cpus m !! i' = Some y -> p ∉ cpu_holds y.
Proof.
  intros [_ Hn _] Hi Hp. apply NoDup_app in Hn as (_ & Hd & Hn). pose proof (cpu_holds_in m i c p Hi Hp) as Hin.
  unfold holders in *. apply NoDup_app in Hn as (Hn & Hdl & _). split; [|split].
  - intros Hq. apply (Hd p Hq). apply elem_of_app. by left.
  - by apply Hdl.
  - intros i' y Hne Hy Hpy. apply Hne. apply (join_disjoint (cpu_holds <$> m_cpus m) i' i (cpu_holds y) (cpu_holds c) p); try done;
      by rewrite list_lookup_fmap, ?Hi, ?Hy.
Qed.

Lemma cpu_holds_run p left : p <> NULL -> cpu_holds (mk_cpu C_run p left) = [p].
Proof. intros Hp. unfold cpu_holds. simpl. by rewrite (proj2 (Z.eqb_neq p _)). Qed.

(** A CPU at work: its device stands at slot [k]. *)
Lemma punctual_cpu_work k s i c d c' o' :
  let m := tm_mach s in
  os_inv m -> sync s -> punctual conf k s -> 0 <= k -> m_cpus m !! i = Some c ->
  dev_list (tm_timer s) !! cpu_dev (length (m_cpus m)) i = Some d -> t_slots d = k -> c_at c <> C_slot ->
  cpu_step time_slot c (m_os m) = Ok (c', o') ->
  punctual conf k (mk_timed (mk_mach o' (<[i := c']> (m_cpus m)) (m_ld m)) (set_dev (cpu_dev (length (m_cpus m)) i) d (tm_timer s))).
Proof.
  intros m Hinv Hs Hp Hk Hi Hd Hsl Hat Hst. destruct (cpu_step_effect _ _ _ _ _ (oi_sched _ Hinv) Hst) as (Hsub & Hpid & Hpr).
  pose proof Hp as [Hq Hc _].
  assert (Hbefore : forall p x, p ∈ queued (m_os m) ++ cpu_holds c -> procs (o_sys (m_os m)) !! p = Some x -> on_time conf 0 k x).
  { intros p x [Hin|Hin]%elem_of_app Hx; [by apply (Hq p)|]. specialize (Hc i c d p x Hi Hd Hin Hx).
    rewrite Hsl in Hc. unfold slack in Hc. by destruct (c_at c). }
  (* what [run] did, if this was [run] *)
  assert (Hafter : forall p x', p ∈ queued o' ++ cpu_holds c' -> procs (o_sys o') !! p = Some x' ->
            on_time conf 0 k x' \/ c_at c = C_run /\ p = c_proc c /\ on_time conf 1 k x').
  { intros p x' Hin Hx'. apply Hsub in Hin. destruct (Hpr p x' Hx') as (x & Hx & Hpi & Hpc).
    specialize (Hbefore p x Hin Hx). destruct Hpc as [Hpc|[[Hrun Heq] Hpc]]; [left; by eapply on_time_same|right].
    split_and!; [done|done|]. destruct Hbefore as (n & Hn & Hpn & Ha & Hb). exists n. rewrite Hpi, Hpc. split_and!; try done.
    - pose proof (u32_range (pc x + 1)). lia.
    - unfold u32, wrapU. pose proof (Z.mod_le (pc x + 1) (2 ^ 32)). lia. }
  assert (Hrun_slot : c_at c = C_run -> queued o' = queued (m_os m) /\ c_at c' = C_slot).
  { intros Hr. unfold cpu_step in Hst. rewrite Hr in Hst. ok_step Hst. ok_step Hst. injection Hst as <- <-.
    unfold int_arith in Hop0. destruct (_ && _) in Hop0; [|done]. by injection Hop0 as _ <-. }
  assert (Hrun_holds : forall p, c_at c = C_run -> p = c_proc c -> p <> NULL -> p ∈ cpu_holds c).
  { intros p Hr -> Hn. destruct c as [a p l]. simpl in *. subst a. rewrite cpu_holds_run by done. apply list_elem_of_here. }
  assert (Hlive : forall p, p ∈ queued (m_os m) ++ holders m -> p <> NULL) by (intros p Hin; by apply (oi_live _ Hinv)).
  eapply punctual_cpu; [done|done|done|done|done|..].
  - intros p x Hin Hx. destruct (Hafter p x) as [H|(Hr & Heq & _)]; [apply elem_of_app; by left|done|done|]. exfalso.
    destruct (Hrun_slot Hr) as [Hqo _]. rewrite Hqo in Hin.
    destruct (holders_apart m i c p Hinv Hi) as [Hno _]; [|done].
    apply Hrun_holds; [done|done|]. apply Hlive, elem_of_app. by left.
  - intros p x Hin Hx. rewrite Hsl. destruct (Hafter p x) as [H|(Hr & _ & H)]; [apply elem_of_app; by right|done| |].
    + eapply on_time_mono; [done|lia|]. unfold slack. destruct (c_at c'); lia.
    + destruct (Hrun_slot Hr) as [_ Hc']. unfold slack. by rewrite Hc'.
  - intros p x' Hoth Hx'. destruct (Hpr p x' Hx') as (x & Hx & Hpi & Hpc). exists x. split_and!; [done|done|].
    destruct Hpc as [Hpc|[[Hr Heq] _]]; [done|]. exfalso.
    assert (Hin : p ∈ holders m).
    { unfold holders. apply elem_of_app. destruct Hoth as [Ho|(i' & y & _ & Hy & Ho)]; [by right|left; by eapply cpu_holds_in]. }
    destruct (holders_apart m i c p Hinv Hi) as (_ & Hnl & Hnc).
    { apply Hrun_holds; [done|done|]. apply Hlive, elem_of_app. by right. }
    destruct Hoth as [Ho|(i' & y & Hne & Hy & Ho)]; [done|by apply (Hnc i' y)].
Qed.

(** A step of a CPU and its device. *)
Lemma punctual_cpu_step k s i s' :
  tinv k (tm_timer s) -> os_inv (tm_mach s) -> sync s -> punctual conf k s ->
  cpu_turn time_slot conf mram mswp i s = Some s' -> punctual conf k s'.
Proof.
  intros Hti Hinv Hs Hp H. apply cpu_turn_moves in H as (c & d & c' & d' & os' & Hi & Hd & Hmv & ->).
  pose proof Hp as [Hq Hc _].
  assert (Hsame : forall c' d', (forall p x, p ∈ cpu_holds c' -> procs (o_sys (m_os (tm_mach s))) !! p = Some x ->
            on_time conf (slack c') (t_slots d') x) ->
            punctual conf k (mk_timed (mk_mach (m_os (tm_mach s)) (<[i := c']> (m_cpus (tm_mach s))) (m_ld (tm_mach s)))
              (set_dev (cpu_dev (length (m_cpus (tm_mach s))) i) d' (tm_timer s)))).
  { intros x e Hx. eapply punctual_cpu; try done. intros p y' _ Hy'. by exists y'. }
  destruct Hmv as [d' Hat Ha|d' c' Hat Ha _ ->|d' Hat Ha|c' o' Hat Hth Hst].
  1,3: apply Hsame; intros p x Hin Hx; specialize (Hc i c d p x Hi Hd Hin Hx);
    unfold next_slot_done, detach_event in Ha; destruct (t_thread d); try done; by injection Ha as <-.
  - apply Hsame. intros p x Hin Hx. unfold next_slot_wait in Ha. destruct (t_thread d); try done. destruct (t_done d); [done|].
    injection Ha as <-. assert (Hin' : p ∈ cpu_holds c).
    { destruct c as [a q l]. simpl in Hat. by subst a. }
    specialize (Hc i c d p x Hi Hd Hin' Hx). eapply on_time_mono; [done|simpl; lia|]. unfold slack. rewrite Hat. simpl. lia.
  - pose proof (ti_dev _ _ Hti _ _ Hd) as Hok. unfold dev_ok in Hok. rewrite Hth in Hok. destruct Hok as (_ & _ & Hsl & _).
    eapply punctual_cpu_work; try done. apply (ti_k _ _ Hti).
Qed.

(** The loader and its device move. *)
Lemma punctual_ld k s l' d d' o' :
  let m := tm_mach s in
  os_inv m -> sync s -> punctual conf k s -> dev_list (tm_timer s) !! ld_dev = Some d ->
  (forall p x, p ∈ queued o' -> procs (o_sys o') !! p = Some x ->
     on_time conf 0 k x \/ p ∈ queued (m_os m) /\ exists x0, procs (o_sys (m_os m)) !! p = Some x0 /\ pid x = pid x0 /\ pc x = pc x0) ->
  (forall p x, p ∈ mjoin (cpu_holds <$> m_cpus m) -> procs (o_sys o') !! p = Some x ->
     exists x0, procs (o_sys (m_os m)) !! p = Some x0 /\ pid x = pid x0 /\ pc x = pc x0) ->
  ld_time conf l' o' d' ->
  punctual conf k (mk_timed (mk_mach o' (m_cpus m) l') (set_dev ld_dev d' (tm_timer s))).
Proof.
  intros m Hinv Hs [Hq Hc _] Hd Hq' Hc' Hl. pose proof (sync_devices _ _ _ Hs Hd) as Hlen.
  split; cbn [tm_mach tm_timer m_os m_cpus m_ld].
  - intros p x Hin Hx. destruct (Hq' p x Hin Hx) as [H|(Hin0 & x0 & Hx0 & H1 & H2)]; [done|].
    eapply on_time_same; [done|done|by apply (Hq p)].
  - intros i y e p x Hy He Hin Hx. pose proof (lookup_lt_Some _ _ _ Hy) as Hlt. destruct (cpu_dev_lt _ i Hlt) as [Hj _].
    simpl in He. rewrite list_lookup_insert_ne in He by (unfold ld_dev; lia).
    destruct (Hc' p x) as (x0 & Hx0 & H1 & H2); [by eapply cpu_holds_in|done|]. eapply on_time_same; [done|done|].
    by apply (Hc i y e p).
  - intros e He. simpl in He. rewrite list_lookup_insert_eq in He by (unfold ld_dev; lia). by injection He as <-.
Qed.

(** The loader at work: its device stands at slot [k], which is the time it
    reads. *)
Lemma punctual_ld_work k s x d l' o' :
  let m := tm_mach s in
  os_inv m -> sync s -> punctual conf k s -> dev_list (tm_timer s) !! ld_dev = Some d -> t_thread d = Working -> t_slots d = k ->
  x_now x = k -> ld_next conf k (m_ld m) = Works -> fresh x (m_os m) ->
  ld_step conf mram mswp x (m_ld m) (m_os m) = Ok (l', o') ->
  punctual conf k (mk_timed (mk_mach o' (m_cpus m) l') (set_dev ld_dev d (tm_timer s))).
Proof.
  intros m Hinv Hs Hp Hd Hth Hsl Hnow Hn Hf Hst. pose proof (pu_ld _ _ _ Hp d Hd) as Hl. fold m in Hl.
  (* steps that keep the queues and what counts of the processes *)
  assert (Hkeep : queued o' = queued (m_os m) -> (forall p y, p ∈ queued (m_os m) ++ holders m -> procs (o_sys o') !! p = Some y ->
            exists y0, procs (o_sys (m_os m)) !! p = Some y0 /\ pid y = pid y0 /\ pc y = pc y0) -> ld_time conf l' o' d ->
            punctual conf k (mk_timed (mk_mach o' (m_cpus m) l') (set_dev ld_dev d (tm_timer s)))).
  { intros Hq Hpr Hl'. eapply punctual_ld; try done; fold m.
    - intros p y Hin Hy. right. rewrite Hq in Hin. split; [done|]. apply Hpr; [apply elem_of_app; by left|done].
    - intros p y Hin Hy. apply Hpr; [|done]. apply elem_of_app. right. apply elem_of_app. by left. }
  destruct (m_ld m) as [at0 i p] eqn:Hml. unfold ld_step, ld_next, ld_time, fresh_pcb in Hst, Hn, Hl. cbn [l_at l_i l_proc] in *.
  destruct at0; try done; cbn iota in Hl.
  - destruct Hl as (Hpid & Hi & Ht). destruct (conf !! i) as [pr|] eqn:Hpr; ok_step Hst; injection Hst as <- <-.
    + apply ld_load_new in Hop as (Hsch & c & Hc & Hcp & Hc0 & Hpid'). apply Hkeep.
      * unfold queued. by rewrite Hsch.
      * intros q y Hin Hy. destruct (oi_live _ Hinv q Hin) as [_ [y0 Hy0]]. rewrite Hc, lookup_insert_ne in Hy; [by exists y|].
        intros <-. destruct Hf as [[_ Hf] _ _ _ _]. congruence.
      * apply lookup_lt_Some in Hpr. unfold ld_time, fresh_pcb. cbn [l_at l_i l_proc]. rewrite Hth, Hpid', Hpid, u32_small by lia.
        split_and!; [lia|done| |lia|unfold arrival; lia].
        intros c1 Hc1. rewrite Hc, lookup_insert_eq in Hc1. injection Hc1 as <-. lia.
    + injection Hop as _ <-. apply Hkeep; [done| |done]. intros q y _ Hy. by exists y.
  - destruct Hl as (Hpid & Hi & Hfp & Ho & Ha). ok_step Hst. injection Hst as <- <-. assert (s1 = m_os m /\ conf !! i = Some a) as [-> Hpr].
    { unfold from_opt in Hop. destruct (conf !! i); [by injection Hop as -> ->|done]. }
    rewrite Hpr in Hn. destruct (Z.ltb_spec k (start_time a)) as [|Hge]; [done|].
    rewrite Hnow, (proj2 (Z.ltb_ge k _) Hge) in Hkeep |- *.
    apply Hkeep; [done|intros q y _ Hy; by exists y|]. unfold ld_time, fresh_pcb. cbn [l_at l_i l_proc].
    split_and!; [done|done|done|]. rewrite Hth in Ha. unfold arrival, start_of in *. rewrite Hpr in *. simpl in *. lia.
  - destruct Hl as (Hpid & Hi & Hfp & Ha). ok_step Hst. injection Hst as <- <-. apply pcs_ld_setup in Hop.
    pose proof (same_pcs_progress (fun _ => False) (m_os m) (set_sys x0 (m_os m)) Hop) as Hpr. apply Hkeep; [done| |].
    + intros q y _ Hy. destruct (Hpr q y Hy) as (y0 & Hy0 & H1 & [H2|[[] _]]). by exists y0.
    + unfold ld_time, fresh_pcb. cbn [l_at l_i l_proc]. destruct a; [|done]. split_and!; [done|done| |done].
      intros c Hc. destruct (Hpr p c Hc) as (c0 & Hc0 & -> & [-> |[[] _]]). by apply Hfp.
  - destruct Hl as (Hpid & Hi & Hfp & Ha). ok_step Hst. ok_step Hst. injection Hst as <- <-.
    unfold get_pcb, bind, gets, from_opt in Hop. destruct (procs (o_sys (m_os m)) !! p) as [c|] eqn:Hc; [|done]. injection Hop as <- <-.
    assert (Hp0 : p <> NULL).
    { apply (oi_live _ Hinv). unfold holders. rewrite !elem_of_app, Hml. right; right. apply list_elem_of_here. }
    destruct (add_proc_places _ _ _ _ _ (oi_sched _ Hinv) Hp0 Hop0) as [_ Hq].
    change (waiting_procs x1) with (queued (set_sched x1 (m_os m))) in Hq. change (waiting_procs (o_sched (m_os m))) with (queued (m_os m)) in Hq.
    eapply punctual_ld; try done; fold m.
    + intros q y Hin Hy. simpl in Hy. destruct (decide (q = p)) as [->|Hne].
      * left. rewrite Hc in Hy. injection Hy as <-. destruct (Hfp c eq_refl) as [Hcp Hc0]. exists i. rewrite Hcp, Hc0. split_and!; lia || done.
      * right. split; [|by exists y]. destruct Hq as [Hq|Hq]; rewrite Hq in Hin; [done|]. by apply elem_of_cons in Hin as [->|Hin].
    + intros q y _ Hy. by exists y.
Qed.

(** A step of the loader and its device, the clock not wrapped around. *)
Lemma punctual_ld_step k s x s' :
  k < 2 ^ 64 -> tinv k (tm_timer s) -> os_inv (tm_mach s) -> sync s -> punctual conf k s ->
  ld_turn time_slot conf mram mswp x s = Some s' -> punctual conf k s'.
Proof.
  intros Hk Hti Hinv Hs Hp H. apply ld_turn_moves in H as (d & l' & d' & os' & Hd & Hmv & ->).
  pose proof (pu_ld _ _ _ Hp d Hd) as Hl. pose proof (ti_dev _ _ Hti _ _ Hd) as Hok. unfold dev_ok in Hok.
  pose proof (ti_k _ _ Hti) as Hk0.
  assert (Hnow : current_time (tm_timer s) = k) by (unfold current_time; rewrite (ti_time _ _ Hti); apply u64_small; lia).
  rewrite Hnow in Hmv.
  assert (Hsame : forall l e, ld_time conf l (m_os (tm_mach s)) e ->
            punctual conf k (mk_timed (mk_mach (m_os (tm_mach s)) (m_cpus (tm_mach s)) l) (set_dev ld_dev e (tm_timer s)))).
  { intros l e Hle. eapply punctual_ld; try done.
    - intros p y Hin Hy. right. split; [done|]. by exists y.
    - intros p y _ Hy. by exists y. }
  destruct Hmv as [d' Hat Ha|d' Hat Ha|d' l' Hat Ha _ _ ->|d' Hat Ha|d' Hat Ha|l' o' Hat Hth Hx Hf Hst].
  4,5: apply Hsame; unfold ld_time; by rewrite Hat.
  - apply Hsame. unfold next_slot_done in Ha. destruct (t_thread d); try done. injection Ha as <-.
    destruct Hok as (_ & _ & Hsl & _). unfold ld_next, ld_time in *. destruct (l_at (m_ld (tm_mach s))); try done. simpl.
    destruct (conf !! l_i (m_ld (tm_mach s))) as [pr|] eqn:Hpr; [|done]. destruct (Z.ltb_spec k (start_time pr)); [|done].
    destruct Hl as (? & ? & ? & ? & ?). split_and!; try done. unfold arrival, start_of. rewrite Hpr. simpl. lia.
  - apply Hsame. pose proof (sy_ld _ Hs d Hd) as Hsy. unfold ld_sync in Hsy. unfold next_slot_wait in Ha.
    destruct (t_thread d) eqn:Hth; try done. destruct (t_done d); [done|]. injection Ha as <-. destruct Hsy as [Hsy|Hsy]; [done|].
    unfold ld_time in *. rewrite Hsy, Hth in *. simpl. destruct Hl as (? & ? & ? & ? & ?). split_and!; try done; lia.
  - apply Hsame. unfold next_slot_wait in Ha. destruct (t_thread d); try done. destruct (t_done d); [done|]. injection Ha as <-.
    unfold ld_time in Hl |- *. rewrite Hat in Hl. cbn [l_at l_i t_slots opens]. destruct Hl as (Hpid & Hi & Ht).
    split_and!; [lia|lia|]. unfold arrival in Ht. by rewrite Ht.
  - eapply punctual_ld_work; try done. rewrite Hth in Hok. by destruct Hok as (_ & _ & Hsl & _).
Qed.

(** What holds after [n] steps: fewer ticks than steps have passed. *)
Record timely (n : nat) (s : timed) : Prop := {
  tl_sync : sync s;
  tl_os : os_inv (tm_mach s);
  tl_slot : exists k, k <= Z.of_nat n /\ tinv k (tm_timer s) /\ punctual conf k s;
}.

Lemma timely_boot n dv h : timely 0 (timed_boot n dv h).
Proof.
  split; [apply sync_boot|apply os_inv_boot|]. exists 0. split_and!; [lia|apply tinv_start|].
  assert (Hq : queued (m_os (boot n dv h)) = []) by done. split.
  - intros p c Hp. simpl in Hp. by apply not_elem_of_nil in Hp.
  - intros i x d p c Hx _ Hp. apply lookup_replicate in Hx as [-> _]. by apply not_elem_of_nil in Hp.
  - intros d ->%attached_lookup. split_and!; [done|simpl; lia|done].
Qed.

Lemma timely_step n s s' :
  Z.of_nat n < 2 ^ 64 -> timely n s -> timed_step time_slot conf mram mswp s s' -> timely (S n) s'.
Proof.
  intros Hn [Hs Hinv (k & Hk & Hti & Hp)] Hst. destruct (timed_step_views _ _ _ _ _ _ Hst) as [Hos _].
  split; [by eapply sync_step|by eapply (star_invariant _ os_inv); [intros; by eapply os_inv_step|exact Hinv|exact Hos]|].
  destruct Hst as [s t' H|i s s' H|x s s' H|s t' H Hne].
  - destruct (tinv_timer_routine _ _ _ Hti H) as (k' & Hk' & Hti'). exists k'. split_and!; [lia|done|].
    eapply punctual_timer; [done|lia|]. intros j. by apply timer_routine_threads.
  - exists k. split_and!; [lia| |by eapply punctual_cpu_step].
    apply cpu_turn_moves in H as (c & d & c' & d' & os' & _ & Hd & Hmv & ->).
    destruct Hmv as [d' Hat Ha|d' c' Hat Ha _ _|d' Hat Ha|c' os' Hat Hth _]; simpl; [..|by rewrite set_dev_id];
      (eapply tinv_device_step; [|exact Hti|by eapply device_acts]; auto).
  - exists k. split_and!; [lia| |by eapply punctual_ld_step; [lia|..]].
    apply ld_turn_moves in H as (d & l' & d' & os' & Hd & Hmv & ->).
    destruct Hmv as [d' Hat Ha|d' Hat Ha|d' l' Hat Ha _ _ _|d' Hat Ha|d' Hat Ha|l' os' Hat Hth _ _ _]; simpl; [..|by rewrite set_dev_id];
      (eapply tinv_device_step; [|exact Hti|by eapply device_acts]; auto).
  - destruct (tinv_step _ _ _ Hti (ts_stop _ _ H)) as (k' & Hk' & Hti'). exists k'. split_and!; [lia|done|].
    eapply punctual_timer; [done|lia|]. intros j d' Hd'. inversion H; subst; simpl in Hd'; [by exists d'|done].
Qed.

Lemma timely_run n m dv h s :
  nsteps (timed_step time_slot conf mram mswp) n (timed_boot m dv h) s -> Z.of_nat n <= 2 ^ 64 -> timely n s.
Proof.
  revert s. induction n as [|n IH]; intros s Hst Hn; [inversion Hst; subst; apply timely_boot|].
  apply nsteps_inv_r in Hst as (s1 & Hst & H1). eapply timely_step; [lia|apply IH; [done|lia]|done].
Qed.

(** ** Properties *)

(** C2 (functional): the schedule of the configuration is kept.  On its
    timer, for any programs, any number of CPUs and any interleaving, in every
    run of fewer than 2^64 steps - before the 64-bit clock wraps around:
    while the loader sets process [i] up and adds it, the clock stands exactly
    at [arrival i], the first slot not before the start times of the
    processes up to [i] with one slot for each; a process that waits or is
    run by a CPU is one of the configuration, has arrived, and has executed
    at most one instruction per slot since its arrival. *)
Theorem schedule_is_kept n m dv h s :
  nsteps (timed_step time_slot conf mram mswp) n (timed_boot m dv h) s -> Z.of_nat n < 2 ^ 64 ->
  let now := current_time (tm_timer s) in
  (l_at (m_ld (tm_mach s)) = L_setup \/ l_at (m_ld (tm_mach s)) = L_add -> now = arrival conf (l_i (m_ld (tm_mach s)))) /\
  forall p c, (p ∈ queued (m_os (tm_mach s)) \/ exists i x, m_cpus (tm_mach s) !! i = Some x /\ p ∈ cpu_holds x) ->
    procs (o_sys (m_os (tm_mach s))) !! p = Some c ->
    exists i : nat, (i < length conf)%nat /\ pid c = Z.of_nat i + 1 /\ arrival conf i <= now /\
      0 <= pc c <= now - arrival conf i + 1.
Proof.
  intros Hst Hn now. destruct (timely_run _ _ _ _ _ Hst) as [Hs Hinv (k & Hk & Hti & Hp)]; [lia|].
  assert (Hnow : now = k) by (unfold now, current_time; rewrite (ti_time _ _ Hti); apply u64_small; pose proof (ti_k _ _ Hti); lia).
  rewrite Hnow. split.
  - intros Hat. destruct (sy_len _ Hs) as [Hlen|(_ & _ & [Hl|Hl])]; [|destruct Hat; congruence..].
    destruct (lookup_lt_is_Some_2 (dev_list (tm_timer s)) ld_dev) as [d Hd]; [unfold ld_dev; lia|].
    pose proof (sy_ld _ Hs d Hd) as Hsy. pose proof (ti_dev _ _ Hti _ _ Hd) as Hok. pose proof (pu_ld _ _ _ Hp d Hd) as Hl.
    unfold ld_sync, dev_ok, ld_time in *. destruct (t_thread d); [|destruct Hat as [Hat|Hat]; rewrite Hat in Hsy; naive_solver..].
    destruct Hok as (_ & _ & <- & _). destruct Hat as [Hat|Hat]; rewrite Hat in Hl; apply Hl.
  - intros p c Hin Hc. assert (exists e b, on_time conf e b c /\ b <= k /\ e <= 1) as (e & b & (i & Hi & Hpid & Ha & Hpc) & Hb & He).
    { destruct Hin as [Hin|(i & x & Hx & Hin)]; [exists 0, k; split_and!; [by eapply pu_queued|lia..]|].
      destruct (sy_len _ Hs) as [Hlen|(_ & Hall & _)].
      - pose proof (lookup_lt_Some _ _ _ Hx) as Hlt. destruct (cpu_dev_lt _ _ Hlt) as [Hj _].
        destruct (lookup_lt_is_Some_2 (dev_list (tm_timer s)) (cpu_dev (length (m_cpus (tm_mach s))) i)) as [d Hd]; [lia|].
        exists (slack x), (t_slots d). split_and!; [by eapply pu_cpu| |unfold slack; destruct (c_at x); lia].
        pose proof (ti_dev _ _ Hti _ _ Hd) as Hok. unfold dev_ok in Hok. destruct (t_thread d); [| |tauto|]; [lia| |lia].
        destruct (t_done d); lia.
      - pose proof (Forall_lookup_1 _ _ _ _ Hall Hx) as Hat. unfold cpu_holds in Hin. simpl in Hat. rewrite Hat in Hin.
        by apply not_elem_of_nil in Hin. }
    exists i. split_and!; (done || lia).
Qed.
End Steps.
