(* ===== verification/Lockstep.v ===== *)
(** * The threads keep step with the clock

    On its timer a CPU passes its loop once per time slot, so that it calls
    [run] at most once in each, and no CPU gets ahead of the others. *)

From stdpp Require Import vector.
From S2P Require Import Prelude Queue Sched Pte MemPhy Kernel PageTable Mm64 MmVm Syscall LibMem VMem UserMem Alloc Kmem KmemVm Kept Cpu Program Loader Boot Timer Os Launch Safe Timed OnTime.

(** ** Counting *)

(** CPU [i] stands at a place of its loop. *)
Definition cpu_at (q : cpu_pc -> bool) (i : nat) (s : timed) : bool :=
  match m_cpus (tm_mach s) !! i with Some c => q (c_at c) | None => false end.
Definition is_slot (a : cpu_pc) : bool := match a with C_slot => true | _ => false end.
Definition is_run (a : cpu_pc) : bool := match a with C_run => true | _ => false end.
Definition is_stopped (a : cpu_pc) : bool := match a with C_stopped => true | _ => false end.

(** What the step from [s] to [s'] is for CPU [i]: a pass of its loop ends
    with the arrival at [next_slot]; [run] is called between the places
    before and after the call. *)
Definition passes (i : nat) (s s' : timed) : Z :=
  if negb (cpu_at is_slot i s) && cpu_at is_slot i s' then 1 else 0.
Definition calls (i : nat) (s s' : timed) : Z :=
  if cpu_at is_run i s && negb (cpu_at is_run i s') then 1 else 0.

Section Steps.
Context (time_slot : Z) (conf : list proc_conf) (mram mswp : Z).

(** A run of [n] steps in which CPU [i] has ended [p] passes of its loop and
    called [run] [r] times. *)
Inductive window (i : nat) (s : timed) : nat -> Z -> Z -> timed -> Prop :=
| window_refl : window i s 0 0 0 s
| window_step n p r s1 s2 :
    window i s n p r s1 -> timed_step time_slot conf mram mswp s1 s2 ->
    window i s (S n) (p + passes i s1 s2) (r + calls i s1 s2) s2.

(** ** The invariant *)

(** [p] passes after a state in which the clock was [k0] and the CPU had made
    [f0] passes: as many as its device has seen slots, one more when it is at
    the end of a pass. *)
Record in_step (i : nat) (k0 f0 : Z) (n : nat) (p : Z) (s : timed) : Prop := {
  is_sync : sync s;
  is_slots : exists k c, k0 <= k <= Z.of_nat n /\ tinv k (tm_timer s) /\ m_cpus (tm_mach s) !! i = Some c /\
    if is_stopped (c_at c) then p <= k - k0 + 1
    else exists d, dev_list (tm_timer s) !! cpu_dev (length (m_cpus (tm_mach s))) i = Some d /\ p = t_slots d + slack c - f0;
}.

(** The device of a CPU that runs and the clock. *)
Lemma slots_near k s i c d :
  sync s -> tinv k (tm_timer s) -> m_cpus (tm_mach s) !! i = Some c -> is_stopped (c_at c) = false ->
  dev_list (tm_timer s) !! cpu_dev (length (m_cpus (tm_mach s))) i = Some d -> k <= t_slots d + slack c <= k + 1.
Proof.
  intros Hs Hk Hi Hc Hd. pose proof (sy_cpu _ Hs _ _ _ Hi Hd) as Hsy. pose proof (ti_dev _ _ Hk _ _ Hd) as Hok.
  unfold cpu_sync, dev_ok, slack in *. destruct (t_thread d).
  - destruct Hok as (_ & _ & -> & _). destruct (c_at c); lia.
  - rewrite Hsy. destruct Hok as [_ Hok]. destruct (t_done d); lia.
  - by rewrite Hsy in Hc.
  - done.
Qed.

(** A CPU that does not move in a step. *)
Lemma still_count i s s' c :
  m_cpus (tm_mach s) !! i = Some c -> m_cpus (tm_mach s') !! i = Some c -> passes i s s' = 0 /\ calls i s s' = 0.
Proof. intros H H'. unfold passes, calls, cpu_at. rewrite H, H'. by destruct (c_at c). Qed.

Lemma in_step_still i k0 f0 n p k k' s s' c :
  sync s' -> tinv k' (tm_timer s') -> k0 <= k -> k <= k' <= Z.of_nat n ->
  m_cpus (tm_mach s) !! i = Some c -> m_cpus (tm_mach s') !! i = Some c ->
  length (m_cpus (tm_mach s')) = length (m_cpus (tm_mach s)) ->
  (if is_stopped (c_at c) then p <= k - k0 + 1
   else exists d, dev_list (tm_timer s) !! cpu_dev (length (m_cpus (tm_mach s))) i = Some d /\ p = t_slots d + slack c - f0) ->
  (forall d, is_stopped (c_at c) = false -> dev_list (tm_timer s) !! cpu_dev (length (m_cpus (tm_mach s))) i = Some d ->
     exists d', dev_list (tm_timer s') !! cpu_dev (length (m_cpus (tm_mach s))) i = Some d' /\ t_slots d' = t_slots d) ->
  in_step i k0 f0 n (p + passes i s s') s' /\ calls i s s' <= passes i s s'.
Proof.
  intros Hs' Hk' Hk0 Hk Hi Hi' Hlen Hp Hd. destruct (still_count i s s' c Hi Hi') as [-> ->]. rewrite Z.add_0_r. split; [|lia].
  split; [done|]. exists k', c. split_and!; [lia|lia|done|done|]. destruct (is_stopped (c_at c)) eqn:Hc; [lia|].
  destruct Hp as (d & Hdd & ->). destruct (Hd d eq_refl Hdd) as (d' & Hd' & Hsl). exists d'. rewrite Hlen, Hsl. by split.
Qed.

(** A step of CPU [i] itself, at work. *)
Lemma in_step_work i k0 f0 n p k k' s s' c c' d d' o o' :
  cpu_step time_slot c o = Ok (c', o') -> c_at c <> C_slot -> k0 <= f0 <= k0 + 1 ->
  sync s' -> tinv k' (tm_timer s') -> k0 <= k -> k <= k' <= Z.of_nat n -> t_slots d = k -> t_slots d' = k ->
  m_cpus (tm_mach s) !! i = Some c -> m_cpus (tm_mach s') !! i = Some c' ->
  dev_list (tm_timer s') !! cpu_dev (length (m_cpus (tm_mach s'))) i = Some d' -> p = t_slots d + slack c - f0 ->
  in_step i k0 f0 n (p + passes i s s') s' /\ calls i s s' <= passes i s s'.
Proof.
  intros Hst Hc Hf0 Hs' Hk' Hk0 Hk Hsl Hsl' Hi Hi' Hd' Hp.
  assert (Hsk : slack c = 0) by (unfold slack; by destruct (c_at c)).
  assert (Hpass : passes i s s' = slack c').
  { unfold passes, cpu_at, slack. rewrite Hi, Hi'. destruct (c_at c) eqn:Ha; try done; by destruct (c_at c'). }
  split.
  - split; [done|]. exists k', c'. split_and!; [lia|lia|done|done|]. rewrite Hpass. destruct (is_stopped (c_at c')) eqn:Ha.
    + unfold slack. destruct (c_at c'); try done. lia.
    + exists d'. split; [done|lia].
  - rewrite Hpass. unfold calls, cpu_at. rewrite Hi. destruct (c_at c) eqn:Ha; cbn [is_run andb]; [unfold slack; destruct (c_at c'); lia..| | |];
      [|unfold slack; destruct (c_at c'); lia..].
    unfold cpu_step in Hst. rewrite Ha in Hst. ok_step Hst. ok_step Hst. injection Hst as <- <-. rewrite Hi'. done.
Qed.

Lemma tinv_timed k s s' :
  timed_step time_slot conf mram mswp s s' -> tinv k (tm_timer s) -> exists k', k <= k' <= k + 1 /\ tinv k' (tm_timer s').
Proof.
  intros Hst Hti. assert (Hdev : forall act j d d', dev_list (tm_timer s) !! j = Some d -> act d = Some d' ->
      act = next_slot_wait \/ act = next_slot_done \/ act = detach_event \/ act = end_thread ->
      exists k', k <= k' <= k + 1 /\ tinv k' (set_dev j d' (tm_timer s))).
  { intros act j d d' Hj Ha Hact. exists k. split; [lia|]. eapply tinv_device_step; [exact Hact|exact Hti|by eapply dev_acts_step]. }
  destruct Hst as [s t' H|i s s' H|x s s' H|s t' H _].
  - by eapply tinv_timer_routine.
  - apply cpu_turn_moves in H as (c & d & c' & d' & os' & _ & Hd & Hmv & ->). simpl.
    destruct Hmv; [eapply Hdev; eauto..|]. rewrite set_dev_id by done. exists k. split; [lia|done].
  - apply ld_turn_moves in H as (d & l' & d' & os' & Hd & Hmv & ->). simpl.
    destruct Hmv; [eapply Hdev; eauto 6..|]. rewrite set_dev_id by done. exists k. split; [lia|done].
  - eapply tinv_step; [exact Hti|by apply ts_stop].
Qed.

(** A step of CPU [j]. *)
Lemma in_step_cpu i k0 f0 n p s s' j :
  k0 <= f0 <= k0 + 1 -> in_step i k0 f0 n p s -> cpu_turn time_slot conf mram mswp j s = Some s' ->
  in_step i k0 f0 (S n) (p + passes i s s') s' /\ calls i s s' <= passes i s s'.
Proof.
  intros Hf0 [Hs (k & c0 & Hk & Hti & Hi & Hp)] H.
  pose proof (td_cpu time_slot conf mram mswp j s s' H) as Hst. pose proof (sync_step _ _ _ _ _ _ _ Hti Hst Hs) as Hs'.
  destruct (tinv_timed _ _ _ Hst Hti) as (k' & Hk' & Hti').
  apply cpu_turn_moves in H as (c & d & c' & d' & os' & Hj & Hd & Hmv & ->). cbn [tm_mach tm_timer m_cpus] in *.
  pose proof (sync_devices _ _ _ Hs Hd) as Hlen. pose proof (lookup_lt_Some _ _ _ Hj) as Hlj.
  destruct (cpu_dev_lt _ j Hlj) as [Hdj _]. destruct (decide (j = i)) as [->|Hne].
  2: { eapply (in_step_still i k0 f0 (S n) p k k' s _ c0); simpl; rewrite ?length_insert; try done; try lia.
       - by rewrite list_lookup_insert_ne.
       - intros e _ He. exists e. rewrite list_lookup_insert_ne; [done|]. intros Heq. apply cpu_dev_inj in Heq; [done|done|].
         by eapply lookup_lt_Some. }
  assert (c0 = c) as -> by congruence.
  assert (Hnew : (<[i:=c']> (m_cpus (tm_mach s))) !! i = Some c') by (by apply list_lookup_insert_eq).
  assert (Hdnew : dev_list (set_dev (cpu_dev (length (m_cpus (tm_mach s))) i) d' (tm_timer s)) !! cpu_dev (length (m_cpus (tm_mach s))) i = Some d')
    by (simpl; apply list_lookup_insert_eq; lia).
  assert (Hcase : c' = c /\ t_slots d' = t_slots d \/ c_at c = C_slot /\ c_at c' = C_top /\ t_slots d' = t_slots d + 1 \/
    c_at c <> C_slot /\ d' = d /\ t_thread d = Working /\ cpu_step time_slot c (m_os (tm_mach s)) = Ok (c', os')).
  { destruct Hmv as [d' Hat Ha|d' c' Hat Ha _ ->|d' Hat Ha|c' os' Hat Hth Hcs]; [left|right; left|left|by do 2 right];
      unfold next_slot_done, next_slot_wait, detach_event in Ha; destruct (t_thread d); try destruct (t_done d); try done; by injection Ha as <-. }
  destruct Hcase as [[-> Hsl]|[(Hat & Hat' & Hsl)|(Hat & -> & Hth & Hcs)]].
  - eapply (in_step_still i k0 f0 (S n) p k k' s _ c); simpl; rewrite ?length_insert; try done; try lia.
    intros e _ He. rewrite Hd in He. injection He as <-. by exists d'.
  - rewrite Hat in Hp. destruct Hp as (d0 & Hd0 & ->). assert (d0 = d) as -> by congruence.
    assert (passes i s (mk_timed (mk_mach os' (<[i:=c']> (m_cpus (tm_mach s))) (m_ld (tm_mach s)))
              (set_dev (cpu_dev (length (m_cpus (tm_mach s))) i) d' (tm_timer s))) = 0) as ->.
    { unfold passes, cpu_at. simpl. by rewrite Hi, Hat. }
    unfold calls, cpu_at. simpl. rewrite Hi, Hat. split; [|done]. split; [done|]. exists k', c'. simpl. rewrite length_insert.
    split_and!; [lia|lia|done|done|]. rewrite Hat'. exists d'. split; [done|]. unfold slack. rewrite Hat, Hat', Hsl. lia.
  - assert (is_stopped (c_at c) = false) as Hns.
    { unfold cpu_step in Hcs. by destruct (c_at c). }
    rewrite Hns in Hp. destruct Hp as (d0 & Hd0 & Hp). assert (d0 = d) as -> by congruence.
    pose proof (ti_dev _ _ Hti _ _ Hd) as Hok. unfold dev_ok in Hok. rewrite Hth in Hok. destruct Hok as (_ & _ & Hsl & _).
    eapply (in_step_work i k0 f0 (S n) p k k' s _ c c' d d); simpl; rewrite ?length_insert; try done; lia.
Qed.

(** Every step. *)
Lemma in_step_step i k0 f0 n p s s' :
  k0 <= f0 <= k0 + 1 -> in_step i k0 f0 n p s -> timed_step time_slot conf mram mswp s s' ->
  in_step i k0 f0 (S n) (p + passes i s s') s' /\ calls i s s' <= passes i s s'.
Proof.
  intros Hf0 Hin Hst. pose proof Hin as [Hs (k & c & Hk & Hti & Hi & Hp)].
  pose proof (sync_step _ _ _ _ _ _ _ Hti Hst Hs) as Hs'. destruct (tinv_timed _ _ _ Hst Hti) as (k' & Hk' & Hti').
  pose proof Hst as Hst0. destruct Hst as [s t' H|j s s' H|x s s' H|s t' H Hne]; [|by eapply in_step_cpu| |].
  - eapply (in_step_still i k0 f0 (S n) p k k' s _ c); try done; try lia. simpl. intros d _ Hd.
    destruct (timer_routine_threads _ _ (cpu_dev (length (m_cpus (tm_mach s))) i) H) as [Hlen Hth].
    destruct (lookup_lt_is_Some_2 (dev_list t') (cpu_dev (length (m_cpus (tm_mach s))) i)) as [d' Hd'];
      [rewrite Hlen; by eapply lookup_lt_Some|]. exists d'. split; [done|].
    destruct (Hth _ Hd') as (d0 & Hd0 & _ & ->). congruence.
  - apply ld_turn_moves in H as (d & l' & d' & os' & Hd & Hmv & ->). cbn [tm_mach tm_timer m_cpus] in *.
    eapply (in_step_still i k0 f0 (S n) p k k' s _ c); simpl; try done; try lia. intros e _ He. exists e.
    rewrite list_lookup_insert_ne; [done|]. destruct (cpu_dev_lt _ i (lookup_lt_Some _ _ _ Hi)). unfold ld_dev. lia.
  - eapply (in_step_still i k0 f0 (S n) p k k' s _ c); try done; try lia. simpl. intros d Hns Hd.
    inversion H; subst; simpl in *; [by exists d|]. exfalso.
    destruct (sy_len _ Hs') as [Hl|(_ & Hall & _)]; simpl in *; [done|].
    pose proof (Forall_lookup_1 _ _ _ _ Hall Hi) as Hat. simpl in Hat. by rewrite Hat in Hns.
Qed.

Lemma window_in_step i k0 f0 n m p r s s' :
  k0 <= f0 <= k0 + 1 -> in_step i k0 f0 n 0 s -> window i s m p r s' -> in_step i k0 f0 (n + m) p s' /\ r <= p.
Proof.
  intros Hf0 Hs Hw. induction Hw as [|m p r s1 s2 Hw [IH Hr] Hst]; [rewrite Nat.add_0_r; split; [done|lia]|].
  destruct (in_step_step _ _ _ _ _ _ _ Hf0 IH Hst) as [H1 H2]. rewrite Nat.add_succ_r. split; [done|lia].
Qed.

Lemma window_calls i s m p r s' : window i s m p r s' -> 0 <= r.
Proof. induction 1; [done|]. unfold calls. destruct (_ && _); lia. Qed.

Lemma cpu_count n m dv h s :
  nsteps (timed_step time_slot conf mram mswp) n (timed_boot m dv h) s -> length (m_cpus (tm_mach s)) = m.
Proof.
  revert s. induction n as [|n IH]; intros s Hst.
  - inversion Hst; subst. apply length_replicate.
  - apply nsteps_inv_r in Hst as (s1 & Hst & H1). rewrite <- (IH _ Hst). destruct H1 as [s2 t' H|j s2 s3 H|x s2 s3 H|s2 t' H _]; [done| | |done].
    + apply cpu_turn_moves in H as (c & d & c' & d' & os' & _ & _ & _ & ->). apply length_insert.
    + by apply ld_turn_moves in H as (d & l' & d' & os' & _ & _ & ->).
Qed.

(** After [n] steps from [main] at most [n] slots have passed. *)
Lemma clock_after n m dv h s :
  nsteps (timed_step time_slot conf mram mswp) n (timed_boot m dv h) s ->
  sync s /\ exists k, k <= Z.of_nat n /\ tinv k (tm_timer s).
Proof.
  revert s. induction n as [|n IH]; intros s Hst.
  - inversion Hst; subst. split; [apply sync_boot|]. exists 0. split; [lia|apply tinv_start].
  - apply nsteps_inv_r in Hst as (s1 & Hst & H1). destruct (IH _ Hst) as (Hs & k & Hk & Hti).
    split; [by eapply sync_step|]. destruct (tinv_timed _ _ _ H1 Hti) as (k' & Hk' & Hti'). exists k'. split; [lia|done].
Qed.

Lemma clock_value k s : tinv k (tm_timer s) -> k < 2 ^ 64 -> current_time (tm_timer s) = k.
Proof. intros Hti Hk. unfold current_time. rewrite (ti_time _ _ Hti). apply u64_small. pose proof (ti_k _ _ Hti). lia. Qed.

(** A state of a run, as the first of a window. *)
Lemma in_step_start i n m dv h s c :
  nsteps (timed_step time_slot conf mram mswp) n (timed_boot m dv h) s -> m_cpus (tm_mach s) !! i = Some c ->
  Z.of_nat n < 2 ^ 64 -> let now := current_time (tm_timer s) in exists f0, now <= f0 <= now + 1 /\ in_step i now f0 n 0 s.
Proof.
  intros Hn Hi Hlt now. destruct (clock_after _ _ _ _ _ Hn) as (Hs & k & Hk & Hti).
  assert (Hnow : now = k) by (apply clock_value; [done|lia]). clearbody now. subst now.
  destruct (is_stopped (c_at c)) eqn:Hc.
  - exists k. split; [lia|]. split; [done|]. exists k, c. split_and!; [lia|lia|done|done|]. rewrite Hc. lia.
  - destruct (sy_len _ Hs) as [Hlen|(_ & Hall & _)].
    2: { pose proof (Forall_lookup_1 _ _ _ _ Hall Hi) as Hat. simpl in Hat. by rewrite Hat in Hc. }
    destruct (cpu_dev_lt _ i (lookup_lt_Some _ _ _ Hi)) as [Hj _].
    destruct (lookup_lt_is_Some_2 (dev_list (tm_timer s)) (cpu_dev (length (m_cpus (tm_mach s))) i)) as [d Hd]; [lia|].
    exists (t_slots d + slack c). split; [by eapply slots_near|]. split; [done|]. exists k, c.
    split_and!; [lia|lia|done|done|]. rewrite Hc. exists d. split; [done|lia].
Qed.

(** ** Properties *)

(** C21 (bounds): the CPUs run in lockstep with the clock.  From any state
    that the threads of [os.c] reach on their timer, over any stretch of
    their run in which the clock advances by [t] - any programs, any
    interleaving, fewer than 2^64 steps in all, so that the clock does not
    wrap around - a CPU passes its loop, each pass ending in [next_slot], at
    most [t + 1] times, and calls [run] at most once in each pass: at most
    one instruction per CPU within a time slot.  A CPU that has not stopped
    has also passed at least [t - 1] times: none falls behind, and two CPUs
    differ by at most two passes. *)
Theorem cpus_in_lockstep i n m l p r dv h s s' :
  nsteps (timed_step time_slot conf mram mswp) n (timed_boot l dv h) s -> (i < l)%nat ->
  window i s m p r s' -> Z.of_nat (n + m) < 2 ^ 64 ->
  let t := current_time (tm_timer s') - current_time (tm_timer s) in
  0 <= r <= p /\ p <= t + 1 /\ (cpu_at is_stopped i s' = false -> t - 1 <= p).
Proof.
  intros Hn Hi Hw Hlt t. destruct (lookup_lt_is_Some_2 (m_cpus (tm_mach s)) i) as [c Hc]; [by rewrite (cpu_count _ _ _ _ _ Hn)|].
  destruct (in_step_start i n l dv h s c Hn Hc) as (f0 & Hf0 & Hin); [lia|].
  destruct (window_in_step _ _ _ _ _ _ _ _ _ Hf0 Hin Hw) as [[Hs (k & c' & Hk & Hti & Hc' & Hp)] Hr].
  assert (Hnow : current_time (tm_timer s') = k) by (apply clock_value; [done|lia]).
  pose proof (window_calls _ _ _ _ _ _ Hw) as Hr0. unfold cpu_at, t. rewrite Hc', Hnow. destruct (is_stopped (c_at c')) eqn:Hat.
  - split_and!; [lia..|done].
  - destruct Hp as (d & Hd & ->). pose proof (slots_near _ _ _ _ _ Hs Hti Hc' Hat Hd). split_and!; intros; lia.
Qed.
End Steps.
