(* ===== verification/Config.v ===== *)
(** * The configuration and the start: [read_config] and [main] of [src/os.c]

    The configuration file gives the time slot, the number of CPUs and of
    processes, the sizes of RAM and of the four swap devices - or, in an old
    file, no sizes -, and a line for each process. *)

From Stdlib Require Import Ascii.
From S2P Require Import Prelude Queue Sched Pte MemPhy Kernel PageTable Mm64 MmVm Syscall LibMem VMem UserMem Alloc Kmem KmemVm Kept Cpu Program Loader Boot Os.

#[local] Arguments String.append !_ _ /.

(** ** State *)

Definition PAGING_MAX_MMSWP : nat := 4.

(** One process: the entries of [ld_processes]. *)
Record ld_entry := mk_entry { le_path : string; le_start : Z; le_prio : Z }.
Record config := mk_config {
  time_slot : Z; num_cpus : Z; num_processes : Z;
  memramsz : Z; memswpsz : list Z;
  ld_processes : list ld_entry;
}.

(** ** [read_config] *)

(** [%d]: [strtol], which saturates, and the conversion to [int]. *)
Definition scan_int (neg : bool) (s : string) : option Z * string :=
  if starts_with_digit s then
    let (v, rest) := take_digits 0 s in
    (Some (i32 (Z.max (- 2 ^ 63) (Z.min (2 ^ 63 - 1) (if neg then - v else v)))), rest)
  else (None, s).
Definition scan_d (s : string) : option Z * string :=
  match skip_space s with
  | String c s' =>
      if code_of c =? 45 then scan_int true s'
      else if code_of c =? 43 then scan_int false s'
      else scan_int false (String c s')
  | EmptyString => (None, EmptyString)
  end.

(** [fscanf(file, "%d %d %d\n", ...)]: the statics keep 0 from the first
    conversion that fails. *)
Fixpoint scan_ds (n : nat) (s : string) : list Z * string :=
  match n with
  | O => ([], skip_space s)
  | S n =>
      match scan_d s with
      | (Some v, rest) => let (l, rest) := scan_ds n rest in (v :: l, rest)
      | (None, rest) => ([], rest)
      end
  end.

(** The sizes: five numbers on the next line, or the defaults, with the file
    set back to the start of the line; at the end of the file the statics stay
    0. *)
Definition LINE_SZ : nat := 512.
Definition read_sizes : M string (Z * list Z) :=
  let* pos := gets (fun f => f) in
  match pos with
  | EmptyString => ret (0, replicate PAGING_MAX_MMSWP 0)
  | _ =>
      let (buf, rest) := fgets (LINE_SZ - 1) pos in
      let v := (scan_lus (S PAGING_MAX_MMSWP) buf).1 in
      match v with
      | ram :: swp =>
          if (length v =? S PAGING_MAX_MMSWP)%nat then modify (fun _ => rest) ;;; ret (ram, swp)
          else ret (2 ^ 24, 2 ^ 24 :: replicate 3 0)
      | [] => ret (2 ^ 24, 2 ^ 24 :: replicate 3 0)
      end
  end.

(** One turn of the loop: the name goes to [char proc[100]] and, behind
    "input/proc/", to a block of 100.  A name that is not read is an
    indeterminate string; [junk] is the priority the block of [malloc] holds. *)
Definition PROC_DIR : string := "input/proc/".
Definition PATH_SZ : nat := 100.
Definition read_entry (junk : Z) : M string ld_entry :=
  let* file := gets (fun f => f) in
  let (start, rest) := scan_lu file in
  let* start := from_opt start in
  let (proc, rest) := scan_s rest in
  let* proc := from_opt proc in
  let (pr, rest) := scan_lu rest in
  let rest := match pr with Some _ => skip_space rest | None => rest end in
  modify (fun _ => rest) ;;;
  let path := String.append PROC_DIR proc in
  if (PATH_SZ <=? String.length path)%nat then undef else ret (mk_entry path start (default junk pr)).

Fixpoint read_entries (n : nat) (junk : Z) : M string (list ld_entry) :=
  match n with
  | O => ret []
  | S n => let* e := read_entry junk in let* es := read_entries n junk in ret (e :: es)
  end.

(** What follows the first line, which gave the numbers [l]. *)
Definition read_body (junk : Z) (l : list Z) : M string config :=
  let num_processes := default 0 (l !! 2%nat) in
  let* (ram, swp) := read_sizes in
  let* es := read_entries (Z.to_nat num_processes) junk in
  ret (mk_config (default 0 (l !! 0%nat)) (default 0 (l !! 1%nat)) num_processes ram swp es).

(** [contents] is the file, [None] when it cannot be opened; the blocks of
    [malloc] are there. *)
Definition read_config (junk : Z) (contents : option string) : outcome config :=
  match contents with
  | None => Exit 1
  | Some s =>
      let (l, rest) := scan_ds 3 s in
      match read_body junk l rest with Ok (c, _) => Ok c | Undef => Undef | Exit e => Exit e end
  end.

(** ** [main] *)

(** The devices: [init_memphy] of RAM and of each swap, on objects [ds] of the
    stack. *)
Fixpoint init_devices (sizes : list Z) (ds : list memphy_struct) (h : list bool) : outcome (list memphy_struct * list bool) :=
  match sizes, ds with
  | sz :: sizes, d :: ds =>
      match init_memphy sz 1 (mk_boot d h) with
      | Ok (_, b) =>
          match init_devices sizes ds (bhost b) with
          | Ok (l, h) => Ok (bdev b :: l, h)
          | Undef => Undef
          | Exit e => Exit e
          end
      | Undef => Undef
      | Exit e => Exit e
      end
  | _, _ => Ok ([], h)
  end.

(** The start of [os argv1]: the time slot, the processes for the loader and
    the machine.  [fs] is the file system, [addrs] and [ds] are the addresses
    and contents of [mram] and [mswp]. *)
Definition conf_of (fs : string -> option string) (c : config) : list proc_conf :=
  (fun e => mk_conf (fs (le_path e)) (le_start e) (le_prio e)) <$> ld_processes c.
Definition main (fs : string -> option string) (argv1 : string) (junk : Z) (addrs : list Z) (ds : list memphy_struct)
    (h : list bool) : outcome (Z * list proc_conf * mach) :=
  let path := String.append "input/" argv1 in
  if (PATH_SZ <=? String.length path)%nat then Undef
  else
    match read_config junk (fs path) with
    | Ok c =>
        match init_devices (memramsz c :: memswpsz c) ds h with
        | Ok (l, h) => Ok (time_slot c, conf_of fs c, boot (Z.to_nat (num_cpus c)) (list_to_map (zip addrs l)) h)
        | Undef => Undef
        | Exit e => Exit e
        end
    | Undef => Undef
    | Exit e => Exit e
    end.

(** ** Printing a configuration *)

(** A process line: the name of its file, the start time and the priority. *)
Record proc_line := mk_line { pl_name : string; pl_start : Z; pl_prio : Z }.
Definition entry_of (l : proc_line) : ld_entry := mk_entry (String.append PROC_DIR (pl_name l)) (pl_start l) (pl_prio l).

Definition print_line (l : proc_line) (s : string) : string :=
  dec (pl_start l) (String " "%char (String.append (pl_name l) (print_args [pl_prio l] s))).
Fixpoint print_lines (ls : list proc_line) : string :=
  match ls with [] => EmptyString | l :: ls => print_line l (print_lines ls) end.
Definition print_config (ts ncpus ram : Z) (swp : list Z) (ls : list proc_line) : string :=
  print_args [ts; ncpus; Z.of_nat (length ls)] (dec ram (print_args swp (print_lines ls))).

(** A name the buffers hold. *)
Record line_ok (l : proc_line) : Prop := {
  lk_name : no_space (pl_name l) /\ pl_name l <> EmptyString;
  lk_len : (String.length PROC_DIR + String.length (pl_name l) < PATH_SZ)%nat;
  lk_start : arg_ok (pl_start l);
  lk_prio : arg_ok (pl_prio l);
}.

Lemma skip_space_dec n s : 0 <= n -> skip_space (dec n s) = dec n s.
Proof.
  intros Hn. unfold dec. destruct (dec_go_head 19 n s Hn) as (d & t & Hd & ->). simpl. by rewrite digit_not_space.
Qed.

Lemma scan_d_dec n s : 0 <= n < 2 ^ 31 -> ends_number s -> scan_d (dec n s) = (Some n, s).
Proof.
  intros Hn Hs. unfold dec. destruct (take_digits_dec_go 20 n s 0) as [k Hk]; [lia|].
  destruct (dec_go_head 19 n s) as (d & t & Hd & Ht); [lia|]. rewrite Ht in *.
  unfold scan_d. simpl. rewrite digit_not_space by done. destruct (digit_no_sign d Hd) as [-> ->].
  unfold scan_int, starts_with_digit. rewrite digit_of_digit by done. simpl from_option. cbn iota.
  rewrite Hk, take_digits_end by done. rewrite i32_small by lia. do 2 f_equal. lia.
Qed.

Lemma scan_ds_print l : forall n s, Forall (fun a => 0 <= a < 2 ^ 31) l -> n = length l ->
  scan_ds n (print_args l s) = (l, skip_space s).
Proof.
  induction l as [|a l IH]; intros n s Hl ->; [done|]. inversion_clear Hl. cbn [scan_ds print_args length].
  assert (Hsp : forall t, scan_d (String " "%char t) = scan_d t) by done. rewrite Hsp.
  rewrite scan_d_dec by (done || apply print_args_ends). by rewrite IH.
Qed.

Lemma skip_print_lines ls : Forall line_ok ls -> skip_space (print_lines ls) = print_lines ls.
Proof.
  intros Hl. destruct ls as [|l ls]; [done|]. inversion_clear Hl. apply skip_space_dec. by apply lk_start.
Qed.

(** The line of the sizes. *)
Lemma wp_read_sizes ram swp s (Q : Z * list Z -> string -> Prop) :
  arg_ok ram -> Forall arg_ok swp -> length swp = PAGING_MAX_MMSWP -> Q (ram, swp) s ->
  wp read_sizes Q (dec ram (print_args swp s)).
Proof.
  intros Hr Hs Hl HQ. assert (Hline : fgets (LINE_SZ - 1) (dec ram (print_args swp s)) = (dec ram (print_args swp EmptyString), s)).
  { rewrite !print_args_body. unfold dec.
    assert (Happ : forall t, dec_go 20 ram (String.append (args_body swp) t) =
                     String.append (dec_go 20 ram (args_body swp)) t) by (intros t; apply dec_go_app).
    rewrite !Happ. apply fgets_line; [by apply dec_go_no_newline, args_body_line|].
    destruct (args_body_line swp) as [_ Hb]. pose proof (dec_go_length 20 ram (args_body swp)).
    rewrite Hl in Hb. unfold PAGING_MAX_MMSWP, LINE_SZ in *. lia. }
  unfold read_sizes. wp_steps. destruct (dec ram (print_args swp s)) as [|c t] eqn:Hd.
  { unfold dec in Hd. destruct (dec_go_head 19 ram (print_args swp s)) as (d & t & _ & He); [apply Hr|]. by rewrite He in Hd. }
  rewrite Hline. cbn [scan_lus]. rewrite scan_lu_dec by (done || apply print_args_ends).
  rewrite (scan_lus_print swp) by done. cbn [fst length]. rewrite Hl. wp_steps. done.
Qed.

Lemma wp_read_entry l s junk (Q : ld_entry -> string -> Prop) :
  line_ok l -> Q (entry_of l) (skip_space s) -> wp (read_entry junk) Q (print_line l s).
Proof.
  intros [[Hn1 Hn2] Hlen Hs Hp] HQ. unfold read_entry, print_line. wp_steps. rewrite scan_lu_dec by done. wp_steps.
  unfold scan_s. assert (Hsk : forall t, skip_space (String " "%char t) = skip_space t) by done.
  rewrite Hsk, skip_space_word by done. rewrite take_word_append by (done || apply print_args_ends_word).
  destruct (pl_name l) as [|c w] eqn:Hname; [done|]. wp_steps. cbn [print_args].
  rewrite scan_lu_space by done. rewrite scan_lu_dec by done. wp_steps.
  rewrite length_append. destruct (Nat.leb_spec PATH_SZ (String.length PROC_DIR + String.length (String c w))); [lia|].
  wp_steps. unfold entry_of in HQ. rewrite Hname in HQ. exact HQ.
Qed.

Lemma wp_read_entries ls : forall junk (Q : list ld_entry -> string -> Prop),
  Forall line_ok ls -> Q (entry_of <$> ls) EmptyString -> wp (read_entries (length ls) junk) Q (print_lines ls).
Proof.
  induction ls as [|l ls IH]; intros junk Q Hl HQ; cbn [read_entries length print_lines]; [by wp_steps|].
  inversion_clear Hl. wp_step. apply wp_read_entry; [done|]. rewrite skip_print_lines by done. wp_step.
  apply IH; [done|]. by wp_steps.
Qed.

(** A name that does not start like a number. *)
Definition word_start (w : string) : Prop :=
  match w with String c _ => digit_of c = None /\ code_of c <> 45 /\ code_of c <> 43 | EmptyString => False end.

Lemma no_space_no_newline w : no_space w -> no_newline w.
Proof.
  induction w as [|c w IH]; [done|]. intros [Hc Hw]. split; [|by apply IH]. intros H. unfold is_space in Hc. rewrite H in Hc. done.
Qed.

Lemma scan_lus_word n w s : word_start w -> no_space w -> scan_lus (S n) (String " "%char (String.append w s)) = ([], String.append w s).
Proof.
  destruct w as [|c w]; [done|]. intros (Hd & H1 & H2) [Hc _]. cbn [scan_lus]. rewrite scan_lu_space by done.
  unfold scan_lu. simpl. rewrite Hc. rewrite (proj2 (Z.eqb_neq _ _) H1), (proj2 (Z.eqb_neq _ _) H2).
  unfold scan_digits. simpl. by rewrite Hd.
Qed.

(** A process line where the sizes may be. *)
Lemma wp_read_no_sizes l s (Q : Z * list Z -> string -> Prop) :
  line_ok l -> word_start (pl_name l) -> Q (2 ^ 24, [2 ^ 24; 0; 0; 0]) (print_line l s) -> wp read_sizes Q (print_line l s).
Proof.
  intros [[Hn1 Hn2] Hlen Hs Hp] Hw HQ. set (w := dec (pl_start l) (String " "%char (String.append (pl_name l) (args_body [pl_prio l])))).
  assert (Hdec : forall t, print_line l t = String.append w (String newline t)).
  { intros t. unfold print_line, w, dec. rewrite print_args_body, <- dec_go_app. cbn [String.append]. by rewrite append_assoc. }
  assert (Hlw : no_newline w /\ (String.length w < LINE_SZ - 1)%nat).
  { destruct (args_body_line [pl_prio l]) as [Hb1 Hb2]. split.
    - apply dec_go_no_newline. split; [done|]. apply no_newline_append; [by apply no_space_no_newline|done].
    - unfold w. pose proof (dec_go_length 20 (pl_start l) (String " "%char (String.append (pl_name l) (args_body [pl_prio l])))) as Hd.
      fold (dec (pl_start l) (String " "%char (String.append (pl_name l) (args_body [pl_prio l])))) in Hd. cbn [String.length] in Hd.
      rewrite length_append in Hd. unfold PATH_SZ, LINE_SZ in *. cbn [length] in Hb2. lia. }
  assert (Hscan : (scan_lus (S PAGING_MAX_MMSWP) (String.append w (String newline EmptyString))).1 = [pl_start l]).
  { rewrite <- Hdec. unfold print_line. unfold PAGING_MAX_MMSWP. remember 4%nat as k. cbn [scan_lus]. subst k.
    rewrite scan_lu_dec by done. by rewrite scan_lus_word. }
  unfold read_sizes. wp_steps. destruct (print_line l s) as [|c t] eqn:Hd.
  { unfold print_line, dec in Hd. destruct (dec_go_head 19 (pl_start l) (String " "%char (String.append (pl_name l) (print_args [pl_prio l] s)))) as (d & t & _ & He); [apply Hs|].
    by rewrite He in Hd. }
  rewrite <- Hd, Hdec, fgets_line by apply Hlw. rewrite Hscan. wp_steps. by rewrite <- Hdec, Hd.
Qed.

Lemma read_config_body junk ts ncpus ls sizes text rest :
  Forall (fun a => 0 <= a < 2 ^ 31) [ts; ncpus; Z.of_nat (length ls)] -> Forall line_ok ls ->
  skip_space text = rest -> wp read_sizes (fun r s => r = sizes /\ s = print_lines ls) rest ->
  read_config junk (Some (print_args [ts; ncpus; Z.of_nat (length ls)] text)) =
    Ok (mk_config ts ncpus (Z.of_nat (length ls)) sizes.1 sizes.2 (entry_of <$> ls)).
Proof.
  intros Hn Hls Hsk Hsz. unfold read_config. rewrite scan_ds_print, Hsk by done.
  destruct (wp_elim (read_body junk [ts; ncpus; Z.of_nat (length ls)])
    (fun c _ => c = mk_config ts ncpus (Z.of_nat (length ls)) sizes.1 sizes.2 (entry_of <$> ls)) rest) as (c & s' & -> & ->); [|done].
  unfold read_body. wp_step. eapply wp_mono; [exact Hsz|]. intros [ram swp] s (<- & ->). wp_step.
  change (default 0 ([ts; ncpus; Z.of_nat (length ls)] !! 2%nat)) with (Z.of_nat (length ls)). rewrite Nat2Z.id.
  apply wp_read_entries; [done|]. by wp_steps.
Qed.

(** ** Properties *)

(** C20 (roundtrip): a printed configuration is read as it was.  For every
    time slot and number of CPUs that fit an [int], every five sizes and
    every list of process lines whose names fit the buffers of 100, the file
    with these numbers is read to this configuration, with each process under
    "input/proc/"; without the line of the sizes - and with at least one
    process line, the first of whose names does not look like a number, that
    is, starts with a digit or a sign - the process lines are read the same,
    and RAM and the first swap get the default size. *)
Theorem config_read_back junk ts ncpus ram swp ls :
  0 <= ts < 2 ^ 31 -> 0 <= ncpus < 2 ^ 31 -> Z.of_nat (length ls) < 2 ^ 31 ->
  arg_ok ram -> Forall arg_ok swp -> length swp = PAGING_MAX_MMSWP -> Forall line_ok ls ->
  read_config junk (Some (print_config ts ncpus ram swp ls)) =
    Ok (mk_config ts ncpus (Z.of_nat (length ls)) ram swp (entry_of <$> ls)) /\
  (match ls with l :: _ => word_start (pl_name l) | [] => False end ->
   read_config junk (Some (print_args [ts; ncpus; Z.of_nat (length ls)] (print_lines ls))) =
     Ok (mk_config ts ncpus (Z.of_nat (length ls)) (2 ^ 24) [2 ^ 24; 0; 0; 0] (entry_of <$> ls))).
Proof.
  intros Ht Hc Hn Hr Hs Hlen Hls. assert (Hnums : Forall (fun a => 0 <= a < 2 ^ 31) [ts; ncpus; Z.of_nat (length ls)])
    by (repeat constructor; lia). split; [|intros Hword].
  - unfold print_config. set (text := dec ram _). rewrite (read_config_body junk ts ncpus ls (ram, swp) text text Hnums Hls);
      [reflexivity|apply skip_space_dec, Hr|].
    apply wp_read_sizes; [exact Hr|exact Hs|exact Hlen|]. split; reflexivity.
  - set (text := print_lines ls). rewrite (read_config_body junk ts ncpus ls (2 ^ 24, [2 ^ 24; 0; 0; 0]) text text Hnums Hls);
      [reflexivity|by apply skip_print_lines|]. unfold text.
    destruct ls as [|l ls]; [done|]. inversion_clear Hls. apply wp_read_no_sizes; [assumption|exact Hword|]. split; reflexivity.
Qed.

Definition two_lines : list proc_line := [mk_line "p0s" 0 130; mk_line "s1" 4 15].
Definition two_entries : list ld_entry := [mk_entry "input/proc/p0s" 0 130; mk_entry "input/proc/s1" 4 15].

Lemma config_read_back_witness :
  read_config 0 (Some (print_config 2 4 1048576 [16777216; 0; 0; 0] two_lines)) =
    Ok (mk_config 2 4 2 1048576 [16777216; 0; 0; 0] two_entries) /\
  read_config 0 (Some (print_args [2; 4; 2] (print_lines two_lines))) =
    Ok (mk_config 2 4 2 16777216 [16777216; 0; 0; 0] two_entries).
Proof.
  assert (Hl : Forall line_ok two_lines).
  { repeat constructor; simpl; try done; unfold arg_ok; try lia; unfold PATH_SZ; lia. }
  destruct (config_read_back 0 2 4 1048576 [16777216; 0; 0; 0] two_lines) as [H1 H2];
    [lia|lia|simpl; lia|unfold arg_ok; lia|repeat constructor; unfold arg_ok; lia|reflexivity|exact Hl|].
  split; [exact H1|]. apply H2. repeat split; vm_compute; discriminate.
Defined.

(** A start of four CPUs on small devices. *)
Definition small_config : string := print_config 2 4 1024 [512; 512; 256; 256] two_lines.
Definition files (path : string) : option string :=
  if String.eqb path "input/os_1" then Some small_config
  else if String.eqb path "input/proc/p0s" then Some (print_program 3 [mk_inst CALC 0 0 0 0]) else None.
Example main_boots :
  exists dv, main files "os_1" 0 [100; 101; 102; 103; 104] (replicate 5 (mk_memphy ∅ 0 0 7 7 [] [])) [] =
    Ok (2, [mk_conf (files "input/proc/p0s") 0 130; mk_conf None 4 15], boot 4 dv []) /\
    free_fp_list <$> (dv !! 100) = Some [0; 1; 2; 3].
Proof. eexists. split; [vm_compute; reflexivity|vm_compute; reflexivity]. Qed.
