(* ===== verification/Mem.v ===== *)
(** * The obsolete one-megabyte memory: [src/mem.c] and its users in [src/cpu.c]

    The segment-and-page memory that the paging subsystem replaced is still
    linked: [alloc], [free_data], [read] and [write] of [cpu.c] call it.  Its
    bodies are emptied, and the model shows what is left of it. *)

From S2P Require Import Prelude Kernel.

(** ** Constants of [include/common.h] *)
Definition ADDRESS_SIZE : Z := 20.
Definition OFFSET_LEN : Z := 10.
Definition PAGE_LEN : Z := 5.
Definition PAGE_SIZE : Z := 2 ^ OFFSET_LEN.
Definition NUM_PAGES : Z := 2 ^ (ADDRESS_SIZE - OFFSET_LEN).
Definition RAM_SIZE : Z := 2 ^ ADDRESS_SIZE.

(** ** State *)

Record mem_stat_t := mk_stat { st_proc : Z; st_index : Z; st_next : Z }.

(** [struct trans_table_t] and [struct page_table_t]: the rows in use and
    [size]; [next_lv] is a pointer. *)
Record trans_table_t := mk_trans { tt_table : list (Z * Z); tt_size : Z }.
Record page_table_t := mk_ptable { pt_table : list (Z * Z); pt_size : Z }.

(** [_ram], [_mem_stat] and the processes. *)
Record mem_st := mk_mem { _ram : list Z; _mem_stat : list mem_stat_t; m_procs : gmap Z pcb_t }.

Definition init_mem : M mem_st unit :=
  modify (fun s => mk_mem (replicate (Z.to_nat RAM_SIZE) 0) (replicate (Z.to_nat NUM_PAGES) (mk_stat 0 0 0)) (m_procs s)).

(** ** Addresses *)

Definition get_offset (addr : Z) : Z := Z.land addr (u32 (Z.lnot (u32 (Z.shiftl (2 ^ 32 - 1) OFFSET_LEN)))).
Definition get_first_lv (addr : Z) : Z := Z.shiftr addr (OFFSET_LEN + PAGE_LEN).
Definition get_second_lv (addr : Z) : Z := u64 (Z.shiftr addr OFFSET_LEN - u64 (Z.shiftl (get_first_lv addr) PAGE_LEN)).

(** The loop has no body. *)
Definition get_trans_table (index : Z) (page_table : page_table_t) : option trans_table_t := None.

(** The rows of the second level up to [n], from [i]. *)
Fixpoint translate_loop (n : nat) (i : Z) (t : trans_table_t) (second_lv : Z) : option Z :=
  match n with
  | O => Some 0
  | S n =>
      match arr_get (tt_table t) i with
      | None => None
      | Some (v, _) => if v =? second_lv then Some 1 else translate_loop n (i + 1) t second_lv
      end
  end.

(** The result and [*physical_addr], which no path writes. *)
Definition translate (virtual_addr : Z) (page_table : page_table_t) : M mem_st (Z * option Z) :=
  match get_trans_table (get_first_lv virtual_addr) page_table with
  | None => ret (0, None)
  | Some t =>
      let* r := from_opt (translate_loop (Z.to_nat (tt_size t)) 0 t (get_second_lv virtual_addr)) in
      ret (r, None)
  end.

Section Memory.
(** [proc->page_table] of each process. *)
Context (page_table : Z -> page_table_t).

Definition get_proc_pcb (proc : Z) : M mem_st pcb_t := let* s := gets (fun s => s) in from_opt (m_procs s !! proc).
Definition set_proc_pcb (proc : Z) (c : pcb_t) : M mem_st unit :=
  modify (fun s => mk_mem (_ram s) (_mem_stat s) (<[proc := c]> (m_procs s))).

(** [mem_avail] stays 0. *)
Definition alloc_mem (size proc : Z) : M mem_st Z :=
  let num_pages := if size mod PAGE_SIZE =? 0 then size / PAGE_SIZE + 1 else size / PAGE_SIZE in
  let mem_avail := 0 in
  if negb (mem_avail =? 0) then
    let* c := get_proc_pcb proc in
    set_proc_pcb proc (mk_pcb (pid c) (priority c) (code c) (regs c) (pc c) (prio c) (p_krnl c)
                         (u32 (bp c + num_pages * PAGE_SIZE)) (p_mm c)) ;;;
    ret (bp c)
  else ret 0.

Definition free_mem (address proc : Z) : M mem_st Z := ret 0.

(** The result and the byte written to [*data], if any. *)
Definition read_mem (address proc : Z) : M mem_st (Z * option Z) :=
  let* (ok, pa) := translate address (page_table proc) in
  if negb (ok =? 0) then
    let* a := from_opt pa in
    let* s := gets (fun s => s) in
    let* b := from_opt (arr_get (_ram s) a) in
    ret (0, Some b)
  else ret (1, None).

Definition write_mem (address proc data : Z) : M mem_st Z :=
  let* (ok, pa) := translate address (page_table proc) in
  if negb (ok =? 0) then
    let* a := from_opt pa in
    let* s := gets (fun s => s) in
    let* r := from_opt (arr_set (_ram s) a data) in
    modify (fun s => mk_mem r (_mem_stat s) (m_procs s)) ;;;
    ret 0
  else ret 1.

(** ** The callers in [cpu.c] *)

Definition set_reg (proc i x : Z) : M mem_st unit :=
  let* c := get_proc_pcb proc in
  let* rs := from_opt (arr_set (regs c) i x) in
  set_proc_pcb proc (set_regs rs c).

Definition alloc (proc size reg_index : Z) : M mem_st Z :=
  let* addr := alloc_mem size proc in
  if addr =? 0 then ret 1 else set_reg proc reg_index addr ;;; ret 0.

Definition free_data (proc reg_index : Z) : M mem_st Z :=
  let* c := get_proc_pcb proc in
  let* a := from_opt (arr_get (regs c) reg_index) in
  free_mem a proc.

(** [data] is an uninitialised local: [junk] is what it holds. *)
Definition read (junk proc source offset destination : Z) : M mem_st Z :=
  let* c := get_proc_pcb proc in
  let* a := from_opt (arr_get (regs c) source) in
  let* (r, d) := read_mem (u64 (a + offset)) proc in
  if negb (r =? 0) then set_reg proc destination (u64 (default junk d)) ;;; ret 0 else ret 1.

Definition write (proc data destination offset : Z) : M mem_st Z :=
  let* c := get_proc_pcb proc in
  let* a := from_opt (arr_get (regs c) destination) in
  write_mem (u64 (a + offset)) proc data.
End Memory.

(** ** The address fields *)

(** The three fields of an address partition it. *)
Lemma address_split addr :
  0 <= addr < 2 ^ 64 ->
  addr = get_first_lv addr * 2 ^ (OFFSET_LEN + PAGE_LEN) + get_second_lv addr * PAGE_SIZE + get_offset addr /\
  0 <= get_second_lv addr < 2 ^ PAGE_LEN /\ 0 <= get_offset addr < PAGE_SIZE.
Proof.
  intros Ha. assert (Ho : get_offset addr = addr mod 2 ^ 10) by (apply (Z.land_ones addr 10); lia).
  assert (Hs : get_second_lv addr = addr / 2 ^ 10 - addr / 2 ^ 15 * 2 ^ 5).
  { unfold get_second_lv, get_first_lv, OFFSET_LEN, PAGE_LEN. rewrite !Z.shiftr_div_pow2, Z.shiftl_mul_pow2 by lia.
    change (10 + 5) with 15. rewrite (u64_small (_ * _)) by lia. apply u64_small. lia. }
  rewrite Ho, Hs. unfold get_first_lv, OFFSET_LEN, PAGE_LEN, PAGE_SIZE, OFFSET_LEN. rewrite Z.shiftr_div_pow2 by lia.
  change (10 + 5) with 15. lia.
Qed.

(** ** Properties *)

Lemma translate_fails a t s : translate a t s = Ok ((0, None), s).
Proof. done. Qed.

(** The old memory serves nothing, and [read] says it does.  For
    every process, address, size and page table: [alloc] reports failure and
    [write] an invalid address, both changing nothing; [free_data] reports
    success and frees nothing; [read_mem] reports an invalid address, and yet
    [read] of [cpu.c] returns 0, success, with whatever its uninitialised
    [data] held in the destination register. *)
Theorem legacy_memory_serves_nothing pt proc c s i j off v junk :
  m_procs s !! proc = Some c -> length (regs c) = 10%nat -> 0 <= i < 10 -> 0 <= j < 10 ->
  (forall size, alloc proc size i s = Ok (1, s)) /\
  write pt proc v i off s = Ok (1, s) /\
  free_data proc i s = Ok (0, s) /\
  (forall a, read_mem pt a proc s = Ok ((1, None), s)) /\
  read pt junk proc i off j s =
    Ok (0, mk_mem (_ram s) (_mem_stat s) (<[proc := set_regs (<[Z.to_nat j := u64 junk]> (regs c)) c]> (m_procs s))).
Proof.
  intros Hc Hl Hi Hj. destruct (arr_get_is_Some (regs c) i) as [a Ha]; [lia|].
  assert (Hget : get_proc_pcb proc s = Ok (c, s)) by (unfold get_proc_pcb, bind, gets, from_opt; by rewrite Hc).
  split_and!; [done| | |done|].
  - unfold write, bind. by rewrite Hget, Ha.
  - unfold free_data, bind. by rewrite Hget, Ha.
  - unfold read. unfold bind at 1. rewrite Hget. unfold bind at 1, from_opt at 1. rewrite Ha.
    unfold bind at 1. change (read_mem pt (u64 (a + off)) proc s) with (Ok ((1, @None Z), s)). simpl.
    unfold set_reg, bind. by rewrite Hget, arr_set_Some by lia.
Qed.

Definition demo_mem : mem_st :=
  mk_mem (replicate 16 7) [] {[ 20 := mk_pcb 1 0 (mk_code [] 0) (replicate 10 0) 0 0 1 0 0 ]}.

Lemma legacy_memory_serves_nothing_witness :
  read (fun _ => mk_ptable [] 0) 42 20 0 3 1 demo_mem =
  Ok (0, mk_mem (replicate 16 7) [] {[ 20 := mk_pcb 1 0 (mk_code [] 0) (0 :: 42 :: replicate 8 0) 0 0 1 0 0 ]}).
Proof.
  destruct (legacy_memory_serves_nothing (fun _ => mk_ptable [] 0) 20 (mk_pcb 1 0 (mk_code [] 0) (replicate 10 0) 0 0 1 0 0)
              demo_mem 0 1 3 0 42) as (_ & _ & _ & _ & H); [done|done|lia|lia|]. exact H.
Defined.
