(* ===== verification/Dump.v ===== *)
(** * Printing: the lists of [src/mm64.c], [MEMPHY_dump] and [dump]

    The functions that print the state, as the text they print.  A printer
    takes the text that follows, so a sequence of [printf] calls is a
    composition; numbers are printed with [dec] of [Loader], which the
    [scanf] of the same file reads back. *)

From S2P Require Import Prelude Queue Sched Pte MemPhy Kernel Loader Mem.
From Stdlib Require Import String Ascii.
Local Open Scope string_scope.
Local Open Scope Z_scope.

Definition printer : Type := string -> string.
Definition lit (t : string) : printer := String.append t.
Definition nl : printer := String newline.

(** [%d] of an [int], and hexadecimal in [w] digits, which is [%0wx] of a
    number below [16 ^ w]. *)
Definition dec_int (n : Z) : printer := fun s => if n <? 0 then lit "-" (dec (- n) s) else dec n s.
Definition hexit (d : Z) : ascii := ascii_of_N (Z.to_N (if d <? 10 then d + 48 else d + 87)).
Fixpoint hex (w : nat) (n : Z) : printer :=
  fun s => match w with O => s | S w => hex w (n / 16) (String (hexit (n mod 16)) s) end.
(** [%0wd] of a number that is not negative. *)
Definition dec_pad (w : nat) (n : Z) : printer :=
  fun s => let t := dec n EmptyString in
    String.append (string_of_list_ascii (replicate (w - String.length t) "0"%char)) (lit t s).
Definition dec_pad_int (w : nat) (n : Z) : printer :=
  fun s => if n <? 0 then lit "-" (dec_pad (w - 1) (- n) s) else dec_pad w n s.

(** ** The lists of [mm64.c]

    The four functions have one loop, with a line of its own for each kind of
    node. *)

Class PrintRow (A : Type) := print_row : A -> printer.

Fixpoint print_rows {A} `{PrintRow A} (l : list A) : printer :=
  fun s => match l with [] => s | x :: l => print_row x (print_rows l s) end.

(** The return code and the text; [last] is what the last [printf] prints. *)
Definition print_list {A} `{PrintRow A} (title : string) (last : printer) (l : list A) : Z * string :=
  match l with
  | [] => (-1, lit title (lit ": NULL list" (nl EmptyString)))
  | _ => (0, lit title (lit ": " (nl (print_rows l (last EmptyString)))))
  end.

Definition fp_row (fpn : Z) : printer := fun s => lit "fp[" (dec fpn (lit "]" (nl s))).
Definition rg_row (rg : vm_rg_struct) : printer :=
  fun s => lit "rg[" (dec (rg_start rg) (lit "->" (dec (rg_end rg) (lit "]" (nl s))))).
Definition vma_row (vma : vm_area_struct) : printer :=
  fun s => lit "va[" (dec (vm_start vma) (lit "->" (dec (vm_end vma) (lit "]" (nl s))))).
Definition pgn_row (pgn : Z) : printer := fun s => lit "va[" (dec pgn (lit "]-" (nl s))).
#[export] Instance print_fp : PrintRow Z := fp_row.
#[export] Instance print_rg : PrintRow vm_rg_struct := rg_row.
#[export] Instance print_vma : PrintRow vm_area_struct := vma_row.
(** Frames and pages are both numbers; the instance for pages is given by name. *)
Definition print_pgn : PrintRow Z := pgn_row.
#[global] Typeclasses Opaque print_fp print_rg print_vma print_pgn.

Definition print_list_fp (ifp : list Z) : Z * string := print_list "print_list_fp" nl ifp.
Definition print_list_rg (irg : list vm_rg_struct) : Z * string := print_list "print_list_rg" nl irg.
Definition print_list_vma (ivma : list vm_area_struct) : Z * string := print_list "print_list_vma" nl ivma.
(** The last [printf] prints the letter n. *)
Definition print_list_pgn (ip : list Z) : Z * string := @print_list Z print_pgn "print_list_pgn" (lit "n") ip.

(** ** [MEMPHY_dump] *)

Fixpoint dump_frames (l : list Z) (cnt : Z) : printer :=
  fun s => match l with
           | [] => lit "(total: " (dec_int cnt (lit ")" (nl s)))
           | fpn :: l => dec fpn (lit " " (dump_frames l (cnt + 1) s))
           end.

(** The bytes [i] to [i + n - 1]; [None] past the storage.  The argument of
    [%02x] is cast to [unsigned char]. *)
Fixpoint dump_storage (n : nat) (i : Z) (mp : memphy_struct) (s : string) : option string :=
  match n with
  | O => Some s
  | S n =>
      if in_storage mp i then
        rest ← dump_storage n (i + 1) mp s;
        Some ((if i mod 16 =? 0 then fun s => lit "  [" (hex 4 i (lit "] " s)) else id)
               (hex 2 (byte_at mp i mod 256) (lit " " ((if (i + 1) mod 16 =? 0 then nl else id) rest))))
      else None
  end.

Definition MEMPHY_dump (mp : option memphy_struct) : outcome (Z * string) :=
  match mp with
  | None => Ok (-1, EmptyString)
  | Some mp =>
      let dump_bytes := if maxsz mp <? 256 then maxsz mp else 256 in
      if dump_bytes - 1 <? - 2 ^ 31 then Undef else
      match dump_storage (Z.to_nat dump_bytes) 0 mp
              ((if Z.rem dump_bytes 16 =? 0 then id else nl) (lit "--------------------------------" (nl (nl EmptyString)))) with
      | Some rest =>
          Ok (0, nl (lit "---- MEMPHY DUMP (maxsz=" (dec_int (maxsz mp) (lit ") ----" (nl
                 (lit "Free frames : " (dump_frames (free_fp_list mp) 0
                 (lit "Used frames : " (dump_frames (used_fp_list mp) 0
                 (lit "Storage[0.." (dec_int (dump_bytes - 1) (lit "]:" (nl rest)))))))))))))
      | None => Undef
      end
  end.

(** ** [dump] of [mem.c] *)

(** The bytes [j] to [j + n - 1] that are not 0; [%02x] of a negative [char]
    prints eight digits. *)
Fixpoint dump_ram (ram : list Z) (n : nat) (j : Z) : printer :=
  fun s => match n with
           | O => s
           | S n =>
               let b := default 0 (arr_get ram j) in
               if b =? 0 then dump_ram ram n (j + 1) s
               else String (ascii_of_N 9) (hex 5 j (lit ": "
                      ((if b <? 0 then hex 8 (u32 b) else hex 2 b) (nl (dump_ram ram n (j + 1) s)))))
           end.

Fixpoint dump_pages (m : mem_st) (l : list mem_stat_t) (i : Z) : printer :=
  fun s => match l with
           | [] => s
           | st :: l =>
               if st_proc st =? 0 then dump_pages m l (i + 1) s
               else dec_pad 3 i (lit ": " (hex 5 (Z.shiftl i OFFSET_LEN) (lit "-" (hex 5 (Z.shiftl (i + 1) OFFSET_LEN - 1)
                    (lit " - PID: " (dec_pad_int 2 (i32 (st_proc st)) (lit " (idx " (dec_pad_int 3 (st_index st) (lit ", nxt: "
                    (dec_pad_int 3 (st_next st) (lit ")" (nl
                    (dump_ram (_ram m) (Z.to_nat (Z.shiftl (i + 1) OFFSET_LEN - 1 - Z.shiftl i OFFSET_LEN)) (Z.shiftl i OFFSET_LEN)
                    (dump_pages m l (i + 1) s))))))))))))))
           end.
Definition dump (m : mem_st) : string := dump_pages m (_mem_stat m) 0 EmptyString.

(** ** What is printed can be read back *)

Lemma lit_inj t s s' : lit t s = lit t s' -> s = s'.
Proof. unfold lit. induction t as [|c t IH]; simpl; [done|]. intros [= H]. auto. Qed.

Lemma nl_inj s s' : nl s = nl s' -> s = s'.
Proof. by intros [= H]. Qed.

Definition u64_ok (n : Z) : Prop := 0 <= n < 2 ^ 64.

(** A number ends where the text goes on with no digit. *)
Lemma dec_inj n n' s s' :
  u64_ok n -> u64_ok n' -> ends_number s -> ends_number s' -> dec n s = dec n' s' -> n = n' /\ s = s'.
Proof.
  intros Hn Hn' Hs Hs' H. pose proof (scan_lu_dec n s Hn Hs) as H1. rewrite H, (scan_lu_dec n' s' Hn' Hs') in H1.
  by injection H1.
Qed.

(** The rows of a list: when a node's line can be read back, what it tells of
    the node, and that it is not mistaken for the [last] text. *)
Class RowLaws {A B : Type} (row : PrintRow A) (last : printer) (ok : A -> Prop) (shown : A -> B) := {
  row_head x s s' : print_row x s <> last s';
  row_inj x x' s s' : ok x -> ok x' -> print_row x s = print_row x' s' -> shown x = shown x' /\ s = s';
}.

Lemma print_rows_inj {A B} {row : PrintRow A} {last ok} {shown : A -> B} `{!RowLaws row last ok shown} l l' :
  Forall ok l -> Forall ok l' -> print_rows l (last EmptyString) = print_rows l' (last EmptyString) -> shown <$> l = shown <$> l'.
Proof.
  intros Hl. revert l'. induction Hl as [|x l Hx _ IH]; intros l' Hl' Heq; destruct Hl' as [|x' l' Hx' Hl']; simpl in Heq.
  - done.
  - by apply eq_sym, row_head in Heq.
  - by apply row_head in Heq.
  - apply row_inj in Heq as [Hs Heq]; [|done|done]. simpl. rewrite Hs. f_equal. by apply IH.
Qed.

Lemma print_list_inj {A B} {row : PrintRow A} {last ok} {shown : A -> B} `{!RowLaws row last ok shown} title l l' :
  Forall ok l -> Forall ok l' -> print_list title last l = print_list title last l' -> shown <$> l = shown <$> l'.
Proof.
  intros Hl Hl' Heq. destruct l as [|x l], l' as [|x' l']; try done. unfold print_list in Heq.
  injection Heq as Heq. apply lit_inj, lit_inj in Heq. injection Heq as Heq. by apply print_rows_inj.
Qed.

#[export] Instance fp_laws : RowLaws print_fp nl u64_ok id.
Proof.
  split; [done|]. intros x x' s s' Hx Hx' Heq. unfold print_row, print_fp, fp_row in Heq. apply lit_inj in Heq.
  apply dec_inj in Heq as [-> Heq]; [|done..]. apply lit_inj in Heq. by injection Heq as ->.
Qed.

Definition rg_ok (rg : vm_rg_struct) : Prop := u64_ok (rg_start rg) /\ u64_ok (rg_end rg).
#[export] Instance rg_laws : RowLaws print_rg nl rg_ok (fun rg => (rg_start rg, rg_end rg)).
Proof.
  split; [done|]. intros x x' s s' [Hx1 Hx2] [Hx1' Hx2'] Heq. unfold print_row, print_rg, rg_row in Heq. apply lit_inj in Heq.
  apply dec_inj in Heq as [-> Heq]; [|done..]. apply lit_inj in Heq.
  apply dec_inj in Heq as [-> Heq]; [|done..]. apply lit_inj in Heq. by injection Heq as ->.
Qed.

Definition vma_ok (v : vm_area_struct) : Prop := u64_ok (vm_start v) /\ u64_ok (vm_end v).
#[export] Instance vma_laws : RowLaws print_vma nl vma_ok (fun v => (vm_start v, vm_end v)).
Proof.
  split; [done|]. intros x x' s s' [Hx1 Hx2] [Hx1' Hx2'] Heq. unfold print_row, print_vma, vma_row in Heq. apply lit_inj in Heq.
  apply dec_inj in Heq as [-> Heq]; [|done..]. apply lit_inj in Heq.
  apply dec_inj in Heq as [-> Heq]; [|done..]. apply lit_inj in Heq. by injection Heq as ->.
Qed.

#[export] Instance pgn_laws : RowLaws print_pgn (lit "n") u64_ok id.
Proof.
  split; [done|]. intros x x' s s' Hx Hx' Heq. unfold print_row, print_pgn, pgn_row in Heq. apply lit_inj in Heq.
  apply dec_inj in Heq as [-> Heq]; [|done..]. apply lit_inj in Heq. by injection Heq as ->.
Qed.

(** ** What a dump of a device shows *)

Lemma hexit_inj d d' : 0 <= d < 16 -> 0 <= d' < 16 -> hexit d = hexit d' -> d = d'.
Proof.
  intros Hd Hd' H. unfold hexit in H. apply (f_equal N_of_ascii) in H. rewrite !N_ascii_embedding in H.
  1: destruct (Z.ltb_spec d 10), (Z.ltb_spec d' 10); lia.
  all: destruct (Z.ltb_spec d 10), (Z.ltb_spec d' 10); lia.
Qed.

Lemma hex_inj w n n' s s' :
  0 <= n < 16 ^ Z.of_nat w -> 0 <= n' < 16 ^ Z.of_nat w -> hex w n s = hex w n' s' -> n = n' /\ s = s'.
Proof.
  revert n n' s s'. induction w as [|w IH]; intros n n' s s' Hn Hn' H; simpl in H; [simpl in *; split; [lia|done]|].
  rewrite Nat2Z.inj_succ, Z.pow_succ_r in Hn, Hn' by lia. apply IH in H as [Hq H]; [|lia..].
  injection H as Hh Hs. apply hexit_inj in Hh; [|lia..]. split; [lia|done].
Qed.

#[global] Arguments hex : simpl never.

Lemma dec_not_paren n s t : 0 <= n -> dec n s <> String "("%char t.
Proof.
  intros Hn H. unfold dec in H. destruct (dec_go_head 19 n s Hn) as (d & t' & Hd & Ht). rewrite Ht in H. injection H as H _.
  pose proof (digit_of_digit d Hd) as Hg. rewrite H in Hg. done.
Qed.

Lemma dec_int_inj n n' s s' :
  0 <= n < 2 ^ 31 -> 0 <= n' < 2 ^ 31 -> ends_number s -> ends_number s' -> dec_int n s = dec_int n' s' -> n = n' /\ s = s'.
Proof.
  intros Hn Hn' Hs Hs' H. unfold dec_int in H. rewrite (proj2 (Z.ltb_ge n 0)), (proj2 (Z.ltb_ge n' 0)) in H by lia.
  apply (dec_inj n n' s s'); [unfold u64_ok; lia|unfold u64_ok; lia|exact Hs|exact Hs'|exact H].
Qed.

Lemma dump_frames_inj l l' cnt s s' :
  Forall u64_ok l -> Forall u64_ok l' -> 0 <= cnt -> cnt + Z.of_nat (List.length l) < 2 ^ 31 ->
  dump_frames l cnt s = dump_frames l' cnt s' -> l = l' /\ s = s'.
Proof.
  intros Hl. revert l' cnt. induction Hl as [|x l Hx _ IH]; intros l' cnt Hl' Hc Hb H; destruct Hl' as [|x' l' Hx' Hl'];
    cbn [dump_frames List.length] in *.
  - apply lit_inj in H. apply dec_int_inj in H as [_ H]; [|lia|lia|done|done]. apply lit_inj in H. by injection H as ->.
  - by apply eq_sym, dec_not_paren in H; [|apply Hx'].
  - by apply dec_not_paren in H; [|apply Hx].
  - apply dec_inj in H as [-> H]; [|done..]. apply lit_inj in H. apply IH in H as [-> ->]; [done|done|lia|lia].
Qed.

Lemma dump_storage_inj n i mp mp' s s' t :
  0 <= i -> i + Z.of_nat n <= 65536 -> dump_storage n i mp s = Some t -> dump_storage n i mp' s' = Some t ->
  s = s' /\ forall j, i <= j < i + Z.of_nat n -> byte_at mp j mod 256 = byte_at mp' j mod 256.
Proof.
  revert i t. induction n as [|n IH]; intros i t Hi Hb H H'; cbn [dump_storage] in *.
  - injection H as ->. injection H' as ->. split; [done|lia].
  - destruct (in_storage mp i), (in_storage mp' i); try done.
    destruct (dump_storage n (i + 1) mp s) as [r|] eqn:Hr; [|done]. destruct (dump_storage n (i + 1) mp' s') as [r'|] eqn:Hr'; [|done].
    simpl in H, H'. injection H as H. injection H' as H'. rewrite <- H' in H. clear H'.
    assert (Hrow : hex 2 (byte_at mp i mod 256) (lit " " ((if (i + 1) mod 16 =? 0 then nl else id) r)) =
                   hex 2 (byte_at mp' i mod 256) (lit " " ((if (i + 1) mod 16 =? 0 then nl else id) r'))).
    { destruct (i mod 16 =? 0); [|done]. apply lit_inj, hex_inj in H as [_ H]; [|change (16 ^ Z.of_nat 4) with 65536; lia..]. by apply lit_inj in H. }
    apply hex_inj in Hrow as [Hbyte Hrow]; [|change (16 ^ Z.of_nat 2) with 256; lia..]. apply lit_inj in Hrow.
    assert (r = r') as <- by (destruct ((i + 1) mod 16 =? 0); [by injection Hrow|done]).
    destruct (IH (i + 1) r ltac:(lia) ltac:(lia) Hr Hr') as [-> Hj]. split; [done|]. intros j Hj'.
    destruct (decide (j = i)) as [->|]; [done|]. apply Hj. lia.
Qed.

Lemma dump_storage_defined n i mp s :
  0 <= i -> i + Z.of_nat n <= storage_len mp -> exists t, dump_storage n i mp s = Some t.
Proof.
  revert i. induction n as [|n IH]; intros i Hi Hn; [by eexists|]. cbn [dump_storage]. unfold in_storage.
  replace (_ && _) with true by lia. destruct (IH (i + 1)) as [t ->]; [lia..|]. by eexists.
Qed.

(** A device whose fields are as [init_memphy] and the frame operations leave
    them. *)
Record shows_ok (mp : memphy_struct) : Prop := {
  sh_max : 0 <= maxsz mp < 2 ^ 31;
  sh_store : Z.min (maxsz mp) 256 <= storage_len mp;
  sh_free : Forall u64_ok (free_fp_list mp) /\ Z.of_nat (List.length (free_fp_list mp)) < 2 ^ 31;
  sh_used : Forall u64_ok (used_fp_list mp) /\ Z.of_nat (List.length (used_fp_list mp)) < 2 ^ 31;
}.

(** The bytes that are dumped, and the whole text. *)
Definition dumped (mp : memphy_struct) : Z := Z.min (maxsz mp) 256.
Definition dump_end (n : Z) : string :=
  (if Z.rem n 16 =? 0 then id else nl) (lit "--------------------------------" (nl (nl EmptyString))).
Definition dump_text (mp : memphy_struct) (rest : string) : string :=
  nl (lit "---- MEMPHY DUMP (maxsz=" (dec_int (maxsz mp) (lit ") ----" (nl
     (lit "Free frames : " (dump_frames (free_fp_list mp) 0
     (lit "Used frames : " (dump_frames (used_fp_list mp) 0
     (lit "Storage[0.." (dec_int (dumped mp - 1) (lit "]:" (nl rest)))))))))))).

Lemma MEMPHY_dump_text mp :
  shows_ok mp -> exists rest, dump_storage (Z.to_nat (dumped mp)) 0 mp (dump_end (dumped mp)) = Some rest /\
    MEMPHY_dump (Some mp) = Ok (0, dump_text mp rest).
Proof.
  intros [Hm Hs _ _]. unfold dumped in *. destruct (dump_storage_defined (Z.to_nat (Z.min (maxsz mp) 256)) 0 mp
    (dump_end (Z.min (maxsz mp) 256))) as [rest Hr]; [lia|lia|]. exists rest. split; [done|].
  unfold MEMPHY_dump. assert ((if maxsz mp <? 256 then maxsz mp else 256) = Z.min (maxsz mp) 256) as ->
    by (destruct (Z.ltb_spec (maxsz mp) 256); lia).
  rewrite (proj2 (Z.ltb_ge (_ - 1) (- 2 ^ 31))) by lia. unfold dump_end in Hr. by rewrite Hr.
Qed.

Lemma ok_text_inj (a : Z) (t t' : string) : Ok (a, t) = Ok (a, t') -> t = t'.
Proof. by intros [= H]. Qed.

Lemma dump_text_inj mp mp' rest rest' :
  shows_ok mp -> shows_ok mp' -> dump_text mp rest = dump_text mp' rest' ->
  maxsz mp = maxsz mp' /\ free_fp_list mp = free_fp_list mp' /\ used_fp_list mp = used_fp_list mp' /\ (1 <= maxsz mp -> rest = rest').
Proof.
  intros [Hm _ [Hf Hfl] [Hu Hul]] [Hm' _ [Hf' _] [Hu' _]] H. unfold dump_text in H. apply nl_inj in H.
  apply lit_inj in H. apply dec_int_inj in H as [Hmax H]; [|done..]. apply lit_inj in H. apply nl_inj in H.
  apply lit_inj in H. apply dump_frames_inj in H as [Hfree H]; [|done|done|lia|lia].
  apply lit_inj in H. apply dump_frames_inj in H as [Hused H]; [|done|done|lia|lia]. split_and!; [done..|].
  intros H1. apply lit_inj in H. apply dec_int_inj in H as [_ H]; [|unfold dumped; lia|unfold dumped; lia|done|done].
  apply lit_inj in H. by apply nl_inj in H.
Qed.

(** No page of the old memory is ever in use, so [dump] prints nothing. *)
Lemma dump_silent m : Forall (fun st => st_proc st = 0) (_mem_stat m) -> dump m = EmptyString.
Proof. intros H. unfold dump. generalize 0. induction H as [|st l Hst _ IH]; intros i; simpl; [done|]. rewrite Hst. apply IH. Qed.

(** ** Properties *)

(** The printed lists can be read back.  [print_list_fp],
    [print_list_rg], [print_list_vma] and [print_list_pgn] answer -1 exactly
    on an empty list, and their text determines the list: two lists of frames
    or of pages with the same text are equal, and two lists of regions or of
    areas with the same text have the same bounds, node by node. *)
Theorem printed_lists_read_back l l' r r' v v' :
  Forall u64_ok l -> Forall u64_ok l' -> Forall rg_ok r -> Forall rg_ok r' -> Forall vma_ok v -> Forall vma_ok v' ->
  ((print_list_fp l).1 = -1 <-> l = []) /\ ((print_list_rg r).1 = -1 <-> r = []) /\
  (print_list_fp l = print_list_fp l' -> l = l') /\
  (print_list_pgn l = print_list_pgn l' -> l = l') /\
  (print_list_rg r = print_list_rg r' -> map (fun x => (rg_start x, rg_end x)) r = map (fun x => (rg_start x, rg_end x)) r') /\
  (print_list_vma v = print_list_vma v' -> map (fun x => (vm_start x, vm_end x)) v = map (fun x => (vm_start x, vm_end x)) v').
Proof.
  intros Hl Hl' Hr Hr' Hv Hv'. split; [by destruct l; split|]. split; [by destruct r; split|]. split_and!.
  - intros H. pose proof (print_list_inj (row := print_fp) (last := nl) "print_list_fp" l l' Hl Hl' H) as He. by rewrite !list_fmap_id in He.
  - intros H. pose proof (print_list_inj (row := print_pgn) (last := lit "n") "print_list_pgn" l l' Hl Hl' H) as He. by rewrite !list_fmap_id in He.
  - intros H. exact (print_list_inj "print_list_rg" r r' Hr Hr' H).
  - intros H. exact (print_list_inj "print_list_vma" v v' Hv Hv' H).
Qed.

Lemma printed_lists_read_back_witness :
  print_list_fp [3; 14] = (0, lit "print_list_fp: " (nl (lit "fp[3]" (nl (lit "fp[14]" (nl (nl EmptyString))))))) /\
  forall l, Forall u64_ok l -> print_list_fp [3; 14] = print_list_fp l -> [3; 14] = l.
Proof.
  split; [reflexivity|]. intros l Hl H. assert (H2 : Forall u64_ok [3; 14]) by (repeat constructor; unfold u64_ok; lia).
  destruct (printed_lists_read_back [3; 14] l [] [] [] [] H2 Hl) as (_ & _ & Hd & _); try apply Forall_nil_2. exact (Hd H).
Defined.

(** The dump of a device shows the device.  On a device as
    [init_memphy] and the frame operations leave it, [MEMPHY_dump] succeeds -
    it stays within the storage - and two devices with the same dump have the
    same size, the same free and used frames in the same order, and the same
    first bytes, up to 256 of them. *)
Theorem device_dump_shows mp mp' :
  shows_ok mp -> shows_ok mp' ->
  (exists t, MEMPHY_dump (Some mp) = Ok (0, t)) /\
  (MEMPHY_dump (Some mp) = MEMPHY_dump (Some mp') ->
   maxsz mp = maxsz mp' /\ free_fp_list mp = free_fp_list mp' /\ used_fp_list mp = used_fp_list mp' /\
   forall j, 0 <= j < Z.min (maxsz mp) 256 -> byte_at mp j mod 256 = byte_at mp' j mod 256).
Proof.
  intros Hok Hok'. destruct (MEMPHY_dump_text mp Hok) as (r & Hr & Ht), (MEMPHY_dump_text mp' Hok') as (r' & Hr' & Ht').
  rewrite Ht, Ht'. split; [by eexists|]. intros H. apply ok_text_inj in H. apply dump_text_inj in H as (Hm & Hf & Hu & Hrest); [|done|done].
  split_and!; [done..|]. intros j Hj. unfold dumped in *. rewrite <- Hm in *. rewrite <- Hrest in Hr' by lia.
  destruct (dump_storage_inj (Z.to_nat (Z.min (maxsz mp) 256)) 0 mp mp' _ _ r ltac:(lia) ltac:(lia) Hr Hr') as [_ Hb]. apply Hb. lia.
Qed.

Definition small_dev (b : Z) : memphy_struct := mk_memphy {[1 := b]} 20 20 1 0 [5; 0] [7].

Lemma small_shows b : shows_ok (small_dev b).
Proof. split; simpl; [lia|lia|split; [repeat constructor; unfold u64_ok; lia|lia]..]. Qed.

Lemma device_dump_shows_witness :
  (exists t, MEMPHY_dump (Some (small_dev 66)) = Ok (0, t)) /\ MEMPHY_dump (Some (small_dev 66)) <> MEMPHY_dump (Some (small_dev 67)).
Proof.
  destruct (device_dump_shows (small_dev 66) (small_dev 67) (small_shows 66) (small_shows 67)) as [Hd Hi].
  split; [exact Hd|]. intros H. destruct (Hi H) as (_ & _ & _ & Hb). specialize (Hb 1). vm_compute in Hb.
  assert (Hc : 66 = 67) by (apply Hb; split; [discriminate|reflexivity]). discriminate.
Defined.
