(* ===== verification/Mm32.v ===== *)
(** * 32-bit paging: [src/mm.c] and the 22-bit layout of [include/mm.h]

    Compiled when MM64 is not defined.  The descriptor's [pgd] is then one
    flat table of 32-bit entries; four functions still work on entries, the
    others print that the mode is deprecated and return 0.  The names of the
    functions are those of the MM64 build. *)

From S2P Require Import Prelude Pte MemPhy Kernel LibMem.
From Stdlib Require Import String.
Local Open Scope string_scope.
Local Open Scope Z_scope.

(** ** The number of bits of a size: [include/bitops.h] *)

Definition NBITS2 (n : Z) : Z := if negb (Z.land n 2 =? 0) then 1 else 0.
Definition NBITS4 (n : Z) : Z := if negb (Z.land n 0xC =? 0) then 2 + NBITS2 (Z.shiftr n 2) else NBITS2 n.
Definition NBITS8 (n : Z) : Z := if negb (Z.land n 0xF0 =? 0) then 4 + NBITS4 (Z.shiftr n 4) else NBITS4 n.
Definition NBITS16 (n : Z) : Z := if negb (Z.land n 0xFF00 =? 0) then 8 + NBITS8 (Z.shiftr n 8) else NBITS8 n.
Definition NBITS32 (n : Z) : Z :=
  if negb (Z.land n 0xFFFF0000 =? 0) then 16 + NBITS16 (Z.shiftr n 16) else NBITS16 n.
Definition NBITS (n : Z) : Z := if n =? 0 then 0 else NBITS32 n.

(** [nr] is an [uint32_t]. *)
Definition EXTRACT_NBITS (nr h l : Z) : Z := Z.shiftr (Z.land nr (GENMASK h l)) l.

(** ** The layout of addresses and devices: [include/mm.h] *)

Definition PAGING_CPU_BUS_WIDTH : Z := 22.
Definition PAGING_MEMRAMSZ : Z := BIT 21.
Definition PAGING_PAGE_ALIGNSZ (sz : Z) : Z := DIV_ROUND_UP sz PAGING_PAGESZ * PAGING_PAGESZ.
Definition PAGING_MEMSWPSZ : Z := BIT 29.
Definition PAGING_SBRK_INIT_SZ : Z := PAGING_PAGESZ.
Definition PAGING_PTE_RESERVE_MASK : Z := BIT 29.
Definition PAGING_PTE_EMPTY01_MASK : Z := BIT 14.
Definition PAGING_PTE_EMPTY02_MASK : Z := BIT 13.
Definition PAGING_PTE_SET_PRESENT (pte : Z) : Z := Z.lor pte PAGING_PTE_PRESENT_MASK.
Definition PAGING_PTE_USRNUM_LOBIT : Z := 15.
Definition PAGING_PTE_USRNUM_HIBIT : Z := 27.
Definition PAGING_PTE_USRNUM_MASK : Z := GENMASK PAGING_PTE_USRNUM_HIBIT PAGING_PTE_USRNUM_LOBIT.
Definition PAGING_ADDR_OFFST_LOBIT : Z := 0.
Definition PAGING_ADDR_OFFST_HIBIT : Z := NBITS PAGING_PAGESZ - 1.
Definition PAGING_ADDR_PGN_LOBIT : Z := NBITS PAGING_PAGESZ.
Definition PAGING_ADDR_PGN_HIBIT : Z := PAGING_CPU_BUS_WIDTH - 1.
Definition PAGING_ADDR_FPN_LOBIT : Z := NBITS PAGING_PAGESZ.
Definition PAGING_ADDR_FPN_HIBIT : Z := NBITS PAGING_MEMRAMSZ - 1.
Definition PAGING_SWP_LOBIT : Z := NBITS PAGING_PAGESZ.
Definition PAGING_SWP_HIBIT : Z := NBITS PAGING_MEMSWPSZ - 1.
Definition PAGING_OFFST_MASK : Z := GENMASK PAGING_ADDR_OFFST_HIBIT PAGING_ADDR_OFFST_LOBIT.
Definition PAGING_PGN_MASK : Z := GENMASK PAGING_ADDR_PGN_HIBIT PAGING_ADDR_PGN_LOBIT.
Definition PAGING_FPN_MASK : Z := GENMASK PAGING_ADDR_FPN_HIBIT PAGING_ADDR_FPN_LOBIT.
Definition PAGING_SWP_MASK : Z := GENMASK PAGING_SWP_HIBIT PAGING_SWP_LOBIT.
Definition PAGING_PTE_OFFST (pte : Z) : Z := GETVAL pte PAGING_OFFST_MASK PAGING_ADDR_OFFST_LOBIT.
Definition PAGING_PTE_PGN (pte : Z) : Z := GETVAL pte PAGING_PGN_MASK PAGING_ADDR_PGN_LOBIT.
Definition PAGING_PTE_FPN (pte : Z) : Z := GETVAL pte PAGING_PTE_FPN_MASK PAGING_PTE_FPN_LOBIT.
Definition PAGING_PTE_SWP (pte : Z) : Z := GETVAL pte PAGING_PTE_SWPOFF_MASK PAGING_SWPFPN_OFFSET.
Definition PAGING_OFFST (x : Z) : Z := GETVAL x PAGING_OFFST_MASK PAGING_ADDR_OFFST_LOBIT.
Definition PAGING_PGN (x : Z) : Z := GETVAL x PAGING_PGN_MASK PAGING_ADDR_PGN_LOBIT.

(** ** State *)

(** The tables by the address of their descriptor, the kernel's descriptor
    [krnl->mm], and the lines printed, the last first. *)
Record sys32 := mk_sys32 { pgds : gmap Z (list Z); krnl_mm : Z; printed : list string }.

Definition set_pgds (x : gmap Z (list Z)) (s : sys32) : sys32 := mk_sys32 x (krnl_mm s) (printed s).
Definition set_printed (x : list string) (s : sys32) : sys32 := mk_sys32 (pgds s) (krnl_mm s) x.

(** [caller->krnl->mm->pgd[pgn]], and the assignment to it *)
Definition get_entry (caller : pcb_t) (pgn : Z) : M sys32 Z :=
  if p_krnl caller =? NULL then undef
  else
    let* mm := gets krnl_mm in
    let* pgd := gets (fun s => pgds s !! mm) in
    let* pgd := from_opt pgd in
    from_opt (arr_get pgd pgn).
Definition put_entry (caller : pcb_t) (pgn v : Z) : M sys32 unit :=
  if p_krnl caller =? NULL then undef
  else
    let* mm := gets krnl_mm in
    let* pgd := gets (fun s => pgds s !! mm) in
    let* pgd := from_opt pgd in
    let* pgd := from_opt (arr_set pgd pgn v) in
    modify (fun s => set_pgds (<[mm := pgd]> (pgds s)) s).

(** ** Entries *)

(** [init_pte]: the result and the new value of [*pte]; [drt] is not used. *)
Definition init_pte (pte pre fpn drt swp swptyp swpoff : Z) : Z * Z :=
  if negb (pre =? 0) then
    if swp =? 0 then
      if fpn =? 0 then (-1, pte)
      else
        let pte := SETBIT pte PAGING_PTE_PRESENT_MASK in
        let pte := CLRBIT pte PAGING_PTE_SWAPPED_MASK in
        let pte := CLRBIT pte PAGING_PTE_DIRTY_MASK in
        (0, SETVAL pte fpn PAGING_PTE_FPN_MASK PAGING_PTE_FPN_LOBIT)
    else
      let pte := SETBIT pte PAGING_PTE_PRESENT_MASK in
      let pte := SETBIT pte PAGING_PTE_SWAPPED_MASK in
      let pte := CLRBIT pte PAGING_PTE_DIRTY_MASK in
      let pte := SETVAL pte swptyp PAGING_PTE_SWPTYP_MASK PAGING_PTE_SWPTYP_LOBIT in
      (0, SETVAL pte swpoff PAGING_PTE_SWPOFF_MASK PAGING_PTE_SWPOFF_LOBIT)
  else (0, pte).

Definition pte_set_swap (caller : pcb_t) (pgn swptyp swpoff : Z) : M sys32 Z :=
  let* pte := get_entry caller pgn in
  let pte := SETBIT pte PAGING_PTE_PRESENT_MASK in
  let pte := SETBIT pte PAGING_PTE_SWAPPED_MASK in
  let pte := SETVAL pte swptyp PAGING_PTE_SWPTYP_MASK PAGING_PTE_SWPTYP_LOBIT in
  let pte := SETVAL pte swpoff PAGING_PTE_SWPOFF_MASK PAGING_PTE_SWPOFF_LOBIT in
  put_entry caller pgn pte ;;;
  ret 0.

Definition pte_set_fpn (caller : pcb_t) (pgn fpn : Z) : M sys32 Z :=
  let* pte := get_entry caller pgn in
  let pte := SETBIT pte PAGING_PTE_PRESENT_MASK in
  let pte := CLRBIT pte PAGING_PTE_SWAPPED_MASK in
  let pte := SETVAL pte fpn PAGING_PTE_FPN_MASK PAGING_PTE_FPN_LOBIT in
  put_entry caller pgn pte ;;;
  ret 0.

Definition pte_set_entry (caller : pcb_t) (pgn pte_val : Z) : M sys32 Z :=
  put_entry caller pgn pte_val ;;;
  ret 0.

(** ** What is deprecated

    Pointers, for results too, are addresses; the arguments are not looked
    at. *)

Definition message (func : string) : string :=
  "[ERROR] " ++ func ++ ": This feature 32 bit mode is deprecated".
Definition deprecated (func : string) : M sys32 Z :=
  modify (fun s => set_printed (message func :: printed s) s) ;;;
  ret 0.

Definition get_pd_from_address (addr pgd p4d pud pmd pt : Z) : M sys32 Z := deprecated "get_pd_from_address".
Definition get_pd_from_pagenum (pgn pgd p4d pud pmd pt : Z) : M sys32 Z := deprecated "get_pd_from_pagenum".
Definition pte_get_entry (caller pgn : Z) : M sys32 Z := deprecated "pte_get_entry".
Definition vmap_pgd_memset (caller addr pgnum : Z) : M sys32 Z := deprecated "vmap_pgd_memset".
Definition vmap_page_range (caller addr pgnum frames ret_rg : Z) : M sys32 Z := deprecated "vmap_page_range".
Definition alloc_pages_range (caller req_pgnum frm_lst : Z) : M sys32 Z := deprecated "alloc_pages_range".
Definition vm_map_ram (caller astart aend mapstart incpgnum ret_rg : Z) : M sys32 Z := deprecated "vm_map_ram".
Definition __swap_cp_page (mpsrc srcfpn mpdst dstfpn : Z) : M sys32 Z := deprecated "__swap_cp_page".
Definition init_mm (mm caller : Z) : M sys32 Z := deprecated "init_mm".
Definition init_vm_rg (rg_start rg_end : Z) : M sys32 Z := deprecated "init_vm_rg".
Definition enlist_vm_rg_node (rglist rgnode : Z) : M sys32 Z := deprecated "enlist_vm_rg_node".
Definition enlist_pgn_node (plist pgn : Z) : M sys32 Z := deprecated "enlist_pgn_node".
Definition print_list_fp (ifp : Z) : M sys32 Z := deprecated "print_list_fp".
Definition print_list_rg (irg : Z) : M sys32 Z := deprecated "print_list_rg".
Definition print_list_vma (ivma : Z) : M sys32 Z := deprecated "print_list_vma".
Definition print_list_pgn (ip : Z) : M sys32 Z := deprecated "print_list_pgn".
Definition print_pgtbl (caller start end_ : Z) : M sys32 Z := deprecated "print_pgtbl".

(** ** [NBITS] is the logarithm *)

(** A test of the upper half of the bits and a step on either half. *)
Lemma nbits_step (k : Z) (mask : Z) (f g : Z -> Z) :
  0 < k -> mask = Z.shiftl (Z.ones k) k ->
  (forall n, 0 < n < 2 ^ k -> f n = Z.log2 n) ->
  (forall n, g n = if negb (Z.land n mask =? 0) then k + f (Z.shiftr n k) else f n) ->
  forall n, 0 < n < 2 ^ (2 * k) -> g n = Z.log2 n.
Proof.
  intros Hk Hmask Hf Hg n Hn. rewrite Hg.
  assert (Hland : Z.land n mask = Z.shiftl (Z.shiftr n k) k).
  { subst mask. apply Z.bits_inj'. intros i Hi. rewrite Z.land_spec, !Z.shiftl_spec by lia.
    destruct (Z.ltb_spec i k) as [Hlt|Hge].
    - rewrite !(Z.testbit_neg_r _ (i - k)) by lia. apply andb_false_r.
    - rewrite Z.shiftr_spec by lia. replace (i - k + k) with i by lia.
      destruct (Z.ltb_spec (i - k) k); [rewrite Z.ones_spec_low by lia; apply andb_true_r|].
      rewrite Z.ones_spec_high, andb_false_r by lia. symmetry. apply Z.bits_above_log2; [lia|].
      apply Z.log2_lt_pow2; [lia|]. eapply Z.lt_le_trans; [apply Hn|]. apply Z.pow_le_mono_r; lia. }
  rewrite Hland, Z.shiftl_mul_pow2, Z.shiftr_div_pow2 by lia.
  assert (Hp : 0 < 2 ^ k) by (apply Z.pow_pos_nonneg; lia).
  assert (Hsq : 2 ^ (2 * k) = 2 ^ k * 2 ^ k) by (rewrite <- Z.pow_add_r by lia; f_equal; lia).
  destruct (Z.eqb_spec (n / 2 ^ k * 2 ^ k) 0) as [Hz|Hz]; cbn [negb].
  - assert (Hq : n / 2 ^ k = 0) by nia. apply Hf. split; [lia|]. by apply Z.div_small_iff in Hq as [|]; lia.
  - assert (Hq : 0 < n / 2 ^ k < 2 ^ k).
    { split; [assert (0 <= n / 2 ^ k) by (apply Z.div_pos; lia); nia|]. apply Z.div_lt_upper_bound; nia. }
    rewrite Hf by done. rewrite <- Z.shiftr_div_pow2, Z.log2_shiftr by lia.
    pose proof (Z.mul_div_le n (2 ^ k) Hp). assert (k <= Z.log2 n) by (apply Z.log2_le_pow2; [lia|nia]). lia.
Qed.

(** [NBITS] of a positive [uint32_t] is its logarithm, rounded down: on a
    size that is a power of two, the number of address bits below it. *)
Theorem NBITS_log2 n : 0 < n < 2 ^ 32 -> NBITS n = Z.log2 n.
Proof.
  assert (H1 : forall n, 0 < n < 2 ^ 1 -> (fun _ => 0) n = Z.log2 n).
  { intros m Hm. by replace m with 1 by lia. }
  assert (H2 : forall n, 0 < n < 2 ^ (2 * 1) -> NBITS2 n = Z.log2 n).
  { apply (nbits_step 1 2 (fun _ => 0)); [done|done|done|]. intros m. unfold NBITS2. by rewrite Z.add_0_r. }
  pose proof (nbits_step 2 0xC NBITS2 NBITS4 ltac:(done) ltac:(done) H2 ltac:(done)) as H4.
  pose proof (nbits_step 4 0xF0 NBITS4 NBITS8 ltac:(done) ltac:(done) H4 ltac:(done)) as H8.
  pose proof (nbits_step 8 0xFF00 NBITS8 NBITS16 ltac:(done) ltac:(done) H8 ltac:(done)) as H16.
  pose proof (nbits_step 16 0xFFFF0000 NBITS16 NBITS32 ltac:(done) ltac:(done) H16 ltac:(done)) as H32.
  intros Hn. unfold NBITS. rewrite (proj2 (Z.eqb_neq n 0)) by lia. by apply H32.
Qed.

(** ** Addresses *)

(** A 22-bit address is its page and its offset, and the page is one of
    [PAGING_MAX_PGN]. *)
Theorem address_splits x :
  0 <= x < 2 ^ PAGING_CPU_BUS_WIDTH ->
  PAGING_PGN x = x / PAGING_PAGESZ /\ PAGING_OFFST x = x mod PAGING_PAGESZ /\ PAGING_PGN x < PAGING_MAX_PGN.
Proof.
  unfold PAGING_CPU_BUS_WIDTH. intros Hx.
  assert (Hb : forall i, 22 <= i -> Z.testbit x i = false).
  { intros i Hi. destruct (Z.eqb_spec x 0) as [->|Hne]; [apply Z.bits_0|]. apply Z.bits_above_log2; [lia|].
    apply Z.log2_lt_pow2; [lia|]. eapply Z.lt_le_trans; [apply Hx|]. apply Z.pow_le_mono_r; lia. }
  assert (Hpgn : PAGING_PGN x = x / PAGING_PAGESZ).
  { unfold PAGING_PAGESZ. change 256 with (2 ^ 8). rewrite <- Z.shiftr_div_pow2 by lia. unfold PAGING_PGN, GETVAL, PAGING_PGN_MASK.
    change PAGING_ADDR_PGN_HIBIT with 21. change PAGING_ADDR_PGN_LOBIT with 8.
    apply Z.bits_inj'. intros i Hi. autorewrite with bits. bits_cases. rewrite (Hb (i + 8)) by lia. done. }
  split; [done|]. split.
  - unfold PAGING_PAGESZ. change 256 with (2 ^ 8). fold (wrapU 8 x). unfold PAGING_OFFST, GETVAL, PAGING_OFFST_MASK.
    change PAGING_ADDR_OFFST_HIBIT with 7. change PAGING_ADDR_OFFST_LOBIT with 0.
    apply Z.bits_inj'. intros i Hi. autorewrite with bits. rewrite Z.add_0_r. bits_cases.
  - rewrite Hpgn. change PAGING_MAX_PGN with 16384. unfold PAGING_PAGESZ. lia.
Qed.

(** ** Entries *)

(** An entry of the flat table. *)
Definition entry_of (s : sys32) (pgn : Z) : option Z := pgd ← pgds s !! krnl_mm s; arr_get pgd pgn.

(** [s'] is [s] with [v] in entry [pgn]. *)
Record entry_set (pgn v : Z) (s s' : sys32) : Prop := {
  es_at : entry_of s' pgn = Some v;
  es_rest g : g <> pgn -> 0 <= g -> entry_of s' g = entry_of s g;
  es_tables q : q <> krnl_mm s -> pgds s' !! q = pgds s !! q;
  es_krnl : krnl_mm s' = krnl_mm s;
}.

Lemma put_entry_spec c pgn v0 v s (Q : unit -> sys32 -> Prop) :
  p_krnl c <> NULL -> entry_of s pgn = Some v0 -> (forall s', entry_set pgn v s s' -> Q tt s') -> wp (put_entry c pgn v) Q s.
Proof.
  unfold entry_of. intros Hk He HQ. destruct (pgds s !! krnl_mm s) as [pgd|] eqn:Hp; [|done]. simpl in He.
  apply arr_get_Some in He as [H0 Hl]. apply lookup_lt_Some in Hl.
  unfold put_entry. rewrite (proj2 (Z.eqb_neq _ _)) by done. wp_steps.
  eapply wp_from_opt; [apply arr_set_Some; lia|]. wp_steps. apply HQ. split; [| | |done]; unfold entry_of; simpl.
  - rewrite lookup_insert_eq. simpl. apply arr_get_insert. lia.
  - intros g Hg Hg0. rewrite lookup_insert_eq, Hp. simpl. apply arr_get_insert_ne; lia.
  - intros q Hq. by rewrite lookup_insert_ne.
Qed.

Lemma get_entry_spec c pgn v s (Q : Z -> sys32 -> Prop) :
  p_krnl c <> NULL -> entry_of s pgn = Some v -> Q v s -> wp (get_entry c pgn) Q s.
Proof.
  unfold entry_of. intros Hk He HQ. destruct (pgds s !! krnl_mm s) as [pgd|] eqn:Hp; [|done].
  unfold get_entry. rewrite (proj2 (Z.eqb_neq _ _)) by done. by wp_steps.
Qed.

(** [pte_set_fpn] stores what the MM64 build stores: the page reads as
    resident in its frame.  No other entry changes. *)
Theorem pte_set_fpn_entry c pgn fpn v s :
  p_krnl c <> NULL -> entry_of s pgn = Some v -> 0 <= fpn ->
  wp (pte_set_fpn c pgn fpn) (fun r s' => r = 0 /\ entry_set pgn (pte_fpn_val v fpn) s s' /\
    view (pte_fpn_val v fpn) = Resident (fpn mod 2 ^ 13)) s.
Proof.
  intros Hk He Hf. unfold pte_set_fpn. wp_step. eapply get_entry_spec; [done|done|]. wp_step.
  eapply put_entry_spec; [done|done|]. intros s' Hs'. wp_steps. split_and!; [done|done|by apply view_fpn_val].
Qed.

(** C38 (error): the 32-bit [pte_set_swap] loses the difference between swapped
    and resident.  It sets the present bit, where the MM64 build clears it: on
    any table and entry the call returns 0 and changes this entry alone; the
    swap offset can be read back, but the entry is marked present as well, and
    a reader that tests this bit first, as [pg_getpage] does, takes the page
    for resident, in a frame made of the swap type and the low bits of the
    swap offset. *)
Theorem pte_set_swap_resident c pgn swptyp swpoff v s :
  p_krnl c <> NULL -> entry_of s pgn = Some v -> 0 <= swptyp < 2 ^ 5 -> 0 <= swpoff ->
  wp (pte_set_swap c pgn swptyp swpoff) (fun r s' => r = 0 /\ exists e, entry_set pgn e s s' /\
    PAGING_PAGE_SWAPPED e = true /\ PAGING_SWP e = swpoff mod 2 ^ 21 /\
    view e = Resident (swptyp + 32 * (swpoff mod 2 ^ 8))) s.
Proof.
  intros Hk He Ht Ho. unfold pte_set_swap. wp_step. eapply get_entry_spec; [done|done|]. wp_step.
  eapply put_entry_spec; [done|done|]. intros s' Hs'. wp_steps. split; [done|]. eexists. split; [exact Hs'|].
  assert (Htb : forall i, 5 <= i -> Z.testbit swptyp i = false).
  { intros i Hi. destruct (Z.eqb_spec swptyp 0) as [->|Hne]; [apply Z.bits_0|]. apply Z.bits_above_log2; [lia|].
    apply Z.log2_lt_pow2; [lia|]. eapply Z.lt_le_trans; [apply Ht|]. apply Z.pow_le_mono_r; lia. }
  split_and!.
  - rewrite swapped_testbit. unfold_pte. autorewrite with bits. bits_cases.
  - apply Z.bits_inj'. intros i Hi. rewrite SWP_testbit by lia. fold (wrapU 21 swpoff). rewrite wrapU_testbit by lia.
    unfold_pte. autorewrite with bits. replace (i + 5 - 5) with i by lia. bits_cases.
  - unfold view. rewrite present_testbit.
    match goal with |- (if ?b then _ else _) = _ => replace b with true end.
    2: { symmetry. unfold_pte. autorewrite with bits. bits_cases. }
    f_equal. replace (swptyp + 32 * (swpoff mod 2 ^ 8)) with (Z.lor swptyp (Z.shiftl (wrapU 8 swpoff) 5)).
    + apply Z.bits_inj'. intros i Hi. rewrite FPN_testbit by lia. unfold_pte. autorewrite with bits.
      destruct (Z.ltb_spec i 5).
      * rewrite !(Z.testbit_neg_r _ (i - 5)), Z.sub_0_r by lia. bits_cases.
      * rewrite (Htb i) by lia. rewrite ?wrapU_testbit by lia. bits_cases.
    + rewrite Z.shiftl_mul_pow2 by lia. change (wrapU 8 swpoff) with (swpoff mod 2 ^ 8).
      rewrite (Z.mul_comm 32). change 32 with (2 ^ 5). rewrite <- Z.add_lor_land.
      replace (Z.land swptyp _) with 0; [by rewrite Z.add_0_r|]. symmetry.
      apply Z.bits_inj'. intros i Hi. rewrite Z.land_spec, Z.bits_0.
      destruct (Z.ltb_spec i 5); [by rewrite Z.mul_pow2_bits_low, andb_false_r by lia|by rewrite Htb by lia].
Qed.

(** [init_pte] refuses a resident page in frame 0; otherwise an entry for a
    resident page reads as such, and a swapped page's entry is as
    [pte_set_swap] makes it, marked clean. *)
Theorem init_pte_cases pte pre fpn drt swp swptyp swpoff :
  0 <= fpn ->
  let r := init_pte pte pre fpn drt swp swptyp swpoff in
  if pre =? 0 then r = (0, pte)
  else if swp =? 0 then if fpn =? 0 then r = (-1, pte) else r.1 = 0 /\ view r.2 = Resident (fpn mod 2 ^ 13)
  else r.1 = 0 /\ PAGING_PAGE_PRESENT r.2 = true /\ PAGING_PAGE_SWAPPED r.2 = true.
Proof.
  intros Hf r. unfold r, init_pte. destruct (pre =? 0); [done|]. destruct (swp =? 0); cbn [negb].
  - destruct (fpn =? 0); [done|]. split; [done|]. cbn [snd].
    rewrite <- (view_fpn_val (CLRBIT pte PAGING_PTE_DIRTY_MASK) fpn) by done. f_equal.
    apply Z.bits_inj'. intros i Hi. unfold_pte. autorewrite with bits. bits_cases.
  - split; [done|]. cbn [snd]. rewrite present_testbit, swapped_testbit. split; unfold_pte; autorewrite with bits; bits_cases.
Qed.

(** No entry is ever read back: whatever the table holds, [pte_get_entry]
    prints that it is deprecated and answers 0, an absent page. *)
Theorem pte_get_entry_absent caller pgn s :
  pte_get_entry caller pgn s = Ok (0, set_printed (message "pte_get_entry" :: printed s) s) /\ view 0 = Absent.
Proof. done. Qed.

(** ** A concrete table *)

Definition demo32 : sys32 := mk_sys32 {[5 := [0; 0; 7]]} 5 [].
Definition caller32 : pcb_t := mk_pcb 1 0 (mk_code [] 0) [] 0 0 1 0 5.

Lemma pte_set_swap_resident_witness :
  wp (pte_set_swap caller32 1 3 300) (fun r s' => r = 0 /\
    exists e, entry_of s' 1 = Some e /\ entry_of s' 2 = Some 7 /\ view e = Resident 1411) demo32.
Proof.
  eapply wp_mono; [apply (pte_set_swap_resident caller32 1 3 300 0 demo32); [done|reflexivity|lia|lia]|].
  intros r s' (-> & e & He & _ & _ & Hv). split; [done|]. exists e. split_and!; [apply He| |exact Hv].
  rewrite (es_rest _ _ _ _ He) by lia. reflexivity.
Defined.
