(* ===== verification/Demo.v ===== *)
(** * A concrete machine, on which the theorems about memory are applied

    Two processes, a RAM and a swap device of two frames each; process 1 owns
    the region [0, 100) as symbol 0.  No page is mapped at the start. *)

From S2P Require Import Prelude Pte MemPhy Kernel PageTable Mm64 MmVm Syscall LibMem VMem UserMem Alloc Kmem.

Definition demo_dev : memphy_struct := mk_memphy ∅ 8192 8192 1 0 [0; 1] [].

Definition no_region : vm_rg_struct := mk_rg None 0 0.
Definition demo_mm (root : Z) (vma : vm_area_struct) (rg0 : vm_rg_struct) : mm_struct :=
  mk_mm root [vma] (rg0 :: replicate 29 no_region) [] None (mk_stats 0 0 0 1 4096).

(** The area of a process that has just been initialised, and of one whose
    first page is in use. *)
Definition vma_fresh : vm_area_struct := mk_vma 0 0 0 0 [no_region].
Definition vma_used : vm_area_struct := mk_vma 0 0 4096 4096 [mk_rg None 100 4096].

Definition demo_pcb (pid mm : Z) : pcb_t := mk_pcb pid 0 (mk_code [] 0) (replicate 10 0) 0 0 1 0 mm.
Definition proc1 : pcb_t := demo_pcb 1 1.
Definition proc2 : pcb_t := demo_pcb 2 2.

Definition demo_os : krnl_t := mk_krnl (NULL :: 20 :: 21 :: replicate 252 NULL) NULL 100 101.

Definition mm1 : mm_struct := demo_mm 4096 vma_used (mk_rg None 0 100).
Definition mm2 : mm_struct := demo_mm 8192 vma_fresh no_region.

(** With both devices like [dev], and [rg2] as symbol 0 of process 2. *)
Definition demo_with (dev : memphy_struct) (rg2 : vm_rg_struct) : sys :=
  mk_sys {[1 := mm1; 2 := demo_mm 8192 vma_fresh rg2]} {[100 := dev; 101 := dev]} {[20 := proc1; 21 := proc2]}
         demo_os (mk_heap {[4096 := ∅; 8192 := ∅]} 12288) [].

Definition demo : sys := demo_with demo_dev no_region.

Section With.
Context (dev : memphy_struct) (rg2 : vm_rg_struct).
Hypothesis Hdev : dev_ok dev.
Hypothesis Hlen : storage_len dev <= 2 ^ 25.
Hypothesis Hfr : frames_wf dev.

Lemma demo_with_pt_wf : pt_wf (demo_with dev rg2).
Proof.
  exists {[4096 := (1, []); 8192 := (2, [])]}.
  assert (Htab : forall a t, tables (heap (demo_with dev rg2)) !! a = Some t -> (a = 4096 \/ a = 8192) /\ t = ∅).
  { intros a t. simpl. rewrite lookup_insert, lookup_singleton. repeat case_decide; intros; simplify_eq; auto. }
  split.
  - intros a. simpl. rewrite !lookup_insert, !lookup_singleton. repeat case_decide; eauto; by intros [? ?].
  - intros a [t Ht]. apply Htab in Ht as [Ha _]. simpl. lia.
  - simpl. lia.
  - intros p m. simpl. rewrite lookup_insert, lookup_singleton. repeat case_decide; intros; simplify_eq; done.
  - intros a p path i e t _ _ Ht He. apply Htab in Ht as [_ ->]. by rewrite lookup_empty in He.
Qed.

Lemma demo_with_absent p g : view_of (demo_with dev rg2) p g = Absent.
Proof.
  unfold view_of, pte_of. replace (pte_slot (demo_with dev rg2) p g) with (@None (Z * Z)); [done|].
  unfold pte_slot. symmetry. destruct (mms (demo_with dev rg2) !! p) as [m|] eqn:Hm; [|done]. simpl.
  rewrite dirs_of_eq. cbn [walk].
  assert (Hr : tables (heap (demo_with dev rg2)) !! pgd m = Some ∅).
  { revert Hm. simpl. rewrite lookup_insert, lookup_singleton. repeat case_decide; intros; simplify_eq; done. }
  simpl in Hr. by rewrite Hr, lookup_empty.
Qed.

Lemma demo_with_inv : mem_inv (demo_with dev rg2) dev dev.
Proof.
  split.
  - split; try done. apply demo_with_pt_wf.
  - split; try (intros p g *; rewrite ?demo_with_absent; done); try apply Hfr.
    + intros p l g. unfold fifo_of. simpl. rewrite lookup_insert, lookup_singleton.
      repeat case_decide; intros Hf; simplify_eq/=; by intros ?%elem_of_nil.
    + intros p l. unfold fifo_of. simpl. rewrite lookup_insert, lookup_singleton.
      repeat case_decide; intros Hf; simplify_eq/=; constructor.
Qed.

End With.

Lemma demo_frames_wf : frames_wf demo_dev.
Proof. split; [apply (bool_decide_unpack _); done|repeat constructor; lia]. Qed.

Lemma demo_pt_wf : pt_wf demo.
Proof. apply demo_with_pt_wf. Qed.
Lemma demo_absent p g : view_of demo p g = Absent.
Proof. apply demo_with_absent. Qed.
Lemma demo_inv : mem_inv demo demo_dev demo_dev.
Proof. apply demo_with_inv; [by split|done|apply demo_frames_wf]. Qed.

Lemma demo_caller1 : caller_ok proc1 demo mm1.
Proof. by split. Qed.
Lemma demo_caller2 : caller_ok proc2 demo mm2.
Proof. by split. Qed.
Lemma demo_registered1 : registered proc1 demo.
Proof. split; [unfold PID_MAX; simpl; lia|]. by exists 20. Qed.
Lemma demo_registered2 : registered proc2 demo.
Proof. split; [unfold PID_MAX; simpl; lia|]. by exists 21. Qed.

Lemma demo_fits f : 0 <= f <= 1 -> fits demo_dev f.
Proof. intros H. unfold fits, PAGING64_PAGESZ; simpl. lia. Qed.
Lemma demo_next_fits : next_fits demo_dev.
Proof. apply demo_fits. lia. Qed.

Lemma demo_fault_fits a : fault_fits proc1 demo demo_dev demo_dev a.
Proof. intros _. split; apply demo_next_fits. Qed.

Lemma demo_in_region : in_region mm1 0 42 (mk_rg None 0 100).
Proof. split; [unfold PAGING_MAX_SYMTBL_SZ; lia|]. split; [done|]. simpl. lia. Qed.

Lemma demo_can_serve : can_serve mm1 demo_dev demo_dev.
Proof. by left. Qed.

Lemma demo_kstate : kstate demo demo_dev.
Proof. by eapply mem_inv_kstate, demo_inv. Qed.

Lemma no_region_cover n x : cover (replicate n no_region) x = 0.
Proof. induction n as [|n IH]; simpl; [done|]. rewrite IH. unfold no_region. by rewrite cnt_empty. Qed.

Lemma demo_reg_inv1 : reg_inv mm1 vma_used 1.
Proof.
  split; try done; try (unfold PAGING64_PAGESZ; simpl; lia).
  - unfold regions. apply Forall_app. split; repeat constructor; simpl; lia.
  - intros x. unfold regions. rewrite cover_app. simpl cover at 2.
    change (symrgtbl mm1) with (mk_rg None 0 100 :: replicate 29 no_region). cbn [cover].
    rewrite no_region_cover. pose proof (cnt_split None None None 0 100 4096 x ltac:(lia)).
    pose proof (cnt_range (mk_rg None 0 4096) x). lia.
Qed.

(** ** Page-table entries and frames *)

Lemma entry_update_isolated_witness :
  wp (let* r := pte_set_fpn (Some proc1) (2 ^ 44 + 5) 8193 in
      let* v := pte_get_entry (Some proc1) (2 ^ 44 + 5) in ret (r, view v))
     (fun r s' => r = (0, Resident 1) /\ pte_of s' 2 (2 ^ 44 + 5) = pte_of demo 2 (2 ^ 44 + 5)) demo.
Proof.
  destruct (entry_update_isolated proc1 mm1 (2 ^ 44 + 5) 8193 demo) as [Hfpn _].
  - apply demo_pt_wf.
  - apply demo_caller1.
  - unfold valid_pgn; lia.
  - reflexivity.
  - lia.
  - eapply wp_mono; [exact Hfpn|].
    intros r s' (-> & _ & H). split; [reflexivity|]. apply H. intros Heq. inversion Heq.
Defined.

Lemma alloc_pages_all_or_nothing_witness :
  wp (alloc_pages_range (Some proc1) 2 []) (fun r s' => r = (0, [0; 1])) demo /\
  wp (alloc_pages_range (Some proc1) 3 []) (fun r s' => r = (u64 (-3000), [])) demo.
Proof.
  split; (eapply wp_mono; [eapply (alloc_pages_all_or_nothing proc1 _ demo_dev demo);
                           [done|done|done|repeat constructor; lia]|]);
    intros r s' [(-> & Hn & _)|(-> & Hn & _)]; try done; simpl in Hn.
  - destruct Hn as [Hn|[]]; [lia|done].
  - lia.
Defined.

(** Page 1 of device 100 is copied to page 0 of device 101. *)
Lemma swap_copies_page_witness :
  wp (__swap_cp_page 100 1 101 0) (fun r s' => r = 0 /\ exists dd',
    devs s' !! 101 = Some dd' /\ fbyte dd' 0 77 = 0 /\ fbyte dd' 1 5 = fbyte demo_dev 1 5) demo.
Proof.
  eapply wp_mono; [apply (swap_copies_page 100 1 101 0 demo_dev demo_dev demo)|]; try done.
  intros r s' (-> & dd' & -> & _ & _ & Hc & Ho). split; [reflexivity|]. exists dd'.
  split_and!; [reflexivity|rewrite Hc; [reflexivity|unfold PAGING64_PAGESZ; lia]|].
  apply Ho; [lia|unfold PAGING64_PAGESZ; lia].
Defined.

(** ** Virtual memory areas *)

Lemma overlap_check_exact_witness :
  wp (validate_overlap_vm_area (Some proc1) 1 4096 8192) (fun r s' => s' = demo /\ r = 0) demo /\
  wp (validate_overlap_vm_area (Some proc1) 1 4000 8192) (fun r s' => s' = demo /\ r = -1) demo.
Proof.
  split; (eapply wp_mono; [apply (overlap_check_exact proc1 mm1); [apply demo_caller1|repeat constructor; simpl; lia]|]);
    intros r s' (-> & Hr & H1 & H2); (split; [reflexivity|]).
  - apply H2. split; [done|]. split; [lia|]. intros v ->%list_elem_of_singleton _. unfold clear_of. simpl. intros x Hx. lia.
  - destruct Hr as [Hr|Hr]; [|exact Hr]. destruct (H1 Hr) as (_ & _ & H).
    specialize (H vma_used ltac:(by left) ltac:(done)). unfold clear_of in H. simpl in H. destruct (H 4000); lia.
Defined.

(** Growing by two pages takes both frames; growing by three finds RAM short
    and still reports success. *)
Lemma inc_vma_limit_ignores_failure_witness :
  wp (inc_vma_limit (Some proc1) 0 8192) (fun r s' => r = 0 /\
        pte_of s' 1 1 = pte_fpn_val 0 0 /\ pte_of s' 1 2 = pte_fpn_val 0 1) demo /\
  wp (inc_vma_limit (Some proc1) 0 8193) (fun r s' => r = 0 /\
        (forall q g, pte_of s' q g = pte_of demo q g) /\
        exists m' v', mms s' !! 1 = Some m' /\ mmap m' !! 0%nat = Some v' /\ vm_end v' = 4 * PAGING64_PAGESZ) demo.
Proof.
  split.
  - eapply wp_mono; [apply (inc_vma_limit_ignores_failure proc1 mm1 0 8192 0 vma_used 1 2 demo_dev demo)|];
      try done; try apply demo_pt_wf; [repeat constructor; lia|].
    intros r s' (-> & _ & H). cbn [decide] in H. split_and!; [reflexivity|apply (H 0 0)|apply (H 1 1)]; done || lia.
  - eapply wp_mono; [apply (inc_vma_limit_ignores_failure proc1 mm1 0 8193 0 vma_used 1 3 demo_dev demo)|];
      try done; try apply demo_pt_wf; [repeat constructor; lia|].
    intros r s' (-> & (m' & v' & H1 & H2 & H3 & _) & H). split_and!; [reflexivity|apply H|by exists m', v'].
Defined.

(** ** Demand paging *)

Lemma page_fault_transparent_witness :
  wp (pg_getpage 0 proc1) (fun r s' => exists rd' sd' f,
    mem_inv s' rd' sd' /\ r = (0, Some f) /\ view_of s' 1 0 = Resident f) demo.
Proof.
  eapply wp_mono; [apply (page_fault_transparent proc1 mm1 0 demo demo_dev demo_dev)|].
  - apply demo_inv.
  - apply demo_caller1.
  - apply demo_registered1.
  - intros _. split; apply demo_next_fits.
  - lia.
  - intros r s' (rd' & sd' & Hi & _ & _ & _ & [(f & -> & Hf)|(_ & Hn & _)] & _).
    + by exists rd', sd', f.
    + destruct Hn. apply demo_can_serve.
Defined.

Lemma victims_in_fifo_order_witness :
  wp (enlist_all 1 [7; 3; 9] ;;; victims 1 3) (fun r _ => r = [Some 7; Some 3; Some 9]) demo.
Proof. apply (victims_in_fifo_order 1 mm1 [] [7; 3; 9] demo); reflexivity. Defined.

(** ** User memory *)

Lemma user_write_frame_witness :
  wp (__write (Some proc1) 0 0 42 (-7)) (fun r s' => exists rd' sd',
    mem_inv s' rd' sd' /\ r = 0 /\ ubyte s' rd' sd' 1 42 = Some (-7)) demo.
Proof.
  eapply wp_mono; [apply (user_write_frame proc1 mm1 demo demo_dev demo_dev 0 0 42 (mk_rg None 0 100) (-7))|].
  - apply demo_inv.
  - apply demo_caller1.
  - apply demo_registered1.
  - apply demo_in_region.
  - apply demo_fault_fits.
  - lia.
  - intros r s' (rd' & sd' & Hi & _ & [(-> & Hb & _)|(_ & Hn & _)]).
    + by exists rd', sd'.
    + destruct Hn. apply demo_can_serve.
Defined.

Lemma user_write_read_back_witness :
  wp (let* w := __write (Some proc1) 0 0 42 (-7) in
      if w =? 0 then __read_user_mem (Some proc1) 0 0 42 else ret (w, None)) (fun r _ => r = (0, Some (-7))) demo.
Proof.
  eapply wp_mono; [apply (user_write_read_back proc1 mm1 demo demo_dev demo_dev 0 0 42 (mk_rg None 0 100) (-7))|].
  - apply demo_inv.
  - apply demo_caller1.
  - apply demo_registered1.
  - apply demo_in_region.
  - apply demo_fault_fits.
  - lia.
  - intros r s' [->|[_ Hn]]; [reflexivity|]. destruct Hn. apply demo_can_serve.
Defined.

Lemma kernel_reads_user_byte_witness :
  wp (__read_user_mem (Some proc1) 0 0 42) (fun r s' => exists b, r = (0, Some b)) demo.
Proof.
  eapply wp_mono; [apply (kernel_reads_user_byte proc1 mm1 demo demo_dev demo_dev 0 0 42 (mk_rg None 0 100))|].
  - apply demo_inv.
  - apply demo_caller1.
  - apply demo_registered1.
  - apply demo_in_region.
  - apply demo_fault_fits.
  - intros r s' (rd' & sd' & _ & _ & [(b & -> & _)|(_ & Hn)]); [by exists b|].
    destruct Hn. apply demo_can_serve.
Defined.

Lemma access_outside_region_rejected_witness :
  wp (__write (Some proc1) 0 0 100 1) (fun r s' => r = -1 /\ s' = demo) demo /\
  wp (__write (Some proc1) 0 1 0 1) (fun r s' => r = -1 /\ s' = demo) demo.
Proof.
  split.
  - apply (access_outside_region_rejected proc1 mm1 demo 0 0 100 (mk_rg None 0 100) 1); [apply demo_caller1|].
    split; [unfold PAGING_MAX_SYMTBL_SZ; lia|]. split; [done|]. right. by vm_compute.
  - apply (access_outside_region_rejected proc1 mm1 demo 0 1 0 no_region 1); [apply demo_caller1|].
    split; [unfold PAGING_MAX_SYMTBL_SZ; lia|]. split; [done|]. by left.
Defined.

Lemma read_delivers_no_value_witness :
  wp (__read (Some proc1) 0 0 42) (fun r s' => r = (0, None)) demo.
Proof.
  eapply wp_mono; [apply (read_delivers_no_value proc1 mm1 demo demo_dev demo_dev 0 0 42 (mk_rg None 0 100))|].
  - apply demo_inv.
  - apply demo_caller1.
  - apply demo_registered1.
  - apply demo_in_region.
  - apply demo_fault_fits.
  - intros [r b] s' (Hb & rd' & sd' & _ & [Hr|[_ Hn]] & _); simpl in *; [by subst|]. destruct Hn. apply demo_can_serve.
Defined.

(** ** Regions *)

Lemma demo_reg_inv2 : reg_inv mm2 vma_fresh 0.
Proof.
  split; try done; try (unfold PAGING64_PAGESZ; simpl; lia).
  - unfold regions. apply Forall_app. split; repeat constructor; simpl; lia.
  - intros x. unfold regions. rewrite cover_app. simpl cover at 2.
    change (symrgtbl mm2) with (replicate 30 no_region). rewrite no_region_cover.
    unfold no_region. rewrite cnt_empty. lia.
Qed.

(** Process 1 allocates from the free region [100, 4096) of its area. *)
Lemma alloc_fresh_region_witness :
  wp (__alloc (Some proc1) 0 1 300) (fun r s' => exists a m' rg, r = (0, Some a) /\ mms s' !! 1 = Some m' /\
        arr_get (symrgtbl m') 1 = Some rg /\ rg_end rg = a + 300 /\
        arr_get (symrgtbl m') 0 = Some (mk_rg None 0 100)) demo.
Proof.
  eapply wp_mono; [apply (alloc_fresh_region proc1 mm1 vma_used 1 demo_dev 1 300 demo)|].
  - apply demo_kstate.
  - apply demo_caller1.
  - apply demo_registered1.
  - apply demo_reg_inv1.
  - unfold PAGING_MAX_SYMTBL_SZ; lia.
  - lia.
  - lia.
  - intros r s' (a & m' & v' & e' & rg & -> & Hm & _ & _ & Hrg & _ & He & _ & Ho).
    exists a, m', rg. split_and!; [done|done|done|done|]. rewrite (Ho 0); [reflexivity|lia|lia].
Defined.

Lemma free_recycles_region_witness :
  wp (__free (Some proc1) 0 0) (fun r s' => r = 0 /\ exists m' v',
        mms s' !! 1 = Some m' /\ mk_rg None 0 100 ∈ vm_freerg_list v') demo /\
  wp (__free (Some proc1) 0 1) (fun r s' => r = -1 /\ s' = demo) demo /\
  wp (__free (Some proc1) 0 0) (fun r s' => r = -1 /\ s' = demo) (set_host [true] demo).
Proof.
  split_and!.
  - eapply wp_mono; [apply (free_recycles_region proc1 mm1 vma_used 1 0 (mk_rg None 0 100) demo)|].
    + apply demo_kstate.
    + apply demo_caller1.
    + apply demo_reg_inv1.
    + unfold PAGING_MAX_SYMTBL_SZ; lia.
    + reflexivity.
    + intros r s' H. simpl in H. destruct H as (-> & _ & m' & v' & rg' & Hm & _ & _ & _ & Hin & _).
      split; [reflexivity|]. exists m', v'. split; [exact Hm|]. apply Hin. lia.
  - apply (free_recycles_region proc1 mm1 vma_used 1 1 no_region demo).
    + apply demo_kstate.
    + apply demo_caller1.
    + apply demo_reg_inv1.
    + unfold PAGING_MAX_SYMTBL_SZ; lia.
    + reflexivity.
  - eapply wp_mono; [apply (free_recycles_region proc1 mm1 vma_used 1 0 (mk_rg None 0 100) (set_host [true] demo))|].
    + destruct demo_pt_wf as [ow H]. exists ow. by apply pt_wf_host.
    + by split.
    + apply demo_reg_inv1.
    + unfold PAGING_MAX_SYMTBL_SZ; lia.
    + reflexivity.
    + intros r s' H. simpl in H. destruct H as [-> ->]. split; reflexivity.
Defined.

(** Process 2 allocates its first page, which RAM can back. *)
Lemma alloc_keeps_memory_witness :
  wp (__alloc (Some proc2) 0 0 300) (fun r s' => exists a rd', r = (0, Some a) /\
        mem_inv s' rd' demo_dev /\ bytes_kept (view_of demo) demo_dev demo_dev (view_of s') rd' demo_dev) demo.
Proof.
  eapply wp_mono; [apply (alloc_keeps_memory proc2 mm2 vma_fresh 0 0 300 demo demo_dev demo_dev)|].
  - apply demo_inv.
  - apply demo_caller2.
  - apply demo_registered2.
  - apply demo_reg_inv2.
  - intros g _. apply demo_absent.
  - unfold PAGING_MAX_SYMTBL_SZ; lia.
  - lia.
  - lia.
  - repeat constructor; unfold fits, PAGING64_PAGESZ; simpl; lia.
  - intros r s' (a & m' & v' & e' & rd' & -> & _ & _ & Hi & Hb & _). by exists a, rd'.
Defined.

(** ** A machine with kernel memory

    As [demo], with the kernel's address space at 3: its region 0 is
    [0, 64), in page 0, which is in frame 0 of RAM, and its pool 2 has five
    slots of 16 bytes left. *)

Definition kdev : memphy_struct := mk_memphy {[7 := 65]} 8192 8192 1 0 [1] [0].

Definition kpools : list kcache_pool_struct := <[2%nat := mk_pool 80 16 8192000]> empty_pools.

Definition rg_two_pages : vm_rg_struct := mk_rg (Some (-1)) 4090 5000.
Definition kmm : mm_struct :=
  mk_mm 12288 [vma_fresh] (mk_rg (Some (-1)) 0 64 :: rg_two_pages :: replicate 28 no_region) [] (Some kpools)
        (mk_stats 0 0 0 5 20480).

Definition kos : krnl_t := mk_krnl (NULL :: 20 :: 21 :: replicate 252 NULL) 3 100 101.

Definition ktables : gmap Z (gmap Z Z) :=
  {[4096 := ∅; 8192 := ∅; 12288 := {[0 := 16384]}; 16384 := {[0 := 20480]}; 20480 := {[0 := 24576]};
    24576 := {[0 := 28672]}; 28672 := {[0 := pte_fpn_val 0 0]}]}.

Definition kdemo : sys :=
  mk_sys {[1 := mm1; 2 := mm2; 3 := kmm]} {[100 := kdev; 101 := demo_dev]} {[20 := proc1; 21 := proc2]}
         kos (mk_heap ktables 32768) [].

Ltac cases_lookup H :=
  rewrite ?lookup_insert, ?lookup_singleton in H; repeat case_decide; simplify_eq/=.

Lemma ktables_lookup a t : ktables !! a = Some t ->
  t = ∅ \/ exists x, t = {[0 := x]} /\
    In (a, x) [(12288, 16384); (16384, 20480); (20480, 24576); (24576, 28672); (28672, pte_fpn_val 0 0)].
Proof.
  intros H. unfold ktables in H. cases_lookup H; first [by left | right; eexists; split; [reflexivity|simpl; tauto]].
Qed.

Lemma kdemo_pt_wf : pt_wf kdemo.
Proof.
  exists {[4096 := (1, []); 8192 := (2, []); 12288 := (3, []); 16384 := (3, [0]); 20480 := (3, [0; 0]);
           24576 := (3, [0; 0; 0]); 28672 := (3, [0; 0; 0; 0])]}.
  split.
  - intros a [x H]. cases_lookup H; eexists; reflexivity.
  - intros a [x H]. simpl in *. unfold ktables in H. cases_lookup H; lia.
  - simpl. lia.
  - intros p m H. simpl in H. cases_lookup H; reflexivity.
  - intros a p path i e t Ha Hl Ht He _. apply ktables_lookup in Ht as [->|(x & -> & Hin)]; [by rewrite lookup_empty in He|].
    apply lookup_singleton_Some in He as [<- <-]. simpl in Hin.
    destruct Hin as [[= <- <-]|[[= <- <-]|[[= <- <-]|[[= <- <-]|[[= <- <-]|[]]]]]]; vm_compute in Ha; injection Ha as <- <-;
      try reflexivity. simpl in Hl. lia.
Qed.

Lemma walk_chain tb a x i p : tb !! a = Some {[0 := x]} -> x <> 0 ->
  walk tb a (i :: p) = if i =? 0 then walk tb x p else None.
Proof.
  intros Ht Hx. cbn [walk]. rewrite Ht. destruct (Z.eqb_spec i 0) as [->|Hi].
  - rewrite lookup_singleton_eq. simpl. by destruct (Z.eqb_spec x 0).
  - by rewrite lookup_singleton_ne.
Qed.

Lemma kdemo_walk a b c d : walk ktables 12288 [a; b; c; d] =
  if (a =? 0) && ((b =? 0) && ((c =? 0) && (d =? 0))) then Some 28672 else None.
Proof.
  rewrite (walk_chain _ _ 16384), (walk_chain _ _ 20480), (walk_chain _ _ 24576), (walk_chain _ _ 28672); try done.
  by destruct (a =? 0), (b =? 0), (c =? 0), (d =? 0).
Qed.

Lemma kdemo_view p g : view_of kdemo p g = if decide ((p, g) = (3, 0)) then Resident 0 else Absent.
Proof.
  unfold view_of, pte_of. destruct (decide (p = 3)) as [->|Hp].
  - unfold pte_slot. change (mms kdemo !! 3) with (Some kmm). simpl mbind. rewrite dirs_of_eq.
    change (walk _ _ _) with (walk ktables 12288 [g / 2 ^ 36; (g / 2 ^ 27) mod 512; (g / 2 ^ 18) mod 512; (g / 2 ^ 9) mod 512]).
    rewrite kdemo_walk.
    destruct (decide ((3, g) = (3, 0))) as [[= ->]|Hg]; [reflexivity|].
    destruct (_ && _) eqn:Hz; [|reflexivity]. cbn [from_option mbind option_bind]. unfold cell. cbn [fst snd].
    change (tables (heap kdemo) !! 28672) with (Some ({[0 := pte_fpn_val 0 0]} : gmap Z Z)).
    cbn [mbind option_bind]. rewrite lookup_singleton_ne; [reflexivity|].
    rewrite pt_index_eq. intros H0. apply Hg. f_equal. lia.
  - rewrite decide_False by congruence. replace (pte_slot kdemo p g) with (@None (Z * Z)); [done|].
    symmetry. unfold pte_slot. destruct (mms kdemo !! p) as [m|] eqn:Hm; [|done]. simpl in Hm.
    assert (Hr : tables (heap kdemo) !! pgd m = Some ∅) by (cases_lookup Hm; done).
    cbn [mbind option_bind]. rewrite dirs_of_eq. cbn [walk]. by rewrite Hr, lookup_empty.
Qed.

Lemma kdemo_inv : mem_inv kdemo kdev demo_dev.
Proof.
  split.
  - split; try done; apply kdemo_pt_wf.
  - split.
    + intros p g f H. rewrite kdemo_view in H. case_decide; simplify_eq. split; [by left|].
      unfold fits, PAGING64_PAGESZ; simpl; lia.
    + intros p g w H. rewrite kdemo_view in H. by case_decide.
    + intros p g q h f H1 H2. rewrite kdemo_view in H1, H2. repeat case_decide; simplify_eq; congruence.
    + intros p g q h w H1 H2. rewrite kdemo_view in H1. by case_decide.
    + intros p l g Hf. unfold fifo_of in Hf. apply fmap_Some in Hf as (m & Hm & ->). simpl in Hm.
      cases_lookup Hm; by intros ?%elem_of_nil.
    + intros p l Hf. unfold fifo_of in Hf. apply fmap_Some in Hf as (m & Hm & ->). simpl in Hm.
      cases_lookup Hm; constructor.
    + split; [apply (bool_decide_unpack _); done|repeat constructor; lia].
    + apply demo_frames_wf.
Qed.

Lemma kdemo_kcaller : caller_ok (kcaller proc1 (os kdemo)) kdemo kmm.
Proof. by split. Qed.
Lemma kdemo_registered : registered proc1 kdemo.
Proof. split; [unfold PID_MAX; simpl; lia|]. by exists 20. Qed.
Lemma kdemo_in_region off : 0 <= off < 64 -> in_region kmm 0 off (mk_rg (Some (-1)) 0 64).
Proof. intros H. split; [unfold PAGING_MAX_SYMTBL_SZ; lia|]. split; [done|]. simpl. lia. Qed.

Lemma kdemo_pool : pool_ok proc1 kdemo 2 (mk_pool 80 16 8192000).
Proof.
  split; try done; try (unfold PAGING_MAX_KCACHE_POOLS; simpl; lia).
  exists kmm, kpools. by split_and!.
Qed.

Lemma kdemo_copy_ready : copy_ready proc1 0 0 5 10 (mk_rg (Some (-1)) 0 64) (mk_rg None 0 100) kdemo kdev demo_dev.
Proof.
  split; simpl rg_start; simpl rg_end; try lia; try (unfold PAGING_MAX_SYMTBL_SZ; lia).
  - apply kdemo_inv.
  - repeat constructor; unfold PAGING64_PAGESZ; simpl; lia.
  - repeat constructor; unfold PAGING64_PAGESZ; simpl; lia.
  - apply kdemo_registered.
  - done.
  - exists mm1. split; [by split|done].
  - exists kmm. split; [apply kdemo_kcaller|done].
Qed.

Lemma cache_slots_consecutive_witness :
  wp (cache_allocs proc1 2 [3; 4; 3; 5; 6; 7]) (fun l _ =>
     l = [Some 8192000; Some 8192016; Some 8192032; Some 8192048; Some 8192064; None]) kdemo.
Proof.
  eapply wp_mono; [apply (cache_slots_consecutive proc1 2 (mk_pool 80 16 8192000) [3; 4; 3; 5; 6; 7] kdemo)|].
  - apply kdemo_pool.
  - repeat constructor; unfold PAGING_MAX_SYMTBL_SZ; lia.
  - intros l s' [-> _]. reflexivity.
Defined.

Lemma cache_alloc_reports_failure_witness :
  wp (libkmem_cache_alloc 20 2 3) (fun res s' => res = -1 /\ pool_ok proc1 s' 2 (mk_pool 64 16 8192016)) kdemo.
Proof.
  apply (proj2 (cache_alloc_reports_failure 20 2 3 kdemo) proc1 (mk_pool 80 16 8192000)).
  - done.
  - reflexivity.
  - apply kdemo_pool.
  - unfold PAGING_MAX_SYMTBL_SZ; lia.
  - simpl; lia.
Defined.

(** One frame is free: a page is mapped at 1000 * 5, a request for two pages
    fails and has used the frame up. *)
Lemma kmalloc_maps_or_exhausts_witness :
  wp (__kmalloc proc1 (-1) 5 100) (fun r s' => r = (0, Some 20480000) /\ pte_of s' 3 5000 = pte_fpn_val 0 1) kdemo /\
  wp (__kmalloc proc1 (-1) 5 5000) (fun r s' => r = (u64 (-1), None) /\
        exists d, devs s' !! 100 = Some d /\ free_fp_list d = []) kdemo.
Proof.
  assert (Hp : pte_of kdemo 3 5000 = 0) by (vm_compute; reflexivity).
  split.
  - eapply wp_mono; [apply (kmalloc_maps_or_exhausts proc1 kmm 5 100 kdev kdemo); [apply kdemo_pt_wf|apply kdemo_kcaller|done|done|done|lia|lia]|].
    intros r s' [Hk ->]. split; [reflexivity|]. rewrite (km_ptes _ _ _ _ _ _ Hk).
    unfold mapped_ptes. rewrite decide_True by reflexivity. simpl. by rewrite Hp.
  - eapply wp_mono; [apply (kmalloc_maps_or_exhausts proc1 kmm 5 5000 kdev kdemo); [apply kdemo_pt_wf|apply kdemo_kcaller|done|done|done|lia|lia]|].
    intros r s' [Hk ->]. split; [reflexivity|]. rewrite (km_devs _ _ _ _ _ _ Hk). eexists. split; [reflexivity|reflexivity].
Defined.

(** Page 0 of the kernel is in RAM, page 1 is not. *)
Lemma kernel_write_read_back_witness :
  wp (let* w := __write_kernel_mem (Some proc1) (-1) 0 9 77 in
      let* r := __read_kernel_mem (Some proc1) (-1) 0 9 in ret (w, r))
     (fun r s' => r = (0, (0, Some 77)) /\ exists rd', ubyte s' rd' demo_dev 3 7 = Some 65) kdemo /\
  wp (let* w := __write_kernel_mem (Some proc1) (-1) 1 6 77 in
      let* r := __read_kernel_mem (Some proc1) (-1) 1 6 in ret (w, r))
     (fun r s' => r = (-1, (-1, None)) /\ view_of s' 3 1 = Absent) kdemo.
Proof.
  split.
  - eapply wp_mono; [apply (kernel_write_read_back proc1 kmm kdemo kdev demo_dev (-1) 0 9 (mk_rg (Some (-1)) 0 64) 77)|].
    + apply kdemo_inv.
    + apply kdemo_kcaller.
    + apply kdemo_in_region. lia.
    + intros r s'. rewrite kdemo_view. change ((rg_start (mk_rg (Some (-1)) 0 64) + 9) / PAGING64_PAGESZ) with 0.
      rewrite decide_True by reflexivity. intros (-> & rd' & _ & Hk). split; [reflexivity|]. exists rd'.
      apply Hk; [lia|intros [=]|]. unfold ubyte. change (7 / PAGING64_PAGESZ) with 0. by rewrite kdemo_view.
  - eapply wp_mono; [apply (kernel_write_read_back proc1 kmm kdemo kdev demo_dev (-1) 1 6 rg_two_pages 77)|].
    + apply kdemo_inv.
    + apply kdemo_kcaller.
    + split; [unfold PAGING_MAX_SYMTBL_SZ; lia|]. split; [done|]. simpl. lia.
    + intros r s'. rewrite kdemo_view. change ((rg_start rg_two_pages + 6) / PAGING64_PAGESZ) with 1.
      rewrite decide_False by (by intros [=]). intros (-> & _ & _ & Hv). split; [reflexivity|].
      by rewrite Hv, kdemo_view.
Defined.

Lemma kernel_copies_to_user_witness :
  wp (libkmem_copy_from_user 20 0 0 5 10) (fun r s' => exists rd' sd', mem_inv s' rd' sd' /\
     (r = 0 /\ ubyte s' rd' sd' 1 7 = Some 65 \/ r = -1 /\ free_fp_list rd' = [])) kdemo.
Proof.
  eapply wp_mono.
  { apply (kernel_copies_to_user libkmem_copy_from_user 20 proc1 0 0 5 10 (mk_rg (Some (-1)) 0 64) (mk_rg None 0 100)
             kdemo kdev demo_dev); [by right|done|reflexivity|lia|lia|apply kdemo_copy_ready]. }
  intros r s' (rd' & sd' & n & Hi & Hn & Hres & Hc & _). exists rd', sd'. split; [exact Hi|].
  destruct Hres as [[-> ->]|(-> & Hlt & [Hno|Hfull])]; [left| |right; by split].
  - split; [reflexivity|].
    destruct (Hc 7) as (fr & b & _ & Hb1 & Hb2); [lia|]. simpl rg_start in Hb1, Hb2. change (0 + 7) with 7 in *.
    change (p_mm proc1) with 1 in Hb2. rewrite Hb2, <- Hb1.
    unfold ubyte. change (7 / PAGING64_PAGESZ) with 0. change (k_mm (os kdemo)) with 3. by rewrite kdemo_view.
  - destruct (Hno 0). rewrite kdemo_view. simpl rg_start. replace ((0 + (5 + n)) / PAGING64_PAGESZ) with 0; [done|].
    unfold PAGING64_PAGESZ. lia.
Defined.
