(* ===== verification/DemoBounds.v ===== *)
(** * The bounds on concrete machines

    The machine of [Demo] with a region past 2 GiB, and a device of 64 MiB. *)

From S2P Require Import Prelude Pte MemPhy Kernel PageTable Mm64 MmVm Syscall LibMem VMem UserMem Bounds Alloc Kmem Demo.

Definition rg_far : vm_rg_struct := mk_rg None 0 (2 ^ 31 + 4096).
Definition far : sys := demo_with demo_dev rg_far.
Definition far_mm : mm_struct := demo_mm 8192 vma_fresh rg_far.

Lemma far_ready : ready proc2 demo_dev demo_dev far far_mm.
Proof.
  assert (Hi : mem_inv far demo_dev demo_dev) by (apply demo_with_inv; [by split|done|apply demo_frames_wf]).
  split; [apply Hi|by split|]. split; [unfold PID_MAX; simpl; lia|by exists 21].
Qed.

(** Both pages are brought to RAM first. *)
Lemma write_past_2GiB_witness :
  wp (pte_set_fpn (Some proc2) (high_page (2 ^ 31 + 8)) 0 ;;; pte_set_fpn (Some proc2) (2 ^ 19) 1 ;;;
      let* w := __write (Some proc2) 0 0 (2 ^ 31 + 8) 77 in
      let* r := __read_user_mem (Some proc2) 0 0 (2 ^ 31 + 8) in ret (w, r))
     (fun r s' => r = (0, (0, Some 0)) /\ exists rd', devs s' !! 100 = Some rd' /\ fbyte rd' 0 8 = 77) far.
Proof.
  pose proof far_ready as [Hm Hc Hr]. assert (Hg : valid_pgn (high_page (2 ^ 31 + 8))) by (by apply high_page_pd).
  wp_step. eapply (set_fpn_view proc2 far_mm); [apply Hm|done|done|done|done|]. intros _ s1 m1 v1 Hwf1 Hc1 Hh1 Hu1 Hv1.
  wp_step. eapply (set_fpn_view proc2 m1); [done|done|unfold valid_pgn; lia|done|lia|]. intros _ s2 m2 v2 Hwf2 Hc2 Hh2 Hu2 Hv2.
  pose proof (env_same_pte _ _ _ _ _ Hu1) as He1. pose proof (env_same_pte _ _ _ _ _ Hu2) as He2.
  assert (He : env_same far s2) by (by etransitivity).
  destruct (env_same_caller _ _ _ _ He Hc) as (m2' & Hc2' & Hm2).
  eapply wp_mono; [apply (write_past_2GiB proc2 demo_dev demo_dev m2' s2 0 0 (2 ^ 31 + 8) rg_far 77 0 1)|].
  - split; [|exact Hc2'|by eapply registered_same].
    eapply machine_pte; [exact Hwf2|exact Hu2|]. eapply machine_pte; [exact Hwf1|exact Hu1|exact Hm].
  - unfold PAGING_MAX_SYMTBL_SZ. lia.
  - by rewrite (forget_vm_symrgtbl _ _ Hm2).
  - done.
  - lia.
  - simpl. lia.
  - simpl. lia.
  - lia.
  - rewrite Hv2, decide_False by (by intros [=]). by rewrite Hv1.
  - by rewrite Hv2.
  - done.
  - by apply demo_fits.
  - by apply demo_fits.
  - intros r s3 (-> & rd' & Hd & Hb). split; [done|]. exists rd'. split; [|done]. rewrite <- Hd. by rewrite (es_os _ _ He).
Defined.

Definition big_dev : memphy_struct := mk_memphy ∅ (2 ^ 26) (2 ^ 26) 1 0 [] [].

Lemma frame_field_bound_witness :
  wp (MEMPHY_format 4096) (fun _ b => exists f1 f2, f1 ∈ free_fp_list (bdev b) /\ f2 ∈ free_fp_list (bdev b) /\ f1 <> f2 /\
    wp (map_two proc1 5 f1 6 f2) (fun r _ => r.1 = r.2) demo) (mk_boot big_dev []).
Proof.
  eapply wp_mono; [apply (frame_field_bound proc1 mm1 demo 5 6 4096 big_dev)|].
  - apply demo_pt_wf.
  - apply demo_caller1.
  - unfold valid_pgn; lia.
  - unfold valid_pgn; lia.
  - lia.
  - done.
  - lia.
  - simpl. lia.
  - intros r b H. exact H.
Defined.
