(* ===== verification/DemoParallel.v ===== *)
(** * Two processes that access their memory at a time

    On the machine of [Demo], with devices of four frames and a region for
    each process. *)

From S2P Require Import Prelude Pte MemPhy Kernel PageTable Mm64 MmVm Syscall LibMem VMem UserMem Alloc Kmem Steps Faults Parallel Demo.

Definition duo_dev : memphy_struct := mk_memphy ∅ 16384 16384 1 0 [0; 1; 2; 3] [].
Definition rg_two : vm_rg_struct := mk_rg None 0 50.
Definition duo : sys := demo_with duo_dev rg_two.

(** Process 1 writes a byte that the kernel then reads, while process 2 reads
    and the kernel writes to it. *)
Definition duo_jobs : list job :=
  [mk_job proc1 [A_write 0 42 (-7); A_fetch 0 42]; mk_job proc2 [A_read 0 8; A_store 0 8 5]].
Definition duo_turns : list nat := concat (replicate 22 [0%nat; 1%nat]) ++ [0%nat].

Lemma duo_fit : all_fit duo_dev.
Proof. repeat constructor; unfold PAGING64_PAGESZ; simpl; lia. Qed.

Lemma duo_inv : mem_inv duo duo_dev duo_dev.
Proof.
  apply demo_with_inv; [by split|done|]. split; [apply (bool_decide_unpack _); done|repeat constructor; lia].
Qed.

Lemma duo_access m rg a off :
  access_at a = (0, off) -> arr_get (symrgtbl m) 0 = Some rg -> rg_start rg = 0 -> 0 <= off < rg_end rg -> rg_end rg <= 100 ->
  match a with A_write _ _ v | A_store _ _ v => - 2 ^ 7 <= v < 2 ^ 7 | _ => True end -> access_ok m a.
Proof.
  intros Ha Hrg Hs Ho He Hv. split; [|done]. exists rg. rewrite Ha. split; [unfold PAGING_MAX_SYMTBL_SZ; simpl; lia|].
  split; [done|]. simpl. lia.
Qed.

Lemma duo_ok : Forall (job_ok duo) duo_jobs.
Proof.
  apply Forall_cons; split; [|apply Forall_singleton].
  - exists mm1. split; [by split|]. split; [split; [unfold PID_MAX; simpl; lia|by exists 20]|].
    apply Forall_cons; split; [|apply Forall_singleton]; by eapply (duo_access _ (mk_rg None 0 100) _ 42).
  - exists (demo_mm 8192 vma_fresh rg_two). split; [by split|]. split; [split; [unfold PID_MAX; simpl; lia|by exists 21]|].
    apply Forall_cons; split; [|apply Forall_singleton]; by eapply (duo_access _ rg_two _ 8).
Qed.

Lemma parallel_accesses_witness :
  exists s' rd' sd', pool_exec duo_turns (job_prog <$> duo_jobs, duo) =
      Some (Ok ([Done [(0, None); (0, Some (-7))]; Done [(0, None); (0, None)]], s')) /\
    mem_inv s' rd' sd' /\ ubyte s' rd' sd' 1 42 = Some (-7).
Proof.
  destruct (pool_exec duo_turns (job_prog <$> duo_jobs, duo)) as [o|] eqn:Hex; [|vm_compute in Hex; discriminate].
  destruct (parallel_accesses duo duo_dev duo_dev duo_jobs duo_turns o) as (ps & s' & -> & _ & _ & Hend).
  - apply duo_inv.
  - apply duo_fit.
  - apply duo_fit.
  - apply duo_ok.
  - apply (bool_decide_unpack _). reflexivity.
  - left. vm_compute. lia.
  - exact Hex.
  - assert (Hps : ps = Done <$> [[(0, None); (0, Some (-7))]; [(0, None); (0, None)]]) by (vm_compute in Hex; injection Hex as <- _; reflexivity).
    destruct (Hend _ Hps) as (rd' & sd' & Hi & _ & _ & _ & Hres & _).
    exists s', rd', sd'. split; [by rewrite Hps|]. split; [exact Hi|].
    destruct (Hres 0%nat _ eq_refl) as (r & mem' & [= <-] & (m & [= <-] & Hal) & Hb). apply (Hb 42).
    do 2 (inversion Hal; subst; clear Hal; rename select (alone _ _ _ _ _ _) into Hal). inversion Hal; subst. reflexivity.
Defined.
