(* ===== verification/DemoOs.v ===== *)
(** * Concrete runs of the machine

    The theorems about programs, the loader and the CPUs, applied to the
    machine of [Demo] with two user programs, and to runs from [main]. *)

From stdpp Require Import vector.
From S2P Require Import Prelude Queue Sched Pte MemPhy Kernel PageTable Mm64 MmVm Syscall LibMem VMem UserMem Alloc Kmem KmemVm Kept Cpu Program Loader Boot Os Launch Safe Demo.

Lemma demo_machine : machine_at 100 101 demo demo_dev demo_dev.
Proof. apply machine_at_mem_inv; [done|done|apply demo_inv]. Qed.

Lemma demo_all_fit : all_fit demo_dev.
Proof. repeat constructor; apply demo_fits; lia. Qed.

Lemma init_mm_well_formed_witness :
  wp (init_mm 3 (Some proc1)) (fun r s' => r = 0 /\ exists m v, mms s' !! 3 = Some m /\ reg_inv m v 0) demo /\
  wp (init_mm 3 (Some proc1)) (fun r s' => r = -1 /\ mms s' = mms demo) (set_host [false; true] demo).
Proof.
  destruct (init_mm_well_formed 3 proc1 100 101 demo demo_dev demo_dev demo_machine) as [H1 H2]; [done|done|done|].
  split.
  - eapply wp_mono; [exact H1|]. intros r s' (-> & _ & (m & v & Hm & Hr & _) & _). split; [done|]. by exists m, v.
  - eapply wp_mono; [apply (H2 1%nat []); lia|]. intros r s' (-> & -> & _). done.
Defined.

(** ** Two user programs *)

Definition prog1 : code_seg_t := mk_code [mk_inst WRITE 7 0 42 0; mk_inst ALLOC 200 1 0 0; mk_inst READ 0 42 2 0] 3.
Definition prog2 : code_seg_t := mk_code [mk_inst ALLOC 5000 0 0 0; mk_inst KMALLOC 300 1 0 0; mk_inst SYSCALL 5 0 0 0; mk_inst FREE 0 0 0 0] 4.
Definition with_code (cd : code_seg_t) (c : pcb_t) : pcb_t :=
  mk_pcb (pid c) (priority c) cd (regs c) (pc c) (prio c) (p_krnl c) (bp c) (p_mm c).
Definition runner1 : pcb_t := with_code prog1 proc1.
Definition runner2 : pcb_t := with_code prog2 proc2.
Definition runner3 : pcb_t := mk_pcb 3 0 prog2 (replicate 10 0) 0 0 1 0 0.

(** The demo machine with a descriptor for the kernel. *)
Definition run_os : krnl_t := mk_krnl (proc_table demo_os) 3 100 101.
Definition demo_run : sys := set_procs {[20 := runner1; 21 := runner2]} (set_os run_os (with_space 3 demo)).

Lemma run_inv : mem_inv demo_run demo_dev demo_dev.
Proof.
  apply mem_inv_procs, (machine_at_mem_inv 100 101); [reflexivity|reflexivity|].
  apply machine_os, with_space_machine; [apply demo_machine|reflexivity].
Qed.

Lemma run_kernel : kernel_ok demo_run.
Proof. intros _. exists (fresh_mm 12288). split; [reflexivity|]. discriminate. Qed.

(** A predicate of each instruction of a concrete program. *)
Ltac solve_insts P :=
  repeat (apply Forall_cons_2; [unfold P, PAGING_MAX_SYMTBL_SZ; simpl; first [done | lia | vm_compute; discriminate]|]);
  apply Forall_nil_2.

Lemma runner1_ready : Program.ready 20 demo_run.
Proof.
  exists runner1, mm1, vma_used, 1. split.
  - split; try done. apply demo_reg_inv1.
  - split; try done. solve_insts user_inst.
Qed.

Lemma runner2_ready : Program.ready 21 demo_run.
Proof.
  exists runner2, mm2, vma_fresh, 0. split.
  - split; try done. apply (fresh_reg_inv 8192).
  - split; try done. solve_insts user_inst.
Qed.

Lemma run_world : world_ok [20; 21] demo_run.
Proof.
  split.
  - exists demo_dev, demo_dev. split_and!; [apply run_inv|apply demo_all_fit..].
  - apply run_kernel.
  - intros p [->|[->|[]%elem_of_nil]%elem_of_cons]%elem_of_cons; [apply runner1_ready|apply runner2_ready].
  - intros p q c d [->|[->|[]%elem_of_nil]%elem_of_cons]%elem_of_cons [->|[->|[]%elem_of_nil]%elem_of_cons]%elem_of_cons Hne
      Hc Hd; try done; by injection Hc as <-; injection Hd as <-.
Qed.

(** The turns 1 2 1 2 1 2 2 1: both programs end. *)
Lemma every_schedule_runs_witness :
  wp (run_all [20; 21; 20; 21; 20; 21; 21; 20]) (fun rs s' => rs !! 7%nat = Some 1 /\
     (exists c, procs s' !! 20 = Some c /\ pc c = 3) /\ exists c, procs s' !! 21 = Some c /\ pc c = 4) demo_run.
Proof.
  eapply wp_mono; [apply (every_schedule_runs [20; 21] [20; 21; 20; 21; 20; 21; 21; 20] demo_run run_world)|].
  - repeat constructor; apply (bool_decide_unpack _); reflexivity.
  - intros rs s' (_ & [Hl Hrs] & Hall). split.
    { destruct (lookup_lt_is_Some_2 rs 7) as [r Hr]; [by rewrite Hl; apply (bool_decide_unpack _)|].
      rewrite Hr. f_equal. apply (Hrs 7%nat 20 runner1 r); [reflexivity|reflexivity|exact Hr|].
      apply (bool_decide_unpack _). reflexivity. }
    split.
    + destruct (Hall 20 runner1) as [(c & Hc & _ & Hpc) _]; [apply (bool_decide_unpack _); reflexivity|reflexivity|].
      exists c. split; [exact Hc|]. rewrite Hpc. reflexivity.
    + destruct (Hall 21 runner2) as [(c & Hc & _ & Hpc) _]; [apply (bool_decide_unpack _); reflexivity|reflexivity|].
      exists c. split; [exact Hc|]. rewrite Hpc. reflexivity.
Defined.

(** ** Runs from [main] *)

Definition devices : gmap Z memphy_struct := {[100 := demo_dev; 101 := demo_dev]}.
Definition one_process : list proc_conf := [mk_conf (Some (String.append "5 1" (String newline "calc"))) 0 139].
Definition outside (p : Z) : ext :=
  mk_ext p runner3 (fun n => vreplicate n (mk_inst FREE 7 7 7 7)) (p + 20) (p + 21) 0.

(** What holds of the state a run ends in, by execution. *)
Definition ends_in (P : mach -> Prop) (o : option mach) : Prop := match o with Some m => P m | None => False end.
Lemma ends_in_elim P o m : o = Some m -> ends_in P o -> P m.
Proof. by intros ->. Qed.

(** One CPU; the loader loads a process and the CPU takes it. *)
Definition take_one : list turn := [Loader (outside 20); Loader (outside 30); Loader (outside 40); Loader (outside 90); Cpu 0].

Lemma each_process_in_one_place_witness :
  exists m, exec 2 one_process 100 101 take_one (boot 1 devices []) = Some m /\
    (exists c, m_cpus m !! 0%nat = Some c /\ cpu_holds c = [20]) /\
    is_Some (procs (o_sys (m_os m)) !! 20) /\ 20 ∉ queued (m_os m).
Proof.
  destruct (exec 2 one_process 100 101 take_one (boot 1 devices [])) as [m|] eqn:Hm; [|vm_compute in Hm; discriminate].
  exists m. split; [reflexivity|].
  assert (Hc : fmap cpu_holds (m_cpus m !! 0%nat) = Some [20]).
  { apply (ends_in_elim (fun m => fmap cpu_holds (m_cpus m !! 0%nat) = Some [20]) _ _ Hm). vm_compute. reflexivity. }
  destruct (m_cpus m !! 0%nat) as [c|] eqn:H0; [|discriminate]. injection Hc as Hc.
  destruct (each_process_in_one_place 2 one_process 100 101 1 devices [] m (exec_star _ _ _ _ _ _ _ Hm)) as [H _].
  destruct (H 0%nat c 20 H0) as (Hl & Hq & _); [rewrite Hc; by apply list_elem_of_here|].
  split; [exists c; split; [reflexivity|exact Hc]|]. split; [exact Hl|exact Hq].
Defined.

(** With no process, the loader ends at once; a CPU at the head of its loop
    never stops.  With one process and one CPU, the CPU that has freed it is
    at the second test when nothing is left, and stops. *)
Definition nothing_left (c : cpu) (m : mach) : Prop := no_work m /\ m_cpus m !! 0%nat = Some c.
Definition run_out : list turn :=
  take_one ++ [Cpu 0; Cpu 0; Cpu 0; Loader (outside 50); Loader (outside 60); Cpu 0].

Lemma idle_cpu_never_stops_witness :
  (exists m, exec 2 [] 100 101 [Loader (outside 20); Cpu 0; Cpu 0] (boot 1 devices []) = Some m /\
     exists m', step 2 [] 100 101 m m') /\
  exists m, exec 2 one_process 100 101 run_out (boot 1 devices []) = Some m /\
    wp (cpu_step 2 (mk_cpu C_check NULL 0)) (fun d _ => c_at d = C_stopped) (m_os m).
Proof.
  split.
  - destruct (exec 2 [] 100 101 [Loader (outside 20); Cpu 0; Cpu 0] (boot 1 devices [])) as [m|] eqn:Hm;
      [|vm_compute in Hm; discriminate].
    exists m. split; [reflexivity|]. pose proof (exec_star _ _ _ _ _ _ _ Hm) as Hs.
    assert (Ha : nothing_left (mk_cpu C_top NULL 0) m).
    { apply (ends_in_elim (nothing_left (mk_cpu C_top NULL 0)) _ _ Hm).
      vm_compute. split_and!; [reflexivity|reflexivity|reflexivity| |reflexivity]. repeat constructor; discriminate. }
    destruct Ha as [Ha Hc].
    destruct (idle_cpu_never_stops 2 [] 100 101 1 devices [] m m 0 (mk_cpu C_top NULL 0) Hs Ha Hc) as (_ & _ & _ & H);
      [apply star_refl|exact H].
  - destruct (exec 2 one_process 100 101 run_out (boot 1 devices [])) as [m|] eqn:Hm; [|vm_compute in Hm; discriminate].
    exists m. split; [reflexivity|]. pose proof (exec_star _ _ _ _ _ _ _ Hm) as Hs.
    assert (Ha : nothing_left (mk_cpu C_check NULL 0) m).
    { apply (ends_in_elim (nothing_left (mk_cpu C_check NULL 0)) _ _ Hm).
      vm_compute. split_and!; [reflexivity|reflexivity|reflexivity| |reflexivity]. repeat constructor; discriminate. }
    destruct Ha as [Ha Hc].
    destruct (idle_cpu_never_stops 2 one_process 100 101 1 devices [] m m 0 (mk_cpu C_check NULL 0) Hs Ha Hc)
      as (c' & Hc' & _ & _ & H); [apply star_refl|].
    rewrite Hc in Hc'. injection Hc' as <-. by apply H.
Defined.

(** A process of level 139 has used its only slot. *)
Definition exhausted : sched := set_slot (<[139%nat := 0]> full_slots) sched_init.
Definition last_one : pcb_t := mk_pcb 1 0 prog2 (replicate 10 0) 1 139 1 0 0.

Lemma exhausted_wf : sched_wf exhausted.
Proof.
  apply sched_wf_slots; [apply sched_init_wf|reflexivity|]. intros i k. rewrite list_lookup_insert. case_decide as Hd.
  - intros [= <-]. destruct Hd as [<- _]. unfold MAX_PRIO. lia.
  - apply full_slots_bounds.
Qed.

Lemma cpu_stops_with_waiting_process_witness :
  wp (let* a := cpu_step 2 (mk_cpu C_top 20 0) in let* b := cpu_step 2 a in cpu_step 2 b)
     (fun d s' => c_at d = C_stopped /\ queued s' = [20])
     (mk_os (set_procs {[20 := last_one]} demo) exhausted 2 true).
Proof.
  eapply wp_mono; [apply (cpu_stops_with_waiting_process 2 20 last_one 139 (mk_os (set_procs {[20 := last_one]} demo) exhausted 2 true))|].
  - apply exhausted_wf.
  - vm_compute. reflexivity.
  - reflexivity.
  - done.
  - reflexivity.
  - done.
  - reflexivity.
  - unfold MAX_PRIO. lia.
  - reflexivity.
  - intros d s' (-> & Hq & _). done.
Defined.

(** ** Two CPUs and two configured programs *)

Definition two_processes : list proc_conf :=
  [mk_conf (Some (print_program 5 (text prog1))) 0 3; mk_conf (Some (print_program 7 (text prog2))) 1 139].

Lemma demo_devices : devices_ok 100 101 devices demo_dev demo_dev.
Proof.
  split; try done; split; try done; [apply demo_frames_wf..|apply demo_all_fit|apply demo_all_fit].
Qed.

Lemma demo_conf k l level :
  0 <= k < 2 ^ 32 -> Z.of_nat (length l) < 2 ^ 32 -> 0 <= level < MAX_PRIO ->
  Forall inst_ok l -> Forall loadable l -> Forall user_inst l -> total_cost l < 2 ^ 19 ->
  forall start, conf_ok (mk_conf (Some (print_program k l)) start level).
Proof. intros. split; [|done]. by exists k, l. Qed.

Lemma two_processes_ok : Forall conf_ok two_processes.
Proof.
  apply Forall_cons_2; [|apply Forall_cons_2; [|apply Forall_nil_2]]; (apply demo_conf; [done|done|done| | | |reflexivity]).
  - repeat constructor; unfold arg_ok; simpl; lia.
  - solve_insts loadable.
  - solve_insts user_inst.
  - repeat constructor; unfold arg_ok; simpl; lia.
  - solve_insts loadable.
  - solve_insts user_inst.
Qed.

(** Loads the first process, starts it on CPU 1 and runs its first
    instruction, which pages in. *)
Definition first_write : list turn :=
  [Loader (outside 20); Loader (outside 30); Loader (outside 40); Cpu 0; Loader (outside 90); Loader (outside 95);
   Cpu 1; Cpu 1; Cpu 0; Cpu 1].

Lemma every_run_is_defined_witness :
  exists m, exec 2 two_processes 100 101 first_write (boot 2 devices []) = Some m /\
    (exists c, m_cpus m !! 1%nat = Some c /\ c_at c = C_slot /\ exists c' s', cpu_step 2 c (m_os m) = Ok (c', s')) /\
    l_at (m_ld m) <> L_failed.
Proof.
  destruct (exec 2 two_processes 100 101 first_write (boot 2 devices [])) as [m|] eqn:Hm; [|vm_compute in Hm; discriminate].
  exists m. split; [reflexivity|].
  assert (Hc : fmap c_at (m_cpus m !! 1%nat) = Some C_slot).
  { apply (ends_in_elim (fun m => fmap c_at (m_cpus m !! 1%nat) = Some C_slot) _ _ Hm). vm_compute. reflexivity. }
  destruct (m_cpus m !! 1%nat) as [c|] eqn:H1; [|discriminate]. injection Hc as Hc.
  destruct (every_run_is_defined 2 two_processes 100 101 ltac:(lia) two_processes_ok ltac:(unfold PID_MAX; simpl; lia)
              2 devices demo_dev demo_dev m demo_devices (exec_star _ _ _ _ _ _ _ Hm)) as (Hcpu & Hld & _).
  split; [|exact Hld]. exists c. split; [reflexivity|]. split; [exact Hc|]. apply (Hcpu 1%nat c H1). by rewrite Hc.
Defined.
