(* ===== verification/DemoTimed.v ===== *)
(** * Concrete runs of the machine on its timer

    The theorems about the composition of the machine and the timer, applied
    to the two configured programs of [DemoOs] on two CPUs. *)

From stdpp Require Import vector.
From S2P Require Import Prelude Queue Sched Pte MemPhy Kernel PageTable Mm64 MmVm Syscall LibMem VMem UserMem Alloc Kmem KmemVm Kept Cpu Program Loader Boot Timer Os Launch Safe Timed TimedLive OnTime Lockstep Demo DemoOs.

Definition at_slot (now p : Z) : timed_act :=
  ByLoader (mk_ext p runner3 (fun n => vreplicate n (mk_inst FREE 7 7 7 7)) (p + 20) (p + 21) now).

(** Slot 0: the loader adds the first process and CPU 0 runs it; CPU 1 finds
    none.  Then the timer's round. *)
Definition slot_0 : list timed_act :=
  [at_slot 0 20; at_slot 0 30; at_slot 0 40; at_slot 0 90; at_slot 0 95; ByCpu 0; ByCpu 0; ByCpu 0; ByCpu 0; ByCpu 1; ByCpu 1]
  ++ replicate 9 ByTimer.

(** Slot 1: the loader sets the second process up while CPU 0 executes the
    second instruction of the first. *)
Definition slot_1 : list timed_act :=
  [at_slot 1 150; at_slot 1 150; at_slot 1 160; at_slot 1 170; ByCpu 0; ByCpu 0; ByCpu 0; ByCpu 0].

Definition timed_ends_in (P : timed -> Prop) (o : option timed) : Prop := match o with Some s => P s | None => False end.
Lemma timed_ends_in_elim P o s : o = Some s -> timed_ends_in P o -> P s.
Proof. by intros ->. Qed.

Definition run_two : option timed := timed_exec 2 two_processes 100 101 (slot_0 ++ slot_1) (timed_boot 2 devices []).

Example run_two_ends : timed_ends_in (fun s =>
  current_time (tm_timer s) = 1 /\ l_at (m_ld (tm_mach s)) = L_add /\ l_i (m_ld (tm_mach s)) = 1%nat /\
  fmap c_at (m_cpus (tm_mach s)) = [C_slot; C_slot] /\ fmap cpu_holds (m_cpus (tm_mach s)) = [[20]; []] /\
  fmap pc (procs (o_sys (m_os (tm_mach s))) !! 20) = Some 2 /\ length (dev_list (tm_timer s)) = 3%nat) run_two.
Proof. vm_compute. repeat split; reflexivity. Qed.

(** The run and what it ends in, without its states written out. *)
Lemma run_two_state : exists s,
  nsteps (timed_step 2 two_processes 100 101) (length (slot_0 ++ slot_1)) (timed_boot 2 devices []) s /\
  current_time (tm_timer s) = 1 /\ l_at (m_ld (tm_mach s)) = L_add /\ l_i (m_ld (tm_mach s)) = 1%nat /\
  (exists x, m_cpus (tm_mach s) !! 0%nat = Some x /\ c_at x = C_slot /\ cpu_holds x = [20]) /\
  (exists c, procs (o_sys (m_os (tm_mach s))) !! 20 = Some c /\ pc c = 2) /\ length (dev_list (tm_timer s)) = 3%nat.
Proof.
  destruct run_two as [s|] eqn:Hs; [|pose proof run_two_ends as H; rewrite Hs in H; destruct H].
  pose proof (timed_exec_steps _ _ _ _ _ _ _ Hs) as Hn. pose proof (timed_ends_in_elim _ _ _ Hs run_two_ends) as He.
  clear Hs. destruct He as (Ht & Hl & Hi & Hat & Hh & Hp & Hd). exists s.
  split; [exact Hn|]. split; [exact Ht|]. split; [exact Hl|]. split; [exact Hi|]. clear Hn. split_and!; [| |exact Hd].
  - apply (f_equal (fun l => l !! 0%nat)) in Hat, Hh. rewrite list_lookup_fmap in Hat. rewrite list_lookup_fmap in Hh.
    destruct (m_cpus (tm_mach s) !! 0%nat) as [x|]; [|discriminate]. exists x. injection Hat as Hat. injection Hh as Hh. auto.
  - destruct (procs _ !! 20) as [c|]; [|discriminate]. exists c. injection Hp as Hp. auto.
Qed.

(** In slot 1 the second process is being added, as its start time says, and
    the first, which arrived in slot 0, has executed two instructions. *)
Lemma schedule_is_kept_witness :
  exists s, current_time (tm_timer s) = 1 /\ l_at (m_ld (tm_mach s)) = L_add /\
    1 = arrival two_processes (l_i (m_ld (tm_mach s))) /\
    exists c, procs (o_sys (m_os (tm_mach s))) !! 20 = Some c /\ pc c = 2 /\ exists i, (i < 2)%nat /\ pc c <= 1 - arrival two_processes i + 1.
Proof.
  destruct run_two_state as (s & Hn & Ht & Hl & Hi & (x & Hx & Hat & Hh) & (c & Hc & Hpc) & _).
  destruct (schedule_is_kept 2 two_processes 100 101 ltac:(simpl; lia) _ 2 devices [] s Hn ltac:(simpl; lia)) as [Ha Hp].
  rewrite Ht in *. exists s. split; [exact Ht|]. split; [exact Hl|]. split; [apply Ha; right; exact Hl|].
  exists c. split; [exact Hc|]. split; [exact Hpc|]. destruct (Hp 20 c) as (i & Hlt & _ & _ & _ & Hb).
  - right. exists 0%nat, x. split; [exact Hx|]. rewrite Hh. apply list_elem_of_here.
  - exact Hc.
  - exists i. split; [exact Hlt|exact Hb].
Defined.

Lemma every_slot_ends_witness :
  exists s, current_time (tm_timer s) = 1 /\ (exists s', timed_step 2 two_processes 100 101 s s') /\
    Acc (flip (in_slot 2 two_processes 100 101)) s.
Proof.
  destruct run_two_state as (s & Hn & Ht & _ & _ & _ & _ & Hd). exists s. split; [exact Ht|].
  destruct (every_slot_ends 2 two_processes 100 101 ltac:(lia) two_processes_ok ltac:(unfold PID_MAX; simpl; lia)
              2 devices demo_dev demo_dev s demo_devices (nsteps_star _ _ _ _ _ _ _ Hn)) as [[(Hr & _)|Hst] Hacc].
  - rewrite Hr in Hd. discriminate.
  - split; [exact Hst|exact Hacc].
Defined.

(** The passes and calls of CPU [i] along an executed interleaving. *)
Fixpoint counted (i : nat) (l : list timed_act) (s : timed) (p r : Z) : option (timed * Z * Z) :=
  match l with
  | [] => Some (s, p, r)
  | a :: l => s1 ← timed_turn 2 two_processes 100 101 a s; counted i l s1 (p + passes i s s1) (r + calls i s s1)
  end.

Lemma counted_window i l : forall s s1 n p r s' p' r',
  counted i l s1 p r = Some (s', p', r') -> window 2 two_processes 100 101 i s n p r s1 ->
  window 2 two_processes 100 101 i s (n + length l) p' r' s'.
Proof.
  induction l as [|a l IH]; intros s s1 n p r s' p' r' H Hw; simpl in H.
  - injection H as <- <- <-. by rewrite Nat.add_0_r.
  - destruct (timed_turn _ _ _ _ a s1) as [s2|] eqn:Ha; [|discriminate]. simpl. rewrite Nat.add_succ_r.
    eapply (IH s s2 (S n)); [exact H|]. constructor; [exact Hw|].
    pose proof (timed_exec_steps 2 two_processes 100 101 [a] s1 s2) as Hs. simpl in Hs. rewrite Ha in Hs.
    specialize (Hs eq_refl). apply nsteps_once_inv in Hs. exact Hs.
Qed.

Definition counts_end (now p r : Z) (o : option (timed * Z * Z)) : Prop :=
  match o with Some (s, p', r') => p' = p /\ r' = r /\ current_time (tm_timer s) = now | None => False end.

(** CPU 0 has passed its loop in slots 0 and 1 and called [run] each time. *)
Lemma cpus_in_lockstep_witness :
  exists s, window 2 two_processes 100 101 0 (timed_boot 2 devices []) (length (slot_0 ++ slot_1)) 2 2 s /\
    2 <= current_time (tm_timer s) + 1.
Proof.
  destruct (counted 0 (slot_0 ++ slot_1) (timed_boot 2 devices []) 0 0) as [[[s p] r]|] eqn:Hc; [|vm_compute in Hc; discriminate].
  assert (He : counts_end 1 2 2 (Some (s, p, r))) by (rewrite <- Hc; vm_compute; repeat split; reflexivity).
  destruct He as (-> & -> & _). exists s.
  pose proof (counted_window _ _ _ _ _ _ _ _ _ _ Hc (window_refl _ _ _ _ _ _)) as Hw. split; [exact Hw|].
  destruct (cpus_in_lockstep 2 two_processes 100 101 0 0 _ 2 2 2 devices [] _ _ (nsteps_O _ _) ltac:(lia) Hw ltac:(simpl; lia)) as (_ & H & _).
  change (current_time (tm_timer (timed_boot 2 devices []))) with 0 in H. lia.
Defined.
